(* ===== verification/_CoqProject ===== *)
-Q . S2P
Prelude.v
Packet.v
Crypto.v
Session.v
Instant.v
Handshake.v
NoiseSpec.v
HandshakeSpec.v
HandshakeProps.v
HandshakeSafety.v
RateLimiter.v
Timers.v
Tunnel.v
TunnelSafety.v
Stats.v
TunnelProps.v
TimerProps.v
KeyBytes.v
IndexLfsr.v
IndexPeriod.v
AllowedIps.v
Text.v
Base64.v
Utf8.v
NetAddr.v
Lines.v
Peer.v
Privileges.v
Tun.v
TunProps.v
Device.v
DeviceProps.v
Epoll.v
EpollProps.v
Kqueue.v
KqueueProps.v
Handlers.v
Api.v
Ffi.v
FfiLog.v
FfiProps.v
EventLoop.v
DevLock.v
HandlersSafety.v
HandlersProps.v
ApiProps.v
Startup.v
StartupProps.v
Threads.v
SockDir.v
PskTool.v
