(* ===== verification/Prelude.v ===== *)
(** * BoringTun with a hybrid handshake: a verification development

    The program is a userspace WireGuard in Rust, [boringtun], whose handshake
    optionally ([feature = "pq"]) mixes an ML-KEM-768 encapsulation into
    Noise IKpsk2.  The development models the protocol, [src/boringtun/src/noise],
    the device that runs it, [src/boringtun/src/device], the bindings
    [src/boringtun/src/ffi] and [src/boringtun/src/jni.rs], and the two programs
    [src/boringtun-cli] and [src/pq-psk-tool]; definitions keep the names of the
    source.

    ** The program and its parts

    - A datagram is parsed into one of six messages ([noise/mod.rs],
      [parse_incoming_packet]); the rate limiter ([noise/rate_limiter.rs]) checks
      the two authentication codes of handshake messages and answers with
      cookies under load.
    - A tunnel, [Tunn] ([noise/mod.rs], [noise/timers.rs]), owns one handshake
      ([noise/handshake.rs]), a ring of eight sessions ([noise/session.rs]), a
      queue of packets that wait for a session, and timers; its entry
      points are [encapsulate], [decapsulate] and [update_timers].
    - A device ([device/mod.rs]) owns peers ([device/peer.rs]), each a tunnel with
      an endpoint and allowed addresses ([device/allowed_ips.rs]), and finds them
      by public key, by index and by address.  Its sockets, its interface
      ([device/tun_linux.rs], [device/tun_darwin.rs]), its timers and its
      configuration socket ([device/api.rs]) are events of a queue
      ([device/epoll.rs], [device/kqueue.rs]) on which several threads wait; they
      share the device behind a lock ([device/dev_lock.rs]).
    - [boringtun-cli] starts a device, as a daemon or not, and gives up root
      ([device/drop_privileges.rs]); [ffi] and [jni.rs] offer tunnels without a
      device to C and to Java; [pq-psk-tool] agrees on preshared keys by files.

    ** Files

    - [Prelude]: machine integers, bytes and slices, the environment of a run
      (clocks, random generator, answers of the system), the effect monad and its
      proof automation.
    - [Packet]: messages, parser, printer ([encode]), IP headers.
    - [Crypto]: the primitives of the crates [x25519-dalek], [blake2], [ring],
      [chacha20poly1305] and [ml-kem] as the class [Crypto], the laws the code
      relies on as the class [CryptoLaws], and [Toy], an instance of both that
      computes.
    - [Session]: the replay window ([Window]) and data packets ([Transport]).
    - [Instant]: durations, and [Instant] of [sleepyinstant/unix.rs].
    - [Handshake]: all of [handshake.rs]; [NoiseSpec]: the message pattern as
      an abstract symmetric state; [HandshakeSpec]: every method of [Handshake]
      computes what the pattern says; [HandshakeProps]: agreement, replay,
      downgrade, errors; [HandshakeSafety]: no method panics.
    - [RateLimiter]: the limiter, its budget, and cookies end to end.
    - [Timers], [Tunnel]: [Tunn] and its timers; [TunnelSafety]: the invariant
      of a tunnel, freedom from panics and the shape of results; [TunnelProps]:
      delivery and queue; [TimerProps]: expiry, retransmission, keepalives;
      [Stats]: the figures of [Tunn::stats] in IEEE single precision.
    - [KeyBytes] ([serialization.rs]), [IndexLfsr] and [IndexPeriod] (the
      register of peer indices), [AllowedIps], [Peer]; [Device], [DeviceProps]:
      the tables of peers and their agreement.
    - [Text], [Base64], [Utf8], [NetAddr], [Lines]: the parsers and printers of
      the standard library and of the crate [base64] that configuration text
      goes through.
    - [Epoll], [EpollProps], [Kqueue], [KqueueProps]: the two event queues.
    - [Handlers]: the closures of [device/mod.rs] on sockets, interface and
      timers; [EventLoop]: one turn of a thread; [HandlersSafety],
      [HandlersProps]: what they keep and what they promise.
    - [Api], [ApiProps]: the configuration protocol.
    - [DevLock]: the lock as steps of interleaved threads.
    - [Tun], [TunProps] (Modules [Linux] and [Darwin]): tunnel interfaces over a
      table of descriptors; [Privileges]: user and group identities.
    - [Startup], [StartupProps]: [Device::new], [DeviceHandle::new], the threads'
      own interfaces, the end of a handle, and [main]; [Threads]: the threads
      that share a started device, and their end; [SockDir]: the directory of the
      configuration socket, from its creation by root to its end.
    - [Ffi], [FfiLog], [FfiProps]: the bindings; [PskTool]: the tool of files.

    ** How code becomes definitions

    A method on [&mut self] is a function [M E S A] from the state and the
    [World] (how many readings each clock has given, how many draws the random
    generator, how many answers the system) to [Ok], [Fail] (an [Err]; the state
    keeps what was written before it) or [Panic].  Unsigned integers are in [Z]
    with the wrap-around of the release profile written out ([u32], [u64], ...);
    [usize] has 64 bits.  A buffer is its bytes; writing a field is [splice], and
    a method that returns a part of its buffer returns those bytes.
    Reference-counted objects that are shared (limiters, peers) and boxes that
    are held by raw pointers (events, tunnels of the C interface) are addresses
    in a heap, from which a freed one is gone.  Times are nanoseconds.
    [Features] is the build with or without [pq].

    Code outside the repository is a parameter with the behaviour its
    documentation promises: [CryptoLaws], [MonotoneClock], [IpNetworkTableLaws],
    the base64 decoder of [KeyBytes], the kernel's queues, sockets, descriptors
    and identities.  Every such class has an instance ([Crypto.Toy], the
    environment of [HandshakeProps.Example], [AllowedIps.MapTable], the [Example]
    modules) on which the theorems are evaluated.

    Components meet at interfaces: [sane] and [safe] for the handshake in the
    tunnel, [pinv] and [ok_perform] for the tunnel in the device and in the
    bindings, [consistent] for the device under its handlers, requests and start.

    ** What is proved

    - Delivery: two configured tunnels that exchange the datagrams their calls
      return end with the queued packet at the other interface
      ([end_to_end_delivery]); the queue drains in order.
    - Safety: whatever datagrams arrive and however calls interleave, no call of
      a tunnel panics and its invariant holds ([tunnel_never_panics]); what it
      hands out is a message of the protocol or a packet cut to its header's
      length ([results_typed]); sessions and connections expire in time; timers
      act by the protocol's policy.
    - Keys: both handshakes agree on crossed keys ([handshake_agreement],
      [pq_handshake_agreement]), also for a delayed response; a hybrid initiation
      is never completed classically; no initiation is answered twice; refused
      messages change nothing.
    - Replay: the bitmap implements the set of received counters, no counter is
      accepted twice, counters sent are distinct.
    - Limiter: admissions per period are bounded; a cookie gets its owner
      through; replies are shorter than requests.
    - Device: the index register has period 2^24 - 1, the three tables stay
      consistent under configuration, messages reach the peer they belong
      to, and routes follow the longest prefix.
    - Handlers: no sequence of events panics or breaks the tables, the tunnels or
      the queue ([handlers_never_panic]); only allowed sources reach the
      interface; only accepted messages move endpoints; flushing ends.
    - Requests: a request makes exactly the changes its lines call for
      ([request_refines_plan]), keeps the device consistent whatever its bytes,
      and what [get] prints can be given back.
    - Threads: handlers are live and one-shot ones exclusive on both event
      queues; a writer of the lock is alone, and the lock makes progress; when one
      thread ends all do, if the kernel and the scheduler are fair
      ([exit_reaches_every_thread]).
    - Start and end: a started device is consistent and its failures close what
      they opened, except where a theorem says what is left; root is given up
      for good; the parent of a daemon is told the truth; the user that a daemon
      has become can remove its socket ([socket_does_not_outlive]).
    - Bindings and tools: C calls that follow the rules never use freed memory;
      both ends of the PSK tool hold the same key.

    Some theorems state defects of the source, such as [reregistered_event_is_lost],
    [inherited_interface_frees_handler], [failed_mtu_leaks_socket],
    [descriptor_refused_on_macos] and [failed_drop_leaves_socket].

    ** Fuel and bounds

    Loops of the source that are not bounded by a list run with fuel, and
    [Panic] (or [None]) also stands for running out of it, so that freedom from
    panics includes termination.
    - [mark_did_receive]: the 1024 bits of the window, enough by
      [clear_gap_spec] and [mark_total].
    - [random_index]: a number of draws, enough as soon as one of them is not
      zero ([random_index_ok]); [lively] states that of the generator where a
      device is started.
    - [flush_loop]: [MAX_QUEUE_DEPTH] + 2 calls ([flush_terminates]).
    - The loops over a request ([set_loop], [api_set_peer]): one turn per byte,
      since every line has one at least; [lossy_loop] and [strip]: the length of
      their text.
    - Handlers read a socket at most [MAX_ITR] times, as in the source.
    Clocks are bounded by 2^63 seconds, as [MonotoneClock] states.

    ** What is not modelled

    Interleavings inside of a turn of the event loop, other than those of the lock
    and of the queues ([DevLock], [EpollProps], [KqueueProps]): in [Threads] a turn is
    one step; clap, daemonize and the formatting and files of the log; the layout of
    C structures; tests and benchmarks.  Timing, constant-time
    behaviour and zeroing of memory are outside of the model, and so is secrecy:
    the laws of the primitives are equations, not hardness assumptions. *)

From stdpp Require Export base list gmap numbers.
From Stdlib Require Export Strings.Byte.
From coqutil Require Export Byte Word.LittleEndianList.

#[global] Open Scope Z_scope.
#[export] Set Default Goal Selector "!".
#[export] Set Warnings "-clear-no-such-hyp".

(** ** Hint databases

    [len] computes lengths of byte strings, [slices] normalises reads and
    writes at fixed offsets. *)

Create HintDb rust discriminated.
Create Rewrite HintDb len.
Create Rewrite HintDb slices.

(** ** Machine integers

    Unsigned integers are elements of [Z]; every arithmetic operation whose
    result may leave the range carries its wrap-around explicitly, as the
    release profile of [Cargo.toml] (no overflow checks) computes it. *)

Definition u8 (z : Z) : Z := z mod 2 ^ 8.
Definition u16 (z : Z) : Z := z mod 2 ^ 16.
Definition u32 (z : Z) : Z := z mod 2 ^ 32.
Definition u64 (z : Z) : Z := z mod 2 ^ 64.

Definition is_u32 (z : Z) : Prop := 0 <= z < 2 ^ 32.
Definition is_u64 (z : Z) : Prop := 0 <= z < 2 ^ 64.

#[global] Instance is_u32_dec z : Decision (is_u32 z).
Proof. unfold is_u32; apply _. Defined.
#[global] Instance is_u64_dec z : Decision (is_u64 z).
Proof. unfold is_u64; apply _. Defined.

Lemma u32_range z : is_u32 (u32 z).
Proof. unfold is_u32, u32. by apply Z.mod_pos_bound. Qed.

Lemma u64_range z : is_u64 (u64 z).
Proof. unfold is_u64, u64. by apply Z.mod_pos_bound. Qed.

Lemma u64_small z : is_u64 z -> u64 z = z.
Proof. apply Z.mod_small. Qed.

Lemma u32_small z : is_u32 z -> u32 z = z.
Proof. apply Z.mod_small. Qed.

#[export] Hint Resolve u32_range u64_range : rust.

(** [lia] with division and remainder by constants. *)
Ltac dlia := zify; Z.to_euclidean_division_equations; lia.

(** The masks that keep all but the low byte of a 32-bit word, and that put a
    byte there. *)
Lemma land_high i : is_u32 i -> Z.land i 4294967040 = i / 256 * 256.
Proof.
  intros Hi. change 4294967040 with (Z.ldiff (Z.ones 32) (Z.ones 8)).
  replace (Z.land i (Z.ldiff (Z.ones 32) (Z.ones 8))) with (Z.ldiff (Z.land i (Z.ones 32)) (Z.ones 8)).
  - rewrite Z.land_ones, (u32_small _ Hi : i mod 2 ^ 32 = i), Z.ldiff_ones_r by lia.
    by rewrite Z.shiftr_div_pow2, Z.shiftl_mul_pow2 by lia.
  - apply Z.bits_inj'; intros n Hn. rewrite !Z.ldiff_spec, !Z.land_spec, Z.ldiff_spec. by rewrite andb_assoc.
Qed.
Lemma lor_low a b : 0 <= b < 256 -> Z.lor (a * 256) b = a * 256 + b.
Proof.
  intros Hb. symmetry. apply Z.add_nocarry_lor. apply Z.bits_inj'; intros n Hn.
  change 256 with (2 ^ 8) in *. rewrite Z.bits_0, Z.land_spec.
  destruct (Z.lt_ge_cases n 8).
  - by rewrite Z.mul_pow2_bits_low by lia.
  - rewrite <- (Z.mod_small b (2 ^ 8)), Z.mod_pow2_bits_high by lia. apply andb_false_r.
Qed.

(** ** Bytes and slices *)

Abbreviation bytes := (list byte).

#[global] Instance byte_eq_decision : EqDecision Init.Byte.byte := byte_eq_dec.
#[global] Instance byte_countable : Countable Init.Byte.byte.
Proof.
  apply (inj_countable' byte.unsigned byte.of_Z). intros b. apply byte.of_Z_unsigned.
Defined.

(** [bytes_of] turns a literal array of numbers into bytes. *)
Definition bytes_of (l : list Z) : bytes := byte.of_Z <$> l.

Definition zeros (n : nat) : bytes := replicate n (byte.of_Z 0).

(** [b[i..j]] *)
Definition sub (i j : nat) (b : bytes) : bytes := take (j - i) (drop i b).

(** [b[off..off + src.len()].copy_from_slice(src)] for an in-range [off]. *)
Definition splice (off : nat) (src b : bytes) : bytes :=
  take off b ++ src ++ drop (off + length src) b.

(** [uN::from_le_bytes], [uN::to_le_bytes] and their big-endian twins; the
    width in bytes is the length of the array. *)
Definition from_le (b : bytes) : Z := le_combine b.
Definition to_le (n : nat) (z : Z) : bytes := le_split n z.
Definition from_be (b : bytes) : Z := le_combine (rev b).
Definition to_be (n : nat) (z : Z) : bytes := rev (le_split n z).

Lemma length_to_le n z : length (to_le n z) = n.
Proof. apply length_le_split. Qed.

Lemma length_to_be n z : length (to_be n z) = n.
Proof. unfold to_be. by rewrite length_rev, length_le_split. Qed.

Lemma length_zeros n : length (zeros n) = n.
Proof. apply length_replicate. Qed.

Lemma length_bytes_of l : length (bytes_of l) = length l.
Proof. apply length_fmap. Qed.

Lemma length_sub i j b : length (sub i j b) = Nat.min (j - i) (length b - i).
Proof. unfold sub. by rewrite length_take, length_drop. Qed.

Lemma length_splice off src b :
  (off + length src <= length b)%nat -> length (splice off src b) = length b.
Proof. unfold splice. rewrite !length_app, length_take, length_drop. lia. Qed.

#[export] Hint Rewrite length_to_le length_to_be length_zeros length_bytes_of
  @length_app @length_take @length_drop @length_replicate length_sub
  @length_nil @length_cons : len.

Ltac len := autorewrite with len in *; cbn [length] in *; try lia.

Lemma from_to_le n z : from_le (to_le n z) = z mod 2 ^ (Z.of_nat n * 8).
Proof. apply le_combine_split. Qed.

Lemma to_from_le b n : length b = n -> to_le n (from_le b) = b.
Proof. apply split_le_combine'. Qed.

Lemma from_to_be n z : from_be (to_be n z) = z mod 2 ^ (Z.of_nat n * 8).
Proof. unfold from_be, to_be. rewrite rev_involutive. apply le_combine_split. Qed.

Lemma to_from_be b n : length b = n -> to_be n (from_be b) = b.
Proof.
  intros <-. unfold to_be, from_be. rewrite <- (length_rev b), split_le_combine.
  apply rev_involutive.
Qed.

Lemma from_le_range b : 0 <= from_le b < 2 ^ (8 * Z.of_nat (length b)).
Proof. apply le_combine_bound. Qed.

Lemma from_be_range b : 0 <= from_be b < 2 ^ (8 * Z.of_nat (length b)).
Proof. unfold from_be. rewrite <- length_rev. apply le_combine_bound. Qed.

Lemma from_le_u32 b : length b = 4%nat -> is_u32 (from_le b).
Proof. intros H. pose proof (from_le_range b) as R. rewrite H in R. exact R. Qed.

Lemma from_le_u64 b : length b = 8%nat -> is_u64 (from_le b).
Proof. intros H. pose proof (from_le_range b) as R. rewrite H in R. exact R. Qed.

Lemma u32_le_roundtrip z : is_u32 z -> from_le (to_le 4 z) = z.
Proof. intros H. rewrite from_to_le. by apply Z.mod_small. Qed.

Lemma u64_le_roundtrip z : is_u64 z -> from_le (to_le 8 z) = z.
Proof. intros H. rewrite from_to_le. by apply Z.mod_small. Qed.

Lemma to_le_inj n a b :
  0 <= a < 2 ^ (Z.of_nat n * 8) -> 0 <= b < 2 ^ (Z.of_nat n * 8) ->
  to_le n a = to_le n b -> a = b.
Proof.
  intros Ha Hb E. apply (f_equal from_le) in E. rewrite !from_to_le in E.
  by rewrite !Z.mod_small in E.
Qed.

(** Reading a field of a message that is built as a concatenation: the offset
    either skips the first chunk or lands on it. *)
Lemma sub_skip n i j (a b : bytes) :
  length a = n -> (n <= i)%nat -> sub i j (a ++ b) = sub (i - n) (j - n) b.
Proof.
  intros <- H. unfold sub. rewrite drop_app_ge by done. f_equal. lia.
Qed.

Lemma drop_skip n i (a b : bytes) :
  length a = n -> (n <= i)%nat -> drop i (a ++ b) = drop (i - n) b.
Proof. intros <- H. by apply drop_app_ge. Qed.

Lemma sub_here j (a b : bytes) : length a = j -> sub 0 j (a ++ b) = a.
Proof. intros <-. unfold sub. rewrite drop_0, Nat.sub_0_r. apply take_app_length. Qed.

Lemma sub_all j (a : bytes) : (length a <= j)%nat -> sub 0 j a = a.
Proof. intros H. unfold sub. rewrite drop_0, Nat.sub_0_r. by apply take_ge. Qed.

Lemma sub_full (b : bytes) i j k :
  (i <= j <= k)%nat -> sub i j b ++ sub j k b = sub i k b.
Proof.
  intros [H1 H2]. unfold sub.
  replace (drop j b) with (drop (j - i) (drop i b)) by (rewrite drop_drop; f_equal; lia).
  rewrite take_take_drop. f_equal. lia.
Qed.

Lemma sub_drop (b : bytes) i j : (i <= j)%nat -> sub i j b ++ drop j b = drop i b.
Proof.
  intros Hij. unfold sub.
  replace (drop j b) with (drop (j - i) (drop i b)) by (rewrite drop_drop; f_equal; lia).
  apply take_drop.
Qed.

(** [fields] reads every fixed-offset field of a concatenated message; the
    database [lens] knows the length of each chunk. *)
Create HintDb lens discriminated.
#[export] Hint Resolve length_to_le length_to_be length_zeros : lens.

Ltac len_of := first [eassumption | solve [typeclasses eauto with lens nocore]].

Ltac fields :=
  repeat first
    [ rewrite sub_here by len_of
    | erewrite sub_skip by (len_of || lia); cbn [Nat.sub]
    | erewrite drop_skip by (len_of || lia); cbn [Nat.sub]
    | rewrite sub_all by (apply Nat.eq_le_incl; len_of)
    | rewrite drop_0 ].

(** Writing the chunk that follows a prefix already written. *)
Lemma splice_after off (p src r : bytes) :
  length p = off -> splice off src (p ++ r) = (p ++ src) ++ drop (length src) r.
Proof.
  intros <-. unfold splice. rewrite take_app_length, drop_app_ge by lia.
  replace (length p + length src - length p)%nat with (length src) by lia.
  by rewrite app_assoc.
Qed.

Lemma take_splice (src b : bytes) : take (length src) (splice 0 src b) = src.
Proof. unfold splice. rewrite take_0, app_nil_l. apply take_app_length. Qed.

(** ** The environment of a run

    The program reads two clocks and the operating system's random generator.
    [clock n] is the [n]-th reading of the monotonic clock, in nanoseconds,
    [system_time n] the [n]-th reading of the wall clock (nanoseconds since the
    Unix epoch), and [rng n] the stream of bytes the [n]-th consumer of
    [OsRng] draws from. *)

Class Env := {
  clock : nat -> Z;
  system_time : nat -> Z;
  rng : nat -> nat -> byte;
}.

(** What the operating system promises of its clocks: the monotonic one does not
    go back, and both count seconds in a signed 64-bit integer. *)
Class MonotoneClock `{Env} : Prop := {
  clock_mono i j : (i <= j)%nat -> clock i <= clock j;
  clock_range i : 0 <= clock i < 2 ^ 63 * 1000000000;
  system_time_range i : system_time i < 2 ^ 63 * 1000000000;
}.

(** How far the run has advanced in each of the three sources, and how many
    system calls it has made. *)
Record World := mkWorld { ticks : nat; wall : nat; draws : nat; calls : nat }.

(** [OsRng.fill_bytes] on an array of [n] bytes. *)
Definition fill_bytes (n : nat) (stream : nat -> byte) : bytes := stream <$> seq 0 n.

Lemma length_fill_bytes n stream : length (fill_bytes n stream) = n.
Proof. unfold fill_bytes. by rewrite length_fmap, length_seq. Qed.

#[export] Hint Rewrite length_fill_bytes : len.

(** ** The effect monad

    A method on [&mut self] with [Result<A, E>] is a function from the state
    and the world to an [outcome]: it returns, it returns [Err] (the state
    keeps what was written before the error), or it panics. *)

Inductive outcome (E S A : Type) : Type :=
| Ok (a : A) (s : S) (w : World)
| Fail (e : E) (s : S) (w : World)
| Panic.
Arguments Ok {E S A} a s w.
Arguments Fail {E S A} e s w.
Arguments Panic {E S A}.

Definition M (E S A : Type) : Type := S -> World -> outcome E S A.

Section Monad.
Context {E S : Type}.

Definition ret {A} (a : A) : M E S A := fun s w => Ok a s w.
Definition bind {A B} (m : M E S A) (k : A -> M E S B) : M E S B := fun s w =>
  match m s w with
  | Ok a s w => k a s w
  | Fail e s w => Fail e s w
  | Panic => Panic
  end.
Definition fail {A} (e : E) : M E S A := fun s w => Fail e s w.
Definition panic {A} : M E S A := fun _ _ => Panic.
Definition get : M E S S := fun s w => Ok s s w.
Definition modify (f : S -> S) : M E S unit := fun s w => Ok tt (f s) w.

(** [Result::ok_or], [Option::unwrap] and a condition that must hold. *)
Definition ok_or {A} (e : E) (o : option A) : M E S A :=
  match o with Some a => ret a | None => fail e end.
Definition unwrap {A} (o : option A) : M E S A :=
  match o with Some a => ret a | None => panic end.

(** [Instant::now()], [SystemTime::now()] and one use of [OsRng]. *)
Definition now `{Env} : M E S Z := fun s w =>
  Ok (clock (ticks w)) s (mkWorld (Datatypes.S (ticks w)) (wall w) (draws w) (calls w)).
Definition wall_now `{Env} : M E S Z := fun s w =>
  Ok (system_time (wall w)) s (mkWorld (ticks w) (Datatypes.S (wall w)) (draws w) (calls w)).
Definition draw `{Env} : M E S (nat -> byte) := fun s w =>
  Ok (rng (draws w)) s (mkWorld (ticks w) (wall w) (Datatypes.S (draws w)) (calls w)).
(** A call of the operating system, whose answer depends on when it is made. *)
Definition syscall {A} (answer : nat -> A) : M E S A := fun s w =>
  Ok (answer (calls w)) s (mkWorld (ticks w) (wall w) (draws w) (Datatypes.S (calls w))).

(** A call whose error is inspected instead of propagated with [?]. *)
Definition attempt {E' A} (m : M E' S A) : M E S (A + E') := fun s w =>
  match m s w with
  | Ok a s w => Ok (inl a) s w
  | Fail e s w => Ok (inr e) s w
  | Panic => Panic
  end.
End Monad.

(** A method of a field: [zoom] runs it on the field and writes it back. *)
Definition zoom {E S T A} (view : S -> T) (set : T -> S -> S) (m : M E T A) : M E S A :=
  fun s w =>
    match m (view s) w with
    | Ok a t w => Ok a (set t s) w
    | Fail e t w => Fail e (set t s) w
    | Panic => Panic
    end.

Arguments ret {E S A} a s w /.
Arguments bind {E S A B} m k s w /.
Arguments fail {E S A} e s w /.
Arguments panic {E S A} s w /.
Arguments get {E S} s w /.
Arguments modify {E S} f s w /.
Arguments now {E S _} s w /.
Arguments wall_now {E S _} s w /.
Arguments draw {E S _} s w /.
Arguments syscall {E S A} answer s w /.
Arguments attempt {E S E' A} m s w /.
Arguments zoom {E S T A} view set m s w /.

Declare Scope rust_scope.
Delimit Scope rust_scope with rust.
#[global] Open Scope rust_scope.
Notation "x <- m ;; k" := (bind m (fun x => k))
  (at level 20, m at level 99, k at level 200) : rust_scope.
Notation "' pat <- m ;; k" := (bind m (fun x => match x with pat => k end))
  (at level 20, pat pattern, m at level 99, k at level 200) : rust_scope.
Notation "m ;; k" := (bind m (fun _ => k))
  (at level 100, k at level 200, right associativity) : rust_scope.

(** Symbolic execution: [step] reduces the monad operations of the goal,
    [step in H] those of a hypothesis. *)
Ltac step :=
  cbn [bind ret fail panic get modify ok_or unwrap now wall_now draw syscall attempt zoom].
Tactic Notation "step" "in" hyp(H) :=
  cbn [bind ret fail panic get modify ok_or unwrap now wall_now draw syscall attempt zoom] in H.

(** The first reading of the clock that a run from [w] can still make. *)
Definition later (w w' : World) : Prop :=
  (ticks w <= ticks w')%nat /\ (wall w <= wall w')%nat /\ (draws w <= draws w')%nat /\ (calls w <= calls w')%nat.

#[global] Instance later_preorder : PreOrder later.
Proof. unfold later. split; [intros w | intros w1 w2 w3]; lia. Qed.

(** A computation never rewinds the clocks or the random generator. *)
Definition forward {E S A} (m : M E S A) : Prop := forall s w,
  match m s w with
  | Ok _ _ w' | Fail _ _ w' => later w w'
  | Panic => True
  end.
Existing Class forward.

Section Forward.
Context {E S : Type}.

#[global] Instance forward_ret {A} (a : A) : forward (ret (E:=E) (S:=S) a).
Proof. intros s w. by cbn. Qed.
#[global] Instance forward_fail {A} e : forward (fail (E:=E) (S:=S) (A:=A) e).
Proof. intros s w. by cbn. Qed.
#[global] Instance forward_panic {A} : forward (panic (E:=E) (S:=S) (A:=A)).
Proof. intros s w. by cbn. Qed.
#[global] Instance forward_get : forward (get (E:=E) (S:=S)).
Proof. intros s w. by cbn. Qed.
#[global] Instance forward_modify f : forward (modify (E:=E) (S:=S) f).
Proof. intros s w. by cbn. Qed.
#[global] Instance forward_now `{Env} : forward (now (E:=E) (S:=S)).
Proof. intros s w. cbn. unfold later; cbn; lia. Qed.
#[global] Instance forward_wall_now `{Env} : forward (wall_now (E:=E) (S:=S)).
Proof. intros s w. cbn. unfold later; cbn; lia. Qed.
#[global] Instance forward_draw `{Env} : forward (draw (E:=E) (S:=S)).
Proof. intros s w. cbn. unfold later; cbn; lia. Qed.
#[global] Instance forward_syscall {A} (answer : nat -> A) : forward (syscall (E:=E) (S:=S) answer).
Proof. intros s w. cbn. unfold later; cbn; lia. Qed.
#[global] Instance forward_ok_or {A} e (o : option A) : forward (ok_or (E:=E) (S:=S) e o).
Proof. destruct o; apply _. Qed.
#[global] Instance forward_unwrap {A} (o : option A) : forward (unwrap (E:=E) (S:=S) o).
Proof. destruct o; apply _. Qed.
#[global] Instance forward_bind {A B} (m : M E S A) (k : A -> M E S B) :
  forward m -> (forall a, forward (k a)) -> forward (bind m k).
Proof.
  intros Hm Hk s w. unfold bind. specialize (Hm s w).
  destruct (m s w) as [a s1 w1 | e s1 w1 |]; [|done..].
  specialize (Hk a s1 w1). destruct (k a s1 w1); [by etrans..|done].
Qed.
#[global] Instance forward_attempt {E' A} (m : M E' S A) :
  forward m -> forward (attempt (E:=E) m).
Proof. intros Hm s w. unfold attempt. specialize (Hm s w). by destruct (m s w). Qed.
#[global] Instance forward_zoom {T A} view set (m : M E T A) :
  forward m -> forward (zoom (S:=S) view set m).
Proof. intros Hm s w. unfold zoom. specialize (Hm (view s) w). by destruct (m (view s) w). Qed.
End Forward.

(** The state a call leaves, returned or failed. *)
Definition final {E S A} (o : outcome E S A) : option S :=
  match o with Ok _ s _ | Fail _ s _ => Some s | Panic => None end.

(** Does a call return? *)
Definition returns {E S A} (o : outcome E S A) : bool :=
  match o with Ok _ _ _ => true | _ => false end.
(** A composition that returned went through its first part. *)
Lemma bind_ok {E S A B} (f : M E S A) (k : A -> M E S B) s w b s' w' : bind f k s w = Ok b s' w' ->
  exists a s1 w1, f s w = Ok a s1 w1 /\ k a s1 w1 = Ok b s' w'.
Proof. unfold bind. destruct (f s w) as [a s1 w1|e s1 w1|]; [|done..]. naive_solver. Qed.

Lemma returns_ok {E S A} (o : outcome E S A) : returns o = true -> exists a s w, o = Ok a s w.
Proof. destruct o; [eauto|done..]. Qed.

(** [m] keeps the invariant [I], whether it returns or fails. *)
Definition preserves {E S A} (I : S -> Prop) (m : M E S A) : Prop := forall s w,
  I s -> match m s w with Ok _ s' _ | Fail _ s' _ => I s' | Panic => True end.

Section Preserves.
Context {E S : Type} (I : S -> Prop).

Lemma preserves_ret {A} (a : A) : preserves I (ret (E:=E) a).
Proof. by intros s w Hs. Qed.
Lemma preserves_fail {A} e : preserves I (fail (E:=E) (A:=A) e).
Proof. by intros s w Hs. Qed.
Lemma preserves_panic {A} : preserves I (panic (E:=E) (A:=A)).
Proof. by intros s w Hs. Qed.
Lemma preserves_get : preserves I (get (E:=E)).
Proof. by intros s w Hs. Qed.
Lemma preserves_now `{Env} : preserves I (now (E:=E)).
Proof. by intros s w Hs. Qed.
Lemma preserves_wall_now `{Env} : preserves I (wall_now (E:=E)).
Proof. by intros s w Hs. Qed.
Lemma preserves_draw `{Env} : preserves I (draw (E:=E)).
Proof. by intros s w Hs. Qed.
Lemma preserves_syscall {A} (answer : nat -> A) : preserves I (syscall (E:=E) answer).
Proof. by intros s w Hs. Qed.
Lemma preserves_modify f : (forall s, I s -> I (f s)) -> preserves I (modify (E:=E) f).
Proof. intros Hf s w Hs. cbn. by apply Hf. Qed.
Lemma preserves_ok_or {A} e (o : option A) : preserves I (ok_or (E:=E) e o).
Proof. destruct o; by intros s w Hs. Qed.
Lemma preserves_unwrap {A} (o : option A) : preserves I (unwrap (E:=E) o).
Proof. destruct o; by intros s w Hs. Qed.
Lemma preserves_bind {A B} (m : M E S A) (k : A -> M E S B) :
  preserves I m -> (forall a, preserves I (k a)) -> preserves I (bind m k).
Proof.
  intros Hm Hk s w Hs. unfold bind. specialize (Hm s w Hs).
  destruct (m s w) as [a s' w'|e s' w'|]; [|done..]. by apply Hk.
Qed.
Lemma preserves_attempt {E' A} (m : M E' S A) : preserves I m -> preserves I (attempt (E:=E) m).
Proof. intros Hm s w Hs. unfold attempt. specialize (Hm s w Hs). by destruct (m s w). Qed.
Lemma preserves_zoom {T A} view set (m : M E T A) (J : T -> Prop) :
  preserves J m -> (forall s, I s -> J (view s)) -> (forall s t, I s -> J t -> I (set t s)) ->
  preserves I (zoom view set m).
Proof.
  intros Hm Hv Hset s w Hs. unfold zoom. specialize (Hm (view s) w (Hv s Hs)).
  destruct (m (view s) w); [by apply Hset..|done].
Qed.
Lemma preserves_zoom_any {T A} view set (m : M E T A) :
  (forall s t, I s -> I (set t s)) -> preserves I (zoom view set m).
Proof. intros Hset s w Hs. unfold zoom. destruct (m (view s) w); auto. Qed.
Lemma preserves_final {A} (m : M E S A) s w s' :
  preserves I m -> I s -> final (m s w) = Some s' -> I s'.
Proof. intros Hm Hs F. specialize (Hm s w Hs). destruct (m s w); by simplify_eq/=. Qed.
End Preserves.

(** [m] has no error result: the source's function returns a plain value. *)
Definition nofail {E S A} (m : M E S A) : Prop := forall s w,
  match m s w with Fail _ _ _ => False | _ => True end.

Section NoFail.
Context {E S : Type}.
Lemma nofail_ret {A} (a : A) : nofail (ret (E:=E) (S:=S) a).
Proof. by intros s w. Qed.
Lemma nofail_panic {A} : nofail (panic (E:=E) (S:=S) (A:=A)).
Proof. by intros s w. Qed.
Lemma nofail_get : nofail (get (E:=E) (S:=S)).
Proof. by intros s w. Qed.
Lemma nofail_modify f : nofail (modify (E:=E) (S:=S) f).
Proof. by intros s w. Qed.
Lemma nofail_now `{Env} : nofail (now (E:=E) (S:=S)).
Proof. by intros s w. Qed.
Lemma nofail_syscall {A} (answer : nat -> A) : nofail (syscall (E:=E) (S:=S) answer).
Proof. by intros s w. Qed.
Lemma nofail_attempt {E' A} (m : M E' S A) : nofail (attempt (E:=E) m).
Proof. intros s w. unfold attempt. by destruct (m s w). Qed.
Lemma nofail_bind {A B} (m : M E S A) (k : A -> M E S B) :
  nofail m -> (forall a, nofail (k a)) -> nofail (bind m k).
Proof.
  intros Hm Hk s w. unfold bind. specialize (Hm s w).
  destruct (m s w) as [a s' w'|e s' w'|]; [|done..]. apply Hk.
Qed.
Lemma nofail_zoom {T A} view set (m : M E T A) : nofail m -> nofail (zoom (S:=S) view set m).
Proof. intros Hm s w. unfold zoom. specialize (Hm (view s) w). by destruct (m (view s) w). Qed.
End NoFail.

Create HintDb nofail discriminated.
#[export] Hint Resolve nofail_ret nofail_panic nofail_get nofail_modify nofail_now
  nofail_syscall nofail_attempt : nofail.
Ltac nofail :=
  repeat first
    [ solve [eauto 1 with nofail nocore]
    | apply nofail_bind; [|intros ?]
    | apply nofail_zoom
    | match goal with
      | |- nofail (let '(_, _) := ?x in _) => destruct x
      | |- nofail (match ?x with _ => _ end) => destruct x
      | |- nofail (if ?x then _ else _) => destruct x
      end ].

(** [m] returns or fails, never panics; it keeps [I], never rewinds the world,
    and what it returns satisfies [Q].  The invariant may speak of the world. *)
Definition ok {E S A} (I : S -> World -> Prop) (Q : A -> Prop) (w : World) (o : outcome E S A) : Prop :=
  match o with
  | Ok a s' w' => I s' w' /\ later w w' /\ Q a
  | Fail _ s' w' => I s' w' /\ later w w'
  | Panic => False
  end.
Definition safe {E S A} (I : S -> World -> Prop) (Q : A -> Prop) (m : M E S A) : Prop :=
  forall s w, I s w -> ok I Q w (m s w).

Section Safe.
Context {E S : Type} (I : S -> World -> Prop).

Lemma ok_bind {A B} (Q : A -> Prop) (R : B -> Prop) (m : M E S A) (k : A -> M E S B) s w :
  ok I Q w (m s w) ->
  (forall a s' w', I s' w' -> later w w' -> Q a -> ok I R w' (k a s' w')) -> ok I R w (bind m k s w).
Proof.
  unfold bind. intros Hm Hk. destruct (m s w) as [a s' w'|e s' w'|]; [|done..].
  destruct Hm as (Hs & L & Ha). specialize (Hk a s' w' Hs L Ha).
  destruct (k a s' w'); cbn in *; [|naive_solver (by etrans)|done].
  destruct Hk as (? & ? & ?). split_and!; [done|by etrans|done].
Qed.
Lemma safe_bind {A B} (Q : A -> Prop) (R : B -> Prop) (m : M E S A) (k : A -> M E S B) :
  safe I Q m -> (forall a, Q a -> safe I R (k a)) -> safe I R (bind m k).
Proof. intros Hm Hk s w Hs. eapply ok_bind; [by apply Hm|]. intros. by apply Hk. Qed.
(** A first part that keeps a stronger invariant. *)
Lemma ok_bind_strong {A B} (J : S -> World -> Prop) (Q : A -> Prop) (R : B -> Prop)
  (m : M E S A) (k : A -> M E S B) s w :
  ok J Q w (m s w) -> (forall s w, J s w -> I s w) ->
  (forall a s' w', J s' w' -> later w w' -> Q a -> ok I R w' (k a s' w')) -> ok I R w (bind m k s w).
Proof.
  unfold bind. intros Hm HJ Hk. destruct (m s w) as [a s' w'|e s' w'|]; cbn in *; [|naive_solver..].
  destruct Hm as (Hs & L & Ha). specialize (Hk a s' w' Hs L Ha).
  destruct (k a s' w'); cbn in *; [|naive_solver (by etrans)|done].
  destruct Hk as (? & ? & ?). split_and!; [done|by etrans|done].
Qed.
Lemma ok_get {B} (R : B -> Prop) (k : S -> M E S B) s w :
  ok I R w (k s s w) -> ok I R w (bind get k s w).
Proof. done. Qed.
Lemma ok_ok_or {A B} (R : B -> Prop) e (o : option A) (k : A -> M E S B) s w :
  I s w -> (forall a, o = Some a -> ok I R w (k a s w)) -> ok I R w (bind (ok_or e o) k s w).
Proof. intros Hs Hk. destruct o; cbn; [by apply Hk|done]. Qed.
Lemma safe_ret {A} (Q : A -> Prop) a : Q a -> safe I Q (ret (E:=E) a).
Proof. by intros Ha s w Hs. Qed.
Lemma safe_fail {A} (Q : A -> Prop) e : safe I Q (fail (E:=E) e).
Proof. by intros s w Hs. Qed.
Lemma safe_weaken {A} (Q Q' : A -> Prop) (m : M E S A) :
  safe I Q m -> (forall a, Q a -> Q' a) -> safe I Q' m.
Proof.
  intros Hm HQ s w Hs. specialize (Hm s w Hs). destruct (m s w); [|done..]. cbn in *. naive_solver.
Qed.
Lemma ok_weaken {A} (Q Q' : A -> Prop) w (o : outcome E S A) :
  ok I Q w o -> (forall a, Q a -> Q' a) -> ok I Q' w o.
Proof. destruct o; cbn; naive_solver. Qed.
Lemma ok_after {A} (Q : A -> Prop) w w' (o : outcome E S A) : later w w' -> ok I Q w' o -> ok I Q w o.
Proof. destruct o; cbn; [|naive_solver (by etrans)|done]. intros ? (? & ? & ?). split_and!; [done|by etrans|done]. Qed.
Lemma safe_modify f : (forall s w, I s w -> I (f s) w) -> safe I (fun _ => True) (modify (E:=E) f).
Proof. intros Hf s w Hs. cbn. split_and!; [auto|done|done]. Qed.
Lemma safe_attempt {E' A} (Q : A -> Prop) (m : M E' S A) :
  safe I Q m -> safe I (fun r => match r with inl a => Q a | inr _ => True end) (attempt (E:=E) m).
Proof.
  intros Hm s w Hs. unfold attempt. specialize (Hm s w Hs). destruct (m s w); cbn in *; naive_solver.
Qed.
Lemma ok_zoom {T A} (J : T -> World -> Prop) (Q : A -> Prop) view set (m : M E T A) s w :
  ok J Q w (m (view s) w) ->
  (forall t w', J t w' -> later w w' -> I (set t s) w') ->
  ok I Q w (zoom view set m s w).
Proof. unfold zoom. intros Hm Hset. destruct (m (view s) w); cbn in *; naive_solver. Qed.
End Safe.

(** [m] keeps [I], and where it panics [C] is the case. *)
Definition upholds {E S A} (I : S -> World -> Prop) (C : Prop) (m : M E S A) : Prop := forall s w,
  I s w -> match m s w with Ok _ s' w' | Fail _ s' w' => I s' w' /\ later w w' | Panic => C end.

Lemma upholds_ok {E S A} (I : S -> World -> Prop) C (f : M E S A) s w a s' w' :
  upholds I C f -> I s w -> f s w = Ok a s' w' -> I s' w' /\ later w w'.
Proof. intros Hf Hs E0. specialize (Hf s w Hs). by rewrite E0 in Hf. Qed.

Section Upholds.
Context {E S : Type} (I : S -> World -> Prop) (C : Prop).
Lemma upholds_ret {A} (a : A) : upholds I C (ret (E:=E) a).
Proof. by intros s w Hs. Qed.
Lemma upholds_fail {A} e : upholds I C (fail (E:=E) (A:=A) e).
Proof. by intros s w Hs. Qed.
Lemma upholds_get : upholds I C (get (E:=E)).
Proof. by intros s w Hs. Qed.
Lemma upholds_ok_or {A} e (o : option A) : upholds I C (ok_or (E:=E) e o).
Proof. destruct o; by intros s w Hs. Qed.
Lemma upholds_modify f : (forall s w, I s w -> I (f s) w) -> upholds I C (modify (E:=E) f).
Proof. intros Hf s w Hs. cbn. split; [by apply Hf|done]. Qed.
Lemma upholds_bind {A B} (m : M E S A) (k : A -> M E S B) :
  upholds I C m -> (forall a, upholds I C (k a)) -> upholds I C (bind m k).
Proof.
  intros Hm Hk s w Hs. unfold bind. specialize (Hm s w Hs). destruct (m s w) as [a s' w'|e s' w'|]; [|done..].
  destruct Hm as [Hs' L]. specialize (Hk a s' w' Hs'). destruct (k a s' w'); [..|done]; destruct Hk; (split; [done|by etrans]).
Qed.
Lemma upholds_attempt {E' A} (m : M E' S A) : upholds I C m -> upholds I C (attempt (E:=E) m).
Proof. intros Hm s w Hs. unfold attempt. specialize (Hm s w Hs). by destruct (m s w). Qed.
End Upholds.

Create HintDb upholds discriminated.
#[export] Hint Resolve upholds_ret upholds_fail upholds_get upholds_ok_or : upholds.
Ltac upholds :=
  repeat first
    [ solve [eauto 1 with upholds nocore]
    | apply upholds_bind; [|intros ?]
    | apply upholds_attempt
    | match goal with
      | |- upholds _ _ (let '(_, _) := ?x in _) => destruct x
      | |- upholds _ _ (match ?x with _ => _ end) => destruct x
      | |- upholds _ _ (if ?x then _ else _) => destruct x
      end ].

(** Walks through a method; the assignments it makes are left as goals. *)
Create HintDb keeps discriminated.
#[export] Hint Resolve preserves_ret preserves_fail preserves_panic preserves_get preserves_now
  preserves_wall_now preserves_draw preserves_syscall preserves_ok_or preserves_unwrap : keeps.
Ltac keeps :=
  repeat first
    [ solve [eauto 1 with keeps nocore]
    | apply preserves_bind; [|intros ?]
    | apply preserves_modify; intros ?
    | apply preserves_attempt
    | apply preserves_zoom_any; intros ? ?
    | match goal with
      | |- preserves _ (let '(_, _) := ?x in _) => destruct x
      | |- preserves _ (match ?x with _ => _ end) => destruct x
      | |- preserves _ (if ?x then _ else _) => destruct x
      end ].

(** ** Loops

    [while fuel cond body s] runs a [while] loop for at most [fuel] tests of its
    condition; [None] says that the loop was still running. *)

Fixpoint while {St} (fuel : nat) (cond : St -> bool) (body : St -> St) (s : St) : option St :=
  match fuel with
  | O => None
  | S fuel => if cond s then while fuel cond body (body s) else Some s
  end.

(** Total correctness of a loop: an invariant, a measure that each iteration
    decreases, and enough fuel for the measure. *)
Lemma while_total {St} (cond : St -> bool) (body : St -> St) (I : St -> Prop) (m : St -> Z) :
  (forall s, I s -> cond s = true -> I (body s) /\ 0 <= m (body s) < m s) ->
  forall fuel s, I s -> 0 <= m s < Z.of_nat fuel ->
  exists s', while fuel cond body s = Some s' /\ I s' /\ cond s' = false.
Proof.
  intros Hstep fuel. induction fuel as [|fuel IH]; intros s HI Hm; [lia|].
  cbn. destruct (cond s) eqn:Hc; [|by exists s].
  destruct (Hstep s HI Hc) as [HI' Hm']. apply IH; [done|lia].
Qed.
