(* ===== verification/Packet.v ===== *)
(** * Messages on the wire: [noise/errors.rs] and the parsing half of [noise/mod.rs]

    The message types of the protocol, their sizes and offsets, the parser
    [Tunn::parse_incoming_packet], the addresses read from inner IP packets,
    and the wire format as an encoder, which is the parser's specification. *)

From S2P Require Import Prelude.

(** Cargo features: [pq] compiles the hybrid handshake in. *)
Class Features := { pq : bool }.

(** The two builds. *)
Definition classical_build : Features := {| pq := false |}.
Definition pq_build : Features := {| pq := true |}.

Inductive WireGuardError :=
| DestinationBufferTooSmall
| IncorrectPacketLength
| UnexpectedPacket
| WrongPacketType
| WrongIndex
| WrongKey
| InvalidTai64nTimestamp
| WrongTai64nTimestamp
| InvalidMac
| InvalidAeadTag
| InvalidCounter
| DuplicateCounter
| InvalidPacket
| NoCurrentSession
| LockFailed
| ConnectionExpired
| UnderLoad
| MlKemDecapsulationFailed.

#[global] Instance WireGuardError_eq_dec : EqDecision WireGuardError.
Proof. solve_decision. Defined.

(** [std::net::IpAddr], by its octets. *)
Inductive IpAddr := IpV4 (octets : bytes) | IpV6 (octets : bytes).

#[global] Instance IpAddr_eq_dec : EqDecision IpAddr.
Proof. solve_decision. Defined.

(** The slices of [dst] a result carries are the bytes they hold. *)
Inductive TunnResult :=
| Done
| Err (e : WireGuardError)
| WriteToNetwork (packet : bytes)
| WriteToTunnelV4 (packet : bytes) (addr : bytes)
| WriteToTunnelV6 (packet : bytes) (addr : bytes).

Definition PEER_HANDSHAKE_RATE_LIMIT : Z := 10.

Definition IPV4_MIN_HEADER_SIZE : nat := 20.
Definition IPV4_LEN_OFF : nat := 2.
Definition IPV4_SRC_IP_OFF : nat := 12.
Definition IPV4_DST_IP_OFF : nat := 16.
Definition IPV4_IP_SZ : nat := 4.
Definition IPV6_MIN_HEADER_SIZE : nat := 40.
Definition IPV6_LEN_OFF : nat := 4.
Definition IPV6_SRC_IP_OFF : nat := 8.
Definition IPV6_DST_IP_OFF : nat := 24.
Definition IPV6_IP_SZ : nat := 16.
Definition IP_LEN_SZ : nat := 2.
Definition MAX_QUEUE_DEPTH : nat := 256.
Definition N_SESSIONS : Z := 8.

Definition HANDSHAKE_INIT : Z := 1.
Definition HANDSHAKE_RESP : Z := 2.
Definition COOKIE_REPLY : Z := 3.
Definition DATA : Z := 4.
Definition HANDSHAKE_INIT_SZ : nat := 148.
Definition HANDSHAKE_RESP_SZ : nat := 92.
Definition COOKIE_REPLY_SZ : nat := 64.
Definition DATA_OVERHEAD_SZ : nat := 32.
Definition PQ_HANDSHAKE_INIT : Z := 5.
Definition PQ_HANDSHAKE_RESP : Z := 6.
Definition MLKEM768_PK_SIZE : nat := 1184.
Definition MLKEM768_CT_SIZE : nat := 1088.
Definition PQ_HANDSHAKE_INIT_SZ : nat := 1332.
Definition PQ_HANDSHAKE_RESP_SZ : nat := 1180.

Record HandshakeInit := mkHandshakeInit {
  hi_sender_idx : Z;
  hi_unencrypted_ephemeral : bytes;
  hi_encrypted_static : bytes;
  hi_encrypted_timestamp : bytes;
}.

Record HandshakeResponse := mkHandshakeResponse {
  hr_sender_idx : Z;
  hr_receiver_idx : Z;
  hr_unencrypted_ephemeral : bytes;
  hr_encrypted_nothing : bytes;
}.

Record PacketCookieReply := mkPacketCookieReply {
  cr_receiver_idx : Z;
  cr_nonce : bytes;
  cr_encrypted_cookie : bytes;
}.

Record PacketData := mkPacketData {
  pd_receiver_idx : Z;
  pd_counter : Z;
  pd_encrypted_encapsulated_packet : bytes;
}.

Record PqHandshakeInit := mkPqHandshakeInit {
  pqi_sender_idx : Z;
  pqi_unencrypted_ephemeral : bytes;
  pqi_encrypted_static : bytes;
  pqi_encrypted_timestamp : bytes;
  pqi_mlkem_ephemeral_public : bytes;
}.

Record PqHandshakeResponse := mkPqHandshakeResponse {
  pqr_sender_idx : Z;
  pqr_receiver_idx : Z;
  pqr_unencrypted_ephemeral : bytes;
  pqr_encrypted_nothing : bytes;
  pqr_mlkem_ciphertext : bytes;
}.

Inductive Packet :=
| PHandshakeInit (p : HandshakeInit)
| PHandshakeResponse (p : HandshakeResponse)
| PPacketCookieReply (p : PacketCookieReply)
| PPacketData (p : PacketData)
| PPqHandshakeInit (p : PqHandshakeInit)
| PPqHandshakeResponse (p : PqHandshakeResponse).

Section Parse.
Context `{Features}.

(** [Tunn::parse_incoming_packet]: the match on the pair (type, length). *)
Definition parse_incoming_packet (src : bytes) : Packet + WireGuardError :=
  let len := length src in
  if bool_decide (len < 4)%nat then inr InvalidPacket else
  let packet_type := from_le (sub 0 4 src) in
  let type_is ty := packet_type =? ty in
  if type_is HANDSHAKE_INIT && (len =? HANDSHAKE_INIT_SZ)%nat then
    inl (PHandshakeInit {|
      hi_sender_idx := from_le (sub 4 8 src);
      hi_unencrypted_ephemeral := sub 8 40 src;
      hi_encrypted_static := sub 40 88 src;
      hi_encrypted_timestamp := sub 88 116 src |})
  else if type_is HANDSHAKE_RESP && (len =? HANDSHAKE_RESP_SZ)%nat then
    inl (PHandshakeResponse {|
      hr_sender_idx := from_le (sub 4 8 src);
      hr_receiver_idx := from_le (sub 8 12 src);
      hr_unencrypted_ephemeral := sub 12 44 src;
      hr_encrypted_nothing := sub 44 60 src |})
  else if type_is COOKIE_REPLY && (len =? COOKIE_REPLY_SZ)%nat then
    inl (PPacketCookieReply {|
      cr_receiver_idx := from_le (sub 4 8 src);
      cr_nonce := sub 8 32 src;
      cr_encrypted_cookie := sub 32 64 src |})
  else if type_is DATA && (DATA_OVERHEAD_SZ <=? len)%nat then
    inl (PPacketData {|
      pd_receiver_idx := from_le (sub 4 8 src);
      pd_counter := from_le (sub 8 16 src);
      pd_encrypted_encapsulated_packet := drop 16 src |})
  else if pq && type_is PQ_HANDSHAKE_INIT && (len =? PQ_HANDSHAKE_INIT_SZ)%nat then
    inl (PPqHandshakeInit {|
      pqi_sender_idx := from_le (sub 4 8 src);
      pqi_unencrypted_ephemeral := sub 8 40 src;
      pqi_encrypted_static := sub 40 88 src;
      pqi_encrypted_timestamp := sub 88 116 src;
      pqi_mlkem_ephemeral_public := sub 116 (116 + MLKEM768_PK_SIZE) src |})
  else if pq && type_is PQ_HANDSHAKE_RESP && (len =? PQ_HANDSHAKE_RESP_SZ)%nat then
    inl (PPqHandshakeResponse {|
      pqr_sender_idx := from_le (sub 4 8 src);
      pqr_receiver_idx := from_le (sub 8 12 src);
      pqr_unencrypted_ephemeral := sub 12 44 src;
      pqr_encrypted_nothing := sub 44 60 src;
      pqr_mlkem_ciphertext := sub 60 (60 + MLKEM768_CT_SIZE) src |})
  else inr InvalidPacket.

(** The datagrams of the protocol: those the parser gives a type. *)
Definition is_message (src : bytes) : Prop := exists p, parse_incoming_packet src = inl p.
End Parse.

(** [packet[0] >> 4]: the IP version field. *)
Definition ip_version (packet : bytes) : Z :=
  match packet with [] => 0 | b :: _ => Z.shiftr (byte.unsigned b) 4 end.

(** [Tunn::dst_address] *)
Definition dst_address (packet : bytes) : option IpAddr :=
  if bool_decide (packet = []) then None
  else if (ip_version packet =? 4) && (IPV4_MIN_HEADER_SIZE <=? length packet)%nat then
    Some (IpV4 (sub IPV4_DST_IP_OFF (IPV4_DST_IP_OFF + IPV4_IP_SZ) packet))
  else if (ip_version packet =? 6) && (IPV6_MIN_HEADER_SIZE <=? length packet)%nat then
    Some (IpV6 (sub IPV6_DST_IP_OFF (IPV6_DST_IP_OFF + IPV6_IP_SZ) packet))
  else None.

(** ** Specification: the wire format

    [encode p macs] lays a message out as the protocol document does; [macs]
    are the two message authentication codes that close a handshake message. *)

Definition encode (p : Packet) (macs : bytes) : bytes :=
  match p with
  | PHandshakeInit p =>
      to_le 4 HANDSHAKE_INIT ++ to_le 4 (hi_sender_idx p) ++ hi_unencrypted_ephemeral p ++
      hi_encrypted_static p ++ hi_encrypted_timestamp p ++ macs
  | PHandshakeResponse p =>
      to_le 4 HANDSHAKE_RESP ++ to_le 4 (hr_sender_idx p) ++ to_le 4 (hr_receiver_idx p) ++
      hr_unencrypted_ephemeral p ++ hr_encrypted_nothing p ++ macs
  | PPacketCookieReply p =>
      to_le 4 COOKIE_REPLY ++ to_le 4 (cr_receiver_idx p) ++ cr_nonce p ++
      cr_encrypted_cookie p ++ macs
  | PPacketData p =>
      to_le 4 DATA ++ to_le 4 (pd_receiver_idx p) ++ to_le 8 (pd_counter p) ++
      pd_encrypted_encapsulated_packet p ++ macs
  | PPqHandshakeInit p =>
      to_le 4 PQ_HANDSHAKE_INIT ++ to_le 4 (pqi_sender_idx p) ++ pqi_unencrypted_ephemeral p ++
      pqi_encrypted_static p ++ pqi_encrypted_timestamp p ++
      pqi_mlkem_ephemeral_public p ++ macs
  | PPqHandshakeResponse p =>
      to_le 4 PQ_HANDSHAKE_RESP ++ to_le 4 (pqr_sender_idx p) ++ to_le 4 (pqr_receiver_idx p) ++
      pqr_unencrypted_ephemeral p ++ pqr_encrypted_nothing p ++
      pqr_mlkem_ciphertext p ++ macs
  end.

Definition is_pq (p : Packet) : bool :=
  match p with PPqHandshakeInit _ | PPqHandshakeResponse _ => true | _ => false end.

Definition is_handshake (p : Packet) : bool :=
  match p with PPacketCookieReply _ | PPacketData _ => false | _ => true end.

(** The field widths the protocol fixes. *)
Definition well_formed (p : Packet) : Prop :=
  match p with
  | PHandshakeInit p =>
      is_u32 (hi_sender_idx p) /\ length (hi_unencrypted_ephemeral p) = 32%nat /\
      length (hi_encrypted_static p) = 48%nat /\ length (hi_encrypted_timestamp p) = 28%nat
  | PHandshakeResponse p =>
      is_u32 (hr_sender_idx p) /\ is_u32 (hr_receiver_idx p) /\
      length (hr_unencrypted_ephemeral p) = 32%nat /\ length (hr_encrypted_nothing p) = 16%nat
  | PPacketCookieReply p =>
      is_u32 (cr_receiver_idx p) /\ length (cr_nonce p) = 24%nat /\
      length (cr_encrypted_cookie p) = 32%nat
  | PPacketData p =>
      is_u32 (pd_receiver_idx p) /\ is_u64 (pd_counter p) /\
      (16 <= length (pd_encrypted_encapsulated_packet p))%nat
  | PPqHandshakeInit p =>
      is_u32 (pqi_sender_idx p) /\ length (pqi_unencrypted_ephemeral p) = 32%nat /\
      length (pqi_encrypted_static p) = 48%nat /\
      length (pqi_encrypted_timestamp p) = 28%nat /\
      length (pqi_mlkem_ephemeral_public p) = MLKEM768_PK_SIZE
  | PPqHandshakeResponse p =>
      is_u32 (pqr_sender_idx p) /\ is_u32 (pqr_receiver_idx p) /\
      length (pqr_unencrypted_ephemeral p) = 32%nat /\
      length (pqr_encrypted_nothing p) = 16%nat /\
      length (pqr_mlkem_ciphertext p) = MLKEM768_CT_SIZE
  end.

Definition macs_len (p : Packet) : nat := if is_handshake p then 32 else 0.

Section Theorems.
Context `{Features}.

Lemma from_le_type z rest : is_u32 z -> from_le (sub 0 4 (to_le 4 z ++ rest)) = z.
Proof. intros Hz. rewrite sub_here by apply length_to_le. by apply u32_le_roundtrip. Qed.

Ltac parse_case n :=
  destruct_and!;
  rewrite bool_decide_eq_false_2 by len; rewrite from_le_type by done;
  match goal with |- context [Nat.eqb (length ?m)] =>
    replace (length m) with n by (unfold MLKEM768_PK_SIZE, MLKEM768_CT_SIZE in *; len)
  end; cbn - [sub to_le from_le drop Nat.leb MLKEM768_PK_SIZE MLKEM768_CT_SIZE].

Lemma parse_encode_ok p macs :
  well_formed p -> length macs = macs_len p -> (is_pq p = true -> pq = true) ->
  parse_incoming_packet (encode p macs) = inl p.
Proof.
  intros W L Hpq. unfold parse_incoming_packet.
  destruct p as [p|p|p|p|p|p];
    cbn [well_formed macs_len is_handshake is_pq encode] in *.
  - parse_case 148%nat. fields. rewrite u32_le_roundtrip by done. by destruct p.
  - parse_case 92%nat. fields. rewrite !u32_le_roundtrip by done. by destruct p.
  - parse_case 64%nat. fields. rewrite u32_le_roundtrip by done. by destruct p.
  - destruct macs; [|done]. rewrite app_nil_r.
    parse_case (16 + length (pd_encrypted_encapsulated_packet p))%nat.
    rewrite (proj2 (Nat.leb_le _ _)) by (unfold DATA_OVERHEAD_SZ; lia).
    fields. rewrite u32_le_roundtrip, u64_le_roundtrip by done. by destruct p.
  - parse_case 1332%nat. rewrite (Hpq eq_refl). cbn - [sub to_le from_le drop MLKEM768_PK_SIZE].
    fields. rewrite u32_le_roundtrip by done. by destruct p.
  - parse_case 1180%nat. rewrite (Hpq eq_refl). cbn - [sub to_le from_le drop MLKEM768_CT_SIZE].
    fields. rewrite !u32_le_roundtrip by done. by destruct p.
Qed.

(** Whatever the index and the counter of a data packet are. *)
Lemma data_is_message i c e : (16 <= length e)%nat -> is_message (encode (PPacketData (mkPacketData i c e)) []).
Proof.
  intros L. eexists. unfold parse_incoming_packet. cbn [encode pd_receiver_idx pd_counter pd_encrypted_encapsulated_packet].
  rewrite app_nil_r. rewrite bool_decide_eq_false_2 by len. rewrite from_le_type by done.
  match goal with |- context [Nat.eqb (length ?m)] => replace (length m) with (16 + length e)%nat by len end.
  cbn - [sub to_le from_le drop Nat.leb].
  rewrite (proj2 (Nat.leb_le _ _)) by (unfold DATA_OVERHEAD_SZ; lia). reflexivity.
Qed.

Lemma to_from_le_sub i j n (b : bytes) :
  (j - i = n)%nat -> (j <= length b)%nat -> to_le n (from_le (sub i j b)) = sub i j b.
Proof. intros E L. apply to_from_le. len. Qed.

Lemma type_field z (src : bytes) :
  (4 <= length src)%nat -> from_le (sub 0 4 src) = z -> to_le 4 z = sub 0 4 src.
Proof. intros L <-. by apply to_from_le_sub. Qed.

Ltac sizes := unfold HANDSHAKE_INIT_SZ, HANDSHAKE_RESP_SZ, COOKIE_REPLY_SZ, DATA_OVERHEAD_SZ,
  PQ_HANDSHAKE_INIT_SZ, PQ_HANDSHAKE_RESP_SZ, MLKEM768_PK_SIZE, MLKEM768_CT_SIZE in *.

(** Reassembles a buffer from the consecutive fields the parser cut. *)
Ltac reassemble :=
  repeat match goal with
    | |- context [to_le ?n (from_le (sub ?i ?j ?b))] =>
        rewrite (to_from_le_sub i j n b) by lia
    end;
  rewrite ?app_nil_r, ?sub_full, ?sub_drop by lia; symmetry; first [apply drop_0 | apply sub_all; lia].

(** Turns the boolean guards of the parser's branch into propositions. *)
Ltac guards src :=
  repeat match goal with
    | Hb : (_ && _)%bool = true |- _ => apply andb_prop in Hb as [? ?]
    | Hb : (_ =? _) = true |- _ => apply Z.eqb_eq in Hb
    | Hb : (_ =? _)%nat = true |- _ => apply Nat.eqb_eq in Hb
    | Hb : (_ <=? _)%nat = true |- _ => apply Nat.leb_le in Hb
    | Hb : _ = false |- _ => clear Hb
    end;
  match goal with Ht : from_le (sub 0 4 src) = ?z |- _ =>
    apply (type_field z src) in Ht; [|lia] end.

Ltac field_ok := first [done | by apply from_le_u32; len | by apply from_le_u64; len | by sizes; len].

Lemma parse_complete src p :
  parse_incoming_packet src = inl p ->
  exists macs, well_formed p /\ length macs = macs_len p /\ (is_pq p = true -> pq = true) /\
    src = encode p macs.
Proof.
  unfold parse_incoming_packet. case_bool_decide as Hlen; [done|]. sizes.
  intros E. repeat case_match; simplify_eq; guards src;
    [ exists (sub 116 148 src) | exists (sub 60 92 src) | exists [] | exists []
    | exists (sub 1300 1332 src) | exists (sub 1148 1180 src) ];
    cbn -[to_le from_le sub length];
    match goal with Ht : to_le 4 _ = _ |- _ => rewrite Ht end;
    (split_and!; [field_ok..|reassemble]).
Qed.

(** C15. The parser accepts exactly the encodings of well-formed messages, with
    the post-quantum messages recognised only when the [pq] feature is on, and
    returns the message that was encoded: it never panics, never confuses two
    message types and never loses a field. *)
Theorem parse_incoming_packet_spec src p :
  parse_incoming_packet src = inl p <->
  exists macs, well_formed p /\ length macs = macs_len p /\ (is_pq p = true -> pq = true) /\
    src = encode p macs.
Proof.
  split; [apply parse_complete|]. intros (macs & W & L & Hpq & ->). by apply parse_encode_ok.
Qed.
End Theorems.
