(* ===== verification/Crypto.v ===== *)
(** * The cryptographic libraries the program calls

    x25519-dalek, blake2, hmac, ring, chacha20poly1305 and ml-kem are not part
    of the repository: they are the operations of the class [Crypto], and what
    the program relies on is the class [CryptoLaws], one field per documented
    fact.  [Toy] is an executable instance of both, on which concrete runs are
    evaluated. *)

From S2P Require Import Prelude.

(** Keys, shared secrets and digests are the arrays the libraries expose.  A
    hash or MAC takes the sequence of chunks it is fed with [update].  The
    [seal] operations return the ciphertext and the detached tag. *)
Class Crypto := {
  (** [PublicKey::from(&secret)] and [secret.diffie_hellman(&public)] *)
  x25519_public : bytes -> bytes;
  x25519_dh : bytes -> bytes -> bytes;
  (** [Blake2s256], [SimpleHmac<Blake2s256>] and [Blake2sMac] of a given size *)
  blake2s256 : list bytes -> bytes;
  hmac_blake2s : bytes -> list bytes -> bytes;
  blake2s_mac : nat -> bytes -> list bytes -> bytes;
  (** key, nonce, additional data, text: [CHACHA20_POLY1305] of ring *)
  chacha_seal : bytes -> bytes -> bytes -> bytes -> bytes * bytes;
  chacha_open : bytes -> bytes -> bytes -> bytes -> option bytes;
  (** the same for [XChaCha20Poly1305] *)
  xchacha_seal : bytes -> bytes -> bytes -> bytes -> bytes * bytes;
  xchacha_open : bytes -> bytes -> bytes -> bytes -> option bytes;
  (** ML-KEM-768: decapsulation key and encoded encapsulation key from
      entropy, validity of an encoded encapsulation key, ciphertext and shared
      secret, and the shared secret a ciphertext decapsulates to *)
  mlkem_generate : (nat -> byte) -> bytes * bytes;
  mlkem_ek_valid : bytes -> bool;
  mlkem_encapsulate : bytes -> (nat -> byte) -> bytes * bytes;
  mlkem_try_decapsulate : bytes -> bytes -> option bytes;
}.

Class CryptoLaws `{Crypto} : Prop := {
  length_x25519_public s : length (x25519_public s) = 32%nat;
  length_x25519_dh s p : length (x25519_dh s p) = 32%nat;
  length_blake2s256 cs : length (blake2s256 cs) = 32%nat;
  length_hmac_blake2s k cs : length (hmac_blake2s k cs) = 32%nat;
  length_blake2s_mac n k cs : length (blake2s_mac n k cs) = n;
  (** Diffie-Hellman agreement *)
  x25519_dh_comm a b : x25519_dh a (x25519_public b) = x25519_dh b (x25519_public a);
  (** feeding a MAC in several chunks is feeding their concatenation *)
  blake2s_mac_chunks n k cs : blake2s_mac n k cs = blake2s_mac n k [concat cs];
  (** AEAD: sizes, and what is sealed opens *)
  chacha_seal_len k n a m : length (chacha_seal k n a m).1 = length m;
  chacha_tag_len k n a m : length (chacha_seal k n a m).2 = 16%nat;
  chacha_open_seal k n a m :
    chacha_open k n a ((chacha_seal k n a m).1 ++ (chacha_seal k n a m).2) = Some m;
  chacha_open_len k n a c m :
    chacha_open k n a c = Some m -> length c = (length m + 16)%nat;
  xchacha_seal_len k n a m : length (xchacha_seal k n a m).1 = length m;
  xchacha_tag_len k n a m : length (xchacha_seal k n a m).2 = 16%nat;
  xchacha_open_seal k n a m :
    xchacha_open k n a ((xchacha_seal k n a m).1 ++ (xchacha_seal k n a m).2) = Some m;
  (** ML-KEM-768: sizes, validity of generated keys, correctness *)
  length_mlkem_ek e : length (mlkem_generate e).2 = 1184%nat;
  mlkem_ek_generated e : mlkem_ek_valid (mlkem_generate e).2 = true;
  length_mlkem_ct ek e : length (mlkem_encapsulate ek e).1 = 1088%nat;
  length_mlkem_ss ek e : length (mlkem_encapsulate ek e).2 = 32%nat;
  mlkem_correct e e' :
    mlkem_try_decapsulate (mlkem_generate e).1 (mlkem_encapsulate (mlkem_generate e).2 e').1 =
    Some (mlkem_encapsulate (mlkem_generate e).2 e').2;
}.

#[export] Hint Resolve length_x25519_public length_x25519_dh length_blake2s256
  length_hmac_blake2s length_blake2s_mac chacha_tag_len xchacha_tag_len
  length_mlkem_ek length_mlkem_ct length_mlkem_ss : lens.
#[export] Hint Rewrite @length_x25519_public @length_x25519_dh @length_blake2s256
  @length_hmac_blake2s @length_blake2s_mac @chacha_tag_len @xchacha_tag_len
  @chacha_seal_len @xchacha_seal_len
  @length_mlkem_ek @length_mlkem_ct @length_mlkem_ss using (typeclasses eauto) : len.

(** ** An executable instance *)

Module Toy.

Definition fit (n : nat) (b : bytes) : bytes := take n (b ++ zeros n).
Definition digest (cs : list bytes) : Z :=
  foldl (fun acc b => acc * 257 + byte.unsigned b + 1) 7 (concat cs).
Definition combine (a b : bytes) : bytes :=
  zip_with (fun x y => byte.of_Z (byte.unsigned x + byte.unsigned y)) (fit 32 a) (fit 32 b).
Definition mac (n : nat) (k : bytes) (cs : list bytes) : bytes := to_le n (digest (k :: cs) / 3).
Definition seal (k n a m : bytes) : bytes * bytes := (m, mac 16 (k ++ n ++ a) [m]).
Definition open (k n a c : bytes) : option bytes :=
  let m := take (length c - 16) c in
  if bool_decide (16 <= length c)%nat && bool_decide (drop (length c - 16) c = mac 16 (k ++ n ++ a) [m])
  then Some m else None.

#[export] Instance crypto : Crypto := {|
  x25519_public := fit 32;
  x25519_dh := combine;
  blake2s256 := fun cs => to_le 32 (digest cs);
  hmac_blake2s := fun k cs => to_le 32 (digest (k :: cs));
  blake2s_mac := mac;
  chacha_seal := seal;
  chacha_open := open;
  xchacha_seal := seal;
  xchacha_open := open;
  mlkem_generate := fun e => (fill_bytes 32 e, fit 1184 (fill_bytes 32 e));
  mlkem_ek_valid := fun b => bool_decide (length b = 1184%nat);
  mlkem_encapsulate := fun ek e => (fit 1088 (fill_bytes 32 e), fill_bytes 32 e);
  mlkem_try_decapsulate := fun _ ct => Some (take 32 ct);
|}.

Lemma length_fit n b : length (fit n b) = n.
Proof. unfold fit. len. Qed.

Lemma fit_fit n b : fit n (fit n b) = fit n b.
Proof. unfold fit at 1. rewrite take_app_le by (by rewrite length_fit).
  apply take_ge. by rewrite length_fit. Qed.

Lemma length_combine a b : length (combine a b) = 32%nat.
Proof. unfold combine. by rewrite length_zip_with, !length_fit. Qed.

Lemma combine_comm a b : combine a (fit 32 b) = combine b (fit 32 a).
Proof.
  unfold combine. rewrite !fit_fit, <- zip_with_flip.
  apply zip_with_ext; [|done..]. intros x y. unfold flip. f_equal. lia.
Qed.

Lemma length_mac n k cs : length (mac n k cs) = n.
Proof. apply length_to_le. Qed.

Lemma open_seal k n a m : open k n a ((seal k n a m).1 ++ (seal k n a m).2) = Some m.
Proof.
  unfold open, seal. cbn [fst snd].
  rewrite length_app, length_mac.
  replace (length m + 16 - 16)%nat with (length m) by lia.
  rewrite take_app_length, drop_app_length.
  rewrite !bool_decide_eq_true_2; [done|done|lia].
Qed.

Lemma open_len k n a c m : open k n a c = Some m -> length c = (length m + 16)%nat.
Proof.
  unfold open. case_bool_decide; [|done]. case_bool_decide; [|done].
  cbn. intros [= <-]. len.
Qed.

#[export] Instance laws : CryptoLaws.
Proof.
  constructor; cbn -[to_le fit fill_bytes combine seal open mac]; intros.
  all: try first [apply length_fit | apply length_combine | apply length_to_le
    | apply combine_comm | apply open_seal | done].
  - unfold mac, digest. cbn [concat]. by rewrite app_nil_r.
  - by apply (open_len k n a).
Qed.

End Toy.
