(* ===== verification/Session.v ===== *)
(** * Transport sessions: [noise/session.rs]

    [Window] is the sliding window that rejects replayed packet counters
    ([ReceivingKeyCounterValidator]) with its specification as a set of
    received counters; [Session] is the pair of transport keys with the two
    counters. *)

From S2P Require Import Prelude Crypto Packet.

Definition DATA_OFFSET : nat := 16.
Definition AEAD_SIZE : nat := 16.
Definition WORD_SIZE : Z := 64.
Definition N_WORDS : Z := 16.
Definition N_BITS : Z := WORD_SIZE * N_WORDS.

Module Window.

(** [bitmap] is the array of [N_WORDS] 64-bit words. *)
Record ReceivingKeyCounterValidator := mkValidator {
  next : Z;
  receive_cnt : Z;
  bitmap : list Z;
}.

(** [#[derive(Default)]] *)
Definition default : ReceivingKeyCounterValidator :=
  mkValidator 0 0 (replicate (Z.to_nat N_WORDS) 0).

Definition word_of (idx : Z) : nat := Z.to_nat ((idx mod N_BITS) / WORD_SIZE).
Definition bit_of (idx : Z) : Z := (idx mod N_BITS) mod WORD_SIZE.

Definition update_word (f : Z -> Z) (idx : Z) (v : ReceivingKeyCounterValidator) :=
  mkValidator (next v) (receive_cnt v) (alter f (word_of idx) (bitmap v)).

Definition set_bit (idx : Z) (v : ReceivingKeyCounterValidator) :=
  update_word (fun w => Z.lor w (u64 (Z.shiftl 1 (bit_of idx)))) idx v.

(** [!(1u64 << bit)] is the complement on 64 bits. *)
Definition clear_bit (idx : Z) (v : ReceivingKeyCounterValidator) :=
  update_word (fun w => Z.land w (u64 (Z.lnot (Z.shiftl 1 (bit_of idx))))) idx v.

Definition clear_word (idx : Z) (v : ReceivingKeyCounterValidator) :=
  update_word (fun _ => 0) idx v.

Definition check_bit (idx : Z) (v : ReceivingKeyCounterValidator) : bool :=
  Z.land (Z.shiftr (bitmap v !!! word_of idx) (bit_of idx)) 1 =? 1.

Definition set_next (n : Z) (v : ReceivingKeyCounterValidator) :=
  mkValidator n (receive_cnt v) (bitmap v).

Definition will_accept (counter : Z) (v : ReceivingKeyCounterValidator) : unit + WireGuardError :=
  if next v <=? counter then inl tt
  else if u64 (counter + N_BITS) <? next v then inr InvalidCounter
  else if negb (check_bit counter v) then inl tt
  else inr DuplicateCounter.

(** The three loops that mark the skipped counters as not received; [i] is the
    loop variable.  Each is given [N_BITS + 1] tests of fuel, and they run only
    when the gap is shorter than [N_BITS]. *)
Definition FUEL : nat := Z.to_nat (N_BITS + 1).

Definition loop_state : Type := Z * ReceivingKeyCounterValidator.

Definition align_loop (counter : Z) : loop_state -> option loop_state :=
  while FUEL
    (fun '(i, v) => negb (i mod WORD_SIZE =? 0) && (i <? counter))
    (fun '(i, v) => (u64 (i + 1), clear_bit i v)).

Definition word_loop (counter : Z) : loop_state -> option loop_state :=
  while FUEL
    (fun '(i, v) => u64 (i + WORD_SIZE) <? counter)
    (fun '(i, v) => (Z.land (u64 (i + WORD_SIZE)) (u64 (0 - WORD_SIZE)), clear_word i v)).

Definition bit_loop (counter : Z) : loop_state -> option loop_state :=
  while FUEL
    (fun '(i, v) => i <? counter)
    (fun '(i, v) => (u64 (i + 1), clear_bit i v)).

Definition clear_gap (counter : Z) (v : ReceivingKeyCounterValidator)
  : option ReceivingKeyCounterValidator :=
  l ← align_loop counter (next v, v);
  l ← word_loop counter l;
  '(_, v) ← bit_loop counter l;
  Some v.

Definition clear_all (v : ReceivingKeyCounterValidator) :=
  mkValidator (next v) (receive_cnt v) ((fun _ => 0) <$> bitmap v).

(** [None] when a loop runs out of fuel. *)
Definition mark_did_receive (counter : Z) (v : ReceivingKeyCounterValidator)
  : option ((unit + WireGuardError) * ReceivingKeyCounterValidator) :=
  if u64 (counter + N_BITS) <? next v then Some (inr InvalidCounter, v)
  else if counter =? next v then
    let v := set_bit counter v in
    Some (inl tt, set_next (u64 (next v + 1)) v)
  else if counter <? next v then
    if check_bit counter v then Some (inr InvalidCounter, v)
    else Some (inl tt, set_bit counter v)
  else
    v ← (if N_BITS <=? u64 (counter - next v) then Some (clear_all v) else clear_gap counter v);
    let v := set_bit counter v in
    Some (inl tt, set_next (u64 (counter + 1)) v).

(** ** Well-formed windows and what each bit operation does *)

Definition wf (v : ReceivingKeyCounterValidator) : Prop :=
  is_u64 (next v) /\ length (bitmap v) = 16%nat /\ Forall is_u64 (bitmap v).

(** The value of the bit a counter maps to. *)
Definition bit (v : ReceivingKeyCounterValidator) (idx : Z) : bool :=
  Z.testbit (bitmap v !!! word_of idx) (bit_of idx).

Lemma bit_of_range i : 0 <= bit_of i < 64.
Proof. by apply Z.mod_pos_bound. Qed.

Lemma check_bit_bit idx v : check_bit idx v = bit v idx.
Proof.
  pose proof (bit_of_range idx). unfold check_bit, bit.
  rewrite Z.testbit_eqb, <- Z.shiftr_div_pow2 by lia.
  by rewrite (Z.land_ones _ 1 ltac:(lia) : Z.land _ 1 = _).
Qed.

Lemma word_of_range i : (word_of i < 16)%nat.
Proof.
  unfold word_of. change N_BITS with 1024. change WORD_SIZE with 64.
  pose proof (Z.mod_pos_bound i 1024 eq_refl). dlia.
Qed.

(** Two counters share a bit iff they are equal modulo [N_BITS]. *)
Lemma same_bit i j :
  i mod N_BITS = j mod N_BITS <-> word_of i = word_of j /\ bit_of i = bit_of j.
Proof.
  unfold word_of, bit_of. change N_BITS with 1024. change WORD_SIZE with 64.
  pose proof (Z.mod_pos_bound i 1024 eq_refl). pose proof (Z.mod_pos_bound j 1024 eq_refl). dlia.
Qed.

Lemma word_update f i v j : wf v ->
  bitmap (update_word f i v) !!! word_of j =
  if decide (word_of i = word_of j) then f (bitmap v !!! word_of j) else bitmap v !!! word_of j.
Proof.
  intros (_ & L & _). rewrite !list_lookup_total_alt. cbn [bitmap update_word].
  rewrite list_lookup_alter. case_decide as E; [|done]. rewrite <- E.
  destruct (lookup_lt_is_Some_2 (bitmap v) (word_of i)) as [w Hw].
  - rewrite L. apply word_of_range.
  - by rewrite Hw.
Qed.

Lemma wf_update f i v : (forall w, is_u64 w -> is_u64 (f w)) -> wf v -> wf (update_word f i v).
Proof.
  intros Hf (N & L & W). unfold wf; cbn. split_and!; [done|by rewrite length_alter|].
  apply Forall_alter; [done|]. eauto.
Qed.

Lemma u64_testbit_above w n : is_u64 w -> 64 <= n -> Z.testbit w n = false.
Proof. intros Hw Hn. rewrite <- (u64_small w) by done. by apply Z.mod_pow2_bits_high. Qed.

Lemma is_u64_lor a b : is_u64 a -> is_u64 b -> is_u64 (Z.lor a b).
Proof.
  intros Ha Hb. rewrite <- (u64_small a), <- (u64_small b) by done. unfold u64.
  rewrite <- !Z.land_ones, <- Z.land_lor_distr_l, Z.land_ones by done.
  apply u64_range.
Qed.

Lemma is_u64_land a b : is_u64 a -> is_u64 (Z.land a b).
Proof.
  intros Ha. rewrite <- (u64_small a) by done. unfold u64.
  rewrite <- Z.land_ones, <- Z.land_assoc, (Z.land_comm _ b), Z.land_assoc, Z.land_ones by done.
  apply u64_range.
Qed.

Lemma wf_set_bit i v : wf v -> wf (set_bit i v).
Proof. apply wf_update. intros w Hw. apply is_u64_lor; [done|apply u64_range]. Qed.
Lemma wf_clear_bit i v : wf v -> wf (clear_bit i v).
Proof. apply wf_update. intros w Hw. by apply is_u64_land. Qed.
Lemma wf_clear_word i v : wf v -> wf (clear_word i v).
Proof. apply wf_update. done. Qed.
Lemma wf_clear_all v : wf v -> wf (clear_all v).
Proof.
  intros (N & L & W). unfold wf; cbn. split_and!; [done|by rewrite length_fmap|].
  apply Forall_fmap, Forall_true. done.
Qed.
#[export] Hint Resolve wf_set_bit wf_clear_bit wf_clear_word wf_clear_all : rust.

Lemma testbit_one n k : 0 <= n < 64 -> 0 <= k < 64 -> Z.testbit (Z.shiftl 1 n) k = (n =? k).
Proof.
  intros Hn Hk. rewrite Z.shiftl_mul_pow2, Z.mul_1_l by lia.
  destruct (Z.eqb_spec n k) as [->|Hne]; [apply Z.pow2_bits_true; lia|].
  by apply Z.pow2_bits_false.
Qed.

Lemma bit_set_bit i v j : wf v ->
  bit (set_bit i v) j = (i mod N_BITS =? j mod N_BITS) || bit v j.
Proof.
  intros W. unfold bit, set_bit. rewrite word_update by done.
  pose proof (same_bit i j). pose proof (bit_of_range i). pose proof (bit_of_range j).
  case_decide.
  - rewrite Z.lor_spec, orb_comm. f_equal. unfold u64. rewrite Z.mod_pow2_bits_low by lia.
    rewrite testbit_one by lia. lia.
  - destruct (Z.eqb_spec (i mod N_BITS) (j mod N_BITS)); [tauto|done].
Qed.

Lemma bit_clear_bit i v j : wf v ->
  bit (clear_bit i v) j = negb (i mod N_BITS =? j mod N_BITS) && bit v j.
Proof.
  intros W. unfold bit, clear_bit. rewrite word_update by done.
  pose proof (same_bit i j). pose proof (bit_of_range i). pose proof (bit_of_range j).
  case_decide.
  - rewrite Z.land_spec, andb_comm. f_equal. unfold u64. rewrite Z.mod_pow2_bits_low by lia.
    rewrite Z.lnot_spec, testbit_one by lia. f_equal. lia.
  - destruct (Z.eqb_spec (i mod N_BITS) (j mod N_BITS)); [tauto|done].
Qed.

Lemma bit_clear_word i v j : wf v ->
  bit (clear_word i v) j = negb ((i mod N_BITS) / WORD_SIZE =? (j mod N_BITS) / WORD_SIZE) && bit v j.
Proof.
  intros W. unfold bit, clear_word. rewrite word_update by done. unfold word_of.
  change N_BITS with 1024. change WORD_SIZE with 64.
  pose proof (Z.mod_pos_bound i 1024 eq_refl). pose proof (Z.mod_pos_bound j 1024 eq_refl).
  case_decide; destruct (Z.eqb_spec (i mod 1024 / 64) (j mod 1024 / 64));
    rewrite ?Z.bits_0; try done; dlia.
Qed.

Lemma bit_clear_all v j : wf v -> bit (clear_all v) j = false.
Proof.
  intros (_ & L & _). unfold bit, clear_all. cbn [bitmap].
  rewrite list_lookup_total_alt, list_lookup_fmap.
  destruct (lookup_lt_is_Some_2 (bitmap v) (word_of j)) as [w ->].
  - rewrite L. apply word_of_range.
  - apply Z.bits_0.
Qed.

(** ** The loops clear exactly the skipped counters

    [cleared v a b v'] says that [v'] is [v] with the bits of the counters in
    [a, b) cleared, for an interval no longer than the window. *)

Definition cleared (v : ReceivingKeyCounterValidator) (a b : Z) (v' : ReceivingKeyCounterValidator) : Prop :=
  wf v' /\ next v' = next v /\ receive_cnt v' = receive_cnt v /\
  forall j, bit v' j = negb ((j - a) mod N_BITS <? b - a) && bit v j.

Lemma cleared_refl v a : wf v -> cleared v a a v.
Proof.
  intros W. split_and!; [done..|]. intros j. rewrite Z.sub_diag.
  destruct (Z.ltb_spec ((j - a) mod N_BITS) 0) as [Hlt|]; [|done].
  pose proof (Z.mod_pos_bound (j - a) N_BITS eq_refl). lia.
Qed.

Lemma cleared_trans v1 v2 v3 a b c :
  a <= b -> b <= c -> c - a <= N_BITS ->
  cleared v1 a b v2 -> cleared v2 b c v3 -> cleared v1 a c v3.
Proof.
  intros Hab Hbc Hac (W2 & N2 & R2 & B2) (W3 & N3 & R3 & B3).
  split_and!; [done|congruence..|]. intros j. rewrite B3, B2, andb_assoc, <- negb_orb.
  f_equal. f_equal. change N_BITS with 1024 in *.
  destruct (Z.ltb_spec ((j - b) mod 1024) (c - b)), (Z.ltb_spec ((j - a) mod 1024) (b - a)),
    (Z.ltb_spec ((j - a) mod 1024) (c - a)); cbn; try done; dlia.
Qed.

Lemma cleared_one v i : wf v -> cleared v i (i + 1) (clear_bit i v).
Proof.
  intros W. split_and!; [by auto with rust|done..|]. intros j. rewrite bit_clear_bit by done.
  f_equal. f_equal. change N_BITS with 1024.
  destruct (Z.eqb_spec (i mod 1024) (j mod 1024)), (Z.ltb_spec ((j - i) mod 1024) (i + 1 - i));
    try done; dlia.
Qed.

Lemma mod_1024 i : i mod 1024 = i mod 64 + 64 * ((i / 64) mod 16).
Proof. apply (Z.rem_mul_r i 64 16); lia. Qed.
Lemma word_interval i j :
   i mod 64 = 0 -> i mod 1024 / 64 = j mod 1024 / 64 <-> (j - i) mod 1024 < 64.
Proof.
  intros A. rewrite !mod_1024.
  assert (E : exists k, i = k * 64) by (exists (i / 64); dlia). destruct E as [k ->].
  replace ((j - k * 64) / 64) with (j / 64 - k) by dlia.
  replace ((j - k * 64) mod 64) with (j mod 64) by dlia.
  rewrite A, Z.div_mul by lia.
  pose proof (Z.mod_pos_bound j 64 eq_refl).
  set (s := j mod 64) in *. set (J := j / 64) in *. clearbody s J.
  replace ((s + 64 * (J mod 16)) / 64) with (J mod 16) by dlia.
  replace ((0 + 64 * (k mod 16)) / 64) with (k mod 16) by dlia.
  dlia.
Qed.

Lemma cleared_word v i : wf v -> i mod WORD_SIZE = 0 ->
  cleared v i (i + WORD_SIZE) (clear_word i v).
Proof.
  intros W A. split_and!; [by auto with rust|done..|]. intros j. rewrite bit_clear_word by done.
  f_equal. f_equal. change N_BITS with 1024. change WORD_SIZE with 64 in *.
  pose proof (word_interval i j A).
  destruct (Z.eqb_spec (i mod 1024 / 64) (j mod 1024 / 64)), (Z.ltb_spec ((j - i) mod 1024) (i + 64 - i));
    try done; lia.
Qed.

Lemma align_loop_spec v counter :
  wf v -> next v < counter -> counter + N_BITS < 2 ^ 64 -> counter - next v < N_BITS ->
  exists i v', align_loop counter (next v, v) = Some (i, v') /\ next v <= i <= counter /\
    cleared v (next v) i v' /\ (i mod WORD_SIZE = 0 \/ i = counter).
Proof.
  intros W Hlt Hmax Hgap.
  destruct (while_total
    (fun '(i, v) => negb (i mod WORD_SIZE =? 0) && (i <? counter))
    (fun '(i, v) => (u64 (i + 1), clear_bit i v))
    (fun '(i, v') => next v <= i <= counter /\ cleared v (next v) i v')
    (fun '(i, _) => counter - i)) with (fuel := FUEL) (s := (next v, v)) as ([i v'] & E & [Hi C] & Hc).
  - intros [i v'] [Hi C] Hc. apply andb_prop in Hc as [_ Hc%Z.ltb_lt]. destruct W as [Hn _]. unfold is_u64 in Hn.
    rewrite u64_small by (unfold is_u64; lia). split; [split; [lia|]|lia].
    eapply cleared_trans; [| | |exact C|]; [lia|lia|lia|]. apply cleared_one, C.
  - split; [lia|]. by apply cleared_refl.
  - unfold FUEL. lia.
  - exists i, v'. split_and!; [exact E|lia..|done|]. change WORD_SIZE with 64 in *. lia.
Qed.

(** [x & 0u64.wrapping_sub(WORD_SIZE)] rounds down to a multiple of 64. *)
Lemma land_align x : is_u64 x -> x mod WORD_SIZE = 0 -> Z.land x (u64 (0 - WORD_SIZE)) = x.
Proof.
  intros Hx A. change (u64 (0 - WORD_SIZE)) with (Z.ldiff (Z.ones 64) (Z.ones 6)).
  rewrite Z.ldiff_land, Z.land_assoc, Z.land_ones, (Z.mod_small x) by done.
  rewrite <- Z.ldiff_land, Z.ldiff_ones_r, Z.shiftl_mul_pow2, Z.shiftr_div_pow2 by done.
  change WORD_SIZE with 64 in A. change (2 ^ 6) with 64. dlia.
Qed.

Lemma word_loop_spec v a i v0 counter :
  cleared v a i v0 -> 0 <= a <= i -> i <= counter -> counter + N_BITS < 2 ^ 64 -> counter - a < N_BITS ->
  (i mod WORD_SIZE = 0 \/ i = counter) ->
  exists i' v', word_loop counter (i, v0) = Some (i', v') /\ i <= i' <= counter /\ cleared v a i' v'.
Proof.
  intros C0 Ha Hi0 Hmax Hgap Hal.
  assert (Hu : forall k, 0 <= k <= counter -> u64 (k + WORD_SIZE) = k + WORD_SIZE).
  { intros k Hk. apply u64_small. unfold is_u64. change WORD_SIZE with 64. change N_BITS with 1024 in *. lia. }
  destruct (while_total
    (fun '(i, v) => u64 (i + WORD_SIZE) <? counter)
    (fun '(i, v) => (Z.land (u64 (i + WORD_SIZE)) (u64 (0 - WORD_SIZE)), clear_word i v))
    (fun '(k, v') => i <= k <= counter /\ (k mod WORD_SIZE = 0 \/ k = counter) /\ cleared v a k v')
    (fun '(k, _) => counter - k)) with (fuel := FUEL) (s := (i, v0)) as ([k v'] & E & (Hk & _ & C) & Hc).
  - intros [k v'] (Hk & Hka & C) Hc. apply Z.ltb_lt in Hc. rewrite Hu in Hc |- * by lia.
    assert (A : k mod WORD_SIZE = 0) by (change WORD_SIZE with 64 in *; lia).
    assert (L : Z.land (k + WORD_SIZE) (u64 (0 - WORD_SIZE)) = k + WORD_SIZE).
    { apply land_align; [|change WORD_SIZE with 64 in *; dlia].
      unfold is_u64. change WORD_SIZE with 64 in *. lia. }
    rewrite L. split_and!; try (change WORD_SIZE with 64 in *; lia).
    + left. change WORD_SIZE with 64 in *. dlia.
    + eapply cleared_trans; [| | |exact C|]; [change WORD_SIZE with 64 in *; lia..|].
      apply cleared_word; [apply C|done].
  - done.
  - unfold FUEL. lia.
  - exists k, v'. done.
Qed.

Lemma bit_loop_spec v a i v0 counter :
  cleared v a i v0 -> 0 <= a <= i -> i <= counter -> counter + N_BITS < 2 ^ 64 -> counter - a < N_BITS ->
  exists v', bit_loop counter (i, v0) = Some (counter, v') /\ cleared v a counter v'.
Proof.
  intros C0 Ha Hi0 Hmax Hgap.
  destruct (while_total
    (fun '(i, v) => i <? counter)
    (fun '(i, v) => (u64 (i + 1), clear_bit i v))
    (fun '(k, v') => i <= k <= counter /\ cleared v a k v')
    (fun '(k, _) => counter - k)) with (fuel := FUEL) (s := (i, v0)) as ([k v'] & E & (Hk & C) & Hc).
  - intros [k v'] (Hk & C) Hc. apply Z.ltb_lt in Hc.
    rewrite u64_small by (unfold is_u64; change N_BITS with 1024 in *; lia). split; [split; [lia|]|lia].
    eapply cleared_trans; [| | |exact C|]; [lia|lia|lia|]. apply cleared_one, C.
  - done.
  - unfold FUEL. lia.
  - apply Z.ltb_ge in Hc. assert (k = counter) as -> by lia. by exists v'.
Qed.

Lemma clear_gap_spec v counter :
  wf v -> next v < counter -> counter + N_BITS < 2 ^ 64 -> counter - next v < N_BITS ->
  exists v', clear_gap counter v = Some v' /\ cleared v (next v) counter v'.
Proof.
  intros W Hlt Hmax Hgap. pose proof W as [Hn _]. unfold is_u64 in Hn.
  destruct (align_loop_spec v counter) as (i & v1 & E1 & Hi & C1 & Hal); [done..|].
  destruct (word_loop_spec v (next v) i v1 counter) as (i2 & v2 & E2 & Hi2 & C2); [done|lia..|].
  destruct (bit_loop_spec v (next v) i2 v2 counter) as (v3 & E3 & C3); [done|lia..|].
  exists v3. split; [|done]. unfold clear_gap. rewrite E1. cbn. rewrite E2. cbn. by rewrite E3.
Qed.

(** ** Specification: the set of received counters

    The window promises that a counter is accepted iff it is newer than every
    accepted one, or lies within the last [N_BITS] and was not accepted yet.
    The lower edge is compared on 64 bits, as the code does. *)

Record spec := mkSpec { s_next : Z; s_seen : gset Z }.

Definition spec_init : spec := mkSpec 0 ∅.

Definition spec_mark (c : Z) (s : spec) : (unit + WireGuardError) * spec :=
  if u64 (c + N_BITS) <? s_next s then (inr InvalidCounter, s)
  else if c <? s_next s then
    if bool_decide (c ∈ s_seen s) then (inr InvalidCounter, s)
    else (inl tt, mkSpec (s_next s) ({[c]} ∪ s_seen s))
  else (inl tt, mkSpec (c + 1) ({[c]} ∪ s_seen s)).

Definition refines (v : ReceivingKeyCounterValidator) (s : spec) : Prop :=
  wf v /\ next v = s_next s /\ (forall c, c ∈ s_seen s -> c < s_next s) /\
  forall c, s_next s - N_BITS <= c < s_next s -> 0 <= c -> bit v c = bool_decide (c ∈ s_seen s).

Lemma wf_default : wf default.
Proof. split_and!; [done..|]. apply Forall_replicate. done. Qed.

Lemma refines_init : refines default spec_init.
Proof.
  split_and!; [apply wf_default|done|set_solver|]. cbn. intros c H1 H2. lia.
Qed.

(** The lower edge, when the test does not reject. *)
Lemma not_too_old n c : 0 <= c < 2 ^ 64 -> is_u64 n -> n <= u64 (c + N_BITS) ->
  n - N_BITS <= c /\ (c - n < N_BITS -> c + N_BITS < 2 ^ 64).
Proof. unfold is_u64, u64. change N_BITS with 1024. intros. dlia. Qed.

Lemma bit_other v i j :
  wf v -> i mod N_BITS <> j mod N_BITS -> bit (set_bit i v) j = bit v j.
Proof. intros W H. rewrite bit_set_bit by done. by rewrite (proj2 (Z.eqb_neq _ _)). Qed.

Lemma bit_same v i : wf v -> bit (set_bit i v) i = true.
Proof. intros W. by rewrite bit_set_bit, Z.eqb_refl. Qed.

Lemma wf_set_next n v : is_u64 n -> wf v -> wf (set_next n v).
Proof. intros Hn (_ & L & W). done. Qed.

(** Accepting [c] in a window whose bits above [c - N_BITS] are right. *)
Lemma refines_set v s c n :
  wf v -> is_u64 n -> 0 <= c < n -> n <= c + N_BITS ->
  (forall x, x ∈ s_seen s -> x < n) ->
  (forall x, n - N_BITS <= x < n -> 0 <= x -> x <> c -> bit v x = bool_decide (x ∈ s_seen s)) ->
  refines (set_next n (set_bit c v)) (mkSpec n ({[c]} ∪ s_seen s)).
Proof.
  intros W Hn Hc Hlo Hseen Hbits. split_and!; [by apply wf_set_next, wf_set_bit|done|set_solver by lia|].
  cbn [s_next s_seen]. intros x Hx H0. change (bit (set_next n ?v)) with (bit v).
  destruct (decide (x = c)) as [->|Hne].
  - rewrite bit_same by done. by rewrite bool_decide_eq_true_2 by set_solver.
  - rewrite bit_other, Hbits by (done || change N_BITS with 1024 in *; dlia).
    apply bool_decide_ext. set_solver.
Qed.

Lemma mark_refines v s c :
  refines v s -> 0 <= c < 2 ^ 64 - 1 ->
  exists v', mark_did_receive c v = Some ((spec_mark c s).1, v') /\ refines v' (spec_mark c s).2.
Proof.
  intros R Hc. pose proof R as (W & N & Hseen & Hbits). pose proof W as [Hn _].
  unfold mark_did_receive, spec_mark. rewrite <- N in *.
  destruct (Z.ltb_spec (u64 (c + N_BITS)) (next v)) as [_|Hold]; [by exists v|].
  destruct (not_too_old (next v) c) as [Hlo Hmax]; [lia|exact Hn|exact Hold|].
  destruct (Z.eqb_spec c (next v)) as [E|Hne].
  - rewrite (proj2 (Z.ltb_ge c (next v))) by lia. eexists. split; [done|]. cbn [snd].
    rewrite u64_small by (unfold is_u64; cbn; lia). cbn [next set_bit update_word]. rewrite <- E.
    apply refines_set; [done|unfold is_u64; lia|lia|change N_BITS with 1024; lia|set_solver by lia|].
    intros x Hx H0 Hxc. apply Hbits; [lia|done].
  - destruct (Z.ltb_spec c (next v)) as [Hlt|Hge].
    + rewrite check_bit_bit, Hbits by (done || lia). case_bool_decide; [by exists v|].
      eexists. split; [done|]. cbn [snd].
      replace (set_bit c v) with (set_next (next v) (set_bit c v)) by done.
      apply refines_set; [done|done|lia..|done|]. intros x Hx H0 Hxc. by apply Hbits.
    + unfold is_u64 in Hn. rewrite (u64_small (c - next v)) by (unfold is_u64; lia).
      destruct (Z.leb_spec N_BITS (c - next v)) as [Hgap|Hgap].
      * eexists. split; [done|]. cbn [snd]. rewrite u64_small by (unfold is_u64; lia).
        apply refines_set; [by auto with rust|unfold is_u64; lia|lia|change N_BITS with 1024; lia|set_solver by lia|].
        intros x Hx H0 Hxc. rewrite bit_clear_all by done. symmetry. apply bool_decide_eq_false_2.
        intros Hin%Hseen. change N_BITS with 1024 in *. lia.
      * destruct (clear_gap_spec v c) as (v' & E & W' & _ & _ & B); [done|lia|auto|lia|].
        rewrite E. eexists. split; [done|]. cbn [snd]. rewrite u64_small by (unfold is_u64; lia).
        apply refines_set; [done|unfold is_u64; lia|lia|change N_BITS with 1024; lia|set_solver by lia|].
        intros x Hx H0 Hxc. rewrite B. change N_BITS with 1024 in *.
        destruct (Z.ltb_spec ((x - next v) mod 1024) (c - next v)) as [Hm|Hm]; cbn.
        -- symmetry. apply bool_decide_eq_false_2. intros Hin%Hseen. dlia.
        -- apply Hbits; [dlia|done].
Qed.

(** ** Properties of the window *)

(** A run of the validator over a sequence of counters, with each verdict;
    [None] if some call does not return. *)
Fixpoint run (cs : list Z) (v : ReceivingKeyCounterValidator)
  : option (list (Z * (unit + WireGuardError)) * ReceivingKeyCounterValidator) :=
  match cs with
  | [] => Some ([], v)
  | c :: cs =>
      '(r, v) ← mark_did_receive c v;
      '(rs, v) ← run cs v;
      Some ((c, r) :: rs, v)
  end.

(** Marking always returns, whatever the 64-bit counter, the top of the range
    included, where the specification above no longer applies. *)
Lemma mark_total v c : wf v -> is_u64 c ->
  exists r v', mark_did_receive c v = Some (r, v') /\ wf v'.
Proof.
  intros W Hc. pose proof W as [Hn _]. unfold mark_did_receive.
  destruct (Z.ltb_spec (u64 (c + N_BITS)) (next v)) as [_|Hold]; [by eexists _, v|].
  destruct (Z.eqb_spec c (next v)).
  { eexists _, _. split; [done|]. apply wf_set_next; auto using u64_range, wf_set_bit. }
  destruct (Z.ltb_spec c (next v)).
  { destruct (check_bit c v); [by eexists _, v|]. eexists _, _. split; [done|]. by apply wf_set_bit. }
  unfold is_u64 in *. rewrite (u64_small (c - next v)) by (unfold is_u64; lia).
  destruct (Z.leb_spec N_BITS (c - next v)).
  - eexists _, _. split; [done|]. apply wf_set_next; auto using u64_range, wf_set_bit, wf_clear_all.
  - destruct (clear_gap_spec v c) as (v' & E & W' & _); [done|lia| |lia|].
    { unfold u64 in Hold. change N_BITS with 1024 in *. dlia. }
    rewrite E. eexists _, _. split; [done|]. apply wf_set_next; auto using u64_range, wf_set_bit.
Qed.

Definition accepted (rs : list (Z * (unit + WireGuardError))) : list Z :=
  omap (fun '(c, r) => match r with inl _ => Some c | inr _ => None end) rs.

Lemma spec_mark_accept c s s' :
  spec_mark c s = (inl tt, s') -> (forall x, x ∈ s_seen s -> x < s_next s) ->
  (c ∉ s_seen s) /\ s_seen s' = {[c]} ∪ s_seen s.
Proof.
  unfold spec_mark. intros E Hs. repeat case_match; simplify_eq; split; try done.
  - by apply bool_decide_eq_false in H1.
  - intros Hin%Hs. lia.
Qed.

Lemma spec_mark_reject c s e s' : spec_mark c s = (inr e, s') -> s' = s /\ e = InvalidCounter.
Proof. unfold spec_mark. intros E. by repeat case_match; simplify_eq. Qed.

Lemma run_fresh cs : Forall (fun c => 0 <= c < 2 ^ 64 - 1) cs -> forall v s, refines v s ->
  exists rs v', run cs v = Some (rs, v') /\ rs.*1 = cs /\ NoDup (accepted rs) /\
    forall c, c ∈ accepted rs -> c ∉ s_seen s.
Proof.
  induction 1 as [|c cs Hc _ IH]; intros v s R.
  - exists [], v. split_and!; [done..|constructor|]. intros c Hc. by apply not_elem_of_nil in Hc.
  - destruct (mark_refines v s c R Hc) as (v1 & E & R1).
    destruct (spec_mark c s) as [r s1] eqn:Es. cbn [fst snd] in *.
    destruct (IH v1 s1 R1) as (rs & v2 & E2 & Hcs & ND & Hf).
    exists ((c, r) :: rs), v2. cbn [run]. rewrite E. cbn. rewrite E2. cbn.
    split; [done|]. split; [by f_equal|]. destruct r as [[]|e].
    + destruct (spec_mark_accept c s s1 Es) as [Hn Hs]; [apply R|]. split.
      * constructor; [|done]. intros Hin%Hf. set_solver.
      * intros x [->|Hin]%elem_of_cons; [done|]. apply Hf in Hin. set_solver.
    + apply spec_mark_reject in Es as [-> _]. done.
Qed.

(** C4. Replay protection: over any sequence of calls of [mark_did_receive] from a
    fresh validator, every call returns, and no counter is accepted twice.  The
    one counter excluded is [u64::MAX], whose successor wraps. *)
Theorem replay_protection cs :
  Forall (fun c => 0 <= c < 2 ^ 64 - 1) cs ->
  exists rs v, run cs default = Some (rs, v) /\ rs.*1 = cs /\ NoDup (accepted rs).
Proof.
  intros H. destruct (run_fresh cs H default spec_init refines_init) as (rs & v & E & Hcs & ND & _).
  by exists rs, v.
Qed.

Lemma replay_protection_witness :
  Forall (fun c => 0 <= c < 2 ^ 64 - 1) [0; 5; 0; 1100; 90; 1100] /\
  exists rs v, run [0; 5; 0; 1100; 90; 1100] default = Some (rs, v) /\ rs.*1 = [0; 5; 0; 1100; 90; 1100]
    /\ NoDup (accepted rs).
Proof.
  assert (H : Forall (fun c => 0 <= c < 2 ^ 64 - 1) [0; 5; 0; 1100; 90; 1100])
    by (repeat constructor; lia).
  split; [exact H|]. exact (replay_protection _ H).
Defined.

(** C10. The bitmap with its alignment, word and bit loops implements the
    specification: from related states, [mark_did_receive] terminates with the
    verdict of the specification and leaves related states. *)
Theorem mark_did_receive_refinement v s c :
  refines v s -> 0 <= c < 2 ^ 64 - 1 ->
  exists v', mark_did_receive c v = Some ((spec_mark c s).1, v') /\ refines v' (spec_mark c s).2.
Proof. apply mark_refines. Qed.

Lemma mark_did_receive_refinement_witness :
  refines default spec_init /\
  exists v', mark_did_receive 700 default = Some ((spec_mark 700 spec_init).1, v') /\
    refines v' (spec_mark 700 spec_init).2.
Proof.
  split; [exact refines_init|].
  apply (mark_did_receive_refinement default spec_init 700 refines_init). lia.
Defined.

Lemma will_accept_iff_marked_iff v s c :
  refines v s -> 0 <= c < 2 ^ 64 - N_BITS ->
  (will_accept c v = inl tt <-> exists v', mark_did_receive c v = Some (inl tt, v')).
Proof.
  intros R Hc. change N_BITS with 1024 in Hc.
  destruct (mark_refines v s c R) as (v' & E & _); [lia|].
  destruct R as (W & N & Hseen & Hbits). rewrite E. unfold will_accept, spec_mark. rewrite <- N in *.
  rewrite check_bit_bit, (u64_small (c + N_BITS)) by (unfold is_u64; change N_BITS with 1024; lia).
  change N_BITS with 1024 in *.
  destruct (Z.ltb_spec (c + 1024) (next v)), (Z.leb_spec (next v) c), (Z.ltb_spec c (next v));
    try lia; cbn; try (split; [done|intros [? [=]]]).
  - split; [by eauto|done].
  - rewrite Hbits by lia. case_bool_decide; cbn; split; try done; try (intros [? [=]]); eauto.
Qed.



(** Nothing bounds the counter away from [u64::MAX]: accepting it wraps
    [next] to 0 and reopens the whole window, so that a counter already received
    is accepted a second time. *)
Theorem counter_wrap_reopens_window :
  exists v, run [0; 2 ^ 64 - 1; 0] default = Some ([(0, inl tt); (2 ^ 64 - 1, inl tt); (0, inl tt)], v)
    /\ next v = 1.
Proof. eexists. split; [vm_compute; reflexivity|]. reflexivity. Qed.

End Window.

Module Transport.
Import Window.

Section Session.
Context `{Crypto}.

(** [receiver] and [sender] are the keys the two [LessSafeKey]s wrap;
    [sending_key_counter] is the [AtomicUsize] of a 64-bit target and
    [receiving_key_counter] the value behind the mutex. *)
Record Session := mkSession {
  receiving_index : Z;
  sending_index : Z;
  receiver : bytes;
  sender : bytes;
  sending_key_counter : Z;
  receiving_key_counter : ReceivingKeyCounterValidator;
}.

(** [Session::new] *)
Definition new (local_index peer_index : Z) (receiving_key sending_key : bytes) : Session :=
  mkSession local_index peer_index receiving_key sending_key 0 Window.default.

Definition local_index (s : Session) : Z := receiving_index s.

Definition set_sending_key_counter (n : Z) (s : Session) : Session :=
  mkSession (receiving_index s) (sending_index s) (receiver s) (sender s) n (receiving_key_counter s).

Definition set_receiving_key_counter (v : ReceivingKeyCounterValidator) (s : Session) : Session :=
  mkSession (receiving_index s) (sending_index s) (receiver s) (sender s) (sending_key_counter s) v.

(** The result of a validator method as an outcome of the session. *)
Definition verdict (r : unit + WireGuardError) : M WireGuardError Session unit :=
  match r with inl _ => ret tt | inr e => fail e end.

Definition receiving_counter_quick_check (counter : Z) : M WireGuardError Session unit :=
  s <- get;;
  verdict (will_accept counter (receiving_key_counter s)).

Definition receiving_counter_mark (counter : Z) : M WireGuardError Session unit :=
  s <- get;;
  '(r, v) <- unwrap (mark_did_receive counter (receiving_key_counter s));;
  let v := match r with
           | inl _ => mkValidator (next v) (u64 (receive_cnt v + 1)) (bitmap v)
           | inr _ => v
           end in
  modify (set_receiving_key_counter v);;
  verdict r.

(** The 12-byte nonce of a counter. *)
Definition nonce_of (counter : Z) : bytes := splice 4 (to_le 8 counter) (zeros 12).

(** [Session::format_packet_data]: the returned slice of [dst]. *)
Definition format_packet_data (src dst : bytes) : M WireGuardError Session bytes :=
  if bool_decide (length dst < length src + DATA_OVERHEAD_SZ)%nat then panic else
  s <- get;;
  let counter := sending_key_counter s in
  modify (set_sending_key_counter (u64 (counter + 1)));;
  let dst := splice 0 (to_le 4 DATA) dst in
  let dst := splice 4 (to_le 4 (sending_index s)) dst in
  let dst := splice 8 (to_le 8 counter) dst in
  let '(ct, tag) := chacha_seal (sender s) (nonce_of counter) [] src in
  let dst := splice DATA_OFFSET ct dst in
  let dst := splice (DATA_OFFSET + length src) tag dst in
  let n := (length src + AEAD_SIZE)%nat in
  ret (take (DATA_OFFSET + n) dst).

(** [Session::receive_packet_data]: the plaintext left in [dst]. *)
Definition receive_packet_data (packet : PacketData) (dst : bytes) : M WireGuardError Session bytes :=
  let ct := pd_encrypted_encapsulated_packet packet in
  let ct_len := length ct in
  if bool_decide (length dst < ct_len)%nat then panic else
  s <- get;;
  if negb (pd_receiver_idx packet =? receiving_index s) then fail WrongIndex else
  receiving_counter_quick_check (pd_counter packet);;
  let dst := splice 0 ct dst in
  match chacha_open (receiver s) (nonce_of (pd_counter packet)) [] (take ct_len dst) with
  | None => fail InvalidAeadTag
  | Some plaintext =>
      receiving_counter_mark (pd_counter packet);;
      ret plaintext
  end.

Definition current_packet_cnt (s : Session) : Z * Z :=
  (next (receiving_key_counter s), receive_cnt (receiving_key_counter s)).

(** ** Lemmas *)

Definition wf_session (s : Session) : Prop :=
  is_u32 (receiving_index s) /\ is_u32 (sending_index s) /\ is_u64 (sending_key_counter s).

Context `{!CryptoLaws}.

(** The packet does not depend on what the buffer held, and is the encoding of
    a data message with the sealed packet. *)
Lemma format_packet_data_spec src dst s w :
  (length src + DATA_OVERHEAD_SZ <= length dst)%nat ->
  format_packet_data src dst s w =
  let ctr := sending_key_counter s in
  let '(ct, tag) := chacha_seal (sender s) (nonce_of ctr) [] src in
  Ok (encode (PPacketData (mkPacketData (sending_index s) ctr (ct ++ tag))) [])
     (set_sending_key_counter (u64 (ctr + 1)) s) w.
Proof.
  intros L. unfold format_packet_data, DATA_OVERHEAD_SZ in *. rewrite bool_decide_eq_false_2 by lia.
  step. cbn zeta.
  pose proof (chacha_seal_len (sender s) (nonce_of (sending_key_counter s)) [] src) as Lc.
  pose proof (chacha_tag_len (sender s) (nonce_of (sending_key_counter s)) [] src) as Lt.
  destruct (chacha_seal _ _ _ _) as [ct tag] eqn:E. cbn [fst snd] in Lc, Lt. step.
  f_equal.
  change (splice 0 (to_le 4 DATA) dst) with (splice 0 (to_le 4 DATA) ([] ++ dst)).
  unfold DATA_OFFSET, AEAD_SIZE.
  repeat (rewrite splice_after by (rewrite ?length_app, ?length_to_le, ?Lc; cbn; lia)).
  cbn [encode pd_receiver_idx pd_counter pd_encrypted_encapsulated_packet app].
  rewrite app_nil_r, take_app_le by (len; lia). rewrite take_ge by (len; lia).
  by rewrite <- !app_assoc.
Qed.

Lemma length_format src dst s w pkt s' w' :
  format_packet_data src dst s w = Ok pkt s' w' -> length pkt = (length src + 32)%nat.
Proof.
  destruct (decide (length dst < length src + DATA_OVERHEAD_SZ)%nat) as [Hs|Hs].
  - unfold format_packet_data. by rewrite bool_decide_eq_true_2.
  - rewrite format_packet_data_spec by lia. cbn zeta.
    pose proof (chacha_seal_len (sender s) (nonce_of (sending_key_counter s)) [] src) as Lc.
    pose proof (chacha_tag_len (sender s) (nonce_of (sending_key_counter s)) [] src) as Lt.
    destruct (chacha_seal _ _ _ _) as [ct tag]. intros [= <- _ _].
    cbn [encode pd_receiver_idx pd_counter pd_encrypted_encapsulated_packet]. cbn in Lc, Lt. len.
Qed.

(** Receiving with an acceptable counter and a ciphertext that opens. *)
Lemma receive_ok p dst s w sp plaintext :
  refines (receiving_key_counter s) sp -> 0 <= pd_counter p < 2 ^ 64 - N_BITS ->
  (length (pd_encrypted_encapsulated_packet p) <= length dst)%nat ->
  pd_receiver_idx p = receiving_index s ->
  will_accept (pd_counter p) (receiving_key_counter s) = inl tt ->
  chacha_open (receiver s) (nonce_of (pd_counter p)) [] (pd_encrypted_encapsulated_packet p) = Some plaintext ->
  exists s', receive_packet_data p dst s w = Ok plaintext s' w.
Proof.
  intros R Hc L Hi Hacc Ho. unfold receive_packet_data.
  rewrite bool_decide_eq_false_2 by lia. step. rewrite Hi, Z.eqb_refl. cbn [negb].
  unfold receiving_counter_quick_check. step. rewrite Hacc. step. cbn [verdict]. step.
  rewrite take_splice, Ho. step.
  unfold receiving_counter_mark. step.
  apply (proj1 (will_accept_iff_marked_iff _ _ _ R Hc)) in Hacc as [v' E].
  rewrite E. step. by eexists.
Qed.

(** What every method keeps of a session, and that it does not panic. *)
Definition sound (s : Session) : Prop :=
  wf (receiving_key_counter s) /\ is_u32 (receiving_index s) /\ is_u32 (sending_index s).

Lemma sound_new li pi rk sk : is_u32 li -> is_u32 pi -> sound (new li pi rk sk).
Proof. intros Hl Hp. split_and!; [apply wf_default|done|done]. Qed.

Lemma format_packet_data_sound src dst s w :
  sound s -> (length src + DATA_OVERHEAD_SZ <= length dst)%nat ->
  exists i c e s', format_packet_data src dst s w = Ok (encode (PPacketData (mkPacketData i c e)) []) s' w /\
    (16 <= length e)%nat /\ sound s' /\ receiving_index s' = receiving_index s.
Proof.
  intros Hs L. rewrite format_packet_data_spec by done. cbn zeta.
  pose proof (chacha_tag_len (sender s) (nonce_of (sending_key_counter s)) [] src) as Lt.
  destruct (chacha_seal _ _ _ _) as [ct tag]. cbn [snd] in Lt. eexists _, _, _, _. split; [reflexivity|].
  split_and!; [len|apply Hs..|done].
Qed.

Lemma receive_packet_data_sound p dst s w :
  sound s -> is_u64 (pd_counter p) -> (length (pd_encrypted_encapsulated_packet p) <= length dst)%nat ->
  match receive_packet_data p dst s w with
  | Ok _ s' w' | Fail _ s' w' => sound s' /\ receiving_index s' = receiving_index s /\ w' = w
  | Panic => False
  end.
Proof.
  intros Hs Hc L. unfold receive_packet_data. rewrite bool_decide_eq_false_2 by lia. step.
  destruct (_ =? _); cbn [negb]; [|done].
  unfold receiving_counter_quick_check. step.
  destruct (will_accept _ _) as [[]|e]; cbn [verdict]; step; [|done].
  destruct (chacha_open _ _ _ _) as [pt|]; step; [|done].
  unfold receiving_counter_mark. step.
  destruct Hs as (W & Hr & Hi). destruct (mark_total _ _ W Hc) as (r & v' & E & W'). rewrite E. step.
  destruct r as [[]|e]; cbn [verdict]; step; done.
Qed.

(** ** Properties of sessions *)

(** What one side formats, the other side's parser and session recover: for a
    pair of sessions that share a key and an index, the packet parses as a data
    message and decrypts to the packet that was sent, whenever the receiver's
    window accepts the sender's counter. *)
Theorem session_roundtrip `{Features} src dst dst' a b w w' sp :
  wf_session a -> sender a = receiver b -> sending_index a = receiving_index b ->
  sending_key_counter a < 2 ^ 64 - N_BITS ->
  refines (receiving_key_counter b) sp ->
  will_accept (sending_key_counter a) (receiving_key_counter b) = inl tt ->
  (length src + 32 <= length dst)%nat -> (length src + 16 <= length dst')%nat ->
  exists pkt a' p b',
    format_packet_data src dst a w = Ok pkt a' w /\
    parse_incoming_packet pkt = inl (PPacketData p) /\
    receive_packet_data p dst' b w' = Ok src b' w'.
Proof.
  intros (Hri & Hsi & Hct) Hk Hidx Hmax R Hacc L L'. rewrite format_packet_data_spec by done.
  cbn zeta. set (ctr := sending_key_counter a) in *.
  pose proof (chacha_seal_len (sender a) (nonce_of ctr) [] src) as Lc.
  pose proof (chacha_tag_len (sender a) (nonce_of ctr) [] src) as Lt.
  pose proof (chacha_open_seal (sender a) (nonce_of ctr) [] src) as Ho.
  destruct (chacha_seal _ _ _ _) as [ct tag]. cbn [fst snd] in Lc, Lt, Ho.
  set (p := mkPacketData (sending_index a) ctr (ct ++ tag)).
  destruct (receive_ok p dst' b w' sp src) as [b' Hb].
  - done.
  - unfold is_u64 in Hct. cbn. lia.
  - cbn. len.
  - done.
  - done.
  - cbn. by rewrite <- Hk.
  - eexists _, _, p, b'. split_and!; [done| |done].
    apply parse_encode_ok; [|done|done]. cbn. split_and!; [done..|]. len.
Qed.

(** A run of the receiver over datagrams: the counters it delivered, or [None]
    if some call panics. *)
Fixpoint receive_all (ps : list PacketData) (dst : bytes) (s : Session) (w : World) : option (list Z) :=
  match ps with
  | [] => Some []
  | p :: ps =>
      match receive_packet_data p dst s w with
      | Ok _ s w => cons (pd_counter p) <$> receive_all ps dst s w
      | Fail _ s w => receive_all ps dst s w
      | Panic => None
      end
  end.

Lemma refines_count v sp n :
  refines v sp -> refines (mkValidator (next v) n (bitmap v)) sp.
Proof. done. Qed.

(** One call, whatever its outcome, follows the window's specification. *)
Lemma receive_step p dst s w sp :
  refines (receiving_key_counter s) sp -> 0 <= pd_counter p < 2 ^ 64 - 1 ->
  (length (pd_encrypted_encapsulated_packet p) <= length dst)%nat ->
  match receive_packet_data p dst s w with
  | Ok _ s' _ => exists sp', spec_mark (pd_counter p) sp = (inl tt, sp') /\
                   refines (receiving_key_counter s') sp'
  | Fail _ s' _ => refines (receiving_key_counter s') sp
  | Panic => False
  end.
Proof.
  intros R Hc L. unfold receive_packet_data. rewrite bool_decide_eq_false_2 by lia. step.
  destruct (pd_receiver_idx p =? receiving_index s); cbn [negb]; [|done].
  unfold receiving_counter_quick_check. step.
  destruct (will_accept _ _) as [[]|e]; cbn [verdict]; step; [|done].
  rewrite take_splice. destruct (chacha_open _ _ _ _) as [pt|]; step; [|done].
  unfold receiving_counter_mark. step.
  destruct (mark_refines _ sp (pd_counter p) R Hc) as (v' & E & R').
  rewrite E. step. destruct (spec_mark (pd_counter p) sp) as [r sp'] eqn:Es. cbn [fst snd] in R' |- *.
  destruct r as [[]|e]; cbn [verdict]; step.
  - exists sp'. split; [done|]. by apply refines_count.
  - apply spec_mark_reject in Es as [-> _]. done.
Qed.

Lemma receive_all_fresh dst ps :
  Forall (fun p => 0 <= pd_counter p < 2 ^ 64 - 1 /\
                   (length (pd_encrypted_encapsulated_packet p) <= length dst)%nat) ps ->
  forall s w sp, refines (receiving_key_counter s) sp ->
  exists cs, receive_all ps dst s w = Some cs /\ NoDup cs /\ forall c, c ∈ cs -> c ∉ s_seen sp.
Proof.
  induction 1 as [|p ps [Hc L] _ IH]; intros s w sp R.
  - exists []. split_and!; [done|constructor|]. intros c Hc. by apply not_elem_of_nil in Hc.
  - cbn [receive_all]. pose proof (receive_step p dst s w sp R Hc L) as Hs.
    destruct (receive_packet_data p dst s w) as [pt s' w1|e s' w1|]; [| |done].
    + destruct Hs as (sp' & Es & R'). destruct (IH s' w1 sp' R') as (cs & E & ND & Hf).
      rewrite E. exists (pd_counter p :: cs). destruct (spec_mark_accept _ _ _ Es) as [Hn Hseen]; [apply R|].
      split_and!; [done| |].
      * constructor; [|done]. intros Hin%Hf. set_solver.
      * intros c [->|Hin]%elem_of_cons; [done|]. apply Hf in Hin. set_solver.
    + by apply IH.
Qed.

(** A new session never delivers two packets with the same counter, and never
    panics, whatever datagrams arrive (the decryption buffer being large enough
    and [u64::MAX] not used as a counter). *)
Theorem session_delivers_once li pi rk sk ps dst w :
  Forall (fun p => 0 <= pd_counter p < 2 ^ 64 - 1 /\
                   (length (pd_encrypted_encapsulated_packet p) <= length dst)%nat) ps ->
  exists cs, receive_all ps dst (new li pi rk sk) w = Some cs /\ NoDup cs.
Proof.
  intros Hps. destruct (receive_all_fresh dst ps Hps (new li pi rk sk) w spec_init refines_init)
    as (cs & E & ND & _). by exists cs.
Qed.

(** A run of the sender: the counters of the packets it emits, read back from
    the packets themselves. *)
Fixpoint send_all `{Features} (srcs : list bytes) (dst : bytes) (s : Session) (w : World) : option (list Z) :=
  match srcs with
  | [] => Some []
  | src :: srcs =>
      match format_packet_data src dst s w with
      | Ok pkt s w =>
          match parse_incoming_packet pkt with
          | inl (PPacketData p) => cons (pd_counter p) <$> send_all srcs dst s w
          | _ => None
          end
      | _ => None
      end
  end.

Lemma send_all_counters `{Features} dst srcs : Forall (fun src => length src + 32 <= length dst)%nat srcs ->
  forall s w, wf_session s ->
  send_all srcs dst s w =
  Some ((fun i => u64 (sending_key_counter s + Z.of_nat i)) <$> seq 0 (length srcs)).
Proof.
  induction 1 as [|src srcs L _ IH]; intros s w W; [done|].
  cbn [send_all]. rewrite format_packet_data_spec by done. cbn zeta.
  set (ctr := sending_key_counter s).
  pose proof (chacha_seal_len (sender s) (nonce_of ctr) [] src) as Lc.
  pose proof (chacha_tag_len (sender s) (nonce_of ctr) [] src) as Lt.
  destruct (chacha_seal _ _ _ _) as [ct tag]. cbn [fst snd] in Lc, Lt.
  destruct W as (W1 & W2 & W3). rewrite parse_encode_ok; [|cbn; split_and!; [done..|len]|done|done].
  rewrite IH by (split_and!; [done..|apply u64_range]). cbn [pd_counter fmap option_fmap option_map].
  f_equal. cbn [length seq fmap list_fmap]. f_equal.
  - unfold ctr. rewrite Z.add_0_r. by rewrite u64_small.
  - rewrite <- fmap_S_seq, <- list_fmap_compose. apply list_fmap_ext. intros _ i _. cbn.
    unfold u64, ctr. rewrite Zplus_mod_idemp_l. f_equal. lia.
Qed.

(** Nonces are never reused: the counters of any [n <= 2^64] packets sent in a
    row by one session are pairwise distinct. *)
Theorem send_counters_distinct `{Features} srcs dst s w :
  wf_session s -> Z.of_nat (length srcs) <= 2 ^ 64 ->
  Forall (fun src => length src + 32 <= length dst)%nat srcs ->
  exists cs, send_all srcs dst s w = Some cs /\ length cs = length srcs /\ NoDup cs.
Proof.
  intros W Hn L. rewrite send_all_counters by done. eexists. split; [done|].
  split; [by rewrite length_fmap, length_seq|].
  apply NoDup_fmap_2_strong; [|apply NoDup_seq].
  intros i j Hi%elem_of_seq Hj%elem_of_seq E. unfold u64 in E.
  destruct W as (_ & _ & Hc). unfold is_u64 in Hc. dlia.
Qed.

End Session.

(** ** Witnesses *)

#[local] Existing Instances pq_build Toy.crypto Toy.laws.

Definition alice : Session := new 7 9 (zeros 32) (bytes_of [1]).
Definition bob : Session := new 9 7 (bytes_of [1]) (zeros 32).

Lemma session_roundtrip_witness :
  exists pkt a' p b',
    format_packet_data (bytes_of [1; 2; 3]) (zeros 64) alice (mkWorld 0 0 0 0) = Ok pkt a' (mkWorld 0 0 0 0) /\
    parse_incoming_packet pkt = inl (PPacketData p) /\
    receive_packet_data p (zeros 64) bob (mkWorld 0 0 0 0) = Ok (bytes_of [1; 2; 3]) b' (mkWorld 0 0 0 0).
Proof.
  apply (session_roundtrip (bytes_of [1; 2; 3]) (zeros 64) (zeros 64) alice bob
           (mkWorld 0 0 0 0) (mkWorld 0 0 0 0) spec_init).
  - split_and!; done.
  - reflexivity.
  - reflexivity.
  - vm_compute; reflexivity.
  - exact refines_init.
  - vm_compute; reflexivity.
  - vm_compute; lia.
  - vm_compute; lia.
Defined.

Lemma session_delivers_once_witness :
  exists cs, receive_all [mkPacketData 9 3 (zeros 16); mkPacketData 9 3 (zeros 16)] (zeros 16)
    (new 9 7 (bytes_of [1]) (zeros 32)) (mkWorld 0 0 0 0) = Some cs /\ NoDup cs.
Proof.
  apply (session_delivers_once 9 7 (bytes_of [1]) (zeros 32)).
  repeat constructor; cbn; lia.
Defined.

Lemma send_counters_distinct_witness :
  exists cs, send_all [bytes_of [1]; bytes_of [2]] (zeros 64) alice (mkWorld 0 0 0 0) = Some cs /\
    length cs = 2%nat /\ NoDup cs.
Proof.
  apply (send_counters_distinct [bytes_of [1]; bytes_of [2]] (zeros 64) alice (mkWorld 0 0 0 0)).
  - split_and!; done.
  - cbn; lia.
  - repeat constructor; cbn; lia.
Defined.

End Transport.
