(* ===== verification/Instant.v ===== *)
(** * Time: [sleepyinstant] and the [Duration] operations the program uses

    A duration is a number of nanoseconds.  [TimeSpec] is a reading of
    [clock_gettime]; the arithmetic on its two fields is shown to be the
    saturating difference in nanoseconds, which is how the rest of the
    development treats instants. *)

From S2P Require Import Prelude.

Definition NANOSECOND : Z := 1000000000.

(** [Duration::from_secs], [as_secs], [subsec_nanos], [as_millis] *)
Definition from_secs (s : Z) : Z := s * NANOSECOND.
Definition as_secs (d : Z) : Z := d / NANOSECOND.
Definition subsec_nanos (d : Z) : Z := d mod NANOSECOND.
Definition as_millis (d : Z) : Z := d / 1000000.

(** [Duration + Duration] and [Duration - Duration] panic on overflow: a
    duration holds fewer than [2^64] seconds and is never negative. *)
Definition MAX_DURATION : Z := 2 ^ 64 * NANOSECOND.

Definition dur_add {E S} (a b : Z) : M E S Z :=
  if a + b <? MAX_DURATION then ret (a + b) else panic.

Definition dur_sub {E S} (a b : Z) : M E S Z :=
  if b <=? a then ret (a - b) else panic.

Module Unix.

(** [nix::sys::time::TimeSpec] *)
Record Instant := mkInstant { tv_sec : Z; tv_nsec : Z }.

(** [Duration::new(secs, nanos)] for [nanos] below one second. *)
Definition duration_new (secs nanos : Z) : Z := secs * NANOSECOND + nanos.

Definition checked_duration_since (self earlier : Instant) : option Z :=
  let '(sec, nsec) :=
    if tv_nsec self <? tv_nsec earlier then
      (tv_sec self - tv_sec earlier - 1, tv_nsec self - tv_nsec earlier + NANOSECOND)
    else (tv_sec self - tv_sec earlier, tv_nsec self - tv_nsec earlier) in
  if sec <? 0 then None else Some (duration_new sec nsec).

Definition duration_since (self earlier : Instant) : Z :=
  default 0 (checked_duration_since self earlier).

Definition normalised (i : Instant) : Prop := 0 <= tv_nsec i < NANOSECOND.
Definition nanos (i : Instant) : Z := tv_sec i * NANOSECOND + tv_nsec i.

(** On normalised readings the field-wise subtraction with its borrow is the
    difference of the two instants in nanoseconds, saturating at zero when the
    earlier instant is in fact the later one: it never panics, whatever the
    comment above [Instant::duration_since] says. *)
Theorem duration_since_saturates a b :
  normalised a -> normalised b -> duration_since a b = Z.max 0 (nanos a - nanos b).
Proof.
  unfold normalised, duration_since, checked_duration_since, duration_new, nanos, NANOSECOND.
  intros Ha Hb. destruct (Z.ltb_spec (tv_nsec a) (tv_nsec b)); case_match; cbn; lia.
Qed.

Lemma duration_since_saturates_witness :
  duration_since (mkInstant 5 1) (mkInstant 3 999999999) =
  Z.max 0 (nanos (mkInstant 5 1) - nanos (mkInstant 3 999999999)).
Proof. apply duration_since_saturates; vm_compute; split; (discriminate || reflexivity). Defined.

End Unix.

(** [Instant::duration_since] on instants in nanoseconds. *)
Definition duration_since (self earlier : Z) : Z := Z.max 0 (self - earlier).

(** [Instant::elapsed] *)
Definition elapsed {E S} `{Env} (self : Z) : M E S Z := t <- now;; ret (duration_since t self).
