(* ===== verification/Handshake.v ===== *)
(** * The Noise handshake: [noise/handshake.rs]

    Every function of the file, classical and hybrid: the hash and AEAD
    wrappers, the timestamps, the state of a handshake and the methods that
    build and consume its messages.  [HandshakeSpec] relates them to the Noise
    protocol, [HandshakeProps] states what two peers get from them. *)

From S2P Require Import Prelude Packet Crypto Session Instant.

(** ** Constants *)

Definition LABEL_MAC1 : bytes := bytes_of [109; 97; 99; 49; 45; 45; 45; 45].
Definition LABEL_COOKIE : bytes := bytes_of [99; 111; 111; 107; 105; 101; 45; 45].
Definition KEY_LEN : nat := 32.
Definition TIMESTAMP_LEN : nat := 12.

Definition INITIAL_CHAIN_KEY : bytes := bytes_of
  [96; 226; 109; 174; 243; 39; 239; 192; 46; 195; 53; 226; 160; 37; 210; 208; 22; 235; 66; 6; 248;
   114; 119; 245; 45; 56; 209; 152; 139; 120; 205; 54].
Definition INITIAL_CHAIN_HASH : bytes := bytes_of
  [34; 17; 179; 97; 8; 26; 197; 102; 105; 18; 67; 219; 69; 138; 213; 50; 45; 156; 108; 102; 34;
   147; 232; 183; 14; 225; 156; 101; 186; 7; 158; 243].
Definition INITIAL_CHAIN_KEY_PQ : bytes := bytes_of
  [92; 212; 118; 82; 10; 10; 246; 131; 71; 61; 77; 160; 151; 184; 203; 249; 86; 84; 163; 106; 11;
   2; 99; 179; 63; 208; 66; 103; 187; 164; 135; 172].
Definition INITIAL_CHAIN_HASH_PQ : bytes := bytes_of
  [230; 124; 28; 213; 149; 146; 162; 100; 240; 251; 122; 175; 64; 160; 57; 141; 94; 165; 206; 197;
   218; 229; 9; 122; 57; 38; 118; 2; 81; 247; 29; 235].

(** The one-byte inputs [&[0x01]], [&[0x02]] and [&[0x03]] of the key
    derivation. *)
Definition b01 : bytes := bytes_of [1].
Definition b02 : bytes := bytes_of [2].
Definition b03 : bytes := bytes_of [3].

(** ** Hashing and AEAD wrappers *)

Section Wrappers.
Context `{Crypto}.

Definition b2s_hash (data1 data2 : bytes) : bytes := blake2s256 [data1; data2].
Definition b2s_hmac (key data1 : bytes) : bytes := hmac_blake2s key [data1].
Definition b2s_hmac2 (key data1 data2 : bytes) : bytes := hmac_blake2s key [data1; data2].
Definition b2s_keyed_mac_16 (key data1 : bytes) : bytes := blake2s_mac 16 key [data1].
Definition b2s_keyed_mac_16_2 (key data1 data2 : bytes) : bytes := blake2s_mac 16 key [data1; data2].
Definition b2s_mac_24 (key data1 : bytes) : bytes := blake2s_mac 24 key [data1].

Context {S : Type}.

(** [n] is the length of the slice [ciphertext]; the result is what it holds
    afterwards.  Copying the tag panics when the slice has another length. *)
Definition aead_chacha20_seal (n : nat) (key : bytes) (counter : Z) (data aad : bytes) :
  M WireGuardError S bytes :=
  let nonce := Transport.nonce_of counter in
  let '(ct, tag) := chacha_seal key nonce aad data in
  if bool_decide (n = length data + length tag)%nat then ret (ct ++ tag) else panic.

(** [n] is the length of [buffer], the result what it holds afterwards. *)
Definition aead_chacha20_open (n : nat) (key : bytes) (counter : Z) (data aad : bytes) :
  M WireGuardError S bytes :=
  let nonce := Transport.nonce_of counter in
  match chacha_open key nonce aad data with
  | None => fail InvalidAeadTag
  | Some plaintext => if bool_decide (n = length plaintext) then ret plaintext else panic
  end.

End Wrappers.

(** ** Timestamps *)

Record Tai64N := mkTai64N { secs : Z; nano : Z }.

Record TimeStamper := mkTimeStamper { duration_at_start : Z; instant_at_start : Z }.

Definition TAI64_BASE : Z := Z.shiftl 1 62 + 37.

Module Stamp.
Section Stamper.
Context `{Env} {E S : Type}.

(** [TimeStamper::new]: a wall clock before the epoch is the [unwrap] of an
    error. *)
Definition new : M E S TimeStamper :=
  t <- wall_now;;
  if t <? 0 then panic else
  i <- now;;
  ret (mkTimeStamper t i).

(** [TimeStamper::stamp] *)
Definition stamp (self : TimeStamper) : M E S bytes :=
  let ext_stamp := zeros 12 in
  t <- now;;
  stamp <- dur_add (duration_since t (instant_at_start self)) (duration_at_start self);;
  let ext_stamp := splice 0 (to_be 8 (u64 (as_secs stamp + TAI64_BASE))) ext_stamp in
  let ext_stamp := splice 8 (to_be 4 (subsec_nanos stamp)) ext_stamp in
  ret ext_stamp.

End Stamper.
End Stamp.

Module Tai.
Definition zero : Tai64N := mkTai64N 0 0.

(** [Tai64N::parse] *)
Definition parse (buf : bytes) : Tai64N + WireGuardError :=
  if bool_decide (length buf < 12)%nat then inr InvalidTai64nTimestamp else
  inl (mkTai64N (from_be (take 8 buf)) (from_be (drop 8 buf))).

(** [Tai64N::after] *)
Definition after (self other : Tai64N) : bool :=
  (secs other <? secs self) || ((secs self =? secs other) && (nano other <? nano self)).
End Tai.

(** ** State *)

Record NoiseParams := mkNoiseParams {
  static_public : bytes;
  static_private : bytes;
  peer_static_public : bytes;
  static_shared : bytes;
  sending_mac1_key : bytes;
  preshared_key : option bytes;
}.

Record HandshakeInitSentState := mkInitSent {
  is_local_index : Z;
  is_hash : bytes;
  is_chaining_key : bytes;
  is_ephemeral_private : bytes;
  is_time_sent : Z;
  is_mlkem_decapsulation_key : option bytes;
}.

Inductive HandshakeState :=
| HsNone
| InitSent (s : HandshakeInitSentState)
| InitReceived (hash chaining_key peer_ephemeral_public : bytes) (peer_index : Z)
    (mlkem_encapsulation_key : option bytes)
| Expired.

Record Cookies := mkCookies {
  last_mac1 : option bytes;
  index : Z;
  write_cookie : option bytes;
}.

Record Handshake := mkHandshake {
  params : NoiseParams;
  next_index : Z;
  previous : HandshakeState;
  state : HandshakeState;
  cookies : Cookies;
  last_handshake_timestamp : Tai64N;
  stamper : TimeStamper;
  last_rtt : option Z;
}.

Record HalfHandshake := mkHalfHandshake {
  hh_peer_index : Z;
  hh_peer_static_public : bytes;
}.

(** Assignments to the fields of [self]. *)
Definition set_params x h := mkHandshake x (next_index h) (previous h) (state h) (cookies h)
  (last_handshake_timestamp h) (stamper h) (last_rtt h).
Definition set_next_index x h := mkHandshake (params h) x (previous h) (state h) (cookies h)
  (last_handshake_timestamp h) (stamper h) (last_rtt h).
Definition set_previous x h := mkHandshake (params h) (next_index h) x (state h) (cookies h)
  (last_handshake_timestamp h) (stamper h) (last_rtt h).
Definition set_state x h := mkHandshake (params h) (next_index h) (previous h) x (cookies h)
  (last_handshake_timestamp h) (stamper h) (last_rtt h).
Definition set_cookies x h := mkHandshake (params h) (next_index h) (previous h) (state h) x
  (last_handshake_timestamp h) (stamper h) (last_rtt h).
Definition set_last_handshake_timestamp x h := mkHandshake (params h) (next_index h) (previous h)
  (state h) (cookies h) x (stamper h) (last_rtt h).
Definition set_last_rtt x h := mkHandshake (params h) (next_index h) (previous h) (state h)
  (cookies h) (last_handshake_timestamp h) (stamper h) x.

(** [self.previous = std::mem::replace(&mut self.state, s)] *)
Definition replace_state s h := set_state s (set_previous (state h) h).

(** ** Methods *)

Section Methods.
Context `{Features, Crypto, Env}.

Abbreviation HM := (M WireGuardError Handshake).

(** The responder's static key is read from an initiation without knowing who
    the initiator is. *)
Definition parse_handshake_anon {S} (static_private static_public : bytes) (packet : HandshakeInit) :
  M WireGuardError S HalfHandshake :=
  let peer_index := hi_sender_idx packet in
  let chaining_key := INITIAL_CHAIN_KEY in
  let hash := INITIAL_CHAIN_HASH in
  let hash := b2s_hash hash static_public in
  let peer_ephemeral_public := hi_unencrypted_ephemeral packet in
  let hash := b2s_hash hash peer_ephemeral_public in
  let chaining_key := b2s_hmac (b2s_hmac chaining_key peer_ephemeral_public) b01 in
  let ephemeral_shared := x25519_dh static_private peer_ephemeral_public in
  let temp := b2s_hmac chaining_key ephemeral_shared in
  let chaining_key := b2s_hmac temp b01 in
  let key := b2s_hmac2 temp chaining_key b02 in
  peer_static_public <- aead_chacha20_open KEY_LEN key 0 (hi_encrypted_static packet) hash;;
  ret (mkHalfHandshake peer_index peer_static_public).

Definition parse_pq_handshake_anon {S} (static_private static_public : bytes) (packet : PqHandshakeInit) :
  M WireGuardError S HalfHandshake :=
  let peer_index := pqi_sender_idx packet in
  let chaining_key := INITIAL_CHAIN_KEY_PQ in
  let hash := INITIAL_CHAIN_HASH_PQ in
  let hash := b2s_hash hash static_public in
  let peer_ephemeral_public := pqi_unencrypted_ephemeral packet in
  let hash := b2s_hash hash peer_ephemeral_public in
  let chaining_key := b2s_hmac (b2s_hmac chaining_key peer_ephemeral_public) b01 in
  let ephemeral_shared := x25519_dh static_private peer_ephemeral_public in
  let temp := b2s_hmac chaining_key ephemeral_shared in
  let chaining_key := b2s_hmac temp b01 in
  let key := b2s_hmac2 temp chaining_key b02 in
  peer_static_public <- aead_chacha20_open KEY_LEN key 0 (pqi_encrypted_static packet) hash;;
  ret (mkHalfHandshake peer_index peer_static_public).

(** [NoiseParams::new] *)
Definition noise_params_new (static_private static_public peer_static_public : bytes)
  (preshared_key : option bytes) : NoiseParams :=
  let static_shared := x25519_dh static_private peer_static_public in
  let initial_sending_mac_key := b2s_hash LABEL_MAC1 peer_static_public in
  mkNoiseParams static_public static_private peer_static_public static_shared
    initial_sending_mac_key preshared_key.

(** [NoiseParams::set_static_private]; a public key that does not match fails
    its assertion. *)
Definition noise_params_set_static_private (private public : bytes) : M WireGuardError NoiseParams unit :=
  let check_key := x25519_public private in
  if negb (bool_decide (check_key = public)) then panic else
  modify (fun p => mkNoiseParams public private (peer_static_public p)
                     (x25519_dh private (peer_static_public p))
                     (sending_mac1_key p) (preshared_key p)).

(** [Handshake::new] *)
Definition new {E S} (static_private static_public peer_static_public : bytes) (global_idx : Z)
  (preshared_key : option bytes) : M E S Handshake :=
  let params := noise_params_new static_private static_public peer_static_public preshared_key in
  stamper <- Stamp.new;;
  ret (mkHandshake params global_idx HsNone HsNone (mkCookies None 0 None) Tai.zero stamper None).

Definition is_in_progress (self : Handshake) : bool :=
  match state self with HsNone | Expired => false | _ => true end.

Definition timer (self : Handshake) : option Z :=
  match state self with InitSent s => Some (is_time_sent s) | _ => None end.

Definition set_expired (self : Handshake) : Handshake := set_state Expired (set_previous Expired self).

Definition is_expired (self : Handshake) : bool :=
  match state self with Expired => true | _ => false end.

Definition has_cookie (self : Handshake) : bool :=
  match write_cookie (cookies self) with Some _ => true | None => false end.

Definition clear_cookie (self : Handshake) : Handshake :=
  set_cookies (mkCookies (last_mac1 (cookies self)) (index (cookies self)) None) self.

(** [Handshake::inc_index]: [!0xff] is the 32-bit complement. *)
Definition inc_index : HM Z :=
  self <- get;;
  let index := next_index self in
  let idx8 := u8 index in
  let next := Z.lor (Z.land index 4294967040) (u8 (idx8 + 1)) in
  modify (set_next_index next);;
  ret next.

Definition set_static_private (private_key public_key : bytes) : HM unit :=
  zoom params set_params (noise_params_set_static_private private_key public_key).

(** [Handshake::append_mac1_and_mac2]; [dst] is exactly the message. *)
Definition append_mac1_and_mac2 (local_index : Z) (dst : bytes) : HM bytes :=
  self <- get;;
  let mac1_off := (length dst - 32)%nat in
  let mac2_off := (length dst - 16)%nat in
  let msg_mac1 := b2s_keyed_mac_16 (sending_mac1_key (params self)) (take mac1_off dst) in
  let dst := splice mac1_off msg_mac1 dst in
  let msg_mac2 := match write_cookie (cookies self) with
                  | Some cookie => b2s_keyed_mac_16 cookie (take mac2_off dst)
                  | None => zeros 16
                  end in
  let dst := splice mac2_off msg_mac2 dst in
  modify (set_cookies (mkCookies (Some msg_mac1) local_index (write_cookie (cookies self))));;
  ret dst.

Definition format_handshake_response (dst : bytes) : HM (bytes * Transport.Session) :=
  if bool_decide (length dst < HANDSHAKE_RESP_SZ)%nat then fail DestinationBufferTooSmall else
  self <- get;;
  modify (set_state HsNone);;
  match state self with
  | InitReceived hash chaining_key peer_ephemeral_public peer_index _ =>
      stream <- draw;;
      let ephemeral_private := fill_bytes 32 stream in
      local_index <- inc_index;;
      let dst := splice 0 (to_le 4 HANDSHAKE_RESP) dst in
      let dst := splice 4 (to_le 4 local_index) dst in
      let dst := splice 8 (to_le 4 peer_index) dst in
      let unencrypted_ephemeral := x25519_public ephemeral_private in
      let dst := splice 12 unencrypted_ephemeral dst in
      let hash := b2s_hash hash unencrypted_ephemeral in
      let temp := b2s_hmac chaining_key unencrypted_ephemeral in
      let chaining_key := b2s_hmac temp b01 in
      let ephemeral_shared := x25519_dh ephemeral_private peer_ephemeral_public in
      let temp := b2s_hmac chaining_key ephemeral_shared in
      let chaining_key := b2s_hmac temp b01 in
      let temp := b2s_hmac chaining_key
                    (x25519_dh ephemeral_private (peer_static_public (params self))) in
      let chaining_key := b2s_hmac temp b01 in
      let temp := b2s_hmac chaining_key (default (zeros 32) (preshared_key (params self))) in
      let chaining_key := b2s_hmac temp b01 in
      let temp2 := b2s_hmac2 temp chaining_key b02 in
      let key := b2s_hmac2 temp temp2 b03 in
      let hash := b2s_hash hash temp2 in
      encrypted_nothing <- aead_chacha20_seal 16 key 0 [] hash;;
      let dst := splice 44 encrypted_nothing dst in
      let temp1 := b2s_hmac chaining_key [] in
      let temp2 := b2s_hmac temp1 b01 in
      let temp3 := b2s_hmac2 temp1 temp2 b02 in
      dst <- append_mac1_and_mac2 local_index (take HANDSHAKE_RESP_SZ dst);;
      ret (dst, Transport.new local_index peer_index temp2 temp3)
  | _ => panic
  end.

Definition receive_handshake_initialization (packet : HandshakeInit) (dst : bytes) :
  HM (bytes * Transport.Session) :=
  self <- get;;
  let chaining_key := INITIAL_CHAIN_KEY in
  let hash := INITIAL_CHAIN_HASH in
  let hash := b2s_hash hash (static_public (params self)) in
  let peer_index := hi_sender_idx packet in
  let peer_ephemeral_public := hi_unencrypted_ephemeral packet in
  let hash := b2s_hash hash peer_ephemeral_public in
  let chaining_key := b2s_hmac (b2s_hmac chaining_key peer_ephemeral_public) b01 in
  let ephemeral_shared := x25519_dh (static_private (params self)) peer_ephemeral_public in
  let temp := b2s_hmac chaining_key ephemeral_shared in
  let chaining_key := b2s_hmac temp b01 in
  let key := b2s_hmac2 temp chaining_key b02 in
  peer_static_public_decrypted <-
    aead_chacha20_open KEY_LEN key 0 (hi_encrypted_static packet) hash;;
  if negb (bool_decide (peer_static_public (params self) = peer_static_public_decrypted))
  then fail WrongKey else
  let hash := b2s_hash hash (hi_encrypted_static packet) in
  let temp := b2s_hmac chaining_key (static_shared (params self)) in
  let chaining_key := b2s_hmac temp b01 in
  let key := b2s_hmac2 temp chaining_key b02 in
  timestamp <- aead_chacha20_open TIMESTAMP_LEN key 0 (hi_encrypted_timestamp packet) hash;;
  match Tai.parse timestamp with
  | inr e => fail e
  | inl timestamp =>
      if negb (Tai.after timestamp (last_handshake_timestamp self))
      then fail WrongTai64nTimestamp else
      modify (set_last_handshake_timestamp timestamp);;
      let hash := b2s_hash hash (hi_encrypted_timestamp packet) in
      modify (replace_state (InitReceived hash chaining_key peer_ephemeral_public peer_index None));;
      format_handshake_response dst
  end.

(** The pending initiation a response with index [i] answers, and whether it
    is the previous one. *)
Definition awaiting (i : Z) (self : Handshake) : option (HandshakeInitSentState * bool) :=
  let previous_match :=
    match previous self with
    | InitSent s => if is_local_index s =? i then Some (s, true) else None
    | _ => None
    end in
  match state self with
  | InitSent s => if is_local_index s =? i then Some (s, false) else previous_match
  | _ => previous_match
  end.

Definition receive_handshake_response (packet : HandshakeResponse) : HM Transport.Session :=
  self <- get;;
  '(st, is_previous) <- ok_or UnexpectedPacket (awaiting (hr_receiver_idx packet) self);;
  if pq && bool_decide (is_Some (is_mlkem_decapsulation_key st)) then fail WrongPacketType else
  let peer_index := hr_sender_idx packet in
  let local_index := is_local_index st in
  let unencrypted_ephemeral := hr_unencrypted_ephemeral packet in
  let hash := b2s_hash (is_hash st) unencrypted_ephemeral in
  let temp := b2s_hmac (is_chaining_key st) unencrypted_ephemeral in
  let chaining_key := b2s_hmac temp b01 in
  let ephemeral_shared := x25519_dh (is_ephemeral_private st) unencrypted_ephemeral in
  let temp := b2s_hmac chaining_key ephemeral_shared in
  let chaining_key := b2s_hmac temp b01 in
  let temp := b2s_hmac chaining_key (x25519_dh (static_private (params self)) unencrypted_ephemeral) in
  let chaining_key := b2s_hmac temp b01 in
  let temp := b2s_hmac chaining_key (default (zeros 32) (preshared_key (params self))) in
  let chaining_key := b2s_hmac temp b01 in
  let temp2 := b2s_hmac2 temp chaining_key b02 in
  let key := b2s_hmac2 temp temp2 b03 in
  let hash := b2s_hash hash temp2 in
  aead_chacha20_open 0 key 0 (hr_encrypted_nothing packet) hash;;
  let temp1 := b2s_hmac chaining_key [] in
  let temp2 := b2s_hmac temp1 b01 in
  let temp3 := b2s_hmac2 temp1 temp2 b02 in
  t <- now;;
  let rtt_time := duration_since t (is_time_sent st) in
  modify (set_last_rtt (Some (u32 (as_millis rtt_time))));;
  (if is_previous : bool then modify (set_previous HsNone) else modify (set_state HsNone));;
  ret (Transport.new local_index peer_index temp3 temp2).

(** [plaintext.try_into()] needs 16 bytes. *)
Definition receive_cookie_reply (packet : PacketCookieReply) : HM unit :=
  self <- get;;
  mac1 <- ok_or UnexpectedPacket (last_mac1 (cookies self));;
  let local_index := index (cookies self) in
  if negb (cr_receiver_idx packet =? local_index) then fail WrongIndex else
  let key := b2s_hash LABEL_COOKIE (peer_static_public (params self)) in
  plaintext <- ok_or InvalidAeadTag
    (xchacha_open key (cr_nonce packet) (take 16 mac1) (cr_encrypted_cookie packet));;
  if negb (bool_decide (length plaintext = 16%nat)) then fail InvalidPacket else
  modify (set_cookies (mkCookies (last_mac1 (cookies self)) (index (cookies self)) (Some plaintext))).

Definition format_handshake_initiation (dst : bytes) : HM bytes :=
  if bool_decide (length dst < HANDSHAKE_INIT_SZ)%nat then fail DestinationBufferTooSmall else
  local_index <- inc_index;;
  self <- get;;
  let chaining_key := INITIAL_CHAIN_KEY in
  let hash := INITIAL_CHAIN_HASH in
  let hash := b2s_hash hash (peer_static_public (params self)) in
  stream <- draw;;
  let ephemeral_private := fill_bytes 32 stream in
  let dst := splice 0 (to_le 4 HANDSHAKE_INIT) dst in
  let dst := splice 4 (to_le 4 local_index) dst in
  let unencrypted_ephemeral := x25519_public ephemeral_private in
  let dst := splice 8 unencrypted_ephemeral dst in
  let hash := b2s_hash hash unencrypted_ephemeral in
  let chaining_key := b2s_hmac (b2s_hmac chaining_key unencrypted_ephemeral) b01 in
  let ephemeral_shared := x25519_dh ephemeral_private (peer_static_public (params self)) in
  let temp := b2s_hmac chaining_key ephemeral_shared in
  let chaining_key := b2s_hmac temp b01 in
  let key := b2s_hmac2 temp chaining_key b02 in
  encrypted_static <- aead_chacha20_seal (32 + 16) key 0 (static_public (params self)) hash;;
  let dst := splice 40 encrypted_static dst in
  let hash := b2s_hash hash encrypted_static in
  let temp := b2s_hmac chaining_key (static_shared (params self)) in
  let chaining_key := b2s_hmac temp b01 in
  let key := b2s_hmac2 temp chaining_key b02 in
  timestamp <- Stamp.stamp (stamper self);;
  encrypted_timestamp <- aead_chacha20_seal (12 + 16) key 0 timestamp hash;;
  let dst := splice 88 encrypted_timestamp dst in
  let hash := b2s_hash hash encrypted_timestamp in
  time_now <- now;;
  modify (replace_state (InitSent
    (mkInitSent local_index hash chaining_key ephemeral_private time_now None)));;
  append_mac1_and_mac2 local_index (take HANDSHAKE_INIT_SZ dst).

(** *** The hybrid handshake, compiled in by the feature [pq] *)

Definition format_pq_handshake_initiation (dst : bytes) : HM bytes :=
  if bool_decide (length dst < PQ_HANDSHAKE_INIT_SZ)%nat then fail DestinationBufferTooSmall else
  local_index <- inc_index;;
  self <- get;;
  let chaining_key := INITIAL_CHAIN_KEY_PQ in
  let hash := INITIAL_CHAIN_HASH_PQ in
  let hash := b2s_hash hash (peer_static_public (params self)) in
  stream <- draw;;
  let ephemeral_private := fill_bytes 32 stream in
  let dst := splice 0 (to_le 4 PQ_HANDSHAKE_INIT) dst in
  let dst := splice 4 (to_le 4 local_index) dst in
  let unencrypted_ephemeral := x25519_public ephemeral_private in
  let dst := splice 8 unencrypted_ephemeral dst in
  let hash := b2s_hash hash unencrypted_ephemeral in
  let chaining_key := b2s_hmac (b2s_hmac chaining_key unencrypted_ephemeral) b01 in
  let ephemeral_shared := x25519_dh ephemeral_private (peer_static_public (params self)) in
  let temp := b2s_hmac chaining_key ephemeral_shared in
  let chaining_key := b2s_hmac temp b01 in
  let key := b2s_hmac2 temp chaining_key b02 in
  encrypted_static <- aead_chacha20_seal (32 + 16) key 0 (static_public (params self)) hash;;
  let dst := splice 40 encrypted_static dst in
  let hash := b2s_hash hash encrypted_static in
  let temp := b2s_hmac chaining_key (static_shared (params self)) in
  let chaining_key := b2s_hmac temp b01 in
  let key := b2s_hmac2 temp chaining_key b02 in
  timestamp <- Stamp.stamp (stamper self);;
  encrypted_timestamp <- aead_chacha20_seal (12 + 16) key 0 timestamp hash;;
  let dst := splice 88 encrypted_timestamp dst in
  let hash := b2s_hash hash encrypted_timestamp in
  rng <- draw;;
  let '(dk, ek_bytes) := mlkem_generate rng in
  let dst := splice 116 ek_bytes dst in
  let hash := b2s_hash hash ek_bytes in
  time_now <- now;;
  modify (replace_state (InitSent
    (mkInitSent local_index hash chaining_key ephemeral_private time_now (Some dk))));;
  append_mac1_and_mac2 local_index (take PQ_HANDSHAKE_INIT_SZ dst).

Definition format_pq_handshake_response (dst : bytes) : HM (bytes * Transport.Session) :=
  if bool_decide (length dst < PQ_HANDSHAKE_RESP_SZ)%nat then fail DestinationBufferTooSmall else
  self <- get;;
  modify (set_state HsNone);;
  match state self with
  | InitReceived hash chaining_key peer_ephemeral_public peer_index mlkem_encapsulation_key =>
      mlkem_ek_bytes <- unwrap mlkem_encapsulation_key;;
      stream <- draw;;
      let ephemeral_private := fill_bytes 32 stream in
      local_index <- inc_index;;
      let dst := splice 0 (to_le 4 PQ_HANDSHAKE_RESP) dst in
      let dst := splice 4 (to_le 4 local_index) dst in
      let dst := splice 8 (to_le 4 peer_index) dst in
      let unencrypted_ephemeral := x25519_public ephemeral_private in
      let dst := splice 12 unencrypted_ephemeral dst in
      let hash := b2s_hash hash unencrypted_ephemeral in
      let temp := b2s_hmac chaining_key unencrypted_ephemeral in
      let chaining_key := b2s_hmac temp b01 in
      let ephemeral_shared := x25519_dh ephemeral_private peer_ephemeral_public in
      let temp := b2s_hmac chaining_key ephemeral_shared in
      let chaining_key := b2s_hmac temp b01 in
      let temp := b2s_hmac chaining_key
                    (x25519_dh ephemeral_private (peer_static_public (params self))) in
      let chaining_key := b2s_hmac temp b01 in
      if negb (bool_decide (length mlkem_ek_bytes = MLKEM768_PK_SIZE)) then panic else
      if negb (mlkem_ek_valid mlkem_ek_bytes) then fail InvalidPacket else
      rng <- draw;;
      let '(ct, ss) := mlkem_encapsulate mlkem_ek_bytes rng in
      let dst := splice 60 ct dst in
      let temp := b2s_hmac chaining_key ss in
      let chaining_key := b2s_hmac temp b01 in
      let hash := b2s_hash hash ct in
      let temp := b2s_hmac chaining_key (default (zeros 32) (preshared_key (params self))) in
      let chaining_key := b2s_hmac temp b01 in
      let temp2 := b2s_hmac2 temp chaining_key b02 in
      let key := b2s_hmac2 temp temp2 b03 in
      let hash := b2s_hash hash temp2 in
      encrypted_nothing <- aead_chacha20_seal 16 key 0 [] hash;;
      let dst := splice 44 encrypted_nothing dst in
      let temp1 := b2s_hmac chaining_key [] in
      let temp2 := b2s_hmac temp1 b01 in
      let temp3 := b2s_hmac2 temp1 temp2 b02 in
      dst <- append_mac1_and_mac2 local_index (take PQ_HANDSHAKE_RESP_SZ dst);;
      ret (dst, Transport.new local_index peer_index temp2 temp3)
  | _ => panic
  end.

Definition receive_pq_handshake_initialization (packet : PqHandshakeInit) (dst : bytes) :
  HM (bytes * Transport.Session) :=
  self <- get;;
  let chaining_key := INITIAL_CHAIN_KEY_PQ in
  let hash := INITIAL_CHAIN_HASH_PQ in
  let hash := b2s_hash hash (static_public (params self)) in
  let peer_index := pqi_sender_idx packet in
  let peer_ephemeral_public := pqi_unencrypted_ephemeral packet in
  let hash := b2s_hash hash peer_ephemeral_public in
  let chaining_key := b2s_hmac (b2s_hmac chaining_key peer_ephemeral_public) b01 in
  let ephemeral_shared := x25519_dh (static_private (params self)) peer_ephemeral_public in
  let temp := b2s_hmac chaining_key ephemeral_shared in
  let chaining_key := b2s_hmac temp b01 in
  let key := b2s_hmac2 temp chaining_key b02 in
  peer_static_public_decrypted <-
    aead_chacha20_open KEY_LEN key 0 (pqi_encrypted_static packet) hash;;
  if negb (bool_decide (peer_static_public (params self) = peer_static_public_decrypted))
  then fail WrongKey else
  let hash := b2s_hash hash (pqi_encrypted_static packet) in
  let temp := b2s_hmac chaining_key (static_shared (params self)) in
  let chaining_key := b2s_hmac temp b01 in
  let key := b2s_hmac2 temp chaining_key b02 in
  timestamp <- aead_chacha20_open TIMESTAMP_LEN key 0 (pqi_encrypted_timestamp packet) hash;;
  match Tai.parse timestamp with
  | inr e => fail e
  | inl timestamp =>
      if negb (Tai.after timestamp (last_handshake_timestamp self))
      then fail WrongTai64nTimestamp else
      modify (set_last_handshake_timestamp timestamp);;
      let hash := b2s_hash hash (pqi_encrypted_timestamp packet) in
      let hash := b2s_hash hash (pqi_mlkem_ephemeral_public packet) in
      modify (replace_state (InitReceived hash chaining_key peer_ephemeral_public peer_index
                               (Some (pqi_mlkem_ephemeral_public packet))));;
      format_pq_handshake_response dst
  end.

Definition receive_pq_handshake_response (packet : PqHandshakeResponse) : HM Transport.Session :=
  self <- get;;
  '(st, is_previous) <- ok_or UnexpectedPacket (awaiting (pqr_receiver_idx packet) self);;
  let peer_index := pqr_sender_idx packet in
  let local_index := is_local_index st in
  let unencrypted_ephemeral := pqr_unencrypted_ephemeral packet in
  let hash := b2s_hash (is_hash st) unencrypted_ephemeral in
  let temp := b2s_hmac (is_chaining_key st) unencrypted_ephemeral in
  let chaining_key := b2s_hmac temp b01 in
  let ephemeral_shared := x25519_dh (is_ephemeral_private st) unencrypted_ephemeral in
  let temp := b2s_hmac chaining_key ephemeral_shared in
  let chaining_key := b2s_hmac temp b01 in
  let temp := b2s_hmac chaining_key (x25519_dh (static_private (params self)) unencrypted_ephemeral) in
  let chaining_key := b2s_hmac temp b01 in
  dk <- ok_or InvalidPacket (is_mlkem_decapsulation_key st);;
  if negb (bool_decide (length (pqr_mlkem_ciphertext packet) = MLKEM768_CT_SIZE))
  then fail InvalidPacket else
  ss <- ok_or MlKemDecapsulationFailed (mlkem_try_decapsulate dk (pqr_mlkem_ciphertext packet));;
  let temp := b2s_hmac chaining_key ss in
  let chaining_key := b2s_hmac temp b01 in
  let hash := b2s_hash hash (pqr_mlkem_ciphertext packet) in
  let temp := b2s_hmac chaining_key (default (zeros 32) (preshared_key (params self))) in
  let chaining_key := b2s_hmac temp b01 in
  let temp2 := b2s_hmac2 temp chaining_key b02 in
  let key := b2s_hmac2 temp temp2 b03 in
  let hash := b2s_hash hash temp2 in
  aead_chacha20_open 0 key 0 (pqr_encrypted_nothing packet) hash;;
  let temp1 := b2s_hmac chaining_key [] in
  let temp2 := b2s_hmac temp1 b01 in
  let temp3 := b2s_hmac2 temp1 temp2 b02 in
  t <- now;;
  let rtt_time := duration_since t (is_time_sent st) in
  modify (set_last_rtt (Some (u32 (as_millis rtt_time))));;
  (if is_previous : bool then modify (set_previous HsNone) else modify (set_state HsNone));;
  ret (Transport.new local_index peer_index temp3 temp2).

End Methods.
