(* ===== verification/NoiseSpec.v ===== *)
(** * The specification of the handshake: the Noise pattern IKpsk2

    The abstract protocol that [noise/handshake.rs] implements, written with
    the operations of the Noise framework on a symmetric state: the chaining
    key and the transcript hash.  One description serves both handshakes: the
    hybrid one starts from another construction name and mixes an ML-KEM key
    and ciphertext in.  [read_write_init] and [read_write_resp] are the
    correctness of the abstract protocol: what one side writes, the other
    reads, and both end in the same symmetric state. *)

From S2P Require Import Prelude Packet Crypto Session Handshake.

Section Noise.
Context `{Crypto}.

Record Symmetric := mkSymmetric { ck : bytes; h : bytes }.

(** HKDF with one, two and three outputs. *)
Definition hkdf2 (key ikm : bytes) : bytes * bytes :=
  let t0 := hmac_blake2s key [ikm] in
  let t1 := hmac_blake2s t0 [b01] in
  (t1, hmac_blake2s t0 [t1; b02]).
Definition hkdf3 (key ikm : bytes) : bytes * bytes * bytes :=
  let t0 := hmac_blake2s key [ikm] in
  let '(t1, t2) := hkdf2 key ikm in
  (t1, t2, hmac_blake2s t0 [t2; b03]).

Definition mix_hash (data : bytes) (s : Symmetric) : Symmetric :=
  mkSymmetric (ck s) (blake2s256 [h s; data]).

(** MixKey: the new chaining key and the cipher key. *)
Definition mix_key (ikm : bytes) (s : Symmetric) : Symmetric * bytes :=
  let '(c, k) := hkdf2 (ck s) ikm in (mkSymmetric c (h s), k).
Definition mix_chain (ikm : bytes) (s : Symmetric) : Symmetric := (mix_key ikm s).1.

Definition mix_key_and_hash (ikm : bytes) (s : Symmetric) : Symmetric * bytes :=
  let '(c, t, k) := hkdf3 (ck s) ikm in (mix_hash t (mkSymmetric c (h s)), k).

(** EncryptAndHash and DecryptAndHash, under a key that is used once. *)
Definition encrypt_and_hash (k : bytes) (text : bytes) (s : Symmetric) : bytes * Symmetric :=
  let c := chacha_seal k (Transport.nonce_of 0) (h s) text in
  (c.1 ++ c.2, mix_hash (c.1 ++ c.2) s).
Definition decrypt_and_hash (k : bytes) (c : bytes) (s : Symmetric) : option (bytes * Symmetric) :=
  text ← chacha_open k (Transport.nonce_of 0) (h s) c; Some (text, mix_hash c s).

(** Split: the keys of the initiator's and of the responder's direction. *)
Definition split_keys (s : Symmetric) : bytes * bytes := hkdf2 (ck s) [].

(** The prologue of each construction. *)
Definition initial (hybrid : bool) : Symmetric :=
  if hybrid then mkSymmetric INITIAL_CHAIN_KEY_PQ INITIAL_CHAIN_HASH_PQ
  else mkSymmetric INITIAL_CHAIN_KEY INITIAL_CHAIN_HASH.

(** First message, [-> e, es, s, ss, {t}] and the encapsulation key when it is
    hybrid.  [rs] is the responder's static key, [e] the ephemeral one, [es]
    and [ss] the Diffie-Hellman results. *)
Definition init_es (hybrid : bool) (rs e es : bytes) : Symmetric * bytes :=
  mix_key es (mix_chain e (mix_hash e (mix_hash rs (initial hybrid)))).

Definition mix_ek (ek : option bytes) (s : Symmetric) : Symmetric :=
  match ek with Some ek => mix_hash ek s | None => s end.

Definition is_hybrid {A} (x : option A) : bool := match x with Some _ => true | None => false end.

Definition write_init (ek : option bytes) (rs e es s ss ts : bytes) : bytes * bytes * Symmetric :=
  let '(st, k) := init_es (is_hybrid ek) rs e es in
  let '(enc_s, st) := encrypt_and_hash k s st in
  let '(st, k) := mix_key ss st in
  let '(enc_t, st) := encrypt_and_hash k ts st in
  (enc_s, enc_t, mix_ek ek st).

(** The static key of an initiation, and the rest of it. *)
Definition read_static (hybrid : bool) (rs e es enc_s : bytes) : option (bytes * Symmetric) :=
  let '(st, k) := init_es hybrid rs e es in decrypt_and_hash k enc_s st.

Definition read_timestamp (ek : option bytes) (ss enc_t : bytes) (st : Symmetric) :
  option (bytes * Symmetric) :=
  let '(st, k) := mix_key ss st in
  '(ts, st) ← decrypt_and_hash k enc_t st;
  Some (ts, mix_ek ek st).

(** Second message, [<- e, ee, se, psk, {}] with the ciphertext before the
    pre-shared key when it is hybrid. *)
Definition mix_kem (kem : option (bytes * bytes)) (s : Symmetric) : Symmetric :=
  match kem with Some (ct, kss) => mix_hash ct (mix_chain kss s) | None => s end.

Definition resp_psk (kem : option (bytes * bytes)) (e ee se psk : bytes) (st : Symmetric) :
  Symmetric * bytes :=
  mix_key_and_hash psk (mix_kem kem
    (mix_chain se (mix_chain ee (mix_chain e (mix_hash e st))))).

Definition write_resp (kem : option (bytes * bytes)) (e ee se psk : bytes) (st : Symmetric) :
  bytes * (bytes * bytes) :=
  let '(st, k) := resp_psk kem e ee se psk st in
  let '(enc, st) := encrypt_and_hash k [] st in
  (enc, split_keys st).

Definition read_resp (kem : option (bytes * bytes)) (e ee se psk enc : bytes) (st : Symmetric) :
  option (bytes * (bytes * bytes)) :=
  let '(st, k) := resp_psk kem e ee se psk st in
  '(text, st) ← decrypt_and_hash k enc st;
  Some (text, split_keys st).

(** ** Correctness of the abstract protocol *)

Context `{!CryptoLaws}.

Lemma decrypt_encrypt k text s :
  decrypt_and_hash k (encrypt_and_hash k text s).1 s = Some (text, (encrypt_and_hash k text s).2).
Proof. unfold decrypt_and_hash, encrypt_and_hash; cbn. by rewrite chacha_open_seal. Qed.

Lemma length_encrypt k text s :
  length (encrypt_and_hash k text s).1 = (length text + 16)%nat.
Proof. unfold encrypt_and_hash; cbn. by rewrite length_app, chacha_seal_len, chacha_tag_len. Qed.

Lemma read_write_init ek rs e es s ss ts enc_s enc_t st :
  write_init ek rs e es s ss ts = (enc_s, enc_t, st) ->
  exists st1, read_static (is_hybrid ek) rs e es enc_s = Some (s, st1) /\
    read_timestamp ek ss enc_t st1 = Some (ts, st).
Proof.
  unfold write_init, read_static, read_timestamp.
  destruct (init_es _ _ _ _) as [st0 k0].
  pose proof (decrypt_encrypt k0 s st0) as D.
  destruct (encrypt_and_hash k0 s st0) as [c0 st1]. cbn [fst snd] in D.
  destruct (mix_key ss st1) as [st2 k1] eqn:Ek.
  pose proof (decrypt_encrypt k1 ts st2) as D'.
  destruct (encrypt_and_hash k1 ts st2) as [c1 st3]. cbn [fst snd] in D'.
  intros [= <- <- <-]. exists st1. split; [done|]. rewrite Ek. by rewrite D'.
Qed.

Lemma length_write_init ek rs e es s ss ts enc_s enc_t st :
  write_init ek rs e es s ss ts = (enc_s, enc_t, st) ->
  length enc_s = (length s + 16)%nat /\ length enc_t = (length ts + 16)%nat.
Proof.
  unfold write_init. destruct (init_es _ _ _ _) as [st0 k0].
  pose proof (length_encrypt k0 s st0) as L.
  destruct (encrypt_and_hash k0 s st0) as [c0 st1]. destruct (mix_key ss st1) as [st2 k1].
  pose proof (length_encrypt k1 ts st2) as L'.
  destruct (encrypt_and_hash k1 ts st2) as [c1 st3]. by intros [= <- <- <-].
Qed.

Lemma read_write_resp kem e ee se psk st enc ks :
  write_resp kem e ee se psk st = (enc, ks) ->
  read_resp kem e ee se psk enc st = Some ([], ks) /\ length enc = 16%nat.
Proof.
  unfold write_resp, read_resp. destruct (resp_psk _ _ _ _ _ _) as [st0 k0].
  pose proof (decrypt_encrypt k0 [] st0) as D. pose proof (length_encrypt k0 [] st0) as L.
  destruct (encrypt_and_hash k0 [] st0) as [c0 st1]. cbn [fst snd] in D, L.
  intros [= <- <-]. by rewrite D.
Qed.
End Noise.
