(* ===== verification/HandshakeSpec.v ===== *)
(** * The handshake code refines the Noise specification

    Each method of [Handshake] that builds or reads a message is shown equal to
    a short program over the operations of [NoiseSpec] and the wire format of
    [Packet]: the buffers it writes into, whatever they held, disappear, and
    the long sequences of hashes become the patterns' messages.  The two
    handshakes are described once, by an optional ML-KEM component. *)

From S2P Require Import Prelude Packet Crypto Session Instant Handshake NoiseSpec.

(** A write over a segment of the same length, and disjoint writes. *)
Lemma splice_over off (p m r src : bytes) :
  length p = off -> length m = length src -> splice off src (p ++ m ++ r) = p ++ src ++ r.
Proof.
  intros <- L. rewrite splice_after by done. rewrite <- L, drop_app_length, <- app_assoc. done.
Qed.

Lemma split3 off n (d : bytes) : (off + n <= length d)%nat ->
  exists p m r, d = p ++ m ++ r /\ length p = off /\ length m = n.
Proof.
  intros L. exists (take off d), (take n (drop off d)), (drop n (drop off d)).
  rewrite !take_drop. split_and!; [done|len..].
Qed.

Lemma splice_comm a b x y (d : bytes) :
  (a + length x <= b)%nat -> (b + length y <= length d)%nat ->
  splice a x (splice b y d) = splice b y (splice a x d).
Proof.
  intros Hab Hb.
  destruct (split3 b (length y) d) as (d1 & d2 & d3 & -> & L1 & L2); [done|].
  destruct (split3 a (length x) d1) as (e1 & e2 & e3 & -> & L3 & L4); [lia|].
  rewrite splice_over by done. rewrite <- !app_assoc.
  rewrite !splice_over by done. rewrite !app_assoc, <- (app_assoc _ d2 d3).
  rewrite splice_over; [by rewrite <- !app_assoc | len | done].
Qed.

Lemma encode_app p macs : encode p macs = encode p [] ++ macs.
Proof. destruct p; cbn [encode]; rewrite ?app_nil_r, <- ?app_assoc; done. Qed.

Section Refinement.
Context `{Features, Crypto, Env}.

(** ** The pieces of a message *)

Definition bump (i : Z) : Z := Z.lor (Z.land i 4294967040) (u8 (u8 i + 1)).

Lemma inc_index_eq s w : inc_index s w = Ok (bump (next_index s)) (set_next_index (bump (next_index s)) s) w.
Proof. done. Qed.

(** The codes that close a message whose first bytes are [body]. *)
Definition mac1_of (s : Handshake) (body : bytes) : bytes :=
  b2s_keyed_mac_16 (sending_mac1_key (params s)) body.
Definition mac2_of (s : Handshake) (body : bytes) : bytes :=
  match write_cookie (cookies s) with
  | Some cookie => b2s_keyed_mac_16 cookie (body ++ mac1_of s body)
  | None => zeros 16
  end.
Definition sealed (s : Handshake) (p : Packet) : bytes :=
  encode p (mac1_of s (encode p []) ++ mac2_of s (encode p [])).
Definition remember_mac1 (i : Z) (p : Packet) (s : Handshake) : Handshake :=
  set_cookies (mkCookies (Some (mac1_of s (encode p []))) i (write_cookie (cookies s))) s.

Definition tick (w : World) : World := mkWorld (Datatypes.S (ticks w)) (wall w) (draws w) (calls w).
Definition rolled (w : World) : World := mkWorld (ticks w) (wall w) (Datatypes.S (draws w)) (calls w).

(** The timestamp of a duration since the epoch, and the one [stamp] reads. *)
Definition stamp_of (d : Z) : bytes :=
  to_be 8 (u64 (as_secs d + TAI64_BASE)) ++ to_be 4 (subsec_nanos d).
Definition stamp_time (st : TimeStamper) (w : World) : Z :=
  duration_since (clock (ticks w)) (instant_at_start st) + duration_at_start st.

Lemma stamp_eq {E S} st (s : S) w : stamp_time st w < MAX_DURATION ->
  Stamp.stamp (E:=E) st s w = Ok (stamp_of (stamp_time st w)) s (tick w).
Proof.
  intros L. unfold Stamp.stamp, stamp_time, dur_add in *. step.
  rewrite (proj2 (Z.ltb_lt _ _) L). step. unfold stamp_of, tick. f_equal.
Qed.

Context `{!CryptoLaws}.

Lemma length_mac1 s body : length (mac1_of s body) = 16%nat.
Proof. apply length_blake2s_mac. Qed.

Lemma length_mac2 s body : length (mac2_of s body) = 16%nat.
Proof.
  unfold mac2_of. destruct (write_cookie _); [apply length_blake2s_mac | apply length_zeros].
Qed.

Lemma append_macs_eq i p r s w : length r = 32%nat ->
  append_mac1_and_mac2 i (encode p [] ++ r) s w = Ok (sealed s p) (remember_mac1 i p s) w.
Proof.
  intros L. unfold append_mac1_and_mac2. step. rewrite length_app, L.
  replace (length (encode p []) + 32 - 32)%nat with (length (encode p [])) by lia.
  rewrite take_app_length. fold (mac1_of s (encode p [])).
  rewrite splice_after by done. rewrite length_mac1.
  replace (length (encode p []) + 32 - 16)%nat with (length (encode p [] ++ mac1_of s (encode p [])))
    by (rewrite length_app, length_mac1; lia).
  rewrite take_app_length. fold (mac2_of s (encode p [])).
  rewrite splice_after by done. rewrite length_mac2, (drop_ge (drop _ _)) by len.
  rewrite app_nil_r, <- app_assoc, <- encode_app. done.
Qed.

Lemma seal_eq {S} n k text aad (s : S) w :
  n = (length text + 16)%nat ->
  aead_chacha20_seal n k 0 text aad s w =
  Ok ((chacha_seal k (Transport.nonce_of 0) aad text).1 ++
      (chacha_seal k (Transport.nonce_of 0) aad text).2) s w.
Proof.
  intros ->. unfold aead_chacha20_seal.
  pose proof (chacha_tag_len k (Transport.nonce_of 0) aad text) as L.
  destruct (chacha_seal _ _ _ _) as [c t]. cbn in L |- *. by rewrite L, bool_decide_eq_true_2.
Qed.

Lemma open_eq {S} n k c aad (s : S) w :
  length c = (n + 16)%nat ->
  aead_chacha20_open n k 0 c aad s w =
  match chacha_open k (Transport.nonce_of 0) aad c with
  | Some text => Ok text s w
  | None => Fail InvalidAeadTag s w
  end.
Proof.
  intros L. unfold aead_chacha20_open. destruct (chacha_open _ _ _ _) as [t|] eqn:E; [|done].
  apply chacha_open_len in E. rewrite bool_decide_eq_true_2 by lia. done.
Qed.

(** ** Layout of the messages

    The sequence of writes into [dst] leaves the encoding of the message,
    followed by 32 bytes for the codes. *)

Ltac layout :=
  intros; unfold HANDSHAKE_INIT_SZ, HANDSHAKE_RESP_SZ, PQ_HANDSHAKE_INIT_SZ, PQ_HANDSHAKE_RESP_SZ,
    MLKEM768_PK_SIZE, MLKEM768_CT_SIZE in *;
  match goal with |- context [splice 0 ?t ?dst] =>
    change (splice 0 t dst) with (splice 0 t ([] ++ dst)) end;
  repeat (rewrite splice_after by len);
  rewrite take_app_ge by len; eexists; split;
  [|cbn [encode hi_sender_idx hi_unencrypted_ephemeral hi_encrypted_static hi_encrypted_timestamp
      hr_sender_idx hr_receiver_idx hr_unencrypted_ephemeral hr_encrypted_nothing
      pqi_sender_idx pqi_unencrypted_ephemeral pqi_encrypted_static pqi_encrypted_timestamp
      pqi_mlkem_ephemeral_public pqr_sender_idx pqr_receiver_idx pqr_unencrypted_ephemeral
      pqr_encrypted_nothing pqr_mlkem_ciphertext];
    rewrite <- !app_assoc, ?app_nil_l; reflexivity];
  len.

Lemma init_layout dst i e c t :
  (HANDSHAKE_INIT_SZ <= length dst)%nat ->
  length e = 32%nat -> length c = 48%nat -> length t = 28%nat ->
  exists r, length r = 32%nat /\
    take HANDSHAKE_INIT_SZ (splice 88 t (splice 40 c (splice 8 e
      (splice 4 (to_le 4 i) (splice 0 (to_le 4 HANDSHAKE_INIT) dst))))) =
    encode (PHandshakeInit (mkHandshakeInit i e c t)) [] ++ r.
Proof. layout. Qed.

Lemma pq_init_layout dst i e c t ek :
  (PQ_HANDSHAKE_INIT_SZ <= length dst)%nat ->
  length e = 32%nat -> length c = 48%nat -> length t = 28%nat -> length ek = MLKEM768_PK_SIZE ->
  exists r, length r = 32%nat /\
    take PQ_HANDSHAKE_INIT_SZ (splice 116 ek (splice 88 t (splice 40 c (splice 8 e
      (splice 4 (to_le 4 i) (splice 0 (to_le 4 PQ_HANDSHAKE_INIT) dst)))))) =
    encode (PPqHandshakeInit (mkPqHandshakeInit i e c t ek)) [] ++ r.
Proof. layout. Qed.

Lemma resp_layout dst i j e c :
  (HANDSHAKE_RESP_SZ <= length dst)%nat ->
  length e = 32%nat -> length c = 16%nat ->
  exists r, length r = 32%nat /\
    take HANDSHAKE_RESP_SZ (splice 44 c (splice 12 e (splice 8 (to_le 4 j)
      (splice 4 (to_le 4 i) (splice 0 (to_le 4 HANDSHAKE_RESP) dst))))) =
    encode (PHandshakeResponse (mkHandshakeResponse i j e c)) [] ++ r.
Proof. layout. Qed.

Lemma pq_resp_layout dst i j e c ct :
  (PQ_HANDSHAKE_RESP_SZ <= length dst)%nat ->
  length e = 32%nat -> length c = 16%nat -> length ct = MLKEM768_CT_SIZE ->
  exists r, length r = 32%nat /\
    take PQ_HANDSHAKE_RESP_SZ (splice 44 c (splice 60 ct (splice 12 e (splice 8 (to_le 4 j)
      (splice 4 (to_le 4 i) (splice 0 (to_le 4 PQ_HANDSHAKE_RESP) dst)))))) =
    encode (PPqHandshakeResponse (mkPqHandshakeResponse i j e c ct)) [] ++ r.
Proof.
  intros L Le Lc Lct. unfold PQ_HANDSHAKE_RESP_SZ, MLKEM768_CT_SIZE in L, Lct.
  rewrite splice_comm; [revert L Le Lc Lct; layout | len |].
  change (splice 0 (to_le 4 PQ_HANDSHAKE_RESP) dst)
    with (splice 0 (to_le 4 PQ_HANDSHAKE_RESP) ([] ++ dst)).
  repeat (rewrite splice_after by len). len.
Qed.

(** ** Initiations *)

Definition write_initiation (ek : option bytes) (s : Handshake) (w : World) : bytes * bytes * Symmetric :=
  let eph := fill_bytes 32 (rng (draws w)) in
  let rs := peer_static_public (params s) in
  write_init ek rs (x25519_public eph) (x25519_dh eph rs) (static_public (params s))
    (static_shared (params s)) (stamp_of (stamp_time (stamper s) w)).

(** The state in which an initiation has just been sent. *)
Definition init_sent (st : Symmetric) (dk : option bytes) (t : Z) (s : Handshake) (w : World) : Handshake :=
  let i := bump (next_index s) in
  replace_state (InitSent (mkInitSent i (h st) (ck st) (fill_bytes 32 (rng (draws w))) t dk))
    (set_next_index i s).

Definition can_initiate (s : Handshake) (w : World) : Prop :=
  length (static_public (params s)) = 32%nat /\ stamp_time (stamper s) w < MAX_DURATION.

Lemma length_stamp_of d : length (stamp_of d) = 12%nat.
Proof. unfold stamp_of. len. Qed.

(** The last step of a method that builds a message: [append_macs_eq]. *)
Ltac close_message r :=
  lazymatch goal with |- _ = Ok (sealed ?s ?p) (remember_mac1 ?i _ ?s') ?w =>
    transitivity (append_mac1_and_mac2 i (encode p [] ++ r) s' w);
    [| by rewrite append_macs_eq] end.

Lemma format_handshake_initiation_eq dst s w :
  can_initiate s w -> (HANDSHAKE_INIT_SZ <= length dst)%nat ->
  let '(c, t, st) := write_initiation None s w in
  let i := bump (next_index s) in
  let p := PHandshakeInit (mkHandshakeInit i (x25519_public (fill_bytes 32 (rng (draws w)))) c t) in
  format_handshake_initiation dst s w =
  Ok (sealed s p) (remember_mac1 i p (init_sent st None (clock (Datatypes.S (ticks w))) s w))
     (tick (tick (rolled w))).
Proof.
  intros [Ls Ht] L.
  unfold write_initiation. destruct (write_init _ _ _ _ _ _ _) as [[c t] st] eqn:E. cbn zeta.
  destruct (length_write_init _ _ _ _ _ _ _ _ _ _ E) as [Lc Lt].
  rewrite Ls in Lc. rewrite length_stamp_of in Lt.
  destruct (init_layout dst (bump (next_index s)) _ c t L
    (length_x25519_public (fill_bytes 32 (rng (draws w)))) Lc Lt) as (r & Lr & Er).
  unfold format_handshake_initiation. rewrite bool_decide_eq_false_2 by lia.
  step. rewrite inc_index_eq. step.
  rewrite seal_eq by (cbn; lia).
  change (stamper (set_next_index _ s)) with (stamper s).
  rewrite stamp_eq by done.
  rewrite seal_eq by (rewrite length_stamp_of; lia).
  close_message r.
  rewrite <- Er. injection E as <- <- <-. reflexivity.
Qed.

Lemma format_pq_handshake_initiation_eq dst s w :
  can_initiate s w -> (PQ_HANDSHAKE_INIT_SZ <= length dst)%nat ->
  let '(dk, ek) := mlkem_generate (rng (Datatypes.S (draws w))) in
  let '(c, t, st) := write_initiation (Some ek) s w in
  let i := bump (next_index s) in
  let p := PPqHandshakeInit
    (mkPqHandshakeInit i (x25519_public (fill_bytes 32 (rng (draws w)))) c t ek) in
  format_pq_handshake_initiation dst s w =
  Ok (sealed s p) (remember_mac1 i p (init_sent st (Some dk) (clock (Datatypes.S (ticks w))) s w))
     (tick (tick (rolled (rolled w)))).
Proof.
  intros [Ls Ht] L. unfold format_pq_handshake_initiation.
  pose proof (length_mlkem_ek (rng (Datatypes.S (draws w)))) as Lek.
  rewrite bool_decide_eq_false_2 by lia. step. rewrite inc_index_eq. step.
  rewrite seal_eq by (cbn; lia).
  change (stamper (set_next_index _ s)) with (stamper s).
  rewrite stamp_eq by done. rewrite seal_eq by (rewrite length_stamp_of; lia).
  cbn [draws tick rolled]. destruct (mlkem_generate _) as [dk ek]. cbn [snd] in Lek.
  unfold write_initiation. destruct (write_init _ _ _ _ _ _ _) as [[c t] st] eqn:E. cbn zeta.
  destruct (length_write_init _ _ _ _ _ _ _ _ _ _ E) as [Lc Lt].
  rewrite Ls in Lc. rewrite length_stamp_of in Lt.
  destruct (pq_init_layout dst (bump (next_index s)) _ c t ek L
    (length_x25519_public (fill_bytes 32 (rng (draws w)))) Lc Lt Lek) as (r & Lr & Er).
  close_message r.
  rewrite <- Er. injection E as <- <- <-. reflexivity.
Qed.

(** ** Responses *)

Ltac close_response r :=
  lazymatch goal with |- _ = Ok (sealed ?s ?p, ?session) (remember_mac1 ?i _ ?s') ?w =>
    transitivity (bind (append_mac1_and_mac2 i (encode p [] ++ r)) (fun x => ret (x, session)) s' w);
    [| unfold bind; by rewrite append_macs_eq] end.

Definition psk_of (s : Handshake) : bytes := default (zeros 32) (preshared_key (params s)).

(** The symmetric state and the initiator's data of a received initiation. *)
Definition received (st : Symmetric) (e : bytes) (j : Z) (ek : option bytes) : HandshakeState :=
  InitReceived (h st) (ck st) e j ek.

Definition write_response (kem : option (bytes * bytes)) (st : Symmetric) (e : bytes)
  (s : Handshake) (w : World) : bytes * (bytes * bytes) :=
  let eph := fill_bytes 32 (rng (draws w)) in
  write_resp kem (x25519_public eph) (x25519_dh eph e) (x25519_dh eph (peer_static_public (params s)))
    (psk_of s) st.

(** The state once the response is sent. *)
Definition responded (s : Handshake) : Handshake :=
  set_next_index (bump (next_index s)) (set_state HsNone s).

Lemma format_handshake_response_eq dst s w st e j ek :
  state s = received st e j ek -> (HANDSHAKE_RESP_SZ <= length dst)%nat ->
  let '(enc, (k1, k2)) := write_response None st e s w in
  let i := bump (next_index s) in
  let p := PHandshakeResponse
    (mkHandshakeResponse i j (x25519_public (fill_bytes 32 (rng (draws w)))) enc) in
  format_handshake_response dst s w =
  Ok (sealed s p, Transport.new i j k1 k2) (remember_mac1 i p (responded s)) (rolled w).
Proof.
  intros Es L. unfold write_response. destruct (write_resp _ _ _ _ _ _) as [enc [k1 k2]] eqn:E. cbn zeta.
  destruct (read_write_resp _ _ _ _ _ _ _ _ E) as [_ Lc].
  destruct (resp_layout dst (bump (next_index s)) j _ enc L
    (length_x25519_public (fill_bytes 32 (rng (draws w)))) Lc) as (r & Lr & Er).
  unfold format_handshake_response. rewrite bool_decide_eq_false_2 by lia. step.
  rewrite Es. unfold received. step. rewrite inc_index_eq. step. rewrite seal_eq by done.
  close_response r. rewrite <- Er. injection E as <- <- <-. reflexivity.
Qed.

Lemma format_pq_handshake_response_eq dst s w st e j ek :
  state s = received st e j (Some ek) -> (PQ_HANDSHAKE_RESP_SZ <= length dst)%nat ->
  length ek = MLKEM768_PK_SIZE -> mlkem_ek_valid ek = true ->
  let '(ct, kss) := mlkem_encapsulate ek (rng (Datatypes.S (draws w))) in
  let '(enc, (k1, k2)) := write_response (Some (ct, kss)) st e s w in
  let i := bump (next_index s) in
  let p := PPqHandshakeResponse
    (mkPqHandshakeResponse i j (x25519_public (fill_bytes 32 (rng (draws w)))) enc ct) in
  format_pq_handshake_response dst s w =
  Ok (sealed s p, Transport.new i j k1 k2) (remember_mac1 i p (responded s)) (rolled (rolled w)).
Proof.
  intros Es L Lek Hv. pose proof (length_mlkem_ct ek (rng (Datatypes.S (draws w)))) as Lct.
  unfold format_pq_handshake_response. rewrite bool_decide_eq_false_2 by lia. step.
  rewrite Es. unfold received. step. rewrite inc_index_eq. step.
  rewrite (bool_decide_eq_true_2 _ Lek), Hv. cbn [negb]. step. cbn [draws].
  destruct (mlkem_encapsulate _ _) as [ct kss]. cbn [fst] in Lct. step.
  rewrite seal_eq by done.
  unfold write_response. destruct (write_resp _ _ _ _ _ _) as [enc [k1 k2]] eqn:E. cbn zeta.
  destruct (read_write_resp _ _ _ _ _ _ _ _ E) as [_ Lc].
  destruct (pq_resp_layout dst (bump (next_index s)) j _ enc ct L
    (length_x25519_public (fill_bytes 32 (rng (draws w)))) Lc Lct) as (r & Lr & Er).
  close_response r. rewrite <- Er. injection E as <- <- <-. reflexivity.
Qed.

(** An encapsulation key that does not decode: the error comes after the state
    has been consumed and an index spent. *)
Lemma format_pq_handshake_response_bad_key dst s w st e j ek :
  state s = received st e j (Some ek) -> (PQ_HANDSHAKE_RESP_SZ <= length dst)%nat ->
  length ek = MLKEM768_PK_SIZE -> mlkem_ek_valid ek = false ->
  format_pq_handshake_response dst s w = Fail InvalidPacket (responded s) (rolled w).
Proof.
  intros Es L Lek Hv. unfold format_pq_handshake_response. rewrite bool_decide_eq_false_2 by lia. step.
  rewrite Es. unfold received. step. rewrite inc_index_eq. step.
  rewrite (bool_decide_eq_true_2 _ Lek), Hv. done.
Qed.

(** ** Reading an initiation *)

Definition tai_of (b : bytes) : Tai64N := mkTai64N (from_be (take 8 b)) (from_be (drop 8 b)).

(** The state in which an initiation has been accepted. *)
Definition init_received (ts : Tai64N) (st : Symmetric) (e : bytes) (j : Z) (ek : option bytes)
  (s : Handshake) : Handshake :=
  replace_state (received st e j ek) (set_last_handshake_timestamp ts s).

(** What both receiving methods do, given how they answer. *)
Definition read_initiation (ek : option bytes) (e enc_s enc_t : bytes) (s : Handshake) :
  (Tai64N * Symmetric) + WireGuardError :=
  match read_static (is_hybrid ek) (static_public (params s)) e (x25519_dh (static_private (params s)) e) enc_s with
  | None => inr InvalidAeadTag
  | Some (rs, st) =>
      if negb (bool_decide (peer_static_public (params s) = rs)) then inr WrongKey else
      match read_timestamp ek (static_shared (params s)) enc_t st with
      | None => inr InvalidAeadTag
      | Some (ts, st) =>
          if Tai.after (tai_of ts) (last_handshake_timestamp s) then inl (tai_of ts, st)
          else inr WrongTai64nTimestamp
      end
  end.

Lemma tai_parse b : length b = 12%nat -> Tai.parse b = inl (tai_of b).
Proof. intros L. unfold Tai.parse. by rewrite bool_decide_eq_false_2 by lia. Qed.

(** The symmetric state a pending initiation keeps. *)
Definition sent_symmetric (st : HandshakeInitSentState) : Symmetric :=
  mkSymmetric (is_chaining_key st) (is_hash st).

(** Unfolds the specification and the hashing wrappers to the library calls. *)
Ltac noise :=
  unfold read_static, read_timestamp, read_resp, resp_psk, init_es, decrypt_and_hash, mix_kem, mix_ek,
    mix_key_and_hash, mix_chain, mix_key, mix_hash, hkdf3, hkdf2, b2s_hmac, b2s_hmac2, b2s_hash,
    psk_of, sent_symmetric;
  cbn [is_hybrid initial fst snd ck h mbind option_bind].

Lemma receive_handshake_initialization_eq p dst s w :
  well_formed (PHandshakeInit p) ->
  receive_handshake_initialization p dst s w =
  match read_initiation None (hi_unencrypted_ephemeral p) (hi_encrypted_static p) (hi_encrypted_timestamp p) s with
  | inr e => Fail e s w
  | inl (ts, st) =>
      format_handshake_response dst
        (init_received ts st (hi_unencrypted_ephemeral p) (hi_sender_idx p) None s) w
  end.
Proof.
  intros (_ & _ & Ls & Lt). unfold receive_handshake_initialization, read_initiation. step.
  rewrite open_eq by done. noise.
  destruct (chacha_open _ _ _ (hi_encrypted_static p)) as [rs|]; [|done]. noise.
  case_bool_decide; cbn [negb]; [|done]. step.
  rewrite open_eq by done. noise.
  destruct (chacha_open _ _ _ (hi_encrypted_timestamp p)) as [ts|] eqn:Et; [|done]. noise.
  rewrite tai_parse by (apply chacha_open_len in Et; lia).
  destruct (Tai.after _ _); cbn [negb]; [|done]. step. done.
Qed.

Lemma receive_pq_handshake_initialization_eq p dst s w :
  well_formed (PPqHandshakeInit p) ->
  receive_pq_handshake_initialization p dst s w =
  match read_initiation (Some (pqi_mlkem_ephemeral_public p)) (pqi_unencrypted_ephemeral p)
          (pqi_encrypted_static p) (pqi_encrypted_timestamp p) s with
  | inr e => Fail e s w
  | inl (ts, st) =>
      format_pq_handshake_response dst
        (init_received ts st (pqi_unencrypted_ephemeral p) (pqi_sender_idx p)
           (Some (pqi_mlkem_ephemeral_public p)) s) w
  end.
Proof.
  intros (_ & _ & Ls & Lt & _). unfold receive_pq_handshake_initialization, read_initiation. step.
  rewrite open_eq by done. noise.
  destruct (chacha_open _ _ _ (pqi_encrypted_static p)) as [rs|]; [|done]. noise.
  case_bool_decide; cbn [negb]; [|done]. step.
  rewrite open_eq by done. noise.
  destruct (chacha_open _ _ _ (pqi_encrypted_timestamp p)) as [ts|] eqn:Et; [|done]. noise.
  rewrite tai_parse by (apply chacha_open_len in Et; lia).
  destruct (Tai.after _ _); cbn [negb]; [|done]. step. done.
Qed.

(** The anonymous parsers are the first step of the same reading. *)
Lemma parse_handshake_anon_eq {S} priv pub p (s : S) w :
  well_formed (PHandshakeInit p) ->
  parse_handshake_anon priv pub p s w =
  match read_static false pub (hi_unencrypted_ephemeral p)
          (x25519_dh priv (hi_unencrypted_ephemeral p)) (hi_encrypted_static p) with
  | None => Fail InvalidAeadTag s w
  | Some (rs, _) => Ok (mkHalfHandshake (hi_sender_idx p) rs) s w
  end.
Proof.
  intros (_ & _ & Ls & _). unfold parse_handshake_anon. step. rewrite open_eq by done. noise.
  by destruct (chacha_open _ _ _ _).
Qed.

Lemma parse_pq_handshake_anon_eq {S} priv pub p (s : S) w :
  well_formed (PPqHandshakeInit p) ->
  parse_pq_handshake_anon priv pub p s w =
  match read_static true pub (pqi_unencrypted_ephemeral p)
          (x25519_dh priv (pqi_unencrypted_ephemeral p)) (pqi_encrypted_static p) with
  | None => Fail InvalidAeadTag s w
  | Some (rs, _) => Ok (mkHalfHandshake (pqi_sender_idx p) rs) s w
  end.
Proof.
  intros (_ & _ & Ls & _). unfold parse_pq_handshake_anon. step. rewrite open_eq by done. noise.
  by destruct (chacha_open _ _ _ _).
Qed.

(** ** Reading a response *)

(** The state after a response was accepted. *)
Definition completed (st : HandshakeInitSentState) (is_previous : bool) (w : World) (s : Handshake) :
  Handshake :=
  let s := set_last_rtt (Some (u32 (as_millis (duration_since (clock (ticks w)) (is_time_sent st))))) s in
  if is_previous then set_previous HsNone s else set_state HsNone s.

(** The end of both methods: open the empty text and derive the session. *)
Definition read_response (kem : option (bytes * bytes)) (j : Z) (e enc : bytes)
  (st : HandshakeInitSentState) (is_previous : bool) (s : Handshake) (w : World) :
  outcome WireGuardError Handshake Transport.Session :=
  match read_resp kem e (x25519_dh (is_ephemeral_private st) e)
          (x25519_dh (static_private (params s)) e) (psk_of s) enc (sent_symmetric st) with
  | None => Fail InvalidAeadTag s w
  | Some (_, (k1, k2)) =>
      Ok (Transport.new (is_local_index st) j k2 k1) (completed st is_previous w s) (tick w)
  end.

Lemma receive_handshake_response_eq p s w :
  well_formed (PHandshakeResponse p) ->
  receive_handshake_response p s w =
  match awaiting (hr_receiver_idx p) s with
  | None => Fail UnexpectedPacket s w
  | Some (st, is_previous) =>
      if pq && bool_decide (is_Some (is_mlkem_decapsulation_key st)) then Fail WrongPacketType s w else
      read_response None (hr_sender_idx p) (hr_unencrypted_ephemeral p) (hr_encrypted_nothing p)
        st is_previous s w
  end.
Proof.
  intros (_ & _ & _ & Ln). unfold receive_handshake_response, read_response. step.
  destruct (awaiting _ _) as [[st is_previous]|]; [|done]. step.
  destruct (pq && _); [done|]. step. rewrite open_eq by done. noise.
  destruct (chacha_open _ _ _ _); [|done]. noise. step. by destruct is_previous.
Qed.

Lemma receive_pq_handshake_response_eq p s w :
  well_formed (PPqHandshakeResponse p) ->
  receive_pq_handshake_response p s w =
  match awaiting (pqr_receiver_idx p) s with
  | None => Fail UnexpectedPacket s w
  | Some (st, is_previous) =>
      match is_mlkem_decapsulation_key st with
      | None => Fail InvalidPacket s w
      | Some dk =>
          match mlkem_try_decapsulate dk (pqr_mlkem_ciphertext p) with
          | None => Fail MlKemDecapsulationFailed s w
          | Some kss =>
              read_response (Some (pqr_mlkem_ciphertext p, kss)) (pqr_sender_idx p)
                (pqr_unencrypted_ephemeral p) (pqr_encrypted_nothing p) st is_previous s w
          end
      end
  end.
Proof.
  intros (_ & _ & _ & Ln & Lct). unfold receive_pq_handshake_response, read_response. step.
  destruct (awaiting _ _) as [[st is_previous]|]; [|done]. step.
  destruct (is_mlkem_decapsulation_key st) as [dk|]; [|done]. step.
  rewrite (bool_decide_eq_true_2 _ Lct). cbn [negb].
  destruct (mlkem_try_decapsulate _ _) as [kss|]; [|done]. step. rewrite open_eq by done. noise.
  destruct (chacha_open _ _ _ _); [|done]. noise. step. by destruct is_previous.
Qed.
End Refinement.
