(* ===== verification/HandshakeProps.v ===== *)
(** * What two peers get from the handshake

    Agreement of the classical and of the hybrid handshake, also when the
    response is late; which kind of response an initiation accepts; initiations
    are answered at most once and rejected ones leave no trace; the session
    indices; the order of timestamps. *)

From S2P Require Import Prelude Packet Crypto Session Instant Handshake NoiseSpec HandshakeSpec.

Section Properties.
Context `{Features, Crypto, Env, !CryptoLaws}.

(** ** Two peers configured for each other *)

Definition keyed (p : NoiseParams) : Prop :=
  static_public p = x25519_public (static_private p) /\
  static_shared p = x25519_dh (static_private p) (peer_static_public p).

Definition paired (a b : Handshake) : Prop :=
  keyed (params a) /\ keyed (params b) /\
  peer_static_public (params a) = static_public (params b) /\
  peer_static_public (params b) = static_public (params a) /\
  psk_of a = psk_of b.

(** Two fresh sessions that talk to each other. *)
Definition crossed (a b : Transport.Session) : Prop :=
  b = Transport.new (Transport.sending_index a) (Transport.receiving_index a)
        (Transport.sender a) (Transport.receiver a) /\
  a = Transport.new (Transport.sending_index b) (Transport.receiving_index b)
        (Transport.sender b) (Transport.receiver b).

(** The time of [a]'s next initiation is later than all that [b] has accepted. *)
Definition stamp_fresh (a : Handshake) (w : World) (b : Handshake) : Prop :=
  Tai.after (tai_of (stamp_of (stamp_time (stamper a) w))) (last_handshake_timestamp b) = true.

Lemma keyed_length s : keyed (params s) -> length (static_public (params s)) = 32%nat.
Proof. intros [-> _]. apply length_x25519_public. Qed.

(** What the initiator wrote, the responder reads. *)
Lemma initiation_read a b w ek c t st :
  paired a b -> stamp_fresh a w b -> write_initiation ek a w = (c, t, st) ->
  read_initiation ek (x25519_public (fill_bytes 32 (rng (draws w)))) c t b =
  inl (tai_of (stamp_of (stamp_time (stamper a) w)), st).
Proof.
  intros ((Ka & Ka') & (Kb & Kb') & Pab & Pba & _) Hf E. unfold write_initiation in E.
  apply read_write_init in E as (st1 & E1 & E2). unfold read_initiation.
  rewrite Pab, Kb, x25519_dh_comm, <- Kb in E1. rewrite E1.
  rewrite bool_decide_eq_true_2 by done. cbn [negb].
  rewrite Ka', Pab, Kb, x25519_dh_comm, <- Ka, <- Pba, <- Kb' in E2. rewrite E2.
  unfold stamp_fresh in Hf. by rewrite Hf.
Qed.

(** What the responder wrote, the initiator reads, whichever of its two slots
    holds the initiation. *)
Lemma response_read a b w w' kem i j t dk eph st enc k1 k2 slot :
  paired a b -> write_response kem st (x25519_public eph) b w = (enc, (k1, k2)) ->
  let ist := mkInitSent i (h st) (ck st) eph t dk in
  read_response kem j (x25519_public (fill_bytes 32 (rng (draws w)))) enc ist slot a w' =
  Ok (Transport.new i j k2 k1) (completed ist slot w' a) (tick w').
Proof.
  intros ((Ka & _) & _ & _ & Pba & Hpsk) E. cbn zeta. unfold write_response in E.
  apply read_write_resp in E as [E _]. unfold read_response. cbn [is_ephemeral_private].
  rewrite Pba, Ka, <- Hpsk in E.
  rewrite (x25519_dh_comm (fill_bytes _ _) eph), (x25519_dh_comm (fill_bytes _ _) (static_private _)) in E.
  change (sent_symmetric (mkInitSent i (h st) (ck st) eph t dk)) with (mkSymmetric (ck st) (h st)).
  replace (mkSymmetric (ck st) (h st)) with st by (by destruct st). by rewrite E.
Qed.

(** ** Session indices *)

Lemma bump_eq i : is_u32 i -> bump i = i / 256 * 256 + (i + 1) mod 256.
Proof.
  intros Hi. unfold bump, u8. rewrite land_high by done.
  change (2 ^ 8) with 256. rewrite Z.add_mod_idemp_l by lia.
  apply lor_low. by apply Z.mod_pos_bound.
Qed.

Lemma bump_u32 i : is_u32 i -> is_u32 (bump i).
Proof. intros Hi. rewrite bump_eq by done. unfold is_u32 in *. dlia. Qed.

Lemma bump_iter n i : is_u32 i ->
  Nat.iter n bump i = i / 256 * 256 + (i + Z.of_nat n) mod 256 /\ is_u32 (Nat.iter n bump i).
Proof.
  intros Hi. induction n as [|n [IH1 IH2]]; [cbn; split; [unfold is_u32 in *; dlia | done]|].
  cbn [Nat.iter nat_rect]. fold (Nat.iter n bump i). split; [|by apply bump_u32].
  rewrite bump_eq by done. rewrite IH1. unfold is_u32 in *. clear IH2. dlia.
Qed.

(** Session indices: the peer's 24 bits are kept, the low byte counts
    cyclically, so two of the last 256 indices are never equal and all of them
    select the same peer. *)
Theorem inc_index_cycles i : is_u32 i ->
  (forall s w, next_index s = i ->
     exists s', inc_index s w = Ok (i / 256 * 256 + (i + 1) mod 256) s' w /\
       next_index s' = i / 256 * 256 + (i + 1) mod 256) /\
  (forall n, Z.shiftr (Nat.iter n bump i) 8 = Z.shiftr i 8) /\
  (forall m n, (m < n < m + 256)%nat -> Nat.iter m bump i <> Nat.iter n bump i).
Proof.
  intros Hi. split_and!.
  - intros s w <-. rewrite inc_index_eq, bump_eq by done. by eexists.
  - intros n. rewrite (proj1 (bump_iter n i Hi)), !Z.shiftr_div_pow2 by lia.
    unfold is_u32 in Hi. change (2 ^ 8) with 256. dlia.
  - intros m n Hmn. rewrite (proj1 (bump_iter m i Hi)), (proj1 (bump_iter n i Hi)).
    unfold is_u32 in Hi. dlia.
Qed.

(** ** Agreement *)

Lemma length_fill_public w : length (x25519_public (fill_bytes 32 (rng (draws w)))) = 32%nat.
Proof. apply length_x25519_public. Qed.

Lemma sealed_parses s p :
  well_formed p -> is_handshake p = true -> (is_pq p = true -> pq = true) ->
  parse_incoming_packet (sealed s p) = inl p.
Proof.
  intros W Hh Hpq. apply parse_encode_ok; [done| |done].
  unfold macs_len. by rewrite Hh, length_app, length_mac1, length_mac2.
Qed.

Ltac wf_message :=
  match goal with m := _ : Packet |- _ => subst m end;
  cbn -[x25519_public is_u32 bump length];
  split_and!; first [done | by apply length_fill_public | by apply bump_u32].

(** An initiator's message, as its peer's parser sees it. *)
Lemma initiation_parses dst a w :
  length (static_public (params a)) = 32%nat -> is_u32 (next_index a) -> stamp_time (stamper a) w < MAX_DURATION ->
  (HANDSHAKE_INIT_SZ <= length dst)%nat ->
  exists c t st, write_initiation None a w = (c, t, st) /\
    let i := bump (next_index a) in
    let p := mkHandshakeInit i (x25519_public (fill_bytes 32 (rng (draws w)))) c t in
    well_formed (PHandshakeInit p) /\
    parse_incoming_packet (sealed a (PHandshakeInit p)) = inl (PHandshakeInit p) /\
    format_handshake_initiation dst a w =
    Ok (sealed a (PHandshakeInit p))
       (remember_mac1 i (PHandshakeInit p) (init_sent st None (clock (S (ticks w))) a w))
       (tick (tick (rolled w))).
Proof.
  intros Lp Hi Ht L.
  pose proof (format_handshake_initiation_eq dst a w (conj Lp Ht) L) as F.
  destruct (write_initiation None a w) as [[c t] st] eqn:E. exists c, t, st. split; [done|].
  unfold write_initiation in E. destruct (length_write_init _ _ _ _ _ _ _ _ _ _ E) as [Lc Lt].
  rewrite Lp in Lc. rewrite length_stamp_of in Lt.
  cbn zeta in *. set (p := PHandshakeInit _) in *.
  assert (W : well_formed p) by wf_message.
  split_and!; [done| by apply sealed_parses | done].
Qed.

(** A responder's answer to an accepted initiation. *)
Lemma response_parses dst b w ts st e j :
  is_u32 (next_index b) -> is_u32 j -> (HANDSHAKE_RESP_SZ <= length dst)%nat ->
  exists enc k1 k2, write_response None st e b w = (enc, (k1, k2)) /\
    let i := bump (next_index b) in
    let q := mkHandshakeResponse i j (x25519_public (fill_bytes 32 (rng (draws w)))) enc in
    let b' := init_received ts st e j None b in
    well_formed (PHandshakeResponse q) /\
    parse_incoming_packet (sealed b' (PHandshakeResponse q)) = inl (PHandshakeResponse q) /\
    format_handshake_response dst b' w =
    Ok (sealed b' (PHandshakeResponse q), Transport.new i j k1 k2)
       (remember_mac1 i (PHandshakeResponse q) (responded b')) (rolled w).
Proof.
  intros Hi Hj L.
  pose proof (format_handshake_response_eq dst (init_received ts st e j None b) w st e j None eq_refl L) as F.
  change (write_response None st e (init_received ts st e j None b) w)
    with (write_response None st e b w) in F.
  destruct (write_response None st e b w) as [enc [k1 k2]] eqn:E. exists enc, k1, k2. split; [done|].
  unfold write_response in E. destruct (read_write_resp _ _ _ _ _ _ _ _ E) as [_ Lc].
  cbn zeta in *. set (q := PHandshakeResponse _) in *.
  assert (W : well_formed q) by wf_message.
  split_and!; [done| by apply sealed_parses | done].
Qed.

Lemma crossed_new i j k1 k2 : crossed (Transport.new i j k2 k1) (Transport.new j i k1 k2).
Proof. done. Qed.

Lemma awaiting_sent st dk t s w i p :
  awaiting (bump (next_index s)) (remember_mac1 i p (init_sent st dk t s w)) =
  Some (mkInitSent (bump (next_index s)) (h st) (ck st) (fill_bytes 32 (rng (draws w))) t dk, false).
Proof. unfold awaiting. cbn. by rewrite Z.eqb_refl. Qed.

(** The three messages of a classical handshake, as the code builds them. *)
Lemma classical_exchange a b wa wb dst dst' :
  paired a b -> is_u32 (next_index a) -> is_u32 (next_index b) ->
  stamp_time (stamper a) wa < MAX_DURATION -> stamp_fresh a wa b ->
  (HANDSHAKE_INIT_SZ <= length dst)%nat -> (HANDSHAKE_RESP_SZ <= length dst')%nat ->
  exists a1 w1 p sb b1 w2 q,
    format_handshake_initiation dst a wa = Ok (sealed a (PHandshakeInit p)) a1 w1 /\
    well_formed (PHandshakeInit p) /\
    receive_handshake_initialization p dst' b wb = Ok (sealed b (PHandshakeResponse q), sb) b1 w2 /\
    well_formed (PHandshakeResponse q) /\
    params a1 = params a /\ params b1 = params b /\ state b1 = HsNone /\
    is_u32 (Transport.receiving_index sb) /\ is_u32 (Transport.sending_index sb) /\
    forall wc, exists sa a2, receive_handshake_response q a1 wc = Ok sa a2 (tick wc) /\
      crossed sa sb /\ state a2 = HsNone.
Proof.
  intros P Ia Ib Ht Hf L L'.
  destruct (initiation_parses dst a wa (keyed_length _ (proj1 P)) Ia Ht L) as (c & t & st & E & W & Pi & Fi).
  pose proof (initiation_read a b wa None c t st P Hf E) as R.
  destruct (response_parses dst' b wb (tai_of (stamp_of (stamp_time (stamper a) wa))) st
    (x25519_public (fill_bytes 32 (rng (draws wa)))) (bump (next_index a)))
    as (enc & k1 & k2 & E' & W' & Pr & Fr); [done|by apply bump_u32|done|].
  eexists _, _, _, _, _, _, _. split; [exact Fi|]. split; [exact W|]. split.
  { rewrite receive_handshake_initialization_eq by done.
    cbn [hi_unencrypted_ephemeral hi_encrypted_static hi_encrypted_timestamp]. rewrite R. exact Fr. }
  split_and!; [exact W'|done|done|done|by apply bump_u32|by apply bump_u32|].
  intros wc. rewrite receive_handshake_response_eq by done. cbn [hr_receiver_idx].
  rewrite awaiting_sent. cbn [is_mlkem_decapsulation_key].
  rewrite bool_decide_eq_false_2 by apply is_Some_None. rewrite andb_false_r.
  cbn [hr_sender_idx hr_unencrypted_ephemeral hr_encrypted_nothing].
  erewrite response_read; [|exact P|exact E']. eexists _, _. split; [reflexivity|].
  split; [apply crossed_new|done].
Qed.

(** C6. Classical handshake: between two peers configured for each other, the
    initiation parses and is answered, the response parses and is accepted, and
    the two sessions are fresh, share their keys crosswise and address each
    other by the right indices; what the buffers held before plays no part. *)
Theorem handshake_agreement a b wa wb dst dst' :
  paired a b -> is_u32 (next_index a) -> is_u32 (next_index b) ->
  stamp_time (stamper a) wa < MAX_DURATION -> stamp_fresh a wa b ->
  (HANDSHAKE_INIT_SZ <= length dst)%nat -> (HANDSHAKE_RESP_SZ <= length dst')%nat ->
  exists init a1 w1 p resp sb b1 w2 q,
    format_handshake_initiation dst a wa = Ok init a1 w1 /\
    parse_incoming_packet init = inl (PHandshakeInit p) /\
    receive_handshake_initialization p dst' b wb = Ok (resp, sb) b1 w2 /\
    parse_incoming_packet resp = inl (PHandshakeResponse q) /\
    forall wc, exists sa a2, receive_handshake_response q a1 wc = Ok sa a2 (tick wc) /\
      crossed sa sb /\ state a2 = HsNone /\ state b1 = HsNone.
Proof.
  intros P Ia Ib Ht Hf L L'.
  destruct (classical_exchange a b wa wb dst dst') as (a1 & w1 & p & sb & b1 & w2 & q & Fi & W & Fr & W' & _ & _ & Hb & _ & _ & R);
    [done..|].
  eexists _, _, _, p, _, _, _, _, q.
  split_and!; [exact Fi|by apply sealed_parses|exact Fr|by apply sealed_parses|].
  intros wc. destruct (R wc) as (sa & a2 & ? & ? & ?). by exists sa, a2.
Qed.

(** The same two lemmas for the hybrid messages. *)
Lemma pq_initiation_parses dst a w :
  pq = true ->
  length (static_public (params a)) = 32%nat -> is_u32 (next_index a) -> stamp_time (stamper a) w < MAX_DURATION ->
  (PQ_HANDSHAKE_INIT_SZ <= length dst)%nat ->
  let '(dk, ek) := mlkem_generate (rng (S (draws w))) in
  exists c t st, write_initiation (Some ek) a w = (c, t, st) /\
    let i := bump (next_index a) in
    let p := mkPqHandshakeInit i (x25519_public (fill_bytes 32 (rng (draws w)))) c t ek in
    well_formed (PPqHandshakeInit p) /\
    parse_incoming_packet (sealed a (PPqHandshakeInit p)) = inl (PPqHandshakeInit p) /\
    format_pq_handshake_initiation dst a w =
    Ok (sealed a (PPqHandshakeInit p))
       (remember_mac1 i (PPqHandshakeInit p) (init_sent st (Some dk) (clock (S (ticks w))) a w))
       (tick (tick (rolled (rolled w)))).
Proof.
  intros Hpq Lp Hi Ht L.
  pose proof (format_pq_handshake_initiation_eq dst a w (conj Lp Ht) L) as F.
  pose proof (length_mlkem_ek (rng (S (draws w)))) as Lek.
  destruct (mlkem_generate _) as [dk ek]. cbn [snd] in Lek.
  destruct (write_initiation _ a w) as [[c t] st] eqn:E. exists c, t, st. split; [done|].
  unfold write_initiation in E. destruct (length_write_init _ _ _ _ _ _ _ _ _ _ E) as [Lc Lt].
  rewrite Lp in Lc. rewrite length_stamp_of in Lt.
  cbn zeta in *. set (p := PPqHandshakeInit _) in *.
  assert (W : well_formed p) by wf_message.
  split_and!; [done| by apply sealed_parses | done].
Qed.

Lemma pq_response_parses dst b w ts st e j ek :
  pq = true ->
  is_u32 (next_index b) -> is_u32 j -> (PQ_HANDSHAKE_RESP_SZ <= length dst)%nat ->
  length ek = MLKEM768_PK_SIZE -> mlkem_ek_valid ek = true ->
  let '(ct, kss) := mlkem_encapsulate ek (rng (S (draws w))) in
  exists enc k1 k2, write_response (Some (ct, kss)) st e b w = (enc, (k1, k2)) /\
    let i := bump (next_index b) in
    let q := mkPqHandshakeResponse i j (x25519_public (fill_bytes 32 (rng (draws w)))) enc ct in
    let b' := init_received ts st e j (Some ek) b in
    well_formed (PPqHandshakeResponse q) /\
    parse_incoming_packet (sealed b' (PPqHandshakeResponse q)) = inl (PPqHandshakeResponse q) /\
    format_pq_handshake_response dst b' w =
    Ok (sealed b' (PPqHandshakeResponse q), Transport.new i j k1 k2)
       (remember_mac1 i (PPqHandshakeResponse q) (responded b')) (rolled (rolled w)).
Proof.
  intros Hpq Hi Hj L Lek Hv.
  pose proof (format_pq_handshake_response_eq dst (init_received ts st e j (Some ek) b) w st e j ek
    eq_refl L Lek Hv) as F.
  pose proof (length_mlkem_ct ek (rng (S (draws w)))) as Lct.
  destruct (mlkem_encapsulate _ _) as [ct kss]. cbn [fst] in Lct.
  change (write_response _ st e (init_received ts st e j (Some ek) b) w)
    with (write_response (Some (ct, kss)) st e b w) in F.
  destruct (write_response _ st e b w) as [enc [k1 k2]] eqn:E. exists enc, k1, k2. split; [done|].
  unfold write_response in E. destruct (read_write_resp _ _ _ _ _ _ _ _ E) as [_ Lc].
  cbn zeta in *. set (q := PPqHandshakeResponse _) in *.
  assert (W : well_formed q) by wf_message.
  split_and!; [done| by apply sealed_parses | done].
Qed.

Lemma hybrid_exchange a b wa wb dst dst' :
  pq = true ->
  paired a b -> is_u32 (next_index a) -> is_u32 (next_index b) ->
  stamp_time (stamper a) wa < MAX_DURATION -> stamp_fresh a wa b ->
  (PQ_HANDSHAKE_INIT_SZ <= length dst)%nat -> (PQ_HANDSHAKE_RESP_SZ <= length dst')%nat ->
  exists a1 w1 p sb b1 w2 q,
    format_pq_handshake_initiation dst a wa = Ok (sealed a (PPqHandshakeInit p)) a1 w1 /\
    well_formed (PPqHandshakeInit p) /\
    receive_pq_handshake_initialization p dst' b wb = Ok (sealed b (PPqHandshakeResponse q), sb) b1 w2 /\
    well_formed (PPqHandshakeResponse q) /\
    params a1 = params a /\ params b1 = params b /\ state b1 = HsNone /\
    is_u32 (Transport.receiving_index sb) /\ is_u32 (Transport.sending_index sb) /\
    forall wc, exists sa a2, receive_pq_handshake_response q a1 wc = Ok sa a2 (tick wc) /\
      crossed sa sb /\ state a2 = HsNone.
Proof.
  intros Hpq P Ia Ib Ht Hf L L'.
  pose proof (pq_initiation_parses dst a wa Hpq (keyed_length _ (proj1 P)) Ia Ht L) as I.
  pose proof (length_mlkem_ek (rng (S (draws wa)))) as Lek.
  pose proof (mlkem_ek_generated (rng (S (draws wa)))) as Hek.
  pose proof (mlkem_correct (rng (S (draws wa))) (rng (S (draws wb)))) as Hkem.
  destruct (mlkem_generate _) as [dk ek]. cbn [fst snd] in Lek, Hek, Hkem.
  destruct I as (c & t & st & E & W & Pi & Fi).
  pose proof (initiation_read a b wa (Some ek) c t st P Hf E) as R.
  pose proof (pq_response_parses dst' b wb (tai_of (stamp_of (stamp_time (stamper a) wa))) st
    (x25519_public (fill_bytes 32 (rng (draws wa)))) (bump (next_index a)) ek
    Hpq Ib (bump_u32 _ Ia) L' Lek Hek) as J.
  destruct (mlkem_encapsulate _ _) as [ct kss]. cbn [fst snd] in Hkem.
  destruct J as (enc & k1 & k2 & E' & W' & Pr & Fr).
  eexists _, _, _, _, _, _, _. split; [exact Fi|]. split; [exact W|]. split.
  { rewrite receive_pq_handshake_initialization_eq by done.
    cbn [pqi_unencrypted_ephemeral pqi_encrypted_static pqi_encrypted_timestamp
         pqi_mlkem_ephemeral_public]. rewrite R. exact Fr. }
  split_and!; [exact W'|done|done|done|by apply bump_u32|by apply bump_u32|].
  intros wc. rewrite receive_pq_handshake_response_eq by done. cbn [pqr_receiver_idx].
  rewrite awaiting_sent. cbn [is_mlkem_decapsulation_key pqr_mlkem_ciphertext]. rewrite Hkem.
  cbn [pqr_sender_idx pqr_unencrypted_ephemeral pqr_encrypted_nothing].
  erewrite response_read; [|exact P|exact E']. eexists _, _. split; [reflexivity|].
  split; [apply crossed_new|done].
Qed.

(** C3. Hybrid handshake: the same agreement for the post-quantum messages, the
    ML-KEM secret included. *)
Theorem pq_handshake_agreement a b wa wb dst dst' :
  pq = true ->
  paired a b -> is_u32 (next_index a) -> is_u32 (next_index b) ->
  stamp_time (stamper a) wa < MAX_DURATION -> stamp_fresh a wa b ->
  (PQ_HANDSHAKE_INIT_SZ <= length dst)%nat -> (PQ_HANDSHAKE_RESP_SZ <= length dst')%nat ->
  exists init a1 w1 p resp sb b1 w2 q,
    format_pq_handshake_initiation dst a wa = Ok init a1 w1 /\
    parse_incoming_packet init = inl (PPqHandshakeInit p) /\
    receive_pq_handshake_initialization p dst' b wb = Ok (resp, sb) b1 w2 /\
    parse_incoming_packet resp = inl (PPqHandshakeResponse q) /\
    forall wc, exists sa a2, receive_pq_handshake_response q a1 wc = Ok sa a2 (tick wc) /\
      crossed sa sb /\ state a2 = HsNone /\ state b1 = HsNone.
Proof.
  intros Hpq P Ia Ib Ht Hf L L'.
  destruct (hybrid_exchange a b wa wb dst dst') as (a1 & w1 & p & sb & b1 & w2 & q & Fi & W & Fr & W' & _ & _ & Hb & _ & _ & R);
    [done..|].
  eexists _, _, _, p, _, _, _, _, q.
  split_and!; [exact Fi|by apply sealed_parses|exact Fr|by apply sealed_parses|].
  intros wc. destruct (R wc) as (sa & a2 & ? & ? & ?). by exists sa, a2.
Qed.

Lemma bump_ne i : is_u32 i -> bump i <> i.
Proof. intros Hi. rewrite bump_eq by done. unfold is_u32 in Hi. dlia. Qed.

Lemma awaiting_retry st dk t s w i p st' dk' t' w' i' p' :
  is_u32 (next_index s) ->
  let s1 := remember_mac1 i p (init_sent st dk t s w) in
  awaiting (bump (next_index s)) (remember_mac1 i' p' (init_sent st' dk' t' s1 w')) =
  Some (mkInitSent (bump (next_index s)) (h st) (ck st) (fill_bytes 32 (rng (draws w))) t dk, true).
Proof.
  intros Hi. cbn zeta. unfold awaiting. cbn -[bump].
  rewrite (proj2 (Z.eqb_neq _ _)), Z.eqb_refl; [done|]. by apply bump_ne, bump_u32.
Qed.

(** A late response: when the initiator has already retried, the response to
    its first initiation still completes that handshake, with the same crossed
    sessions, and leaves the retry pending. *)
Theorem delayed_response a b wa wb wr dst dst' dst'' :
  paired a b -> is_u32 (next_index a) -> is_u32 (next_index b) ->
  stamp_time (stamper a) wa < MAX_DURATION -> stamp_time (stamper a) wr < MAX_DURATION ->
  stamp_fresh a wa b ->
  (HANDSHAKE_INIT_SZ <= length dst)%nat -> (HANDSHAKE_RESP_SZ <= length dst')%nat ->
  (HANDSHAKE_INIT_SZ <= length dst'')%nat ->
  exists init a1 w1 p resp sb b1 w2 q retry a2 w3,
    format_handshake_initiation dst a wa = Ok init a1 w1 /\
    parse_incoming_packet init = inl (PHandshakeInit p) /\
    receive_handshake_initialization p dst' b wb = Ok (resp, sb) b1 w2 /\
    parse_incoming_packet resp = inl (PHandshakeResponse q) /\
    format_handshake_initiation dst'' a1 wr = Ok retry a2 w3 /\
    forall wc, exists sa a3, receive_handshake_response q a2 wc = Ok sa a3 (tick wc) /\
      crossed sa sb /\ state a3 = state a2 /\ previous a3 = HsNone.
Proof.
  intros P Ia Ib Ht Hr Hf L L' L''.
  destruct (initiation_parses dst a wa (keyed_length _ (proj1 P)) Ia Ht L) as (c & t & st & E & W & Pi & Fi).
  pose proof (initiation_read a b wa None c t st P Hf E) as R.
  destruct (response_parses dst' b wb (tai_of (stamp_of (stamp_time (stamper a) wa))) st
    (x25519_public (fill_bytes 32 (rng (draws wa)))) (bump (next_index a)))
    as (enc & k1 & k2 & E' & W' & Pr & Fr); [done|by apply bump_u32|done|].
  set (a1 := remember_mac1 _ _ _) in Fi.
  destruct (initiation_parses dst'' a1 wr) as (c2 & t2 & st2 & _ & _ & _ & Fi2);
    [exact (keyed_length _ (proj1 P)) | by apply bump_u32 | exact Hr | done|].
  eexists _, _, _, _, _, _, _, _, _, _, _, _.
  split_and!; [exact Fi|exact Pi| |exact Pr|exact Fi2|].
  { rewrite receive_handshake_initialization_eq by done.
    cbn [hi_unencrypted_ephemeral hi_encrypted_static hi_encrypted_timestamp]. by rewrite R. }
  intros wc. rewrite receive_handshake_response_eq by done. cbn [hr_receiver_idx].
  subst a1. rewrite awaiting_retry by done. cbn [is_mlkem_decapsulation_key].
  rewrite bool_decide_eq_false_2 by apply is_Some_None. rewrite andb_false_r.
  cbn [hr_sender_idx hr_unencrypted_ephemeral hr_encrypted_nothing].
  erewrite response_read; [|exact P|exact E']. eexists _, _. split; [reflexivity|].
  split_and!; [apply crossed_new|done|done].
Qed.

(** ** Which response completes which initiation *)

(** In a hybrid build a classical response that names a hybrid
    initiation is refused with [WrongPacketType] and changes nothing; a hybrid
    response that names a classical initiation is refused with [InvalidPacket]
    and changes nothing; a response that names no pending initiation is refused
    with [UnexpectedPacket]. *)
Lemma response_kinds s w :
  (forall q st slot, pq = true -> awaiting (hr_receiver_idx q) s = Some (st, slot) ->
     is_mlkem_decapsulation_key st <> None ->
     receive_handshake_response q s w = Fail WrongPacketType s w) /\
  (forall q st slot, awaiting (pqr_receiver_idx q) s = Some (st, slot) ->
     is_mlkem_decapsulation_key st = None ->
     receive_pq_handshake_response q s w = Fail InvalidPacket s w) /\
  (forall q, awaiting (hr_receiver_idx q) s = None ->
     receive_handshake_response q s w = Fail UnexpectedPacket s w) /\
  (forall q, awaiting (pqr_receiver_idx q) s = None ->
     receive_pq_handshake_response q s w = Fail UnexpectedPacket s w).
Proof.
  unfold receive_handshake_response, receive_pq_handshake_response.
  split_and!; intros q; step; [intros st slot Hpq -> Hdk | intros st slot -> Hdk | intros -> | intros ->];
    step; try done.
  - rewrite Hpq, bool_decide_eq_true_2 by (by apply not_eq_None_Some). done.
  - rewrite Hdk. done.
Qed.

(** The calls the tunnel of a hybrid build makes on its handshake. *)
Inductive hybrid_step (s s' : Handshake) : Prop :=
| step_initiate dst w : final (format_pq_handshake_initiation dst s w) = Some s' -> hybrid_step s s'
| step_init p dst w : final (receive_handshake_initialization p dst s w) = Some s' -> hybrid_step s s'
| step_pq_init p dst w : final (receive_pq_handshake_initialization p dst s w) = Some s' -> hybrid_step s s'
| step_resp q w : final (receive_handshake_response q s w) = Some s' -> hybrid_step s s'
| step_pq_resp q w : final (receive_pq_handshake_response q s w) = Some s' -> hybrid_step s s'
| step_cookie c w : final (receive_cookie_reply c s w) = Some s' -> hybrid_step s s'
| step_rekey priv pub w : final (set_static_private priv pub s w) = Some s' -> hybrid_step s s'
| step_expire : s' = set_expired s -> hybrid_step s s'
| step_forget : s' = clear_cookie s -> hybrid_step s s'.

Definition hybrid (st : HandshakeState) : Prop :=
  match st with InitSent i => is_Some (is_mlkem_decapsulation_key i) | _ => True end.
Definition all_hybrid (s : Handshake) : Prop := hybrid (state s) /\ hybrid (previous s).

Lemma keeps_macs i dst : preserves all_hybrid (append_mac1_and_mac2 i dst).
Proof. unfold append_mac1_and_mac2. keeps; done. Qed.
Lemma keeps_open {A} n k c d a (I : A -> Prop) : preserves I (aead_chacha20_open n k c d a).
Proof. unfold aead_chacha20_open. keeps. Qed.
Lemma keeps_seal {A} n k c d a (I : A -> Prop) : preserves I (aead_chacha20_seal n k c d a).
Proof. unfold aead_chacha20_seal. keeps. Qed.
Lemma keeps_stamp {A} st (I : A -> Prop) : preserves (E:=WireGuardError) I (Stamp.stamp st).
Proof. unfold Stamp.stamp, dur_add. keeps. Qed.
Lemma keeps_inc_index : preserves all_hybrid inc_index.
Proof. unfold inc_index. keeps; done. Qed.
#[local] Hint Resolve keeps_macs keeps_open keeps_seal keeps_stamp keeps_inc_index : keeps.

Ltac all_hybrid := unfold all_hybrid, replace_state, set_state, set_previous, set_last_rtt,
  set_last_handshake_timestamp; cbn; try tauto; try (split; [by eexists|tauto]).

Lemma hybrid_step_inv s s' : hybrid_step s s' -> all_hybrid s -> all_hybrid s'.
Proof.
  intros [dst w F|p dst w F|p dst w F|q w F|q w F|c w F|priv pub w F| -> | ->] Hs;
    try (revert F; apply preserves_final; [|done]).
  - unfold format_pq_handshake_initiation. keeps; all_hybrid.
  - unfold receive_handshake_initialization, format_handshake_response. keeps; all_hybrid.
  - unfold receive_pq_handshake_initialization, format_pq_handshake_response. keeps; all_hybrid.
  - unfold receive_handshake_response. keeps; all_hybrid.
  - unfold receive_pq_handshake_response. keeps; all_hybrid.
  - unfold receive_cookie_reply. keeps; all_hybrid.
  - unfold set_static_private. apply (preserves_zoom _ _ _ _ (fun _ => True));
      [by intros ? ? ?; case_match| done | done].
  - done.
  - done.
Qed.

(** C5. No downgrade: in a hybrid build, whatever messages arrive and in whatever
    order the tunnel calls its handshake, a classical response never completes
    a handshake: it is refused and leaves the state as it was. *)
Theorem hybrid_never_downgraded s s' q w :
  pq = true -> state s = HsNone -> previous s = HsNone -> rtc hybrid_step s s' ->
  receive_handshake_response q s' w = Fail UnexpectedPacket s' w \/
  receive_handshake_response q s' w = Fail WrongPacketType s' w.
Proof.
  intros Hpq Hs Hp R.
  assert (I : all_hybrid s').
  { assert (I : all_hybrid s) by (unfold all_hybrid; by rewrite Hs, Hp).
    clear Hs Hp. induction R; eauto using hybrid_step_inv. }
  destruct (response_kinds s' w) as (Hwrong & _ & Hnone & _).
  destruct (awaiting (hr_receiver_idx q) s') as [[st slot]|] eqn:Ha; [right|left; by apply Hnone].
  apply (Hwrong q st slot Hpq Ha). apply not_eq_None_Some. destruct I as [I1 I2].
  unfold awaiting in Ha. repeat case_match; simplify_eq; done.
Qed.

(** ** Replayed and forged initiations *)

(** The two kinds of initiation, and the method each is given to. *)
Definition Initiation : Type := HandshakeInit + PqHandshakeInit.
Definition receive_initiation (m : Initiation) (dst : bytes) :
  M WireGuardError Handshake (bytes * Transport.Session) :=
  match m with
  | inl p => receive_handshake_initialization p dst
  | inr p => receive_pq_handshake_initialization p dst
  end.
Definition wf_initiation (m : Initiation) : Prop :=
  match m with inl p => well_formed (PHandshakeInit p) | inr p => well_formed (PPqHandshakeInit p) end.
Definition read (m : Initiation) (s : Handshake) : (Tai64N * Symmetric) + WireGuardError :=
  match m with
  | inl p => read_initiation None (hi_unencrypted_ephemeral p) (hi_encrypted_static p)
               (hi_encrypted_timestamp p) s
  | inr p => read_initiation (Some (pqi_mlkem_ephemeral_public p)) (pqi_unencrypted_ephemeral p)
               (pqi_encrypted_static p) (pqi_encrypted_timestamp p) s
  end.

(** What answering changes: never the keys or the accepted timestamp. *)
Definition answered (s0 s : Handshake) : Prop :=
  params s = params s0 /\ last_handshake_timestamp s = last_handshake_timestamp s0.

Lemma answered_macs s0 i dst : preserves (answered s0) (append_mac1_and_mac2 i dst).
Proof. unfold append_mac1_and_mac2. keeps; done. Qed.
Lemma answered_inc_index s0 : preserves (answered s0) inc_index.
Proof. unfold inc_index. keeps; done. Qed.
#[local] Hint Resolve answered_macs answered_inc_index : keeps.

Lemma answered_response s0 dst : preserves (answered s0) (format_handshake_response dst).
Proof. unfold format_handshake_response. keeps; done. Qed.
Lemma answered_pq_response s0 dst : preserves (answered s0) (format_pq_handshake_response dst).
Proof. unfold format_pq_handshake_response. keeps; done. Qed.

(** Answering fails only for want of space or on a bad encapsulation key. *)
Definition answers {A} (o : outcome WireGuardError Handshake A) : Prop :=
  match o with
  | Ok _ _ _ => True
  | Fail e _ _ => e = DestinationBufferTooSmall \/ e = InvalidPacket
  | Panic => False
  end.

Lemma response_answers dst ts st e j s w :
  answers (format_handshake_response dst (init_received ts st e j None s) w).
Proof.
  destruct (decide (length dst < HANDSHAKE_RESP_SZ)%nat) as [L|L].
  - unfold format_handshake_response. rewrite bool_decide_eq_true_2 by done. by left.
  - pose proof (format_handshake_response_eq dst (init_received ts st e j None s) w st e j None
      eq_refl ltac:(lia)) as F.
    destruct (write_response _ _ _ _ _) as [enc [k1 k2]]. cbn zeta in F. by rewrite F.
Qed.

Lemma pq_response_answers dst ts st e j ek s w : length ek = MLKEM768_PK_SIZE ->
  answers (format_pq_handshake_response dst (init_received ts st e j (Some ek) s) w).
Proof.
  intros Lek. destruct (decide (length dst < PQ_HANDSHAKE_RESP_SZ)%nat) as [L|L].
  - unfold format_pq_handshake_response. rewrite bool_decide_eq_true_2 by done. by left.
  - destruct (mlkem_ek_valid ek) eqn:Hv.
    + pose proof (format_pq_handshake_response_eq dst (init_received ts st e j (Some ek) s) w st e j ek
        eq_refl ltac:(lia) Lek Hv) as F.
      destruct (mlkem_encapsulate _ _) as [ct kss], (write_response _ _ _ _ _) as [enc [k1 k2]].
      cbn zeta in F. by rewrite F.
    + rewrite (format_pq_handshake_response_bad_key dst (init_received ts st e j (Some ek) s) w
        st e j ek eq_refl ltac:(lia) Lek Hv). by right.
Qed.

(** One initiation: it panics never; refused by the reader, it changes nothing;
    otherwise the accepted timestamp is recorded. *)
Lemma receive_initiation_step m dst s w : wf_initiation m ->
  match read m s with
  | inr e => receive_initiation m dst s w = Fail e s w
  | inl (ts, _) => answers (receive_initiation m dst s w) /\
      exists s', final (receive_initiation m dst s w) = Some s' /\
        params s' = params s /\ last_handshake_timestamp s' = ts
  end.
Proof.
  destruct m as [p|p]; intros W; cbn [read receive_initiation].
  - rewrite receive_handshake_initialization_eq by done.
    destruct (read_initiation _ _ _ _ _) as [[ts st]|e]; [|done].
    set (s1 := init_received _ _ _ _ _ _).
    pose proof (answered_response s1 dst s1 w (conj eq_refl eq_refl)) as A.
    pose proof (response_answers dst ts st (hi_unencrypted_ephemeral p) (hi_sender_idx p) s w) as NP.
    fold s1 in NP. destruct (format_handshake_response dst s1 w); cbn [final]; eauto; done.
  - rewrite receive_pq_handshake_initialization_eq by done. destruct W as (_ & _ & _ & _ & Lek).
    destruct (read_initiation _ _ _ _ _) as [[ts st]|e]; [|done].
    set (s1 := init_received _ _ _ _ _ _).
    pose proof (answered_pq_response s1 dst s1 w (conj eq_refl eq_refl)) as A.
    pose proof (pq_response_answers dst ts st (pqi_unencrypted_ephemeral p) (pqi_sender_idx p)
      (pqi_mlkem_ephemeral_public p) s w Lek) as NP.
    fold s1 in NP. destruct (format_pq_handshake_response dst s1 w); cbn [final]; eauto; done.
Qed.

(** The timestamp an initiation carries for a given set of keys. *)
Lemma read_timestamps m s s' ts st ts' st' :
  params s = params s' -> read m s = inl (ts, st) -> read m s' = inl (ts', st') -> ts = ts'.
Proof.
  intros Hp. destruct m as [p|p]; unfold read, read_initiation; rewrite <- Hp;
    intros; repeat case_match; simplify_eq; done.
Qed.

Lemma read_after m s ts st :
  read m s = inl (ts, st) -> Tai.after ts (last_handshake_timestamp s) = true.
Proof.
  destruct m as [p|p]; unfold read, read_initiation; intros; repeat case_match; by simplify_eq.
Qed.

Lemma after_trans a b c : Tai.after a b = true -> Tai.after b c = true -> Tai.after a c = true.
Proof. unfold Tai.after. lia. Qed.
Lemma after_irrefl a : Tai.after a a = false.
Proof. unfold Tai.after. lia. Qed.

(** A responder's run over a sequence of initiations: those it answers, or
    [None] if a call panics. *)
Fixpoint answer_all (ms : list Initiation) (dst : bytes) (s : Handshake) (w : World) :
  option (list Initiation) :=
  match ms with
  | [] => Some []
  | m :: ms =>
      match receive_initiation m dst s w with
      | Ok _ s' w' => cons m <$> answer_all ms dst s' w'
      | Fail _ s' w' => answer_all ms dst s' w'
      | Panic => None
      end
  end.

Lemma answer_all_fresh dst ms : Forall wf_initiation ms -> forall s w,
  exists acc, answer_all ms dst s w = Some acc /\ NoDup acc /\
    forall m, m ∈ acc -> exists s0 ts st, params s0 = params s /\ read m s0 = inl (ts, st) /\
      Tai.after ts (last_handshake_timestamp s) = true.
Proof.
  induction 1 as [|m ms W _ IH]; intros s w.
  { exists []. split_and!; [done|constructor|]. by intros m ?%not_elem_of_nil. }
  cbn [answer_all]. pose proof (receive_initiation_step m dst s w W) as St.
  destruct (read m s) as [[ts st]|e] eqn:Er; [|rewrite St; apply IH].
  pose proof (read_after m s ts st Er) as Ha.
  destruct St as (_ & s' & F & Hp & Hl).
  assert (Hold : forall w', exists acc, answer_all ms dst s' w' = Some acc /\ NoDup acc /\ (m ∉ acc) /\
    forall m, m ∈ acc -> exists s0 ts st, params s0 = params s /\ read m s0 = inl (ts, st) /\
      Tai.after ts (last_handshake_timestamp s) = true).
  { intros w'. destruct (IH s' w') as (acc & -> & ND & Hacc). exists acc. rewrite Hp, Hl in Hacc.
    split_and!; [done..| |].
    - intros (s0 & ts0 & st0 & Hp0 & Hr0 & Hts)%Hacc.
      rewrite (read_timestamps m s0 s ts0 st0 ts st Hp0 Hr0 Er), after_irrefl in Hts. done.
    - intros m' (s0 & ts0 & st0 & Hp0 & Hr0 & Hts)%Hacc. exists s0, ts0, st0.
      split_and!; [done..|]. by eapply after_trans. }
  destruct (receive_initiation m dst s w) as [a s1 w1|e s1 w1|]; cbn in F; simplify_eq.
  - destruct (Hold w1) as (acc & -> & ND & Hni & Hacc). exists (m :: acc).
    split_and!; [done|by constructor|]. intros m' [->|?]%elem_of_cons; eauto 6.
  - destruct (Hold w1) as (acc & -> & ND & _ & Hacc). eauto.
Qed.

(** C11. Replay protection of the handshake: over any sequence of well-formed
    initiations, classical or hybrid, repeated or reordered, no call panics and
    no initiation is answered twice. *)
Theorem initiations_answered_once ms dst s w :
  Forall wf_initiation ms -> exists acc, answer_all ms dst s w = Some acc /\ NoDup acc.
Proof.
  intros W. destruct (answer_all_fresh dst ms W s w) as (acc & ? & ? & _). by exists acc.
Qed.

(** Forged and replayed initiations are inert: when an initiation is refused
    by authentication, by the peer's key or by its timestamp, neither the state
    nor the random generator nor the clock has moved. *)
Theorem refused_initiation_inert m dst s w e s' w' :
  wf_initiation m -> receive_initiation m dst s w = Fail e s' w' ->
  e = InvalidAeadTag \/ e = WrongKey \/ e = WrongTai64nTimestamp ->
  s' = s /\ w' = w.
Proof.
  intros W F He. pose proof (receive_initiation_step m dst s w W) as St.
  destruct (read m s) as [[ts st]|e']; rewrite F in St; [|by simplify_eq].
  destruct St as [[->| ->] _]; naive_solver.
Qed.

Lemma anon_parse_acceptor m dst s w x s' w' :
  wf_initiation m -> receive_initiation m dst s w = Ok x s' w' ->
  forall T (t : T),
  match m with
  | inl p => parse_handshake_anon (static_private (params s)) (static_public (params s)) p t w =
      Ok (mkHalfHandshake (hi_sender_idx p) (peer_static_public (params s))) t w
  | inr p => parse_pq_handshake_anon (static_private (params s)) (static_public (params s)) p t w =
      Ok (mkHalfHandshake (pqi_sender_idx p) (peer_static_public (params s))) t w
  end.
Proof.
  intros W F T t. pose proof (receive_initiation_step m dst s w W) as St. rewrite F in St.
  destruct (read m s) as [[ts st]|e'] eqn:R; [|done]. clear St F.
  destruct m as [p|p]; cbn [wf_initiation] in W; unfold read, read_initiation in R.
  - rewrite parse_handshake_anon_eq by done. cbn [is_hybrid] in R.
    repeat case_match; simplify_eq. case_bool_decide; by subst.
  - rewrite parse_pq_handshake_anon_eq by done. cbn [is_hybrid] in R.
    repeat case_match; simplify_eq. case_bool_decide; by subst.
Qed.

(** Attribution: a device that reads the static key of an initiation without
    knowing the peer ([parse_handshake_anon] and its hybrid twin) reads the key
    of the very peer whose handshake can accept the message. *)
Theorem anonymous_parse_names_acceptor m dst s w x s' w' :
  wf_initiation m -> receive_initiation m dst s w = Ok x s' w' ->
  forall T (t : T),
  match m with
  | inl p => parse_handshake_anon (static_private (params s)) (static_public (params s)) p t w =
      Ok (mkHalfHandshake (hi_sender_idx p) (peer_static_public (params s))) t w
  | inr p => parse_pq_handshake_anon (static_private (params s)) (static_public (params s)) p t w =
      Ok (mkHalfHandshake (pqi_sender_idx p) (peer_static_public (params s))) t w
  end.
Proof. apply anon_parse_acceptor. Qed.

Lemma read_again m s s' ts st :
  read m s = inl (ts, st) -> params s' = params s -> last_handshake_timestamp s' = ts ->
  read m s' = inr WrongTai64nTimestamp.
Proof.
  intros R Hp Hl. destruct m as [p|p]; unfold read, read_initiation in *; rewrite Hp, Hl;
    repeat case_match; simplify_eq; try done.
  all: match goal with Ht : tai_of ?l = _ |- _ => rewrite <- Ht, after_irrefl in * end; done.
Qed.

(** An answer that does not fit: when the buffer is too small for the
    response, an acceptable initiation is consumed all the same.  The handshake
    is left in progress without a timer, and the peer's retransmission of the
    message is refused as a replay, with any buffer. *)
Theorem small_buffer_consumes_initiation p dst s w ts st :
  well_formed (PHandshakeInit p) -> read (inl p) s = inl (ts, st) ->
  (length dst < HANDSHAKE_RESP_SZ)%nat ->
  exists s', receive_handshake_initialization p dst s w = Fail DestinationBufferTooSmall s' w /\
    is_in_progress s' = true /\ timer s' = None /\
    forall dst' w', receive_handshake_initialization p dst' s' w' = Fail WrongTai64nTimestamp s' w'.
Proof.
  intros W R L. pose proof R as R'. rewrite receive_handshake_initialization_eq by done.
  cbn [read] in R. rewrite R. unfold format_handshake_response. rewrite bool_decide_eq_true_2 by done.
  eexists. split_and!; [done..|]. intros dst' w'. rewrite receive_handshake_initialization_eq by done.
  set (s' := init_received _ _ _ _ _ _). pose proof (read_again (inl p) s s' ts st R' eq_refl eq_refl) as R2.
  cbn [read] in R2. by rewrite R2.
Qed.

(** ** Timestamps *)

Lemma tai_of_stamp d : 0 <= d -> as_secs d + TAI64_BASE < 2 ^ 64 ->
  tai_of (stamp_of d) = mkTai64N (as_secs d + TAI64_BASE) (subsec_nanos d).
Proof.
  intros Hd Hs. unfold tai_of, stamp_of, as_secs, subsec_nanos, NANOSECOND in *.
  rewrite take_app_length', drop_app_length' by len.
  rewrite !from_to_be. change (Z.of_nat 8 * 8) with 64. change (Z.of_nat 4 * 8) with 32.
  assert (B : TAI64_BASE = 4611686018427387941) by reflexivity.
  unfold u64. rewrite !(Z.mod_small _ (2 ^ 64)), (Z.mod_small _ (2 ^ 32)) by dlia. done.
Qed.

(** Timestamps follow the clock: of two readings of a stamper whose seconds
    fit, the one taken at the strictly later clock value parses as the strictly
    later timestamp, and equal clock values give equal timestamps. *)
Theorem stamps_follow_clock {E S} st (s : S) w1 w2 :
  0 <= duration_at_start st ->
  instant_at_start st <= clock (ticks w1) -> instant_at_start st <= clock (ticks w2) ->
  as_secs (stamp_time st w1) + TAI64_BASE < 2 ^ 64 ->
  as_secs (stamp_time st w2) + TAI64_BASE < 2 ^ 64 ->
  exists b1 b2 t1 t2,
    Stamp.stamp (E:=E) st s w1 = Ok b1 s (tick w1) /\ Tai.parse b1 = inl t1 /\
    Stamp.stamp (E:=E) st s w2 = Ok b2 s (tick w2) /\ Tai.parse b2 = inl t2 /\
    Tai.after t2 t1 = (clock (ticks w1) <? clock (ticks w2)) /\
    (clock (ticks w1) = clock (ticks w2) -> t1 = t2).
Proof.
  intros Hd H1' H2' Hs1 Hs2.
  assert (B : TAI64_BASE = 4611686018427387941) by reflexivity.
  assert (L1 : 0 <= stamp_time st w1 < MAX_DURATION /\ 0 <= stamp_time st w2 < MAX_DURATION).
  { unfold stamp_time, MAX_DURATION, duration_since, as_secs, NANOSECOND in *. rewrite B in *. dlia. }
  eexists _, _, _, _. rewrite !stamp_eq by apply L1. split_and!.
  - done.
  - apply tai_parse, length_stamp_of.
  - done.
  - apply tai_parse, length_stamp_of.
  - rewrite !tai_of_stamp by (done || apply L1). unfold Tai.after. cbn [secs nano].
    unfold stamp_time, duration_since, as_secs, subsec_nanos, NANOSECOND in *.
    rewrite !Z.max_r by lia. clear Hs1 Hs2 L1 B. apply eq_bool_prop_intro.
    rewrite !Is_true_true. rewrite orb_true_iff, andb_true_iff, !Z.ltb_lt, Z.eqb_eq. dlia.
  - unfold stamp_time. by intros ->.
Qed.
End Properties.

(** ** Concrete runs *)

Module Example.
#[local] Existing Instances pq_build Toy.crypto Toy.laws.

(** A clock that advances by a second per reading, until it stops in some far
    future, and a counting generator. *)
#[local] Instance env : Env := {|
  clock := fun n => Z.min (Z.of_nat n) (2 ^ 40) * NANOSECOND;
  system_time := fun n => 1700000000 * NANOSECOND;
  rng := fun n k => byte.of_Z (Z.of_nat (7 * n + k));
|}.

#[local] Instance env_clock : MonotoneClock.
Proof. constructor; cbn; unfold NANOSECOND; lia. Qed.

Definition w0 : World := mkWorld 5 0 0 0.
Definition alice_key : bytes := bytes_of [1; 2; 3] ++ zeros 29.
Definition bob_key : bytes := bytes_of [9; 8; 7] ++ zeros 29.
Definition peer (mine theirs : bytes) (idx : Z) : Handshake :=
  match new (E:=unit) mine (x25519_public mine) (x25519_public theirs) idx (Some (zeros 32)) tt
          (mkWorld 0 0 0 0) with
  | Ok h _ _ => h
  | _ => mkHandshake (noise_params_new [] [] [] None) 0 HsNone HsNone (mkCookies None 0 None) Tai.zero
           (mkTimeStamper 0 0) None
  end.
Definition alice : Handshake := peer alice_key bob_key 256.
Definition bob : Handshake := peer bob_key alice_key 1023.

Ltac by_computation :=
  first [vm_compute; reflexivity | vm_compute; intros; discriminate
        | vm_compute; repeat split; discriminate | vm_compute; lia].

Lemma inc_index_cycles_witness : Nat.iter 3 bump 255 <> Nat.iter 200 bump 255.
Proof. apply (inc_index_cycles 255); [by_computation|lia]. Defined.

Lemma handshake_agreement_witness : exists q a1 sb sa a2,
  receive_handshake_response q a1 w0 = Ok sa a2 (tick w0) /\ crossed sa sb.
Proof.
  destruct (handshake_agreement alice bob w0 w0 (zeros 148) (zeros 92))
    as (? & a1 & ? & ? & ? & sb & ? & ? & q & ? & ? & ? & ? & R); [by_computation..|].
  destruct (R w0) as (sa & a2 & F & C & _). exists q, a1, sb, sa, a2. exact (conj F C).
Defined.

Lemma pq_handshake_agreement_witness : exists q a1 sb sa a2,
  receive_pq_handshake_response q a1 w0 = Ok sa a2 (tick w0) /\ crossed sa sb.
Proof.
  destruct (pq_handshake_agreement alice bob w0 w0 (zeros 1332) (zeros 1180))
    as (? & a1 & ? & ? & ? & sb & ? & ? & q & ? & ? & ? & ? & R); [by_computation..|].
  destruct (R w0) as (sa & a2 & F & C & _). exists q, a1, sb, sa, a2. exact (conj F C).
Defined.

Lemma delayed_response_witness : exists q a2 sb sa a3,
  receive_handshake_response q a2 w0 = Ok sa a3 (tick w0) /\ crossed sa sb.
Proof.
  destruct (delayed_response alice bob w0 w0 (mkWorld 9 0 4 0) (zeros 148) (zeros 92) (zeros 148))
    as (? & a1 & ? & ? & ? & sb & ? & ? & q & ? & a2 & ? & ? & ? & ? & ? & ? & R); [by_computation..|].
  destruct (R w0) as (sa & a3 & F & C & _). exists q, a2, sb, sa, a3. exact (conj F C).
Defined.

Lemma hybrid_never_downgraded_witness :
  let q := mkHandshakeResponse 1 257 (zeros 32) (zeros 16) in
  let s := set_expired alice in
  receive_handshake_response q s w0 = Fail UnexpectedPacket s w0 \/
  receive_handshake_response q s w0 = Fail WrongPacketType s w0.
Proof.
  apply (hybrid_never_downgraded alice); [reflexivity..|].
  apply rtc_once. by apply step_expire.
Defined.

(** Alice's first initiation, as Bob parses it. *)
Definition hello : HandshakeInit :=
  match format_handshake_initiation (zeros 148) alice w0 with
  | Ok m _ _ => match parse_incoming_packet m with
                | inl (PHandshakeInit p) => p
                | _ => mkHandshakeInit 0 [] [] []
                end
  | _ => mkHandshakeInit 0 [] [] []
  end.

Lemma hello_wf : well_formed (PHandshakeInit hello).
Proof. by_computation. Defined.

Lemma initiations_answered_once_witness :
  exists acc, answer_all [inl hello; inl hello] (zeros 92) bob w0 = Some acc /\ NoDup acc.
Proof. apply initiations_answered_once. repeat constructor; by_computation. Defined.

Definition forged : HandshakeInit := mkHandshakeInit 5 (zeros 32) (zeros 48) (zeros 28).

Lemma forged_wf : wf_initiation (inl forged).
Proof. by_computation. Defined.

Lemma forged_refused : exists s' w',
  receive_initiation (inl forged) (zeros 92) bob w0 = Fail InvalidAeadTag s' w'.
Proof.
  assert (F : match receive_initiation (inl forged) (zeros 92) bob w0 with
              | Fail InvalidAeadTag _ _ => true | _ => false end = true) by by_computation.
  destruct (receive_initiation _ _ _ _) as [|e s' w'|]; [discriminate F| |discriminate F].
  destruct e; try discriminate F. by exists s', w'.
Defined.

Lemma refused_initiation_inert_witness : exists s' w',
  receive_initiation (inl forged) (zeros 92) bob w0 = Fail InvalidAeadTag s' w' /\ s' = bob /\ w' = w0.
Proof.
  destruct forged_refused as (s' & w' & F). exists s', w'. split; [exact F|].
  apply (refused_initiation_inert (inl forged) (zeros 92) bob w0 InvalidAeadTag s' w');
    [exact forged_wf | exact F | by left].
Defined.

Lemma hello_answered : returns (receive_initiation (inl hello) (zeros 92) bob w0) = true.
Proof. by_computation. Defined.

Lemma anonymous_parse_names_acceptor_witness :
  parse_handshake_anon (static_private (params bob)) (static_public (params bob)) hello tt w0 =
  Ok (mkHalfHandshake (hi_sender_idx hello) (peer_static_public (params bob))) tt w0.
Proof.
  destruct (returns_ok _ hello_answered) as (x & s' & w' & F).
  exact (anonymous_parse_names_acceptor (inl hello) (zeros 92) bob w0 x s' w' hello_wf F unit tt).
Defined.

Lemma hello_readable : match read (inl hello) bob with inl _ => true | inr _ => false end = true.
Proof. by_computation. Defined.

Lemma small_buffer_consumes_initiation_witness :
  exists s', receive_handshake_initialization hello (zeros 91) bob w0 =
    Fail DestinationBufferTooSmall s' w0 /\ is_in_progress s' = true.
Proof.
  pose proof hello_readable as Hr.
  destruct (read (inl hello) bob) as [[ts st]|e] eqn:R; [|discriminate Hr].
  destruct (small_buffer_consumes_initiation hello (zeros 91) bob w0 ts st hello_wf R)
    as (s' & F & P & _); [vm_compute; lia|]. exists s'. exact (conj F P).
Defined.

Lemma stamps_follow_clock_witness :
  exists b1 b2 t1 t2,
    Stamp.stamp (E:=unit) (stamper alice) tt w0 = Ok b1 tt (tick w0) /\ Tai.parse b1 = inl t1 /\
    Stamp.stamp (E:=unit) (stamper alice) tt (tick w0) = Ok b2 tt (tick (tick w0)) /\
    Tai.parse b2 = inl t2 /\ Tai.after t2 t1 = true.
Proof.
  destruct (stamps_follow_clock (E:=unit) (stamper alice) tt w0 (tick w0))
    as (b1 & b2 & t1 & t2 & ? & ? & ? & ? & A & _); [by_computation..|].
  exists b1, b2, t1, t2. by rewrite A.
Defined.

End Example.
