(* ===== verification/HandshakeSafety.v ===== *)
(** * The handshake never panics and keeps its invariant

    The interface the tunnel relies on: with clocks that behave, every method
    of [Handshake] returns or fails on every well-formed message, keeps the
    invariant [sane] and hands out sessions whose local index belongs to the
    peer. *)

From S2P Require Import Prelude Packet Crypto Session Instant Handshake NoiseSpec HandshakeSpec.
From S2P Require Import HandshakeProps.

Section Safety.
Context `{Features, Crypto, Env, !CryptoLaws, !MonotoneClock}.

(** The peer an index belongs to: its upper 24 bits. *)
Definition belongs (peer idx : Z) : Prop := is_u32 idx /\ Z.shiftr idx 8 = peer.

Definition sane_state (peer : Z) (st : HandshakeState) : Prop :=
  match st with InitSent i => belongs peer (is_local_index i) | _ => True end.

Definition sane_stamper (st : TimeStamper) : Prop :=
  0 <= duration_at_start st < 2 ^ 63 * NANOSECOND /\ 0 <= instant_at_start st.

Definition sane (peer : Z) (s : Handshake) (w : World) : Prop :=
  length (static_public (params s)) = 32%nat /\ belongs peer (next_index s) /\
  sane_stamper (stamper s) /\ sane_state peer (state s) /\ sane_state peer (previous s).

(** A session for the peer. *)
Definition session_of (peer : Z) (s : Transport.Session) : Prop :=
  Transport.sound s /\ belongs peer (Transport.receiving_index s).

Lemma belongs_bump peer i : belongs peer i -> belongs peer (bump i).
Proof.
  intros [Hi Hp]. split; [by apply bump_u32|]. rewrite <- Hp, !Z.shiftr_div_pow2 by lia.
  rewrite bump_eq by done. unfold is_u32 in Hi. change (2 ^ 8) with 256. dlia.
Qed.

Lemma stamp_time_ok st w : sane_stamper st -> stamp_time st w < MAX_DURATION.
Proof.
  intros [Hd Hi]. pose proof (clock_range (ticks w)).
  unfold stamp_time, duration_since, MAX_DURATION, NANOSECOND in *. lia.
Qed.

Lemma later_tick w : later w (tick w).
Proof. unfold later; cbn; lia. Qed.
Lemma later_rolled w : later w (rolled w).
Proof. unfold later; cbn; lia. Qed.

(** ** Construction *)

Lemma stamper_new {E S} : forall (s : S) w,
  match Stamp.new (E:=E) s w with Ok st _ _ => sane_stamper st | _ => True end.
Proof.
  intros s w. unfold Stamp.new. step. destruct (Z.ltb_spec (system_time (wall w)) 0); [done|].
  step. pose proof (clock_range (ticks w)). pose proof (system_time_range (wall w)).
  unfold sane_stamper, NANOSECOND. cbn. lia.
Qed.

(** ** Initiating *)

Lemma sane_init_sent peer st dk t s w i p w' :
  sane peer s w -> i = bump (next_index s) ->
  sane peer (remember_mac1 i p (init_sent st dk t s w')) w.
Proof.
  intros (Ls & Hn & Ht & Hst & Hp) ->. unfold sane. cbn -[bump]. split_and!; [done| |done| |done].
  all: by apply belongs_bump.
Qed.

Lemma safe_format_handshake_initiation peer dst :
  safe (sane peer) is_message (format_handshake_initiation dst).
Proof.
  intros s w Hs. destruct (decide (length dst < HANDSHAKE_INIT_SZ)%nat) as [L|L].
  { unfold format_handshake_initiation. rewrite bool_decide_eq_true_2 by done. by cbn. }
  pose proof Hs as (Ls & Hn & Ht & _).
  destruct (initiation_parses dst s w Ls (proj1 Hn) (stamp_time_ok _ w Ht) ltac:(lia)) as (c & t & st & _ & F).
  cbn zeta in F. destruct F as (_ & Pi & ->). cbn [ok].
  split_and!; [by apply (sane_init_sent peer _ _ _ s w)| unfold later; cbn; lia |by eexists].
Qed.

Lemma safe_format_pq_handshake_initiation peer dst : pq = true ->
  safe (sane peer) is_message (format_pq_handshake_initiation dst).
Proof.
  intros Hpq s w Hs. destruct (decide (length dst < PQ_HANDSHAKE_INIT_SZ)%nat) as [L|L].
  { unfold format_pq_handshake_initiation. rewrite bool_decide_eq_true_2 by done. by cbn. }
  pose proof Hs as (Ls & Hn & Ht & _).
  pose proof (pq_initiation_parses dst s w Hpq Ls (proj1 Hn) (stamp_time_ok _ w Ht) ltac:(lia)) as F.
  destruct (mlkem_generate _) as [dk ek], F as (c & t & st & _ & F). cbn zeta in F.
  destruct F as (_ & Pi & ->). cbn [ok].
  split_and!; [by apply (sane_init_sent peer _ _ _ s w)| unfold later; cbn; lia |by eexists].
Qed.

(** ** Answering *)

Lemma sane_responded peer ts st e j ek s w i p w' :
  sane peer s w -> sane peer (remember_mac1 i p (responded (init_received ts st e j ek s))) w'.
Proof.
  intros (Ls & Hn & Ht & Hst & Hp). unfold sane. cbn -[bump].
  split_and!; [done|by apply belongs_bump|done|done|done].
Qed.

Lemma sane_received peer ts st e j ek s w w' : sane peer s w -> sane peer (init_received ts st e j ek s) w'.
Proof. intros (Ls & Hn & Ht & Hst & Hp). unfold sane. by cbn. Qed.

Lemma sane_responded_only peer ts st e j ek s w w' :
  sane peer s w -> sane peer (responded (init_received ts st e j ek s)) w'.
Proof.
  intros (Ls & Hn & Ht & Hst & Hp). unfold sane. cbn -[bump].
  split_and!; [done|by apply belongs_bump|done|done|done].
Qed.

Lemma session_of_new peer i j k1 k2 :
  belongs peer i -> is_u32 j -> session_of peer (Transport.new i j k1 k2).
Proof. intros Hi Hj. split; [apply Transport.sound_new; [apply Hi|done]|done]. Qed.

(** An answer: a message, and a session for the peer. *)
Definition answers (peer : Z) (r : bytes * Transport.Session) : Prop := is_message r.1 /\ session_of peer r.2.

Lemma ok_format_handshake_response peer dst ts st e j s w :
  sane peer s w -> is_u32 j ->
  ok (sane peer) (answers peer) w
    (format_handshake_response dst (init_received ts st e j None s) w).
Proof.
  intros Hs Hj. destruct (decide (length dst < HANDSHAKE_RESP_SZ)%nat) as [L|L].
  { unfold format_handshake_response. rewrite bool_decide_eq_true_2 by done. cbn.
    split; [by eapply sane_received|done]. }
  destruct (response_parses dst s w ts st e j (proj1 (proj1 (proj2 Hs))) Hj ltac:(lia)) as (enc & k1 & k2 & _ & F).
  cbn zeta in F. destruct F as (_ & Pr & ->). cbn [ok].
  split_and!; [by eapply sane_responded|apply later_rolled|]. split; [by eexists|].
  apply session_of_new; [|done]. apply belongs_bump. apply Hs.
Qed.

Lemma ok_format_pq_handshake_response peer dst ts st e j ek s w : pq = true ->
  sane peer s w -> is_u32 j -> length ek = MLKEM768_PK_SIZE ->
  ok (sane peer) (answers peer) w
    (format_pq_handshake_response dst (init_received ts st e j (Some ek) s) w).
Proof.
  intros Hpq Hs Hj Lek. destruct (decide (length dst < PQ_HANDSHAKE_RESP_SZ)%nat) as [L|L].
  { unfold format_pq_handshake_response. rewrite bool_decide_eq_true_2 by done. cbn.
    split; [by eapply sane_received|done]. }
  destruct (mlkem_ek_valid ek) eqn:Hv.
  - pose proof (pq_response_parses dst s w ts st e j ek Hpq (proj1 (proj1 (proj2 Hs))) Hj ltac:(lia) Lek Hv) as F.
    destruct (mlkem_encapsulate _ _) as [ct kss], F as (enc & k1 & k2 & _ & F).
    cbn zeta in F. destruct F as (_ & Pr & ->). cbn [ok].
    split_and!; [by eapply sane_responded|unfold later; cbn; lia|]. split; [by eexists|].
    apply session_of_new; [|done]. apply belongs_bump. apply Hs.
  - rewrite (format_pq_handshake_response_bad_key dst (init_received ts st e j (Some ek) s) w
      st e j ek eq_refl ltac:(lia) Lek Hv). cbn.
    split; [by eapply sane_responded_only|apply later_rolled].
Qed.

Lemma safe_receive_handshake_initialization peer p dst : well_formed (PHandshakeInit p) ->
  safe (sane peer) (answers peer) (receive_handshake_initialization p dst).
Proof.
  intros W s w Hs. rewrite receive_handshake_initialization_eq by done.
  destruct (read_initiation _ _ _ _ _) as [[ts st]|e]; [|by cbn].
  apply ok_format_handshake_response; [done|apply W].
Qed.

Lemma safe_receive_pq_handshake_initialization peer p dst : pq = true -> well_formed (PPqHandshakeInit p) ->
  safe (sane peer) (answers peer) (receive_pq_handshake_initialization p dst).
Proof.
  intros Hpq W s w Hs. rewrite receive_pq_handshake_initialization_eq by done.
  destruct (read_initiation _ _ _ _ _) as [[ts st]|e]; [|by cbn].
  apply ok_format_pq_handshake_response; [done|done|apply W|apply W].
Qed.

(** ** Completing *)

Lemma awaiting_sane peer i s w st slot :
  sane peer s w -> awaiting i s = Some (st, slot) -> belongs peer (is_local_index st).
Proof.
  intros (_ & _ & _ & Hs & Hp) Ha. unfold awaiting in Ha.
  repeat case_match; simplify_eq; cbn in *; done.
Qed.

Lemma ok_read_response peer kem j e enc st slot s w :
  sane peer s w -> is_u32 j -> belongs peer (is_local_index st) ->
  ok (sane peer) (session_of peer) w (read_response kem j e enc st slot s w).
Proof.
  intros Hs Hj Hb. unfold read_response. destruct (read_resp _ _ _ _ _ _ _) as [[t [k1 k2]]|]; [|by cbn].
  cbn [ok]. split_and!; [|apply later_tick|by apply session_of_new].
  destruct Hs as (Ls & Hn & Ht & Hst & Hp). unfold sane. by destruct slot; cbn.
Qed.

Lemma safe_receive_handshake_response peer q : well_formed (PHandshakeResponse q) ->
  safe (sane peer) (session_of peer) (receive_handshake_response q).
Proof.
  intros W s w Hs. rewrite receive_handshake_response_eq by done.
  destruct (awaiting _ _) as [[st slot]|] eqn:Ha; [|by cbn].
  destruct (pq && _); [by cbn|]. apply ok_read_response; [done|apply W|by eapply awaiting_sane].
Qed.

Lemma safe_receive_pq_handshake_response peer q : well_formed (PPqHandshakeResponse q) ->
  safe (sane peer) (session_of peer) (receive_pq_handshake_response q).
Proof.
  intros W s w Hs. rewrite receive_pq_handshake_response_eq by done.
  destruct (awaiting _ _) as [[st slot]|] eqn:Ha; [|by cbn].
  destruct (is_mlkem_decapsulation_key st); [|by cbn].
  destruct (mlkem_try_decapsulate _ _); [|by cbn].
  apply ok_read_response; [done|apply W|by eapply awaiting_sane].
Qed.

Lemma safe_receive_cookie_reply peer c : safe (sane peer) (fun _ => True) (receive_cookie_reply c).
Proof.
  intros s w Hs. unfold receive_cookie_reply. step.
  destruct (last_mac1 _); [|by cbn]. step. destruct (_ =? _); cbn [negb]; [|by cbn].
  destruct (xchacha_open _ _ _ _); [|by cbn]. step. case_bool_decide; by cbn.
Qed.

End Safety.
