(* ===== verification/RateLimiter.v ===== *)
(** * Denial-of-service protection: [noise/rate_limiter.rs]

    The limiter checks the first code of every handshake message, counts the
    messages that pass and, above its limit, admits only those whose second
    code proves the source address, answering the others with a cookie.  The
    fields behind atomics and a mutex are the fields of the state; every method
    touches each of them at most once, so calls are taken one after the other.

    The theorems bound what is admitted between two resets, show that messages
    outside the handshake pass untouched, and follow a cookie from the limiter
    through the initiator's handshake back to the limiter. *)

From S2P Require Import Prelude Packet Crypto Session Instant Handshake NoiseSpec HandshakeSpec.
From S2P Require Import HandshakeProps.

Definition COOKIE_REFRESH : Z := 128.
Definition COOKIE_SIZE : nat := 16.
Definition COOKIE_NONCE_SIZE : nat := 24.
Definition RESET_PERIOD : Z := 1.

Record RateLimiter := mkRateLimiter {
  nonce_key : bytes;
  secret_key : bytes;
  start_time : Z;
  nonce_ctr : Z;
  mac1_key : bytes;
  cookie_key : bytes;
  limit : Z;
  count : Z;
  last_reset : Z;
}.

Definition set_nonce_ctr x l := mkRateLimiter (nonce_key l) (secret_key l) (start_time l) x (mac1_key l)
  (cookie_key l) (limit l) (count l) (last_reset l).
Definition set_count x l := mkRateLimiter (nonce_key l) (secret_key l) (start_time l) (nonce_ctr l)
  (mac1_key l) (cookie_key l) (limit l) x (last_reset l).
Definition set_last_reset x l := mkRateLimiter (nonce_key l) (secret_key l) (start_time l) (nonce_ctr l)
  (mac1_key l) (cookie_key l) (limit l) (count l) x.

Section Limiter.
Context `{Features, Crypto, Env}.

(** [RateLimiter::rand_bytes] *)
Definition rand_bytes {E S} : M E S bytes := stream <- draw;; ret (fill_bytes 32 stream).

(** [RateLimiter::new] *)
Definition new {E S} (public_key : bytes) (limit : Z) : M E S RateLimiter :=
  stream <- draw;;
  let secret_key := fill_bytes 16 stream in
  nonce_key <- rand_bytes;;
  start_time <- now;;
  last_reset <- now;;
  ret (mkRateLimiter nonce_key secret_key start_time 0 (b2s_hash LABEL_MAC1 public_key)
         (b2s_hash LABEL_COOKIE public_key) limit 0 last_reset).

Section Methods.
Context {E : Type}.
Abbreviation LM := (M E RateLimiter).

Definition reset_count : LM unit :=
  current_time <- now;;
  self <- get;;
  if RESET_PERIOD <=? as_secs (duration_since current_time (last_reset self)) then
    modify (set_count 0);;
    modify (set_last_reset current_time)
  else ret tt.

Definition current_cookie (addr : IpAddr) : LM bytes :=
  let addr_bytes := zeros 16 in
  let addr_bytes := match addr with
                    | IpV4 a => splice 0 a addr_bytes
                    | IpV6 a => splice 0 a addr_bytes
                    end in
  t <- now;;
  self <- get;;
  let cur_counter := as_secs (duration_since t (start_time self)) / COOKIE_REFRESH in
  ret (b2s_keyed_mac_16_2 (secret_key self) (to_le 8 cur_counter) addr_bytes).

(** The counter wraps around, as [fetch_add] does. *)
Definition nonce : LM bytes :=
  self <- get;;
  let ctr := nonce_ctr self in
  modify (set_nonce_ctr (u64 (ctr + 1)));;
  ret (b2s_mac_24 (nonce_key self) (to_le 8 ctr)).

Definition is_under_load : LM bool :=
  self <- get;;
  modify (set_count (u64 (count self + 1)));;
  ret (limit self <=? count self).

End Methods.

Definition format_cookie_reply (idx : Z) (cookie mac1 dst : bytes) : M WireGuardError RateLimiter bytes :=
  if bool_decide (length dst < COOKIE_REPLY_SZ)%nat then fail DestinationBufferTooSmall else
  let dst := splice 0 (to_le 4 COOKIE_REPLY) dst in
  let dst := splice 4 (to_le 4 idx) dst in
  n <- nonce;;
  let dst := splice 8 n dst in
  self <- get;;
  let '(ct, tag) := xchacha_seal (cookie_key self) n mac1 cookie in
  let dst := splice 32 ct dst in
  let dst := splice 48 tag dst in
  ret (take COOKIE_REPLY_SZ dst).

(** The sender index of the messages that are verified. *)
Definition sender_idx_of (packet : Packet) : option Z :=
  match packet with
  | PHandshakeInit p => Some (hi_sender_idx p)
  | PHandshakeResponse p => Some (hr_sender_idx p)
  | PPqHandshakeInit p => Some (pqi_sender_idx p)
  | PPqHandshakeResponse p => Some (pqr_sender_idx p)
  | _ => None
  end.

Definition verify_packet (src_addr : option IpAddr) (src dst : bytes) : M TunnResult RateLimiter Packet :=
  match parse_incoming_packet src with
  | inr e => fail (Err e)
  | inl packet =>
      match sender_idx_of packet with
      | None => ret packet
      | Some sender_idx =>
          let msg := take (length src - 32) src in
          let macs := drop (length src - 32) src in
          let mac1 := take 16 macs in
          let mac2 := drop 16 macs in
          self <- get;;
          let computed_mac1 := b2s_keyed_mac_16 (mac1_key self) msg in
          if negb (bool_decide (take 16 computed_mac1 = mac1)) then fail (Err InvalidMac) else
          under_load <- is_under_load;;
          if under_load : bool then
            match src_addr with
            | None => fail (Err UnderLoad)
            | Some addr =>
                cookie <- current_cookie addr;;
                let computed_mac2 := b2s_keyed_mac_16_2 cookie msg mac1 in
                if negb (bool_decide (take 16 computed_mac2 = mac2)) then
                  reply <- attempt (format_cookie_reply sender_idx cookie mac1 dst);;
                  match reply with
                  | inl cookie_packet => fail (WriteToNetwork cookie_packet)
                  | inr e => fail (Err e)
                  end
                else ret packet
            end
          else ret packet
      end
  end.

(** ** Symbolic execution *)

(** The cookie of an address at time [t]. *)
Definition addr_bytes (addr : IpAddr) : bytes :=
  match addr with IpV4 a | IpV6 a => splice 0 a (zeros 16) end.
Definition epoch (l : RateLimiter) (t : Z) : Z :=
  as_secs (duration_since t (start_time l)) / COOKIE_REFRESH.
Definition cookie_at (l : RateLimiter) (addr : IpAddr) (t : Z) : bytes :=
  b2s_keyed_mac_16_2 (secret_key l) (to_le 8 (epoch l t)) (addr_bytes addr).

Lemma current_cookie_eq {E} addr l w :
  current_cookie (E:=E) addr l w = Ok (cookie_at l addr (clock (ticks w))) l (tick w).
Proof. by destruct addr. Qed.

Context `{!CryptoLaws}.

(** The reply that carries a cookie, as a message. *)
Definition cookie_nonce (l : RateLimiter) : bytes := b2s_mac_24 (nonce_key l) (to_le 8 (nonce_ctr l)).
Definition cookie_reply (l : RateLimiter) (idx : Z) (cookie mac1 : bytes) : PacketCookieReply :=
  let c := xchacha_seal (cookie_key l) (cookie_nonce l) mac1 cookie in
  mkPacketCookieReply idx (cookie_nonce l) (c.1 ++ c.2).
Definition next_nonce (l : RateLimiter) : RateLimiter := set_nonce_ctr (u64 (nonce_ctr l + 1)) l.

Lemma format_cookie_reply_eq idx cookie mac1 dst l w :
  length cookie = 16%nat -> (COOKIE_REPLY_SZ <= length dst)%nat ->
  format_cookie_reply idx cookie mac1 dst l w =
  Ok (encode (PPacketCookieReply (cookie_reply l idx cookie mac1)) []) (next_nonce l) w.
Proof.
  intros Lk L. unfold format_cookie_reply, COOKIE_REPLY_SZ in *. rewrite bool_decide_eq_false_2 by lia.
  unfold nonce. step. unfold cookie_reply. fold (cookie_nonce l) (next_nonce l).
  change (cookie_key (next_nonce l)) with (cookie_key l).
  pose proof (xchacha_seal_len (cookie_key l) (cookie_nonce l) mac1 cookie) as Lc.
  pose proof (xchacha_tag_len (cookie_key l) (cookie_nonce l) mac1 cookie) as Lt.
  assert (Ln : length (cookie_nonce l) = 24%nat) by apply length_blake2s_mac.
  destruct (xchacha_seal _ _ _ _) as [ct tag]. cbn [fst snd] in Lc, Lt |- *. step. f_equal.
  change (splice 0 (to_le 4 COOKIE_REPLY) dst) with (splice 0 (to_le 4 COOKIE_REPLY) ([] ++ dst)).
  repeat (rewrite splice_after by len).
  cbn [encode cr_receiver_idx cr_nonce cr_encrypted_cookie app]. rewrite app_nil_r.
  rewrite take_app_le, take_ge by len. by rewrite <- !app_assoc.
Qed.

(** The two codes at the end of a message. *)
Definition counted (l : RateLimiter) : RateLimiter := set_count (u64 (count l + 1)) l.
Definition mac1_valid (l : RateLimiter) (body m1 : bytes) : Prop :=
  m1 = b2s_keyed_mac_16 (mac1_key l) body.
Definition mac2_valid (l : RateLimiter) (addr : IpAddr) (t : Z) (body m1 m2 : bytes) : Prop :=
  m2 = b2s_keyed_mac_16_2 (cookie_at l addr t) body m1.

#[global] Instance mac1_valid_dec l body m1 : Decision (mac1_valid l body m1).
Proof. unfold mac1_valid. apply _. Defined.
#[global] Instance mac2_valid_dec l addr t body m1 m2 : Decision (mac2_valid l addr t body m1 m2).
Proof. unfold mac2_valid. apply _. Defined.

(** What the limiter does with a handshake message whose body is [body]. *)
Definition judge (p : Packet) (idx : Z) (m1 m2 : bytes) (addr : option IpAddr) (dst : bytes)
  (l : RateLimiter) (w : World) : outcome TunnResult RateLimiter Packet :=
  let body := encode p [] in
  if negb (bool_decide (mac1_valid l body m1)) then Fail (Err InvalidMac) l w else
  if count l <? limit l then Ok p (counted l) w else
  match addr with
  | None => Fail (Err UnderLoad) (counted l) w
  | Some addr =>
      let t := clock (ticks w) in
      if bool_decide (mac2_valid l addr t body m1 m2) then Ok p (counted l) (tick w) else
      if bool_decide (length dst < COOKIE_REPLY_SZ)%nat
      then Fail (Err DestinationBufferTooSmall) (counted l) (tick w) else
      Fail (WriteToNetwork (encode (PPacketCookieReply (cookie_reply l idx (cookie_at l addr t) m1)) []))
        (next_nonce (counted l)) (tick w)
  end.

Lemma length_encode p m : length (encode p m) = (length (encode p []) + length m)%nat.
Proof. rewrite encode_app. len. Qed.

Lemma handshake_sender p :
  sender_idx_of p = None /\ is_handshake p = false \/
  exists idx, sender_idx_of p = Some idx /\ is_handshake p = true.
Proof. destruct p; cbn; eauto. Qed.

Lemma keyed_mac_chunks k a b : b2s_keyed_mac_16_2 k a b = b2s_keyed_mac_16 k (a ++ b).
Proof.
  unfold b2s_keyed_mac_16_2, b2s_keyed_mac_16. rewrite blake2s_mac_chunks. cbn. by rewrite app_nil_r.
Qed.

Lemma verify_handshake_eq p idx m1 m2 addr dst l w :
  well_formed p -> (is_pq p = true -> pq = true) -> sender_idx_of p = Some idx ->
  length m1 = 16%nat -> length m2 = 16%nat ->
  verify_packet addr (encode p (m1 ++ m2)) dst l w = judge p idx m1 m2 addr dst l w.
Proof.
  intros W Hpq Hi L1 L2. unfold verify_packet, judge.
  assert (Hh : is_handshake p = true) by (destruct p; done).
  rewrite parse_encode_ok; [|done| unfold macs_len; rewrite Hh; len |done].
  rewrite Hi, length_encode, (encode_app p (m1 ++ m2)).
  replace (length (encode p []) + length (m1 ++ m2) - 32)%nat with (length (encode p [])) by len.
  rewrite take_app_length, drop_app_length, take_app_length', drop_app_length' by done. step.
  rewrite take_ge by (unfold b2s_keyed_mac_16; len).
  rewrite (bool_decide_ext (_ = m1) (mac1_valid l (encode p []) m1)) by (split; intros; by symmetry).
  destruct (bool_decide (mac1_valid _ _ _)); cbn [negb]; [|done].
  unfold is_under_load. step. rewrite Z.leb_antisym. destruct (count l <? limit l); cbn [negb]; [done|].
  destruct addr as [addr|]; [|done]. step. rewrite current_cookie_eq. step.
  rewrite take_ge by (unfold b2s_keyed_mac_16_2; len).
  rewrite (bool_decide_ext (_ = m2) (mac2_valid l addr (clock (ticks w)) (encode p []) m1 m2))
    by (split; intros; by symmetry).
  destruct (bool_decide (mac2_valid _ _ _ _ _ _)); cbn [negb]; [done|]. step.
  case_bool_decide as Hd.
  - unfold format_cookie_reply. by rewrite bool_decide_eq_true_2.
  - rewrite format_cookie_reply_eq; [done| apply length_blake2s_mac | lia].
Qed.

(** Every input: what the parser refuses, what passes untouched, and the rest. *)
Lemma verify_packet_cases addr src dst l w :
  (exists e, verify_packet addr src dst l w = Fail (Err e) l w) \/
  (exists p, parse_incoming_packet src = inl p /\ is_handshake p = false /\
     verify_packet addr src dst l w = Ok p l w) \/
  (exists p idx m1 m2, parse_incoming_packet src = inl p /\ sender_idx_of p = Some idx /\
     src = encode p (m1 ++ m2) /\ length m1 = 16%nat /\ length m2 = 16%nat /\
     verify_packet addr src dst l w = judge p idx m1 m2 addr dst l w).
Proof.
  destruct (parse_incoming_packet src) as [p|e] eqn:E.
  2: { left. exists e. unfold verify_packet. by rewrite E. }
  right. destruct (handshake_sender p) as [[Hn Hh]|(idx & Hs & Hh)].
  - left. exists p. split_and!; [done..|]. unfold verify_packet. by rewrite E, Hn.
  - right. pose proof (parse_complete src p E) as (macs & W & L & Hpq & ->).
    unfold macs_len in L. rewrite Hh in L.
    exists p, idx, (take 16 macs), (drop 16 macs). rewrite take_drop.
    split_and!; [done..|len|len|]. rewrite <- (take_drop 16 macs) at 1.
    apply verify_handshake_eq; [done..|len|len].
Qed.

(** ** Properties *)

Lemma judge_later p idx m1 m2 addr dst l w :
  match judge p idx m1 m2 addr dst l w with Ok _ _ w' | Fail _ _ w' => later w w' | Panic => False end.
Proof.
  assert (Ht : later w (tick w)) by (unfold later; cbn; lia).
  unfold judge. destruct (negb _); [done|]. destruct (_ <? _); [done|]. destruct addr; [|done].
  destruct (bool_decide _); [done|]. by destruct (bool_decide _).
Qed.

Lemma verify_later addr src dst l w :
  match verify_packet addr src dst l w with Ok _ _ w' | Fail _ _ w' => later w w' | Panic => False end.
Proof.
  destruct (verify_packet_cases addr src dst l w)
    as [(e & ->)|[(p & _ & _ & ->)|(p & idx & m1 & m2 & _ & _ & _ & _ & _ & ->)]];
    [done|done|apply judge_later].
Qed.

Lemma sender_u32 p idx : well_formed p -> sender_idx_of p = Some idx -> is_u32 idx.
Proof. destruct p; intros W [= <-]; apply W. Qed.

Lemma length_cookie_reply l idx cookie m1 : length cookie = 16%nat ->
  length (encode (PPacketCookieReply (cookie_reply l idx cookie m1)) []) = 64%nat.
Proof.
  intros L. cbn [encode cookie_reply cr_receiver_idx cr_nonce cr_encrypted_cookie].
  rewrite !length_app, xchacha_seal_len, xchacha_tag_len, L, !length_to_le.
  by unfold cookie_nonce, b2s_mac_24; rewrite length_blake2s_mac.
Qed.

(** A handshake message is longer than a cookie reply. *)
Lemma handshake_len p m : well_formed p -> is_handshake p = true -> (60 + length m <= length (encode p m))%nat.
Proof.
  destruct p; cbn [well_formed is_handshake encode]; intros; destruct_and?; try done;
    unfold MLKEM768_PK_SIZE, MLKEM768_CT_SIZE in *; len.
Qed.

Lemma cookie_reply_parses l idx cookie m1 : is_u32 idx -> length cookie = 16%nat ->
  parse_incoming_packet (encode (PPacketCookieReply (cookie_reply l idx cookie m1)) []) =
  inl (PPacketCookieReply (cookie_reply l idx cookie m1)).
Proof.
  intros Hi L. apply parse_encode_ok; [|done|done]. cbn [well_formed cookie_reply cr_receiver_idx cr_nonce cr_encrypted_cookie].
  split_and!; [done | apply length_blake2s_mac|]. rewrite length_app, xchacha_seal_len, xchacha_tag_len. lia.
Qed.

(** What verification returns. *)
Lemma verify_returns addr src dst l w :
  match verify_packet addr src dst l w with
  | Ok p _ w' => parse_incoming_packet src = inl p /\ later w w'
  | Fail (Err _) _ w' => later w w'
  | Fail (WriteToNetwork reply) _ w' => length reply = COOKIE_REPLY_SZ /\ is_message reply /\ later w w'
  | Fail _ _ _ | Panic => False
  end.
Proof.
  pose proof (verify_later addr src dst l w) as L.
  destruct (verify_packet_cases addr src dst l w)
    as [(e & E)|[(p & E & Hh & E')|(p & idx & m1 & m2 & E & Hi & _ & _ & _ & E')]].
  - by rewrite E in *.
  - by rewrite E' in *.
  - rewrite E' in *. unfold judge in *. repeat case_match; simplify_eq; try done.
    pose proof (parse_complete _ _ E) as (_ & W & _). split_and!; [|eexists|done].
    { apply length_cookie_reply, length_blake2s_mac. }
    apply cookie_reply_parses; [by eapply sender_u32|apply length_blake2s_mac].
Qed.

(** Verification of a datagram, on every input: it never panics; what it
    admits parses and, if it is a handshake message, carries a valid first code
    and either arrives below the limit or proves its source address; messages
    outside the handshake leave the limiter untouched; and the only answer it
    ever sends is a cookie reply, shorter than the datagram that caused it. *)
Theorem verify_packet_sound addr src dst l w :
  match verify_packet addr src dst l w with
  | Ok p l' _ => parse_incoming_packet src = inl p /\
      if is_handshake p then
        exists m1 m2, src = encode p (m1 ++ m2) /\ mac1_valid l (encode p []) m1 /\
          (count l < limit l \/
           exists a, addr = Some a /\ mac2_valid l a (clock (ticks w)) (encode p []) m1 m2)
      else l' = l
  | Fail (Err _) _ _ => True
  | Fail (WriteToNetwork reply) _ _ => (length reply = COOKIE_REPLY_SZ /\ length reply < length src)%nat
  | Fail _ _ _ | Panic => False
  end.
Proof.
  destruct (verify_packet_cases addr src dst l w)
    as [(e & ->)|[(p & E & Hh & ->)|(p & idx & m1 & m2 & E & Hi & Es & L1 & L2 & ->)]]; [done| |].
  { by rewrite Hh. }
  pose proof (parse_complete src p E) as (macs & W & _).
  assert (Hh : is_handshake p = true) by (destruct p; done).
  unfold judge. destruct (bool_decide (mac1_valid _ _ _)) eqn:Hm1; cbn [negb]; [|done].
  apply bool_decide_eq_true in Hm1.
  destruct (Z.ltb_spec (count l) (limit l)).
  { rewrite Hh. split; [done|]. exists m1, m2. auto. }
  destruct addr as [addr|]; [|done]. case_bool_decide as Hm2.
  { rewrite Hh. split; [done|]. exists m1, m2. eauto 6. }
  case_bool_decide; [done|]. rewrite length_cookie_reply by apply length_blake2s_mac.
  split; [done|]. pose proof (handshake_len p (m1 ++ m2) W Hh). rewrite Es. len.
Qed.

(** Does a datagram prove its source address at this moment? *)
Definition proves_address (addr : option IpAddr) (src : bytes) (l : RateLimiter) (w : World) : bool :=
  match addr with
  | None => false
  | Some a => bool_decide (mac2_valid l a (clock (ticks w)) (take (length src - 32) src)
      (take 16 (drop (length src - 32) src)) (drop 16 (drop (length src - 32) src)))
  end.

(** A run between two resets: how many handshake messages are admitted without
    a proof of address; [None] if a call panics. *)
Fixpoint run_limiter (ds : list (option IpAddr * bytes)) (dst : bytes) (l : RateLimiter) (w : World) :
  option Z :=
  match ds with
  | [] => Some 0
  | (addr, src) :: ds =>
      match verify_packet addr src dst l w with
      | Ok p l' w' =>
          n ← run_limiter ds dst l' w';
          Some (if is_handshake p && negb (proves_address addr src l w) then n + 1 else n)
      | Fail _ l' w' => run_limiter ds dst l' w'
      | Panic => None
      end
  end.

Lemma proves_address_eq p m1 m2 a l w :
  length m1 = 16%nat -> length m2 = 16%nat ->
  proves_address (Some a) (encode p (m1 ++ m2)) l w =
  bool_decide (mac2_valid l a (clock (ticks w)) (encode p []) m1 m2).
Proof.
  intros L1 L2. unfold proves_address. rewrite length_encode, (encode_app p (m1 ++ m2)).
  replace (length (encode p []) + length (m1 ++ m2) - 32)%nat with (length (encode p [])) by len.
  by rewrite take_app_length, drop_app_length, take_app_length', drop_app_length' by done.
Qed.

Lemma count_next l : 0 <= count l < 2 ^ 64 - 1 -> u64 (count l + 1) = count l + 1.
Proof. intros Hc. apply u64_small. unfold is_u64. lia. Qed.

(** One call spends at most one unit of the budget [limit - count], and exactly
    one when it admits a message on credit. *)
Lemma verify_budget addr src dst l w : 0 <= count l < 2 ^ 64 - 1 ->
  match verify_packet addr src dst l w with
  | Ok p l' _ => limit l' = limit l /\ count l <= count l' <= count l + 1 /\
      (is_handshake p && negb (proves_address addr src l w) = true ->
       count l' = count l + 1 /\ count l < limit l)
  | Fail _ l' _ => limit l' = limit l /\ count l <= count l' <= count l + 1
  | Panic => False
  end.
Proof.
  intros Hc. destruct (verify_packet_cases addr src dst l w)
    as [(e & ->)|[(p & E & Hh & ->)|(p & idx & m1 & m2 & E & Hi & Es & L1 & L2 & ->)]].
  { split; [done|lia]. }
  { rewrite Hh. split_and!; [done|lia|lia|done]. }
  unfold judge. destruct (bool_decide (mac1_valid _ _ _)); cbn [negb]; [|split; [done|lia]].
  assert (Hc' : count (counted l) = count l + 1) by (by apply count_next).
  destruct (Z.ltb_spec (count l) (limit l)).
  { split_and!; [done|lia|lia|]. intros _. split; [exact Hc'|lia]. }
  destruct addr as [a|]; [|split; [done|lia]].
  destruct (bool_decide (mac2_valid _ _ _ _ _ _)) eqn:Hm2.
  { subst src. rewrite proves_address_eq, Hm2 by done. rewrite andb_false_r.
    split_and!; [done|lia|lia|done]. }
  clear Hm2. case_bool_decide; (split; [done|]); change (count (next_nonce (counted l))) with (count (counted l)); lia.
Qed.

(** C16. The limit holds: from a reset until the next one, whatever arrives and
    from wherever, the limiter admits at most [limit] handshake messages that
    do not prove their source address. *)
Theorem admissions_bounded ds dst l w :
  0 <= count l -> count l + Z.of_nat (length ds) < 2 ^ 64 ->
  exists n, run_limiter ds dst l w = Some n /\ 0 <= n <= Z.max 0 (limit l - count l).
Proof.
  revert l w. induction ds as [|[addr src] ds IH]; intros l w Hc Hn.
  { exists 0. split; [done|lia]. }
  cbn [run_limiter length] in *. pose proof (verify_budget addr src dst l w ltac:(lia)) as B.
  destruct (verify_packet addr src dst l w) as [p l' w'|r l' w'|]; [| |done].
  - destruct B as (Hl & Hc' & Hb). destruct (IH l' w') as (n & -> & Hn'); [lia|lia|].
    rewrite Hl in Hn'. cbn. eexists. split; [done|].
    destruct (is_handshake p && _); [destruct Hb; [done|lia]|lia].
  - destruct B as (Hl & Hc'). destruct (IH l' w') as (n & -> & Hn'); [lia|lia|].
    exists n. split; [done|]. rewrite Hl in Hn'. lia.
Qed.

Lemma reset_count_eq {E} l w : exists l', reset_count (E:=E) l w = Ok tt l' (tick w).
Proof. unfold reset_count. step. destruct (_ <=? _); by eexists. Qed.

(** Resetting: the count is cleared exactly when a whole second has passed
    since the last reset, and never restarts a period otherwise; nothing else
    of the limiter changes. *)
Theorem reset_count_spec {E} l w :
  exists l', reset_count (E:=E) l w = Ok tt l' (tick w) /\
    let t := clock (ticks w) in
    (NANOSECOND <= t - last_reset l -> l' = set_last_reset t (set_count 0 l)) /\
    (t - last_reset l < NANOSECOND -> l' = l).
Proof.
  unfold reset_count, RESET_PERIOD, as_secs, duration_since, NANOSECOND. step.
  destruct (Z.leb_spec 1 (Z.max 0 (clock (ticks w) - last_reset l) / 1000000000)); step;
    (eexists; split; [done|]); split; intros; try done; exfalso; dlia.
Qed.

(** A handshake and the limiter of the peer it talks to. *)
Definition guards (l : RateLimiter) (a : Handshake) : Prop :=
  mac1_key l = sending_mac1_key (params a) /\
  cookie_key l = b2s_hash LABEL_COOKIE (peer_static_public (params a)).

(** The limiter later on: other counts, the same secrets. *)
Definition same_secrets (l l' : RateLimiter) : Prop :=
  mac1_key l' = mac1_key l /\ secret_key l' = secret_key l /\ start_time l' = start_time l.

(** C12. The cookie's way: the reply a loaded limiter sends to an initiator parses
    as a cookie reply; the initiator's handshake accepts it; and from then on,
    for the rest of the cookie's two minutes, every handshake message it sends
    from that address is admitted, whatever the load. *)
Theorem cookie_roundtrip a1 a p idx addr dst l w reply l1 w1 :
  guards l a -> well_formed p -> (is_pq p = true -> pq = true) -> sender_idx_of p = Some idx ->
  verify_packet (Some addr) (sealed a p) dst l w = Fail (WriteToNetwork reply) l1 w1 ->
  params a1 = params a -> last_mac1 (cookies a1) = Some (mac1_of a (encode p [])) ->
  index (cookies a1) = idx ->
  exists c, parse_incoming_packet reply = inl (PPacketCookieReply c) /\
    forall wc, exists a2, receive_cookie_reply c a1 wc = Ok tt a2 wc /\ has_cookie a2 = true /\
      forall q l2 w2 dst2, same_secrets l l2 ->
        well_formed q -> is_handshake q = true -> (is_pq q = true -> pq = true) ->
        epoch l (clock (ticks w2)) = epoch l (clock (ticks w)) ->
        exists l3 w3, verify_packet (Some addr) (sealed a2 q) dst2 l2 w2 = Ok q l3 w3.
Proof.
  intros [G1 G2] W Hpq Hi V Hp Hm Hx.
  assert (V' := verify_handshake_eq p idx (mac1_of a (encode p [])) (mac2_of a (encode p [])) (Some addr)
    dst l w W Hpq Hi (length_mac1 _ _) (length_mac2 _ _)).
  unfold sealed in V. rewrite V' in V. unfold judge in V. clear V'.
  subst idx. set (cookie := cookie_at l addr (clock (ticks w))) in V.
  assert (Er : reply = encode (PPacketCookieReply
    (cookie_reply l (index (cookies a1)) cookie (mac1_of a (encode p [])))) [])
    by (repeat case_match; congruence).
  clear V. rewrite Er.
  assert (Lc : length cookie = 16%nat) by apply length_blake2s_mac.
  exists (cookie_reply l (index (cookies a1)) cookie (mac1_of a (encode p []))). split.
  { apply cookie_reply_parses; [by eapply sender_u32|done]. }
  intros wc. eexists. split_and!.
  - unfold receive_cookie_reply. step. rewrite Hm. step.
    cbn [cookie_reply cr_receiver_idx cr_nonce cr_encrypted_cookie]. rewrite Z.eqb_refl. cbn [negb].
    rewrite take_ge by (rewrite length_mac1; lia). rewrite Hp, <- G2, xchacha_open_seal. step.
    rewrite bool_decide_eq_true_2 by done. cbn [negb]. step. reflexivity.
  - done.
  - intros q l2 w2 dst2 (S1 & S2 & S3) Wq Hq Hpq' He.
    destruct (handshake_sender q) as [[_ ?]|(idq & Hiq & _)]; [congruence|].
    unfold sealed at 1. rewrite (verify_handshake_eq _ idq) by (done || apply length_mac1 || apply length_mac2).
    unfold judge. set (a2 := set_cookies _ a1).
    assert (M1 : mac1_valid l2 (encode q []) (mac1_of a2 (encode q []))).
    { unfold mac1_valid, mac1_of. cbn. by rewrite S1, G1, Hp. }
    assert (M2 : mac2_valid l2 addr (clock (ticks w2)) (encode q []) (mac1_of a2 (encode q []))
                   (mac2_of a2 (encode q []))).
    { unfold mac2_valid. rewrite keyed_mac_chunks. unfold mac2_of. cbn. f_equal. unfold cookie, cookie_at.
      rewrite S2. unfold epoch in *. by rewrite S3, He. }
    rewrite (bool_decide_eq_true_2 _ M1), (bool_decide_eq_true_2 _ M2). cbn [negb].
    destruct (_ <? _); eauto.
Qed.
End Limiter.

(** ** Concrete runs *)

Module Example.
Import HandshakeProps.Example.
#[local] Existing Instances pq_build Toy.crypto Toy.laws env.

(** Bob's limiter, already at its limit. *)
Definition limiter : RateLimiter :=
  mkRateLimiter (zeros 32) (zeros 16) 0 0 (b2s_hash LABEL_MAC1 (static_public (params bob)))
    (b2s_hash LABEL_COOKIE (static_public (params bob))) 2 2 0.
Definition home : IpAddr := IpV4 (bytes_of [192; 0; 2; 1]).
Definition first : Packet := PHandshakeInit hello.

Lemma admissions_bounded_witness :
  exists n, run_limiter [(Some home, sealed alice first); (None, sealed alice first)] (zeros 64)
    (set_count 1 limiter) w0 = Some n /\ 0 <= n <= Z.max 0 (2 - 1).
Proof. apply (admissions_bounded _ _ (set_count 1 limiter)); vm_compute; (reflexivity || discriminate). Defined.

Lemma first_refused : exists reply l1 w1,
  verify_packet (Some home) (sealed alice first) (zeros 64) limiter w0 = Fail (WriteToNetwork reply) l1 w1.
Proof.
  assert (F : match verify_packet (Some home) (sealed alice first) (zeros 64) limiter w0 with
              | Fail (WriteToNetwork _) _ _ => true | _ => false end = true) by (vm_compute; reflexivity).
  destruct (verify_packet _ _ _ _ _) as [|r l1 w1|]; [discriminate F| |discriminate F].
  destruct r; try discriminate F. by eexists _, _, _.
Defined.

Lemma verify_packet_sound_witness : exists reply l1 w1,
  verify_packet (Some home) (sealed alice first) (zeros 64) limiter w0 = Fail (WriteToNetwork reply) l1 w1 /\
  (length reply = COOKIE_REPLY_SZ /\ length reply < length (sealed alice first))%nat.
Proof.
  destruct first_refused as (reply & l1 & w1 & F). exists reply, l1, w1. split; [exact F|].
  pose proof (verify_packet_sound (Some home) (sealed alice first) (zeros 64) limiter w0) as S.
  rewrite F in S. exact S.
Defined.

Lemma cookie_roundtrip_witness : exists c a2 l3 w3,
  receive_cookie_reply c (remember_mac1 257 first alice) w0 = Ok tt a2 w0 /\
  verify_packet (Some home) (sealed a2 first) (zeros 64) limiter w0 = Ok first l3 w3.
Proof.
  destruct first_refused as (reply & l1 & w1 & F).
  destruct (cookie_roundtrip (remember_mac1 257 first alice) alice first 257 home (zeros 64) limiter w0
    reply l1 w1) as (c & _ & R);
    [ split; vm_compute; reflexivity | exact hello_wf | discriminate | vm_compute; reflexivity | exact F
    | reflexivity | vm_compute; reflexivity | reflexivity |].
  destruct (R w0) as (a2 & Ra & _ & Rv).
  destruct (Rv first limiter w0 (zeros 64)) as (l3 & w3 & V);
    [repeat split | exact hello_wf | reflexivity | discriminate | reflexivity |].
  exists c, a2, l3, w3. exact (conj Ra V).
Defined.

End Example.
