(* ===== verification/Timers.v ===== *)
(** * The timers of a tunnel: the data of [noise/timers.rs]

    Durations are nanoseconds since the tunnel was started.  The methods that
    [timers.rs] adds to [Tunn] are in [Tunnel]. *)

From S2P Require Import Prelude Packet Instant.

Definition REKEY_AFTER_TIME : Z := from_secs 120.
Definition REJECT_AFTER_TIME : Z := from_secs 180.
Definition REKEY_ATTEMPT_TIME : Z := from_secs 90.
Definition REKEY_TIMEOUT : Z := from_secs 5.
Definition KEEPALIVE_TIMEOUT : Z := from_secs 10.
Definition COOKIE_EXPIRATION_TIME : Z := from_secs 120.

Inductive TimerName :=
| TimeCurrent
| TimeSessionEstablished
| TimeLastHandshakeStarted
| TimeLastPacketReceived
| TimeLastPacketSent
| TimeLastDataPacketReceived
| TimeLastDataPacketSent
| TimeCookieReceived
| TimePersistentKeepalive
| Top.

#[global] Instance TimerName_eq_dec : EqDecision TimerName.
Proof. solve_decision. Defined.

(** [index as usize] *)
Definition discriminant (n : TimerName) : nat :=
  match n with
  | TimeCurrent => 0 | TimeSessionEstablished => 1 | TimeLastHandshakeStarted => 2
  | TimeLastPacketReceived => 3 | TimeLastPacketSent => 4 | TimeLastDataPacketReceived => 5
  | TimeLastDataPacketSent => 6 | TimeCookieReceived => 7 | TimePersistentKeepalive => 8 | Top => 9
  end.

Record Timers := mkTimers {
  is_initiator : bool;
  time_started : Z;
  timers : list Z;
  session_timers : list Z;
  want_keepalive : bool;
  want_handshake : bool;
  persistent_keepalive : Z;
  should_reset_rr : bool;
}.

Definition set_is_initiator x t := mkTimers x (time_started t) (timers t) (session_timers t)
  (want_keepalive t) (want_handshake t) (persistent_keepalive t) (should_reset_rr t).
Definition set_timers x t := mkTimers (is_initiator t) (time_started t) x (session_timers t)
  (want_keepalive t) (want_handshake t) (persistent_keepalive t) (should_reset_rr t).
Definition set_session_timers x t := mkTimers (is_initiator t) (time_started t) (timers t) x
  (want_keepalive t) (want_handshake t) (persistent_keepalive t) (should_reset_rr t).
Definition set_want_keepalive x t := mkTimers (is_initiator t) (time_started t) (timers t)
  (session_timers t) x (want_handshake t) (persistent_keepalive t) (should_reset_rr t).
Definition set_want_handshake x t := mkTimers (is_initiator t) (time_started t) (timers t)
  (session_timers t) (want_keepalive t) x (persistent_keepalive t) (should_reset_rr t).
Definition set_should_reset_rr x t := mkTimers (is_initiator t) (time_started t) (timers t)
  (session_timers t) (want_keepalive t) (want_handshake t) (persistent_keepalive t) x.

(** [self.timers[name]] and its assignment.  The arrays have the sizes of
    their types, so an index is out of range only for [Top], which no code
    uses. *)
Definition time_of (n : TimerName) (t : Timers) : Z := nth (discriminant n) (timers t) 0.
Definition set_time (n : TimerName) (x : Z) (t : Timers) : Timers :=
  set_timers (<[discriminant n := x]> (timers t)) t.
Definition session_time (i : nat) (t : Timers) : Z := nth i (session_timers t) 0.
Definition set_session_time (i : nat) (x : Z) (t : Timers) : Timers :=
  set_session_timers (<[i := x]> (session_timers t)) t.

Section Methods.
Context `{Env} {E : Type}.

(** [Timers::new] *)
Definition new {S} (keepalive : option Z) (reset_rr : bool) : M E S Timers :=
  started <- now;;
  ret (mkTimers false started (replicate 9 0) (replicate (Z.to_nat N_SESSIONS) 0) false false
         (default 0 keepalive) reset_rr).

(** [Timers::clear]: the timers restart now. *)
Definition clear : M E Timers unit :=
  t <- now;;
  self <- get;;
  let now := duration_since t (time_started self) in
  modify (fun self => set_timers ((fun _ => now) <$> timers self) self);;
  modify (set_want_handshake false);;
  modify (set_want_keepalive false).

End Methods.

(** ** The clock bounds every timer

    [bounded b t]: the arrays have their sizes and no timer is in the future
    of a moment [b] after the start. *)

Definition bounded (b : Z) (t : Timers) : Prop :=
  length (timers t) = 9%nat /\ length (session_timers t) = Z.to_nat N_SESSIONS /\
  Forall (fun x => 0 <= x <= b) (timers t) /\ Forall (fun x => 0 <= x <= b) (session_timers t).

Lemma bounded_mono b b' t : b <= b' -> bounded b t -> bounded b' t.
Proof.
  intros Hb (L1 & L2 & F1 & F2). unfold bounded. split_and!; [done|done| |].
  all: eapply Forall_impl; [|eassumption]; cbn; intros; lia.
Qed.

Lemma nth_bounded b l i : 0 <= b -> Forall (fun x => 0 <= x <= b) l -> 0 <= nth i l 0 <= b.
Proof.
  intros Hb F. destruct (nth_in_or_default i l 0) as [Hin | ->]; [|lia].
  by apply (proj1 (List.Forall_forall _ _) F).
Qed.

Lemma time_of_bounded b n t : 0 <= b -> bounded b t -> 0 <= time_of n t <= b.
Proof. intros Hb (_ & _ & F & _). by apply nth_bounded. Qed.

Lemma session_time_bounded b i t : 0 <= b -> bounded b t -> 0 <= session_time i t <= b.
Proof. intros Hb (_ & _ & _ & F). by apply nth_bounded. Qed.

Lemma set_time_bounded b n x t : 0 <= x <= b -> bounded b t -> bounded b (set_time n x t).
Proof.
  intros Hx (L1 & L2 & F1 & F2). unfold bounded. cbn. split_and!; [by rewrite length_insert|done| |done].
  by apply Forall_insert.
Qed.

Lemma set_session_time_bounded b i x t :
  0 <= x <= b -> bounded b t -> bounded b (set_session_time i x t).
Proof.
  intros Hx (L1 & L2 & F1 & F2). unfold bounded. cbn. split_and!; [done|by rewrite length_insert|done|].
  by apply Forall_insert.
Qed.

Lemma time_of_set_time n n' x t :
  length (timers t) = 9%nat -> n <> Top ->
  time_of n' (set_time n x t) = if decide (n = n') then x else time_of n' t.
Proof.
  intros L Hn. unfold time_of, set_time, set_timers. cbn [timers].
  destruct (timers t) as [|x0 [|x1 [|x2 [|x3 [|x4 [|x5 [|x6 [|x7 [|x8 [|]]]]]]]]]]; try discriminate L.
  by destruct n, n'.
Qed.
