(* ===== verification/Tunnel.v ===== *)
(** * A point-to-point tunnel: [Tunn] of [noise/mod.rs] and [noise/timers.rs]

    The methods of [Tunn] in the order of a packet's way: encapsulation, the
    handlers of the six messages, the queue, and the timer-driven methods.  The
    rate limiter is behind an [Arc] and may be shared between tunnels: a tunnel
    holds its address in a heap of limiters, and the methods that use it run on
    a [Process], the tunnel together with that heap. *)

From S2P Require Import Prelude Packet Crypto Session Instant Handshake RateLimiter Timers.

Record Tunn := mkTunn {
  handshake : Handshake.Handshake;
  sessions : list (option Transport.Session);
  current : Z;
  packet_queue : list bytes;
  tn_timers : Timers;
  tx_bytes : Z;
  rx_bytes : Z;
  rate_limiter : nat;
}.

Definition set_handshake x t := mkTunn x (sessions t) (current t) (packet_queue t) (tn_timers t)
  (tx_bytes t) (rx_bytes t) (rate_limiter t).
Definition set_sessions x t := mkTunn (handshake t) x (current t) (packet_queue t) (tn_timers t)
  (tx_bytes t) (rx_bytes t) (rate_limiter t).
Definition set_current x t := mkTunn (handshake t) (sessions t) x (packet_queue t) (tn_timers t)
  (tx_bytes t) (rx_bytes t) (rate_limiter t).
Definition set_packet_queue x t := mkTunn (handshake t) (sessions t) (current t) x (tn_timers t)
  (tx_bytes t) (rx_bytes t) (rate_limiter t).
Definition set_tn_timers x t := mkTunn (handshake t) (sessions t) (current t) (packet_queue t) x
  (tx_bytes t) (rx_bytes t) (rate_limiter t).
Definition set_tx_bytes x t := mkTunn (handshake t) (sessions t) (current t) (packet_queue t)
  (tn_timers t) x (rx_bytes t) (rate_limiter t).
Definition set_rx_bytes x t := mkTunn (handshake t) (sessions t) (current t) (packet_queue t)
  (tn_timers t) (tx_bytes t) x (rate_limiter t).
Definition set_rate_limiter x t := mkTunn (handshake t) (sessions t) (current t) (packet_queue t)
  (tn_timers t) (tx_bytes t) (rx_bytes t) x.

Definition on_timers (f : Timers -> Timers) (t : Tunn) : Tunn := set_tn_timers (f (tn_timers t)) t.

(** [idx % N_SESSIONS], and the session in a slot of the ring. *)
Definition slot (idx : Z) : nat := Z.to_nat (idx mod N_SESSIONS).
Definition session_in (i : nat) (t : Tunn) : option Transport.Session := default None (sessions t !! i).
Definition set_session (i : nat) (x : option Transport.Session) (t : Tunn) : Tunn :=
  set_sessions (<[i := x]> (sessions t)) t.

Section Tunn.
Context `{Features, Crypto, Env}.

Abbreviation TM := (M WireGuardError Tunn).

(** A method on a local value: its result and what it leaves of the value. *)
Definition on_local {E S T A} (t : T) (m : M E T A) : M E S (A * T) := fun s w =>
  match m t w with
  | Ok a t w => Ok (a, t) s w
  | Fail e _ w => Fail e s w
  | Panic => Panic
  end.

(** ** Timers: [impl Tunn] of [noise/timers.rs], first part *)

Definition timer_tick (timer_name : TimerName) : TM unit :=
  match timer_name with
  | TimeLastPacketReceived =>
      modify (on_timers (set_want_keepalive true));; modify (on_timers (set_want_handshake false))
  | TimeLastPacketSent =>
      modify (on_timers (set_want_handshake true));; modify (on_timers (set_want_keepalive false))
  | _ => ret tt
  end;;
  modify (on_timers (fun t => set_time timer_name (time_of TimeCurrent t) t)).

Definition timer_tick_session_established (is_initiator : bool) (session_idx : Z) : TM unit :=
  timer_tick TimeSessionEstablished;;
  modify (on_timers (fun t => set_session_time (slot session_idx) (time_of TimeCurrent t) t));;
  modify (on_timers (set_is_initiator is_initiator)).

Definition clear_timers : TM unit := zoom tn_timers set_tn_timers Timers.clear.

Definition clear_all : TM unit :=
  modify (fun t => set_sessions ((fun _ => None) <$> sessions t) t);;
  modify (set_packet_queue []);;
  clear_timers.

(** One iteration of the loop over [session_timers]. *)
Definition expire_session (time_now : Z) (i : nat) : TM unit :=
  self <- get;;
  age <- dur_sub time_now (session_time i (tn_timers self));;
  if REJECT_AFTER_TIME <? age then
    modify (set_session i None);;
    modify (on_timers (set_session_time i time_now))
  else ret tt.

Fixpoint for_each {E S A} (f : A -> M E S unit) (l : list A) : M E S unit :=
  match l with
  | [] => ret tt
  | x :: l => f x;; for_each f l
  end.

Definition update_session_timers (time_now : Z) : TM unit :=
  for_each (expire_session time_now) (seq 0 (Z.to_nat N_SESSIONS)).

(** ** The queue *)

Definition queue_packet (packet : bytes) : TM unit :=
  self <- get;;
  if (length (packet_queue self) <? MAX_QUEUE_DEPTH)%nat
  then modify (set_packet_queue (packet_queue self ++ [packet])) else ret tt.

Definition requeue_packet (packet : bytes) : TM unit :=
  self <- get;;
  if (length (packet_queue self) <? MAX_QUEUE_DEPTH)%nat
  then modify (set_packet_queue (packet :: packet_queue self)) else ret tt.

Definition dequeue_packet : TM (option bytes) :=
  self <- get;;
  match packet_queue self with
  | [] => ret None
  | packet :: rest => modify (set_packet_queue rest);; ret (Some packet)
  end.

(** ** Sending *)

(** [Tunn::format_handshake_initiation] *)
Definition format_handshake_initiation (dst : bytes) (force_resend : bool) : TM TunnResult :=
  self <- get;;
  if is_in_progress (handshake self) && negb force_resend then ret Done else
  (if is_expired (handshake self) then clear_timers else ret tt);;
  let starting_new_handshake := negb (is_in_progress (handshake self)) in
  result <- attempt (zoom handshake set_handshake
    (if pq then Handshake.format_pq_handshake_initiation dst
     else Handshake.format_handshake_initiation dst));;
  match result with
  | inl packet =>
      (if starting_new_handshake then timer_tick TimeLastHandshakeStarted else ret tt);;
      timer_tick TimeLastPacketSent;;
      ret (WriteToNetwork packet)
  | inr e => ret (Err e)
  end.

Definition encapsulate (src dst : bytes) : TM TunnResult :=
  self <- get;;
  let i := slot (current self) in
  match session_in i self with
  | Some session =>
      packet <- zoom (fun _ => session) (fun s => set_session i (Some s))
        (Transport.format_packet_data src dst);;
      timer_tick TimeLastPacketSent;;
      (if bool_decide (src <> []) then timer_tick TimeLastDataPacketSent else ret tt);;
      modify (fun t => set_tx_bytes (u64 (tx_bytes t + Z.of_nat (length src))) t);;
      ret (WriteToNetwork packet)
  | None =>
      queue_packet src;;
      format_handshake_initiation dst false
  end.

Definition send_queued_packet (dst : bytes) : TM TunnResult :=
  next <- dequeue_packet;;
  match next with
  | Some packet =>
      r <- encapsulate packet dst;;
      match r with
      | Err _ => requeue_packet packet;; ret Done
      | r => ret r
      end
  | None => ret Done
  end.

(** ** Receiving *)

Definition set_current_session (new_idx : Z) : TM unit :=
  self <- get;;
  let cur_idx := current self in
  if cur_idx =? new_idx then ret tt else
  if bool_decide (session_in (slot cur_idx) self = None)
     || (session_time (slot cur_idx) (tn_timers self) <=? session_time (slot new_idx) (tn_timers self))
  then modify (set_current new_idx) else ret tt.

(** The end of both handlers of initiations, and of both handlers of
    responses. *)
Definition establish_responder (packet : bytes) (session : Transport.Session) : TM TunnResult :=
  let index := Transport.local_index session in
  modify (set_session (slot index) (Some session));;
  timer_tick TimeLastPacketReceived;;
  timer_tick TimeLastPacketSent;;
  timer_tick_session_established false index;;
  ret (WriteToNetwork packet).

Definition establish_initiator (session : Transport.Session) (dst : bytes) : TM TunnResult :=
  '(keepalive_packet, session) <- on_local session (Transport.format_packet_data [] dst);;
  let l_idx := Transport.local_index session in
  let index := l_idx mod N_SESSIONS in
  modify (set_session (Z.to_nat index) (Some session));;
  timer_tick TimeLastPacketReceived;;
  timer_tick_session_established true index;;
  set_current_session l_idx;;
  ret (WriteToNetwork keepalive_packet).

Definition handle_handshake_init (p : HandshakeInit) (dst : bytes) : TM TunnResult :=
  '(packet, session) <- zoom handshake set_handshake (receive_handshake_initialization p dst);;
  establish_responder packet session.

Definition handle_pq_handshake_init (p : PqHandshakeInit) (dst : bytes) : TM TunnResult :=
  '(packet, session) <- zoom handshake set_handshake (receive_pq_handshake_initialization p dst);;
  establish_responder packet session.

Definition handle_handshake_response (p : HandshakeResponse) (dst : bytes) : TM TunnResult :=
  session <- zoom handshake set_handshake (receive_handshake_response p);;
  establish_initiator session dst.

Definition handle_pq_handshake_response (p : PqHandshakeResponse) (dst : bytes) : TM TunnResult :=
  session <- zoom handshake set_handshake (receive_pq_handshake_response p);;
  establish_initiator session dst.

Definition handle_cookie_reply (p : PacketCookieReply) : TM TunnResult :=
  zoom handshake set_handshake (receive_cookie_reply p);;
  timer_tick TimeLastPacketReceived;;
  timer_tick TimeCookieReceived;;
  ret Done.

(** The length the IP header announces and the source address. *)
Definition ip_header (packet : bytes) : option (nat * IpAddr) :=
  if (ip_version packet =? 4) && (IPV4_MIN_HEADER_SIZE <=? length packet)%nat then
    let len_bytes := sub IPV4_LEN_OFF (IPV4_LEN_OFF + IP_LEN_SZ) packet in
    let addr_bytes := sub IPV4_SRC_IP_OFF (IPV4_SRC_IP_OFF + IPV4_IP_SZ) packet in
    Some (Z.to_nat (from_be len_bytes), IpV4 addr_bytes)
  else if (ip_version packet =? 6) && (IPV6_MIN_HEADER_SIZE <=? length packet)%nat then
    let len_bytes := sub IPV6_LEN_OFF (IPV6_LEN_OFF + IP_LEN_SZ) packet in
    let addr_bytes := sub IPV6_SRC_IP_OFF (IPV6_SRC_IP_OFF + IPV6_IP_SZ) packet in
    Some ((Z.to_nat (from_be len_bytes) + IPV6_MIN_HEADER_SIZE)%nat, IpV6 addr_bytes)
  else None.

Definition validate_decapsulated_packet (packet : bytes) : TM TunnResult :=
  if bool_decide (packet = []) then ret Done else
  match ip_header packet with
  | None => ret (Err InvalidPacket)
  | Some (computed_len, src_ip_address) =>
      if (length packet <? computed_len)%nat then ret (Err InvalidPacket) else
      timer_tick TimeLastDataPacketReceived;;
      modify (fun t => set_rx_bytes (u64 (rx_bytes t + Z.of_nat computed_len)) t);;
      ret (match src_ip_address with
           | IpV4 addr => WriteToTunnelV4 (take computed_len packet) addr
           | IpV6 addr => WriteToTunnelV6 (take computed_len packet) addr
           end)
  end.

Definition handle_data (packet : PacketData) (dst : bytes) : TM TunnResult :=
  let r_idx := pd_receiver_idx packet in
  let idx := slot r_idx in
  self <- get;;
  session <- ok_or NoCurrentSession (session_in idx self);;
  decapsulated_packet <- zoom (fun _ => session) (fun s => set_session idx (Some s))
    (Transport.receive_packet_data packet dst);;
  set_current_session r_idx;;
  timer_tick TimeLastPacketReceived;;
  validate_decapsulated_packet decapsulated_packet.

(** Errors of a handler become results. *)
Definition handle_verified_packet (packet : Packet) (dst : bytes) : TM TunnResult :=
  r <- attempt (match packet with
    | PHandshakeInit p => handle_handshake_init p dst
    | PHandshakeResponse p => handle_handshake_response p dst
    | PPacketCookieReply p => handle_cookie_reply p
    | PPacketData p => handle_data p dst
    | PPqHandshakeInit p => handle_pq_handshake_init p dst
    | PPqHandshakeResponse p => handle_pq_handshake_response p dst
    end);;
  ret (match r with inl r => r | inr e => Err e end).

(** [Tunn::is_expired], [Tunn::persistent_keepalive] and
    [Tunn::time_since_last_handshake] *)
Definition tunn_is_expired (self : Tunn) : bool := is_expired (handshake self).

Definition tunn_persistent_keepalive (self : Tunn) : option Z :=
  let keepalive := persistent_keepalive (tn_timers self) in
  if 0 <? keepalive then Some (u16 keepalive) else None.

Definition time_since_last_handshake : TM (option Z) :=
  self <- get;;
  match session_in (slot (current self)) self with
  | Some _ =>
      t <- now;;
      let duration_since_tun_start := duration_since t (time_started (tn_timers self)) in
      let duration_since_session_established := time_of TimeSessionEstablished (tn_timers self) in
      d <- dur_sub duration_since_tun_start duration_since_session_established;;
      ret (Some d)
  | None => ret None
  end.

(** ** The tunnel and the limiters it may share *)

Record Process := mkProcess { tunn : Tunn; heap : gmap nat RateLimiter }.

Abbreviation PM := (M WireGuardError Process).

Definition in_tunn {A} (m : TM A) : PM A := zoom tunn (fun t s => mkProcess t (heap s)) m.

(** A method of [self.rate_limiter].  The address of a dropped limiter is never
    used. *)
Definition with_limiter {E A} (m : M E RateLimiter A) : M E Process A := fun s w =>
  match heap s !! rate_limiter (tunn s) with
  | None => Panic
  | Some l => zoom (fun _ => l)
      (fun l s => mkProcess (tunn s) (<[rate_limiter (tunn s) := l]> (heap s))) m s w
  end.

(** [Arc::new(RateLimiter::new(..))] *)
Definition alloc_limiter {E} (public_key : bytes) : M E (gmap nat RateLimiter) nat :=
  l <- RateLimiter.new public_key PEER_HANDSHAKE_RATE_LIMIT;;
  heap <- get;;
  let a := fresh (dom heap) in
  modify (<[a := l]>);;
  ret a.

(** [Tunn::new] *)
Definition new (static_private peer_static_public : bytes) (preshared_key : option bytes)
  (persistent_keepalive : option Z) (index : Z) (limiter : option nat) :
  M WireGuardError (gmap nat RateLimiter) Tunn :=
  let static_public := x25519_public static_private in
  handshake <- Handshake.new static_private static_public peer_static_public
    (u32 (Z.shiftl index 8)) preshared_key;;
  timers <- Timers.new persistent_keepalive (bool_decide (limiter = None));;
  rate_limiter <- match limiter with Some a => ret a | None => alloc_limiter static_public end;;
  ret (mkTunn handshake (replicate (Z.to_nat N_SESSIONS) None) 0 [] timers 0 0 rate_limiter).

Definition set_static_private (static_private static_public : bytes) (limiter : option nat) : PM unit :=
  in_tunn (modify (on_timers (set_should_reset_rr (bool_decide (limiter = None)))));;
  a <- match limiter with
       | Some a => ret a
       | None => zoom heap (fun h s => mkProcess (tunn s) h) (alloc_limiter static_public)
       end;;
  in_tunn (modify (set_rate_limiter a));;
  in_tunn (zoom handshake set_handshake (Handshake.set_static_private static_private static_public));;
  in_tunn (modify (fun t => set_sessions ((fun _ => None) <$> sessions t) t)).

Definition decapsulate (src_addr : option IpAddr) (datagram dst : bytes) : PM TunnResult :=
  if bool_decide (datagram = []) then in_tunn (send_queued_packet dst) else
  let cookie := zeros COOKIE_REPLY_SZ in
  verdict <- attempt (with_limiter (verify_packet src_addr datagram cookie));;
  match verdict with
  | inl packet => in_tunn (handle_verified_packet packet dst)
  | inr (WriteToNetwork cookie) =>
      if (length dst <? length cookie)%nat then panic
      else ret (WriteToNetwork (take (length cookie) (splice 0 cookie dst)))
  | inr (Err e) => ret (Err e)
  | inr _ => panic
  end.

(** [b && m] where [m] has effects or may panic *)
Definition and_then {E S} (b : bool) (m : M E S bool) : M E S bool := if b then m else ret false.

(** [now - t >= limit] *)
Definition elapsed {E S} (now t limit : Z) : M E S bool := d <- dur_sub now t;; ret (limit <=? d).

(** [mem::replace(&mut flag, false)] *)
Definition take_want_handshake : TM bool :=
  self <- get;; modify (on_timers (set_want_handshake false));; ret (want_handshake (tn_timers self)).
Definition take_want_keepalive : TM bool :=
  self <- get;; modify (on_timers (set_want_keepalive false));; ret (want_keepalive (tn_timers self)).

(** The conditions under which a tunnel with no initiation in flight starts a
    handshake or sends a keepalive. *)
Definition idle_timers (now : Z) (t : Timers) : TM (bool * bool) :=
  let session_established := time_of TimeSessionEstablished t in
  let aut_packet_received := time_of TimeLastPacketReceived t in
  let aut_packet_sent := time_of TimeLastPacketSent t in
  let data_packet_received := time_of TimeLastDataPacketReceived t in
  let data_packet_sent := time_of TimeLastDataPacketSent t in
  on_send <- and_then (is_initiator t && (session_established <? data_packet_sent))
    (elapsed now session_established REKEY_AFTER_TIME);;
  on_receive <- and_then (is_initiator t && (session_established <? data_packet_received))
    (limit <- dur_sub REJECT_AFTER_TIME KEEPALIVE_TIMEOUT;;
     limit <- dur_sub limit REKEY_TIMEOUT;;
     elapsed now session_established limit);;
  no_answer <- and_then (aut_packet_received <? data_packet_sent)
    (late <- elapsed now aut_packet_received (KEEPALIVE_TIMEOUT + REKEY_TIMEOUT);;
     and_then late take_want_handshake);;
  if on_send || on_receive || no_answer then ret (true, false) else
  silent <- and_then (aut_packet_sent <? data_packet_received)
    (late <- elapsed now aut_packet_sent KEEPALIVE_TIMEOUT;;
     and_then late take_want_keepalive);;
  let persistent_keepalive := persistent_keepalive t in
  persistent <- and_then (0 <? persistent_keepalive)
    (self <- get;;
     elapsed now (time_of TimePersistentKeepalive (tn_timers self)) (from_secs persistent_keepalive));;
  (if persistent then timer_tick TimePersistentKeepalive else ret tt);;
  ret (false, silent || persistent).

(** [update_timers] from the point where the tunnel's own time is computed from
    the reading [time] of the clock. *)
Definition update_tunn (time : Z) (dst : bytes) : TM TunnResult :=
  self <- get;;
  let now := duration_since time (time_started (tn_timers self)) in
  modify (on_timers (set_time TimeCurrent now));;
  update_session_timers now;;
  self <- get;;
  let t := tn_timers self in
  if is_expired (handshake self) then ret (Err ConnectionExpired) else
  stale_cookie <- and_then (has_cookie (handshake self))
    (elapsed now (time_of TimeCookieReceived t) COOKIE_EXPIRATION_TIME);;
  (if stale_cookie then modify (fun s => set_handshake (clear_cookie (handshake s)) s) else ret tt);;
  dead <- elapsed now (time_of TimeSessionEstablished t) (REJECT_AFTER_TIME * 3);;
  if dead : bool then
    modify (fun s => set_handshake (set_expired (handshake s)) s);;
    clear_all;;
    ret (Err ConnectionExpired)
  else
  match timer (handshake self) with
  | Some time_init_sent =>
      exhausted <- elapsed now (time_of TimeLastHandshakeStarted t) REKEY_ATTEMPT_TIME;;
      if exhausted : bool then
        modify (fun s => set_handshake (set_expired (handshake s)) s);;
        clear_all;;
        ret (Err ConnectionExpired)
      else
        later <- Prelude.now;;
        if REKEY_TIMEOUT <=? duration_since later time_init_sent
        then format_handshake_initiation dst true
        else ret Done
  | None =>
      '(handshake_initiation_required, keepalive_required) <- idle_timers now t;;
      if handshake_initiation_required : bool then format_handshake_initiation dst true else
      if keepalive_required : bool then encapsulate [] dst else ret Done
  end.

Definition update_timers (dst : bytes) : PM TunnResult :=
  time <- now;;
  self <- get;;
  (if should_reset_rr (tn_timers (tunn self)) then with_limiter reset_count else ret tt);;
  in_tunn (update_tunn time dst).

End Tunn.
