(* ===== verification/TunnelSafety.v ===== *)
(** * The tunnel never panics and keeps its invariant

    [inv] is the invariant of a tunnel: the ring holds, in the slot of its
    index, only sessions of the peer; the queue is bounded; no timer lies in
    the future; the handshake is sane.  With clocks that behave and buffers of
    the documented size every method returns and keeps it: in particular none
    of the subtractions of durations in the timer code underflows. *)

From S2P Require Import Prelude Packet Crypto Session Instant Handshake HandshakeSpec HandshakeSafety.
From S2P Require Import RateLimiter Timers Tunnel.

Section Safety.
Context `{Features, Crypto, Env, !CryptoLaws, !MonotoneClock}.
Variable peer : Z.

Definition uptime (t : Timers) (w : World) : Z := duration_since (clock (ticks w)) (time_started t).

Definition ring (t : Tunn) : Prop :=
  length (sessions t) = Z.to_nat N_SESSIONS /\
  forall i s, sessions t !! i = Some (Some s) ->
    session_of peer s /\ slot (Transport.receiving_index s) = i.

Definition inv (t : Tunn) (w : World) : Prop :=
  sane peer (handshake t) w /\ ring t /\ bounded (uptime (tn_timers t) w) (tn_timers t) /\
  (length (packet_queue t) <= MAX_QUEUE_DEPTH)%nat.

(** The invariant while [update_timers] works with the time [n]. *)
Definition inv_at (n : Z) (t : Tunn) (w : World) : Prop :=
  inv t w /\ 0 <= n <= uptime (tn_timers t) w /\ bounded n (tn_timers t).

Lemma uptime_mono t w w' : later w w' -> uptime t w <= uptime t w'.
Proof.
  intros [Hl _]. unfold uptime, duration_since. pose proof (clock_mono (ticks w) (ticks w') Hl). lia.
Qed.

Lemma uptime_nonneg t w : 0 <= uptime t w.
Proof. unfold uptime, duration_since. lia. Qed.

Lemma inv_later t w w' : inv t w -> later w w' -> inv t w'.
Proof.
  intros (Hh & Hr & Hb & Hq) L. split_and!; [exact Hh|done| |done].
  by eapply bounded_mono; [apply uptime_mono|].
Qed.

(** ** The ring *)

Lemma slot_lt i : (slot i < 8)%nat.
Proof. unfold slot, N_SESSIONS. pose proof (Z.mod_pos_bound i 8). lia. Qed.

Lemma slot_small i : slot (i mod N_SESSIONS) = slot i.
Proof. unfold slot, N_SESSIONS. by rewrite Z.mod_mod. Qed.

Lemma session_in_ring i t s : ring t -> session_in i t = Some s ->
  session_of peer s /\ slot (Transport.receiving_index s) = i.
Proof.
  intros [_ Hr] Hs. apply Hr. unfold session_in in Hs. destruct (sessions t !! i); cbn in Hs; congruence.
Qed.

Lemma ring_set i x t : ring t ->
  (forall s, x = Some s -> session_of peer s /\ slot (Transport.receiving_index s) = i) ->
  ring (set_session i x t).
Proof.
  intros [L Hr] Hx. split; cbn; [by rewrite length_insert|]. intros j s Hj.
  apply list_lookup_insert_Some in Hj as [(-> & E & _)|[_ Hj]]; auto.
Qed.

Lemma ring_clear t : length (sessions t) = Z.to_nat N_SESSIONS ->
  ring (set_sessions ((fun _ => None) <$> sessions t) t).
Proof.
  intros L. split; cbn; [by rewrite length_fmap|]. intros i s Hi.
  rewrite list_lookup_fmap in Hi. by destruct (sessions t !! i).
Qed.

(** ** Timers *)

Lemma inv_on_timers f t w :
  (bounded (uptime (tn_timers t) w) (tn_timers t) -> bounded (uptime (tn_timers t) w) (f (tn_timers t))) ->
  time_started (f (tn_timers t)) = time_started (tn_timers t) ->
  inv t w -> inv (on_timers f t) w.
Proof.
  intros Hf Hst (Hh & Hr & Hb & Hq). split_and!; [exact Hh|exact Hr| |exact Hq].
  cbn. unfold uptime in *. rewrite Hst. auto.
Qed.

(** Both invariants at once: a predicate that updates of the timers which move
    no time forward keep. *)
Definition quiet (I : Tunn -> World -> Prop) : Prop := forall f t w,
  (forall b, 0 <= b -> bounded b (tn_timers t) -> bounded b (f (tn_timers t))) ->
  time_started (f (tn_timers t)) = time_started (tn_timers t) -> I t w -> I (on_timers f t) w.

Lemma quiet_inv : quiet inv.
Proof. intros f t w Hf Hst. apply inv_on_timers; [|done]. apply Hf, uptime_nonneg. Qed.

Lemma quiet_inv_at n : quiet (inv_at n).
Proof.
  intros f t w Hf Hst (Hi & Hn & Hb). split_and!; [by apply quiet_inv| | |apply Hf; [lia|done]].
  all: cbn; unfold uptime in *; rewrite ?Hst; lia.
Qed.

Lemma safe_timer_tick I n : quiet I -> safe I (fun _ => True) (timer_tick n).
Proof.
  intros Hq. unfold timer_tick. eapply (safe_bind _ (fun _ => True)).
  - destruct n; try (by apply safe_ret); (eapply (safe_bind _ (fun _ => True)); [|intros _ _]);
      apply safe_modify; intros s w Hs; apply Hq; auto.
  - intros _ _. apply safe_modify. intros s w Hs. apply Hq; [|done|done].
    intros b Hb0 Hb. apply set_time_bounded; [by apply time_of_bounded|done].
Qed.

Lemma safe_timer_tick_session_established I b idx :
  quiet I -> safe I (fun _ => True) (timer_tick_session_established b idx).
Proof.
  intros Hq. unfold timer_tick_session_established.
  eapply (safe_bind _ (fun _ => True)); [by apply safe_timer_tick|intros _ _].
  eapply (safe_bind _ (fun _ => True)); [|intros _ _]; apply safe_modify; intros s w Hs;
    (apply Hq; [|done|done]); intros n Hn Hb.
  - apply set_session_time_bounded; [by apply time_of_bounded|done].
  - done.
Qed.

Lemma bounded_fill n t : 0 <= n -> bounded n t -> bounded n (set_timers ((fun _ => n) <$> timers t) t).
Proof.
  intros Hn (L1 & L2 & F1 & F2). unfold bounded. cbn. split_and!; [by rewrite length_fmap|done| |done].
  apply Forall_fmap, Forall_true. intros x. cbn. lia.
Qed.

(** A reading of the clock bounds what was bounded before it. *)
Lemma uptime_tick t w : uptime t w <= uptime t (tick w).
Proof. apply uptime_mono, later_tick. Qed.

Lemma safe_clear_timers : safe inv (fun _ => True) clear_timers.
Proof.
  intros t w Ht. unfold clear_timers, Timers.clear. step.
  split_and!; [|apply later_tick|done].
  destruct Ht as (Hh & Hr & Hb & Hq). split_and!; [exact Hh|exact Hr| |exact Hq].
  fold (uptime (tn_timers t) w). eapply bounded_mono; [apply (uptime_tick (tn_timers t) w)|].
  apply bounded_fill; [apply uptime_nonneg|exact Hb].
Qed.

Lemma inv_clear_ring t w : inv t w -> inv (set_sessions ((fun _ => None) <$> sessions t) t) w.
Proof.
  intros (Hh & [L Hr] & Hb & Hq). split_and!; [exact Hh|by apply ring_clear|exact Hb|exact Hq].
Qed.

Lemma safe_clear_all : safe inv (fun _ => True) clear_all.
Proof.
  unfold clear_all. eapply (safe_bind _ (fun _ => True)); [apply safe_modify|intros _ _].
  { intros t w. apply inv_clear_ring. }
  eapply (safe_bind _ (fun _ => True)); [apply safe_modify|intros _ _; apply safe_clear_timers].
  intros t w (Hh & Hr & Hb & _). split_and!; [exact Hh|exact Hr|exact Hb|]. cbn. lia.
Qed.

(** ** Expiring sessions *)

Lemma inv_drop i t w : inv t w -> inv (set_session i None t) w.
Proof.
  intros (Hh & Hr & Hb & Hq). split_and!; [exact Hh| |exact Hb|exact Hq]. by apply ring_set.
Qed.

Lemma safe_expire_session n i : safe (inv_at n) (fun _ => True) (expire_session n i).
Proof.
  intros t w (Ht & Hn & Hb). unfold expire_session. step. unfold dur_sub.
  pose proof (session_time_bounded n i _ (proj1 Hn) Hb) as Hi. rewrite (proj2 (Z.leb_le _ _)) by lia. step.
  destruct (_ <? _); [|by cbn]. step. split_and!; [|done|done].
  split_and!; [|apply Hn|apply Hn|].
  - apply inv_on_timers; [|done|by apply inv_drop]. apply set_session_time_bounded. exact Hn.
  - apply set_session_time_bounded; [lia|done].
Qed.

Lemma safe_for_each {E S A} (I : S -> World -> Prop) (f : A -> M E S unit) l :
  (forall x, safe I (fun _ => True) (f x)) -> safe I (fun _ => True) (for_each f l).
Proof.
  intros Hf. induction l as [|x l IH]; cbn [for_each]; [by apply safe_ret|].
  by eapply safe_bind; [apply Hf|].
Qed.

Lemma safe_update_session_timers n : safe (inv_at n) (fun _ => True) (update_session_timers n).
Proof. apply safe_for_each. intros i. apply safe_expire_session. Qed.

(** ** The queue *)

Lemma inv_queue q t w : (length q <= MAX_QUEUE_DEPTH)%nat -> inv t w -> inv (set_packet_queue q t) w.
Proof. intros Hq (Hh & Hr & Hb & _). split_and!; [exact Hh|exact Hr|exact Hb|exact Hq]. Qed.

Lemma safe_queue_packet p : safe inv (fun _ => True) (queue_packet p).
Proof.
  intros t w Ht. unfold queue_packet. step. destruct (Nat.ltb_spec (length (packet_queue t)) MAX_QUEUE_DEPTH);
    [|by cbn]. split_and!; [|done|done]. apply inv_queue; [|done]. len.
Qed.

Lemma safe_requeue_packet p : safe inv (fun _ => True) (requeue_packet p).
Proof.
  intros t w Ht. unfold requeue_packet. step. destruct (Nat.ltb_spec (length (packet_queue t)) MAX_QUEUE_DEPTH);
    [|by cbn]. split_and!; [|done|done]. apply inv_queue; [|done]. len.
Qed.

(** ** Sending *)

Definition to_network (r : TunnResult) : Prop :=
  match r with Done | Err _ | WriteToNetwork _ => True | _ => False end.
(** What methods that send return: at most a message. *)
Definition sends (r : TunnResult) : Prop :=
  match r with Done | Err _ => True | WriteToNetwork p => is_message p | _ => False end.

(** A prefix of a decrypted packet, as long as its header says, with its source. *)
Definition from_peer (src : IpAddr) (pkt : bytes) : Prop :=
  exists full n, pkt = take n full /\ (n <= length full)%nat /\ ip_header full = Some (n, src).
Definition inbound (r : TunnResult) : Prop :=
  match r with
  | WriteToTunnelV4 pkt a => from_peer (IpV4 a) pkt
  | WriteToTunnelV6 pkt a => from_peer (IpV6 a) pkt
  | _ => True
  end.
(** What every method returns: messages for the network, packets for the interface. *)
Definition typed (r : TunnResult) : Prop :=
  inbound r /\ match r with WriteToNetwork p => is_message p | _ => True end.

Lemma sends_to_network r : sends r -> to_network r.
Proof. by destruct r. Qed.
Lemma sends_typed r : sends r -> typed r.
Proof. by destruct r. Qed.

Lemma safe_in_handshake {A} (Q : A -> Prop) (m : M WireGuardError Handshake.Handshake A) :
  safe (sane peer) Q m -> safe inv Q (zoom handshake set_handshake m).
Proof.
  intros Hm t w Ht. eapply ok_zoom; [apply Hm, Ht|]. intros h w' Hh L.
  apply (inv_later _ _ w') in Ht as (_ & Hr & Hb & Hq); [|done].
  split_and!; [exact Hh|exact Hr|exact Hb|exact Hq].
Qed.

Lemma safe_initiation dst force :
  safe inv sends (format_handshake_initiation dst force).
Proof.
  intros t w Ht. unfold format_handshake_initiation. step.
  destruct (is_in_progress _ && _); [by cbn|].
  eapply (ok_bind _ (fun _ => True)).
  { destruct (is_expired _); [by apply safe_clear_timers|by apply safe_ret]. }
  intros _ t1 w1 Ht1 _ _. eapply ok_bind.
  { eapply safe_attempt; [|exact Ht1]. apply safe_in_handshake.
    destruct pq eqn:Hpq; [by apply safe_format_pq_handshake_initiation|apply HandshakeSafety.safe_format_handshake_initiation]. }
  intros [packet|e] t2 w2 Ht2 _ Hm; [|by cbn].
  eapply (ok_bind _ (fun _ => True)).
  { destruct (negb _); [by apply safe_timer_tick; [apply quiet_inv|]|by apply safe_ret]. }
  intros _ t3 w3 Ht3 _ _. eapply ok_bind; [by apply safe_timer_tick; [apply quiet_inv|]|].
  intros _ t4 w4 Ht4 _ _. by cbn.
Qed.

Ltac tick := eapply (ok_bind _ (fun _ => True));
  [first [ apply safe_timer_tick; [apply quiet_inv|assumption]
         | apply safe_timer_tick_session_established; [apply quiet_inv|assumption] ]|];
  intros _ ? ? ? _ _.

(** A method of the session in a slot. *)
Lemma ok_in_session {A} (Q : A -> Prop) i session t w (m : M WireGuardError Transport.Session A) :
  inv t w -> session_in i t = Some session ->
  match m session w with
  | Ok _ s' w' | Fail _ s' w' => Transport.sound s' /\
      Transport.receiving_index s' = Transport.receiving_index session /\ w' = w
  | Panic => False
  end ->
  match m session w with Ok a _ _ => Q a | _ => True end ->
  ok inv Q w (zoom (fun _ => session) (fun s => set_session i (Some s)) m t w).
Proof.
  intros (Hh & Hr & Hb & Hq) Hs Hm Ha. unfold zoom.
  destruct (session_in_ring i t session Hr Hs) as [[_ Hp] Hi].
  assert (R : forall s', Transport.sound s' -> Transport.receiving_index s' = Transport.receiving_index session ->
    inv (set_session i (Some s') t) w).
  { intros s' Hso Hri. split_and!; [exact Hh| |exact Hb|exact Hq].
    apply ring_set; [done|]. intros ? [= <-]. rewrite Hri. split; [|done]. split; [done|]. by rewrite Hri. }
  destruct (m session w) as [a s' w'|e s' w'|]; cbn; [..|done]; destruct Hm as (? & ? & ->);
    split_and!; try done; by apply R.
Qed.

Lemma safe_encapsulate src dst : (length src + DATA_OVERHEAD_SZ <= length dst)%nat ->
  safe inv sends (encapsulate src dst).
Proof.
  intros L t w Ht. unfold encapsulate. step.
  destruct (session_in _ t) as [session|] eqn:Es.
  - eapply ok_bind.
    { destruct (session_in_ring _ _ _ (proj1 (proj2 Ht)) Es) as [[Hso _] _].
      destruct (Transport.format_packet_data_sound src dst session w Hso L) as (i & c & e & s' & F & Le & ? & ?).
      apply (ok_in_session is_message); [done|done|by rewrite F|]. rewrite F. by apply data_is_message. }
    intros pkt t1 w1 Ht1 _ Hm. tick. eapply (ok_bind _ (fun _ => True)).
    { case_bool_decide; [by apply safe_timer_tick; [apply quiet_inv|]|by apply safe_ret]. }
    intros _ t3 w3 Ht3 _ _. step. split_and!; [exact Ht3|done|done].
  - eapply ok_bind; [by apply safe_queue_packet|]. intros _ t1 w1 Ht1 _ _.
    by apply safe_initiation.
Qed.

Definition fits (dst p : bytes) : Prop := (length p + DATA_OVERHEAD_SZ <= length dst)%nat.

Lemma ok_send_queued_packet dst t w :
  inv t w -> Forall (fits dst) (packet_queue t) -> ok inv sends w (send_queued_packet dst t w).
Proof.
  intros Ht Hd. unfold send_queued_packet, dequeue_packet. step.
  destruct (packet_queue t) as [|p rest] eqn:Eq; [by cbn|]. step. apply Forall_cons_iff in Hd as [Hd _].
  assert (Ht1 : inv (set_packet_queue rest t) w).
  { apply inv_queue; [|done]. destruct Ht as (_ & _ & _ & Hq). rewrite Eq in Hq. cbn in Hq. lia. }
  eapply ok_bind; [by apply safe_encapsulate|]. intros r t2 w2 Ht2 _ Hr.
  destruct r; try done. eapply ok_bind; [by apply safe_requeue_packet|]. by intros _ t3 w3 Ht3 _ _.
Qed.

(** ** Receiving *)

Lemma safe_set_current_session idx : safe inv (fun _ => True) (set_current_session idx).
Proof.
  intros t w Ht. unfold set_current_session. step. destruct (_ =? _); [by cbn|].
  destruct (_ || _); [|by cbn]. split_and!; [exact Ht|done|done].
Qed.

Lemma inv_store session t w : session_of peer session -> inv t w ->
  inv (set_session (slot (Transport.receiving_index session)) (Some session) t) w.
Proof.
  intros Hs (Hh & Hr & Hb & Hq). split_and!; [exact Hh| |exact Hb|exact Hq].
  apply ring_set; [done|]. by intros ? [= <-].
Qed.

Lemma safe_establish_responder packet session : is_message packet -> session_of peer session ->
  safe inv sends (establish_responder packet session).
Proof.
  intros Hm Hs t w Ht. unfold establish_responder, Transport.local_index. cbn zeta.
  eapply (ok_bind _ (fun _ => True)).
  { apply (safe_modify inv (set_session _ _)); [|exact Ht]. intros. by apply inv_store. }
  intros _ t1 w1 Ht1 _ _. tick. tick. tick. by cbn.
Qed.

Lemma safe_establish_initiator session dst : session_of peer session -> (DATA_OVERHEAD_SZ <= length dst)%nat ->
  safe inv sends (establish_initiator session dst).
Proof.
  intros [Hs Hb] L t w Ht. unfold establish_initiator, on_local, Transport.local_index. step.
  destruct (Transport.format_packet_data_sound [] dst session w Hs) as (i & c & e & s' & -> & Le & Hs' & Hi); [done|].
  pose proof (data_is_message i c e Le) as Hm.
  eapply (ok_bind _ (fun _ => True)).
  { apply (safe_modify inv (set_session _ _)); [|exact Ht]. intros s0 w0 Hs0. fold (slot (Transport.receiving_index s')).
    apply inv_store; [|done]. split; [done|]. by rewrite Hi. }
  intros _ t1 w1 Ht1 _ _. tick. tick.
  eapply ok_bind; [by apply safe_set_current_session|]. intros _ t4 w4 Ht4 _ _. by cbn.
Qed.

Lemma safe_validate packet : safe inv typed (validate_decapsulated_packet packet).
Proof.
  intros t w Ht. unfold validate_decapsulated_packet. case_bool_decide; [by cbn|].
  destruct (ip_header packet) as [[n addr]|] eqn:E; [|by cbn]. destruct (Nat.ltb_spec (length packet) n); [by cbn|].
  tick. step. split_and!; [|done|destruct addr; (split; [by exists packet, n|done])]. done.
Qed.

Lemma safe_handle_data p dst : well_formed (PPacketData p) ->
  (length (pd_encrypted_encapsulated_packet p) <= length dst)%nat ->
  safe inv typed (handle_data p dst).
Proof.
  intros (_ & Hc & _) L t w Ht. unfold handle_data. cbn zeta.
  apply ok_get, ok_ok_or; [done|]. intros session Es. eapply ok_bind.
  { apply (ok_in_session (fun _ => True)); [done|done| |by case_match]. apply Transport.receive_packet_data_sound; [|done|done].
    apply (session_in_ring _ _ _ (proj1 (proj2 Ht)) Es). }
  intros pt t1 w1 Ht1 _ _. eapply ok_bind; [by apply safe_set_current_session|].
  intros _ t2 w2 Ht2 _ _. tick. by apply safe_validate.
Qed.

Lemma safe_handle_verified_packet p dst : well_formed p -> (is_pq p = true -> pq = true) -> (DATA_OVERHEAD_SZ <= length dst)%nat ->
  (forall d, p = PPacketData d -> (length (pd_encrypted_encapsulated_packet d) <= length dst)%nat) ->
  safe inv typed (handle_verified_packet p dst).
Proof.
  intros W Hpq L Ld t w Ht. unfold handle_verified_packet. eapply ok_bind.
  { eapply (safe_attempt inv typed); [|exact Ht]. clear t w Ht. destruct p as [p|p|p|p|p|p].
    - intros t w Ht. unfold handle_handshake_init. eapply ok_bind.
      { apply safe_in_handshake; [|exact Ht]. by apply safe_receive_handshake_initialization. }
      intros [packet session] t1 w1 Ht1 _ [Hm Hs]. eapply safe_weaken; [by apply safe_establish_responder|apply sends_typed|done].
    - intros t w Ht. unfold handle_handshake_response. eapply ok_bind.
      { apply safe_in_handshake; [|exact Ht]. by apply safe_receive_handshake_response. }
      intros session t1 w1 Ht1 _ Hs. eapply safe_weaken; [by apply safe_establish_initiator|apply sends_typed|done].
    - intros t w Ht. unfold handle_cookie_reply. eapply ok_bind.
      { apply safe_in_handshake; [|exact Ht]. apply safe_receive_cookie_reply. }
      intros _ t1 w1 Ht1 _ _. tick. tick. by cbn.
    - apply safe_handle_data; [done|]. by apply Ld.
    - intros t w Ht. unfold handle_pq_handshake_init. eapply ok_bind.
      { apply safe_in_handshake; [|exact Ht]. by apply safe_receive_pq_handshake_initialization; [apply Hpq|]. }
      intros [packet session] t1 w1 Ht1 _ [Hm Hs]. eapply safe_weaken; [by apply safe_establish_responder|apply sends_typed|done].
    - intros t w Ht. unfold handle_pq_handshake_response. eapply ok_bind.
      { apply safe_in_handshake; [|exact Ht]. by apply safe_receive_pq_handshake_response. }
      intros session t1 w1 Ht1 _ Hs. eapply safe_weaken; [by apply safe_establish_initiator|apply sends_typed|done]. }
  intros [r|e] t1 w1 Ht1 _ Hr; by cbn.
Qed.

(** ** The timer-driven methods *)

Lemma elapsed_eq {E S} n t limit (s : S) w : t <= n ->
  elapsed (E:=E) n t limit s w = Ok (limit <=? n - t) s w.
Proof. intros L. unfold elapsed, dur_sub. by rewrite (proj2 (Z.leb_le _ _)) by lia. Qed.

Lemma safe_elapsed {E S} (I : S -> World -> Prop) n t limit : t <= n ->
  safe (E:=E) I (fun _ => True) (elapsed n t limit).
Proof. intros L s w Hs. rewrite elapsed_eq by done. by cbn. Qed.

Lemma safe_and_then {E S} (I : S -> World -> Prop) b (m : M E S bool) :
  safe I (fun _ => True) m -> safe I (fun _ => True) (and_then b m).
Proof. intros Hm. destruct b; [done|by apply safe_ret]. Qed.

Lemma safe_take_want_handshake n : safe (inv_at n) (fun _ => True) take_want_handshake.
Proof. intros t w Ht. unfold take_want_handshake. step. split_and!; [|done|done]. by apply quiet_inv_at. Qed.

Lemma safe_take_want_keepalive n : safe (inv_at n) (fun _ => True) take_want_keepalive.
Proof. intros t w Ht. unfold take_want_keepalive. step. split_and!; [|done|done]. by apply quiet_inv_at. Qed.

Ltac timer_bound := match goal with
  | Hb : bounded ?n ?t, Hn : 0 <= ?n <= _ |- time_of ?x ?t <= ?n =>
      apply (time_of_bounded n x t (proj1 Hn) Hb) end.

Lemma ok_idle_timers n ts t w : inv_at n t w -> 0 <= n <= n -> bounded n ts ->
  ok (inv_at n) (fun _ => True) w (idle_timers n ts t w).
Proof.
  intros Ht Hn Hb. unfold idle_timers.
  eapply (ok_bind _ (fun _ => True)).
  { apply safe_and_then; [|exact Ht]. apply safe_elapsed. timer_bound. }
  intros on_send t1 w1 Ht1 _ _. eapply (ok_bind _ (fun _ => True)).
  { apply safe_and_then; [|exact Ht1]. intros s w0 Hs. unfold dur_sub. cbn [Z.leb].
    step. by apply safe_elapsed; [timer_bound|]. }
  intros on_receive t2 w2 Ht2 _ _. eapply (ok_bind _ (fun _ => True)).
  { apply safe_and_then; [|exact Ht2]. eapply safe_bind; [by apply safe_elapsed; timer_bound|].
    intros late _. apply safe_and_then, safe_take_want_handshake. }
  intros no_answer t3 w3 Ht3 _ _. destruct (on_send || on_receive || no_answer); [by cbn|].
  eapply (ok_bind _ (fun _ => True)).
  { apply safe_and_then; [|exact Ht3]. eapply safe_bind; [by apply safe_elapsed; timer_bound|].
    intros late _. apply safe_and_then, safe_take_want_keepalive. }
  intros silent t4 w4 Ht4 _ _. eapply (ok_bind _ (fun _ => True)).
  { apply safe_and_then; [|exact Ht4]. intros s w0 Hs. apply ok_get. apply safe_elapsed; [|exact Hs].
    destruct Hs as (_ & Hn' & Hb'). timer_bound. }
  intros persistent t5 w5 Ht5 _ _. eapply (ok_bind _ (fun _ => True)).
  { destruct persistent; [by apply safe_timer_tick; [apply quiet_inv_at|]|by apply safe_ret]. }
  intros _ t6 w6 Ht6 _ _. by cbn.
Qed.

Lemma inv_handshake h t w : sane peer h w -> inv t w -> inv (set_handshake h t) w.
Proof. intros Hh (_ & Hr & Hb & Hq). split_and!; [exact Hh|exact Hr|exact Hb|exact Hq]. Qed.

Lemma sane_expired h w : sane peer h w -> sane peer (set_expired h) w.
Proof. intros (Ls & Hn & Ht & _). split_and!; done. Qed.

Lemma ok_expire t w : inv t w ->
  ok inv sends w ((modify (fun s => set_handshake (set_expired (handshake s)) s);;
    clear_all;; ret (Err ConnectionExpired)) t w).
Proof.
  intros Ht. eapply (ok_bind _ (fun _ => True)).
  { apply (safe_modify inv); [|exact Ht]. intros s w0 Hs. apply inv_handshake; [|done]. by apply sane_expired, Hs. }
  intros _ t1 w1 Ht1 _ _. eapply ok_bind; [by apply safe_clear_all|]. by intros _ t2 w2 Ht2 _ _.
Qed.

Lemma inv_at_inv n t w : inv_at n t w -> inv t w.
Proof. by intros [Ht _]. Qed.

Lemma inv_at_clear_cookie n t w :
  inv_at n t w -> inv_at n (set_handshake (clear_cookie (handshake t)) t) w.
Proof.
  intros ((Hh & Hr & Hb & Hq) & Hn & Hb'). split_and!; [|apply Hn|apply Hn|exact Hb'].
  split_and!; [exact Hh|exact Hr|exact Hb|exact Hq].
Qed.

Lemma ok_update_tunn time dst t w :
  inv t w -> (DATA_OVERHEAD_SZ <= length dst)%nat ->
  let n := duration_since time (time_started (tn_timers t)) in
  n <= uptime (tn_timers t) w -> bounded n (tn_timers t) ->
  ok inv sends w (update_tunn time dst t w).
Proof.
  intros Ht L n Hnu Hb. assert (Hn : 0 <= n <= n) by (unfold n, duration_since; lia).
  unfold update_tunn. apply ok_get. fold n. cbn zeta.
  assert (H0' : inv_at n (on_timers (set_time TimeCurrent n) t) w).
  { split_and!; [|lia|exact Hnu|apply set_time_bounded; [lia|done]].
    apply inv_on_timers; [|done|done]. apply set_time_bounded. lia. }
  eapply (ok_bind_strong _ (inv_at n) (fun _ => True)); [cbn; done|apply inv_at_inv|].
  intros _ t1 w1 Ht1 _ _.
  eapply (ok_bind_strong _ (inv_at n)); [by apply safe_update_session_timers|apply inv_at_inv|].
  intros _ t2 w2 Ht2 _ _. apply ok_get. pose proof Ht2 as (Hi2 & Hn2 & Hb2).
  destruct (is_expired _); [by cbn|].
  eapply (ok_bind_strong _ (inv_at n)); [|apply inv_at_inv|].
  { apply safe_and_then; [|exact Ht2]. apply safe_elapsed. timer_bound. }
  intros stale t3 w3 Ht3 _ _. eapply (ok_bind_strong _ (inv_at n) (fun _ => True)); [|apply inv_at_inv|].
  { destruct stale; [|by apply safe_ret]. apply (safe_modify (inv_at n)); [|exact Ht3].
    intros s0 w0. apply inv_at_clear_cookie. }
  intros _ t4 w4 Ht4 _ _. eapply (ok_bind_strong _ (inv_at n)); [|apply inv_at_inv|].
  { apply safe_elapsed; [|exact Ht4]. timer_bound. }
  intros dead t5 w5 Ht5 _ _. destruct dead; [by apply ok_expire; eapply inv_at_inv|].
  destruct (timer _) as [sent|].
  - eapply (ok_bind_strong _ (inv_at n)); [|apply inv_at_inv|].
    { apply safe_elapsed; [|exact Ht5]. timer_bound. }
    intros exhausted t6 w6 Ht6 _ _. destruct exhausted; [by apply ok_expire; eapply inv_at_inv|].
    apply inv_at_inv in Ht6. apply (inv_later _ _ (tick w6)) in Ht6; [|apply later_tick].
    eapply (ok_bind _ (fun _ => True)); [cbn; split_and!; [exact Ht6|apply later_tick|done]|].
    intros t' t7 w7 Ht7 _ _. destruct (_ <=? _); [by apply safe_initiation|by cbn].
  - eapply (ok_bind_strong _ (inv_at n)); [by apply ok_idle_timers|apply inv_at_inv|].
    intros [[] []] t6 w6 Ht6%inv_at_inv _ _;
      first [by apply safe_initiation|by apply safe_encapsulate|by cbn].
Qed.

(** ** Processes *)

(** Methods of the tunnel do not change which limiter it uses, and queue only
    packets they were given: none longer than [mtu]. *)
Section Limiter.
Variables (a mtu : nat).
Definition short (p : bytes) : Prop := (length p <= mtu)%nat.
Definition uses (t : Tunn) : Prop := rate_limiter t = a /\ Forall short (packet_queue t).

Lemma uses_timer_tick n : preserves uses (timer_tick n).
Proof. unfold timer_tick. keeps; done. Qed.
#[local] Hint Resolve uses_timer_tick : keeps.
Lemma uses_established b i : preserves uses (timer_tick_session_established b i).
Proof. unfold timer_tick_session_established. keeps; done. Qed.
Lemma uses_clear_timers : preserves uses clear_timers.
Proof. unfold clear_timers. keeps; done. Qed.
Lemma uses_set_current i : preserves uses (set_current_session i).
Proof. unfold set_current_session. keeps; done. Qed.
#[local] Hint Resolve uses_established uses_clear_timers uses_set_current : keeps.
Lemma uses_clear_all : preserves uses clear_all.
Proof. unfold clear_all. keeps; unfold uses in *; cbn; naive_solver. Qed.
Lemma uses_initiation dst f : preserves uses (format_handshake_initiation dst f).
Proof. unfold format_handshake_initiation. keeps; done. Qed.
#[local] Hint Resolve uses_clear_all uses_initiation : keeps.
Lemma uses_queue p : short p -> preserves uses (queue_packet p).
Proof.
  intros Hp t w [Ha Hq]. unfold queue_packet. step. destruct (_ <? _)%nat; [|done].
  split; [done|]. cbn. by apply Forall_app_2; [|constructor].
Qed.
Lemma uses_requeue p : short p -> preserves uses (requeue_packet p).
Proof.
  intros Hp t w [Ha Hq]. unfold requeue_packet. step. destruct (_ <? _)%nat; [|done].
  split; [done|]. cbn. by constructor.
Qed.
Lemma uses_encapsulate src dst : short src -> preserves uses (encapsulate src dst).
Proof. intros Hs. pose proof (uses_queue src Hs) as Hk. unfold encapsulate. keeps; done. Qed.
Lemma uses_send_queued dst : preserves uses (send_queued_packet dst).
Proof.
  intros t w [Ha Hq]. unfold send_queued_packet, dequeue_packet. step.
  destruct (packet_queue t) as [|p rest] eqn:Eq; [split; [done|by rewrite Eq]|]. step.
  apply Forall_cons_iff in Hq as [Hp Hq].
  apply (preserves_bind uses (encapsulate p dst)); [by apply uses_encapsulate| |done].
  pose proof (uses_requeue p Hp) as Hk. intros []; keeps.
Qed.
Lemma uses_validate p : preserves uses (validate_decapsulated_packet p).
Proof. unfold validate_decapsulated_packet. keeps; done. Qed.
Lemma uses_on_local {T A} (x : T) (m : M WireGuardError T A) : preserves uses (on_local x m).
Proof. intros t w Ht. unfold on_local. by destruct (m x w). Qed.
#[local] Hint Resolve uses_validate uses_on_local : keeps.
Lemma uses_handle p dst : preserves uses (handle_verified_packet p dst).
Proof.
  unfold handle_verified_packet, handle_handshake_init, handle_pq_handshake_init, handle_handshake_response,
    handle_pq_handshake_response, handle_cookie_reply, handle_data, establish_responder, establish_initiator.
  destruct p; keeps; done.
Qed.
Lemma uses_expire n i : preserves uses (expire_session n i).
Proof. unfold expire_session, dur_sub. keeps; done. Qed.
#[local] Hint Resolve uses_expire : keeps.
Lemma uses_for_each {A} (f : A -> M WireGuardError Tunn unit) l :
  (forall x, preserves uses (f x)) -> preserves uses (for_each f l).
Proof. intros Hf. induction l; cbn [for_each]; keeps; auto. Qed.
Lemma uses_update_session n : preserves uses (update_session_timers n).
Proof. apply uses_for_each. intros i. apply uses_expire. Qed.
Lemma uses_elapsed n t l : preserves (E:=WireGuardError) uses (elapsed n t l).
Proof. unfold elapsed, dur_sub. keeps; done. Qed.
Lemma uses_and_then b (m : M WireGuardError Tunn bool) : preserves uses m -> preserves uses (and_then b m).
Proof. intros Hm. destruct b; [done|]. keeps. Qed.
#[local] Hint Resolve uses_update_session uses_elapsed : keeps.
Lemma uses_idle n t : preserves uses (idle_timers n t).
Proof.
  unfold idle_timers, take_want_handshake, take_want_keepalive, dur_sub.
  repeat (keeps; try done; try apply uses_and_then).
Qed.
#[local] Hint Resolve uses_idle : keeps.
Lemma uses_update time dst : preserves uses (update_tunn time dst).
Proof.
  assert (Hk : preserves uses (encapsulate [] dst)) by (apply uses_encapsulate; unfold short; cbn; lia).
  unfold update_tunn. repeat (keeps; try done; try apply uses_and_then).
Qed.
End Limiter.

(** ** Calls *)

Lemma nofail_format src dst : nofail (Transport.format_packet_data src dst).
Proof. unfold Transport.format_packet_data. nofail. Qed.
Lemma nofail_timer_tick n : nofail (timer_tick n).
Proof. unfold timer_tick. nofail. Qed.
Lemma nofail_clear_timers : nofail clear_timers.
Proof. unfold clear_timers, Timers.clear. nofail. Qed.
#[local] Hint Resolve nofail_format nofail_timer_tick nofail_clear_timers : nofail.
Lemma nofail_initiation dst f : nofail (format_handshake_initiation dst f).
Proof. unfold format_handshake_initiation. nofail. Qed.
#[local] Hint Resolve nofail_initiation : nofail.
Lemma nofail_encapsulate src dst : nofail (encapsulate src dst).
Proof. unfold encapsulate, queue_packet. nofail. Qed.
#[local] Hint Resolve nofail_encapsulate : nofail.
Lemma nofail_send_queued dst : nofail (send_queued_packet dst).
Proof. unfold send_queued_packet, dequeue_packet, requeue_packet. nofail. Qed.
Lemma nofail_handle p dst : nofail (handle_verified_packet p dst).
Proof. unfold handle_verified_packet. nofail. Qed.
#[local] Hint Resolve nofail_send_queued nofail_handle : nofail.
Lemma nofail_update_session n : nofail (update_session_timers n).
Proof.
  unfold update_session_timers. generalize (seq 0 (Z.to_nat N_SESSIONS)) as l.
  induction l; cbn [for_each]; unfold expire_session, dur_sub; nofail.
Qed.
#[local] Hint Resolve nofail_update_session : nofail.
Lemma nofail_update time dst : nofail (update_tunn time dst).
Proof.
  unfold update_tunn, idle_timers, clear_all, and_then, elapsed, take_want_handshake, take_want_keepalive,
    dur_sub. nofail.
Qed.
#[local] Hint Resolve nofail_update : nofail.

(** The public methods of a tunnel. *)
Inductive Call :=
| Encapsulate (src dst : bytes)
| Decapsulate (src_addr : option IpAddr) (datagram dst : bytes)
| UpdateTimers (dst : bytes)
| InitiateHandshake (dst : bytes) (force_resend : bool).

Definition perform (c : Call) : M WireGuardError Process TunnResult :=
  match c with
  | Encapsulate src dst => in_tunn (encapsulate src dst)
  | Decapsulate src_addr datagram dst => decapsulate src_addr datagram dst
  | UpdateTimers dst => update_timers dst
  | InitiateHandshake dst force_resend => in_tunn (format_handshake_initiation dst force_resend)
  end.

(** Packets of at most [mtu] bytes and buffers of the documented size. *)
Definition adequate (mtu : nat) (c : Call) : Prop :=
  match c with
  | Encapsulate src dst => (length src <= mtu /\ length src + 32 <= length dst)%nat
  | Decapsulate _ datagram dst => (length datagram <= length dst /\ mtu + 64 <= length dst)%nat
  | UpdateTimers dst => (32 <= length dst)%nat
  | InitiateHandshake _ _ => True
  end.

Lemma nofail_in_tunn {A} (m : M WireGuardError Tunn A) : nofail m -> nofail (in_tunn m).
Proof. intros Hm. unfold in_tunn. nofail. Qed.
#[local] Hint Resolve nofail_in_tunn : nofail.

Lemma nofail_reset : nofail (with_limiter (E:=WireGuardError) reset_count).
Proof.
  intros s w. unfold with_limiter. destruct (_ !! _); [|done]. revert s w. apply nofail_zoom.
  unfold reset_count. nofail.
Qed.
#[local] Hint Resolve nofail_reset : nofail.

Lemma nofail_perform c : nofail (perform c).
Proof.
  destruct c as [src dst|a d dst|dst|dst f]; cbn [perform]; unfold decapsulate, update_timers;
    repeat (nofail; try apply nofail_in_tunn).
Qed.

(** The invariant of a process: the tunnel's, its limiter is alive, and no
    queued packet is longer than [mtu]. *)
Definition pinv (mtu : nat) (s : Process) (w : World) : Prop :=
  inv (tunn s) w /\ is_Some (heap s !! rate_limiter (tunn s)) /\ Forall (short mtu) (packet_queue (tunn s)).

Lemma pinv_later mtu s w w' : pinv mtu s w -> later w w' -> pinv mtu s w'.
Proof. intros (Hi & Ha & Hq) L. split_and!; [by eapply inv_later|done|done]. Qed.

Lemma ok_in_tunn {A} mtu (Q : A -> Prop) (m : M WireGuardError Tunn A) s w :
  pinv mtu s w -> ok inv Q w (m (tunn s) w) ->
  preserves (uses (rate_limiter (tunn s)) mtu) m -> ok (pinv mtu) Q w (in_tunn m s w).
Proof.
  intros (Hi & Ha & Hq) Hm Hu. specialize (Hu (tunn s) w (conj eq_refl Hq)).
  unfold in_tunn, zoom. destruct (m (tunn s) w) as [r t' w'|e t' w'|]; cbn in *; [| |done].
  - destruct Hm as (? & ? & ?), Hu as [Hu Hq']. split_and!; try done. unfold pinv. cbn. by rewrite Hu.
  - destruct Hm as (? & ?), Hu as [Hu Hq']. split_and!; try done. unfold pinv. cbn. by rewrite Hu.
Qed.

(** A method of the limiter that neither panics nor rewinds the clock. *)
Lemma ok_with_limiter {E A} mtu (m : M E RateLimiter A) s w :
  pinv mtu s w ->
  (forall l, match m l w with Ok _ _ w' | Fail _ _ w' => later w w' | Panic => False end) ->
  ok (pinv mtu) (fun _ => True) w (with_limiter m s w).
Proof.
  intros Hp Hm. pose proof Hp as (Hi & [l Hl] & Hq). unfold with_limiter. rewrite Hl. unfold zoom.
  specialize (Hm l). destruct (m l w) as [r l' w'|e l' w'|]; cbn; [| |done].
  - split_and!; [|done|done]. eapply pinv_later; [|done]. split_and!; [done| |done]. cbn.
    by rewrite lookup_insert_eq.
  - split_and!; [|done]. eapply pinv_later; [|done]. split_and!; [done| |done]. cbn.
    by rewrite lookup_insert_eq.
Qed.

Lemma ok_decapsulate mtu addr datagram dst s w :
  pinv mtu s w -> adequate mtu (Decapsulate addr datagram dst) ->
  ok (pinv mtu) typed w (decapsulate addr datagram dst s w).
Proof.
  intros Hp [L1 L2]. pose proof Hp as (Hi & Ha & Hq). unfold decapsulate. case_bool_decide.
  { apply ok_in_tunn; [done| |apply uses_send_queued].
    apply (ok_weaken inv sends); [|apply sends_typed]. apply ok_send_queued_packet; [done|].
    eapply Forall_impl; [|exact Hq]. intros p Hs. unfold fits, short, DATA_OVERHEAD_SZ in *. lia. }
  cbn zeta. unfold attempt, bind.
  pose proof (ok_with_limiter mtu (verify_packet addr datagram (zeros COOKIE_REPLY_SZ)) s w Hp
    ltac:(intros l; apply verify_later)) as Hv.
  pose proof Ha as [l Hl]. pose proof (verify_returns addr datagram (zeros COOKIE_REPLY_SZ) l w) as Vs.
  assert (Hr : match with_limiter (verify_packet addr datagram (zeros COOKIE_REPLY_SZ)) s w with
    | Ok p _ _ => parse_incoming_packet datagram = inl p
    | Fail r _ _ => match r with Err _ => True | WriteToNetwork c => length c = COOKIE_REPLY_SZ /\ is_message c | _ => False end
    | Panic => True end).
  { unfold with_limiter, zoom. rewrite Hl. destruct (verify_packet _ _ _ _ _) as [p' l' w'|r l' w'|];
      [apply Vs|destruct r; try done; by destruct Vs as (? & ? & _)|done]. }
  clear Vs. destruct (with_limiter _ s w) as [p s' w'|r s' w'|]; [| |done]; cbn in Hv.
  - destruct Hv as (Hp' & Lw & _). apply (ok_after _ _ w w'); [done|].
    pose proof (parse_complete _ _ Hr) as (macs & W & Lm & Hpq & ->).
    apply ok_in_tunn; [done| |apply uses_handle].
    apply safe_handle_verified_packet; [done|done|unfold DATA_OVERHEAD_SZ; lia| |apply Hp'].
    intros d ->. cbn [encode] in L1. len.
  - destruct Hv as (Hp' & Lw). destruct r; try done.
    destruct Hr as [Hr Hm]. rewrite (proj2 (Nat.ltb_ge _ _)) by (unfold COOKIE_REPLY_SZ in Hr; lia). split; [done|split; [done|apply sends_typed; cbn [sends]; by rewrite take_splice]].
Qed.

Lemma ok_update_timers mtu dst s w : pinv mtu s w -> (DATA_OVERHEAD_SZ <= length dst)%nat ->
  ok (pinv mtu) sends w (update_timers dst s w).
Proof.
  intros Hp L. unfold update_timers. unfold bind at 1. cbn [now].
  change (mkWorld (S (ticks w)) (wall w) (draws w) (calls w)) with (tick w).
  apply (ok_after _ _ w (tick w)); [apply later_tick|]. apply ok_get.
  pose proof (pinv_later _ _ _ (tick w) Hp (later_tick w)) as Hp1.
  (* the timers are still as the clock reading found them *)
  assert (Hb : forall s' w', tunn s' = tunn s -> pinv mtu s' w' -> later (tick w) w' ->
    ok (pinv mtu) sends w' (in_tunn (update_tunn (clock (ticks w)) dst) s' w')).
  { intros s' w' Et Hp' Lw. apply ok_in_tunn; [done| |apply uses_update].
    destruct Hp' as (Hi' & _). destruct Hp as ((_ & _ & Hbd & _) & _).
    rewrite Et in *. apply ok_update_tunn; [done|done| |exact Hbd].
    fold (uptime (tn_timers (tunn s)) w). etrans; [apply uptime_tick|by apply uptime_mono]. }
  destruct (should_reset_rr _).
  - eapply (ok_bind_strong _ (fun s' w' => tunn s' = tunn s /\ pinv mtu s' w') (fun _ => True)).
    + pose proof Hp1 as (_ & [l Hl] & _). destruct (reset_count_eq (E:=WireGuardError) l (tick w)) as (l' & El).
      assert (Hr : ok (pinv mtu) (fun _ => True) (tick w) (with_limiter (E:=WireGuardError) reset_count s (tick w))).
      { apply ok_with_limiter; [done|]. intros l0.
        destruct (reset_count_eq (E:=WireGuardError) l0 (tick w)) as (? & ->). apply later_tick. }
      unfold with_limiter, zoom in *. rewrite Hl in *. rewrite El in *. cbn [ok] in *.
      destruct Hr as (Hr & Hl' & _). exact (conj (conj eq_refl Hr) (conj Hl' Logic.I)).
    + by intros s' w' [_ ?].
    + intros _ s' w' [Et Hp'] Lw _. by apply Hb.
  - unfold bind. by apply Hb.
Qed.

Lemma ok_perform mtu c s w : pinv mtu s w -> adequate mtu c ->
  ok (pinv mtu) typed w (perform c s w).
Proof.
  intros Hp Ha. pose proof Hp as (Hi & _ & Hq). destruct c as [src dst|a d dst|dst|dst f]; cbn [perform].
  - destruct Ha as [L1 L2]. apply ok_in_tunn; [done| |by apply uses_encapsulate].
    apply (ok_weaken inv sends); [|apply sends_typed]. by apply safe_encapsulate.
  - by apply ok_decapsulate.
  - by eapply ok_weaken; [apply ok_update_timers|apply sends_typed].
  - apply ok_in_tunn; [done| |apply uses_initiation].
    apply (ok_weaken inv sends); [|apply sends_typed]. by apply safe_initiation.
Qed.

(** A run: the results of a sequence of calls, [None] if one of them panics. *)
Fixpoint run (cs : list Call) (s : Process) (w : World) : option (list TunnResult * Process * World) :=
  match cs with
  | [] => Some ([], s, w)
  | c :: cs =>
      match perform c s w with
      | Ok r s w => '(rs, s, w) ← run cs s w; Some (r :: rs, s, w)
      | Fail _ _ _ | Panic => None
      end
  end.

(** C2. No panic: whatever datagrams arrive, whatever packets are sent and however
    the calls interleave, a tunnel whose buffers have the documented size
    returns from every call, and afterwards the ring still holds only sessions
    of the peer in the slots of their indices, the queue is bounded and no
    timer lies in the future. *)
Theorem tunnel_never_panics mtu cs s w :
  pinv mtu s w -> Forall (adequate mtu) cs ->
  exists rs s' w', run cs s w = Some (rs, s', w') /\ length rs = length cs /\ pinv mtu s' w'.
Proof.
  intros Hp Hc. revert s w Hp. induction Hc as [|c cs Ha _ IH]; intros s w Hp; cbn [run].
  { by eexists _, _, _. }
  pose proof (ok_perform mtu c s w Hp Ha) as Hk. pose proof (nofail_perform c s w) as Hn.
  destruct (perform c s w) as [r s1 w1|e s1 w1|]; [|done..]. destruct Hk as (Hp1 & _ & _).
  destruct (IH s1 w1 Hp1) as (rs & s' & w' & -> & L & Hp'). exists (r :: rs), s', w'.
  split_and!; [done|cbn; by rewrite L|done].
Qed.


(** Asking for the time of the last handshake changes nothing. *)
Lemma time_ok t w : inv t w -> exists r w', time_since_last_handshake t w = Ok r t w' /\ later w w'.
Proof.
  intros (_ & _ & Hb & _). unfold time_since_last_handshake, dur_sub. step. destruct (session_in _ t); [|by eexists _, _]. step.
  pose proof (time_of_bounded _ TimeSessionEstablished _ (uptime_nonneg (tn_timers t) w) Hb) as Ht. unfold uptime in Ht.
  rewrite (proj2 (Z.leb_le _ _)) by lia. step. eexists _, _. split; [reflexivity|]. unfold later. cbn. lia.
Qed.

(** ** A new tunnel *)

Lemma belongs_index : 0 <= peer < 2 ^ 24 -> belongs peer (u32 (Z.shiftl peer 8)).
Proof.
  intros Hp. rewrite Z.shiftl_mul_pow2 by lia. rewrite u32_small by (unfold is_u32; lia).
  split; [unfold is_u32; lia|]. rewrite Z.shiftr_div_pow2 by lia. by apply Z.div_mul.
Qed.

Lemma pinv_start mtu h ts tx rx a hp w :
  sane peer h w -> bounded (uptime ts w) ts -> is_Some (hp !! a) ->
  pinv mtu (mkProcess (mkTunn h (replicate (Z.to_nat N_SESSIONS) None) 0 [] ts tx rx a) hp) w.
Proof.
  intros Hh Hb Ha. split_and!; [|done|constructor]. split_and!; [done| |done|cbn; lia].
  split; [done|]. intros i s Hi. cbn in Hi. by apply lookup_replicate in Hi as [? _].
Qed.

Lemma tunn_new_eq mtu priv pub psk keepalive limiter hp w :
  0 <= peer < 2 ^ 24 -> 0 <= system_time (wall w) ->
  (forall a, limiter = Some a -> is_Some (hp !! a)) ->
  exists t hp' w', Tunnel.new priv pub psk keepalive peer limiter hp w = Ok t hp' w' /\ later w w' /\
    params (handshake t) = noise_params_new priv (x25519_public priv) pub psk /\
    (forall a, is_Some (hp !! a) -> is_Some (hp' !! a)) /\ pinv mtu (mkProcess t hp') w'.
Proof.
  intros Hp Hs Hl. unfold Tunnel.new, Handshake.new, Stamp.new. step.
  rewrite (proj2 (Z.ltb_ge _ _) Hs). step. unfold Timers.new. step.
  pose proof (clock_range (ticks w)). pose proof (system_time_range (wall w)).
  assert (Hz : forall (P : Z -> Prop) n, P 0 -> Forall P (replicate n 0)) by (intros P n ?; by apply Forall_replicate).
  set (h := mkHandshake _ _ _ _ _ _ _ _). set (ts := mkTimers _ _ _ _ _ _ _ _).
  assert (Hh : forall w', sane peer h w').
  { intros w'. split_and!; [apply length_x25519_public|by apply belongs_index| |done|done].
    unfold sane_stamper, NANOSECOND. cbn. lia. }
  assert (Hb : forall w', bounded (uptime ts w') ts).
  { intros w'. unfold bounded. cbn. pose proof (uptime_nonneg ts w').
    split_and!; [done|done|apply (Hz _ 9%nat); lia|apply (Hz _ 8%nat); lia]. }
  destruct limiter as [a|]; step.
  - eexists _, _, _. split_and!; [done|unfold later; cbn; lia|done|done|]. apply pinv_start; [done|done|by apply Hl].
  - unfold alloc_limiter, RateLimiter.new, rand_bytes. step. eexists _, _, _. split_and!; [done|unfold later; cbn; lia|done| |].
    + intros a Ha. destruct (decide (a = fresh (dom hp))) as [->|Hne]; [by rewrite lookup_insert_eq|].
      by rewrite lookup_insert_ne.
    + apply pinv_start; [done|done|]. by rewrite lookup_insert_eq.
Qed.

(** Construction establishes the invariant: with an index of 24 bits and a wall
    clock not before 1970, [Tunn::new] returns a tunnel that satisfies it,
    whether it shares a limiter or makes its own. *)
Theorem new_tunnel_ready mtu priv pub psk keepalive limiter hp w :
  0 <= peer < 2 ^ 24 -> 0 <= system_time (wall w) ->
  (forall a, limiter = Some a -> is_Some (hp !! a)) ->
  exists t hp' w', Tunnel.new priv pub psk keepalive peer limiter hp w = Ok t hp' w' /\
    pinv mtu (mkProcess t hp') w'.
Proof.
  intros Hp Hs Hl. destruct (tunn_new_eq mtu priv pub psk keepalive limiter hp w Hp Hs Hl)
    as (t & hp' & w' & E & _ & _ & _ & Hi). by exists t, hp', w'.
Qed.
End Safety.

(** ** Concrete runs *)

Module Example.
Import HandshakeProps.Example.
#[local] Existing Instances pq_build Toy.crypto Toy.laws env env_clock.

(** A tunnel without a session, with any timers and its own limiter. *)
Definition limiter_of (h : Handshake.Handshake) : RateLimiter :=
  mkRateLimiter (zeros 32) (zeros 16) 0 0 (b2s_hash LABEL_MAC1 (static_public (params h)))
    (b2s_hash LABEL_COOKIE (static_public (params h))) 10 0 0.
Definition process (h : Handshake.Handshake) (ts : Timers) : Process :=
  mkProcess (mkTunn h (replicate (Z.to_nat N_SESSIONS) None) 0 [] ts 0 0 0) {[0%nat := limiter_of h]}.
Definition fresh_timers : Timers :=
  mkTimers false 0 (replicate 9 0) (replicate 8 0) false false 0 true.

Lemma alice_sane w : sane 1 alice w.
Proof. by_computation. Qed.

Lemma process_ready : pinv 1 1500 (process alice fresh_timers) w0.
Proof.
  apply pinv_start; [apply alice_sane| |by eexists].
  split_and!; [done|done|repeat constructor; vm_compute; discriminate..].
Qed.

Lemma new_tunnel_ready_witness : exists t hp w,
  Tunnel.new alice_key (x25519_public bob_key) None (Some 25) 3 None ∅ w0 = Ok t hp w /\
  pinv 3 1500 (mkProcess t hp) w.
Proof. apply new_tunnel_ready; [lia|vm_compute; discriminate|discriminate]. Defined.

Lemma tunnel_never_panics_witness : exists rs s' w',
  run [UpdateTimers (zeros 1500); Encapsulate (zeros 20) (zeros 1500);
       Decapsulate None (zeros 40) (zeros 1700)] (process alice fresh_timers) w0 = Some (rs, s', w') /\
  length rs = 3%nat.
Proof.
  destruct (tunnel_never_panics 1 1500 [UpdateTimers (zeros 1500); Encapsulate (zeros 20) (zeros 1500);
    Decapsulate None (zeros 40) (zeros 1700)] _ _ process_ready) as (rs & s' & w' & R & L & _).
  { repeat constructor; vm_compute; lia. }
  exists rs, s', w'. exact (conj R L).
Defined.

Definition first_calls : list Call := [UpdateTimers (zeros 1500); Encapsulate (zeros 20) (zeros 1500)].

(** The second of them sends an initiation. *)
Lemma first_calls_initiate : match run first_calls (process alice fresh_timers) w0 with
  | Some ([_; WriteToNetwork p], _, _) => length p =? PQ_HANDSHAKE_INIT_SZ | _ => false end%nat = true.
Proof. vm_compute. reflexivity. Qed.


End Example.
