(* ===== verification/Stats.v ===== *)
(** * Figures for display: [Tunn::stats] and [Tunn::estimate_loss] of [noise/mod.rs]

    [f32] is the binary32 format of IEEE 754 with rounding to nearest even, by the
    operations of [SpecFloat]. *)

From Stdlib Require Import Floats.SpecFloat.
From S2P Require Import Prelude Packet Crypto Session Instant Handshake HandshakeProps RateLimiter Timers Tunnel.
From S2P Require Import TunnelSafety.

(** ** [f32] *)

Module F32.
Definition prec : Z := 24.
Definition emax : Z := 128.
Definition add : spec_float -> spec_float -> spec_float := SFadd prec emax.
Definition sub : spec_float -> spec_float -> spec_float := SFsub prec emax.
Definition mul : spec_float -> spec_float -> spec_float := SFmul prec emax.
Definition div : spec_float -> spec_float -> spec_float := SFdiv prec emax.
(** [n as f32] *)
Definition of_Z (n : Z) : spec_float := binary_normalize prec emax n 0 false.
Definition zero : spec_float := S754_zero false.
End F32.

Section Stats.
Context `{Features, Crypto, Env}.

(** The packets that one session lost, as a fraction. *)
Definition session_loss (session : Transport.Session) : spec_float :=
  let '(expected, received) := Transport.current_packet_cnt session in
  if expected =? 0 then F32.zero
  else F32.sub (F32.of_Z 1) (F32.div (F32.of_Z received) (F32.of_Z expected)).

(** The variables of the loop. *)
Record Average := mkAverage { weight : spec_float; cur_avg : spec_float; total_weight : spec_float }.

(** One turn of the loop over the ring. *)
Definition average_turn (self : Tunn) (a : Average) (i : Z) : Average :=
  match session_in (slot (u64 (current self - i))) self with
  | Some session =>
      mkAverage (F32.div (weight a) (F32.of_Z 3))
        (F32.add (cur_avg a) (F32.mul (session_loss session) (weight a)))
        (F32.add (total_weight a) (weight a))
  | None => a
  end.

Definition estimate_loss (self : Tunn) : spec_float :=
  let a := foldl (average_turn self) (mkAverage (F32.of_Z 9) F32.zero F32.zero) (seqZ 0 N_SESSIONS) in
  if SFeqb (total_weight a) F32.zero then F32.zero else F32.div (cur_avg a) (total_weight a).

(** [Tunn::stats] *)
Definition stats : M WireGuardError Tunn (option Z * Z * Z * spec_float * option Z) :=
  self <- get;;
  time <- time_since_last_handshake;;
  ret (time, tx_bytes self, rx_bytes self, estimate_loss self, last_rtt (handshake self)).
End Stats.

(** ** Conversion and division *)

Lemma digits_bounds p : 2 ^ (Z.pos (digits2_pos p) - 1) <= Z.pos p < 2 ^ Z.pos (digits2_pos p).
Proof.
  assert (Hs : forall q, 2 ^ (Z.pos (Pos.succ q) - 1) = 2 * 2 ^ (Z.pos q - 1) /\ 2 ^ Z.pos (Pos.succ q) = 2 * 2 ^ Z.pos q).
  { intros q. rewrite Pos2Z.inj_succ. split; [replace (Z.succ (Z.pos q) - 1) with (Z.succ (Z.pos q - 1)) by lia|];
      rewrite Z.pow_succ_r by lia; done. }
  induction p as [p IH|p IH|]; cbn [digits2_pos]; [destruct (Hs (digits2_pos p)) as [-> ->]; lia..|cbn; lia].
Qed.

Lemma shr_1_half r : 0 <= shr_m r -> shr_m (shr_1 r) = shr_m r / 2.
Proof.
  destruct r as [m r s]. cbn. destruct m as [|[p|p|]|p]; cbn; intros; [done|dlia|dlia|done|lia].
Qed.

Lemma shr_iter p : forall r, 0 <= shr_m r -> shr_m (SpecFloat.iter_pos shr_1 p r) = shr_m r / 2 ^ Z.pos p.
Proof.
  induction p as [p IH|p IH|]; intros r Hr; cbn [SpecFloat.iter_pos].
  - assert (0 <= shr_m (shr_1 r)) by (rewrite shr_1_half by done; apply Z.div_pos; lia).
    assert (0 <= shr_m (SpecFloat.iter_pos shr_1 p (shr_1 r))) by (rewrite IH by done; apply Z.div_pos; lia).
    rewrite !IH, shr_1_half, !Z.div_div by (done || lia). f_equal.
    rewrite Pos2Z.inj_xI. replace (2 * Z.pos p + 1) with (1 + Z.pos p + Z.pos p) by lia.
    rewrite !Z.pow_add_r by lia. lia.
  - assert (0 <= shr_m (SpecFloat.iter_pos shr_1 p r)) by (rewrite IH by done; apply Z.div_pos; lia).
    rewrite !IH, !Z.div_div by (done || lia). f_equal.
    rewrite <- Z.pow_add_r by lia. f_equal. lia.
  - by rewrite shr_1_half.
Qed.

(** Rounding a positive mantissa to 24 bits. *)
Lemma shr_fexp_pos m e l : 0 < m -> -100 <= e ->
  let '(r, e') := shr_fexp F32.prec F32.emax m e l in
  0 < shr_m r < 2 ^ 24 /\ e <= e' <= Z.max e (e + Zdigits2 m - 24).
Proof.
  intros Hm He. destruct m as [|p|p]; [lia| |lia]. unfold shr_fexp, fexp, emin, F32.prec, F32.emax. cbn [Zdigits2].
  pose proof (digits_bounds p) as B. set (d := Z.pos (digits2_pos p)) in *.
  rewrite Z.max_l by lia. replace (d + e - 24 - e) with (d - 24) by lia.
  assert (R : shr_m (shr_record_of_loc (Z.pos p) l) = Z.pos p) by (destruct l as [|[]]; done).
  unfold shr. destruct (d - 24) as [|q|q] eqn:D.
  - rewrite R. assert (d = 24) as E by lia. rewrite E in *. lia.
  - rewrite shr_iter, R by (rewrite ?R; lia). split; [|lia]. rewrite <- D. split.
    + apply Z.div_str_pos. split; [lia|]. etrans; [|apply B]. apply Z.pow_le_mono_r; lia.
    + apply Z.div_lt_upper_bound; [lia|]. rewrite <- Z.pow_add_r by lia. replace (d - 24 + 24) with d by lia. apply B.
  - rewrite R. split; [|lia]. split; [lia|]. eapply Z.lt_le_trans; [apply B|]. apply Z.pow_le_mono_r; lia.
Qed.

Lemma digits_le p n : 0 <= n -> Z.pos p <= 2 ^ n -> Zdigits2 (Z.pos p) <= n + 1.
Proof.
  intros Hn Hp. cbn. pose proof (digits_bounds p). destruct (Z.le_gt_cases (Z.pos (digits2_pos p)) (n + 1)); [done|].
  assert (2 ^ (n + 1) <= 2 ^ (Z.pos (digits2_pos p) - 1)) by (apply Z.pow_le_mono_r; lia).
  rewrite Z.pow_add_r in * by lia. lia.
Qed.

Lemma round_finite m e : 0 < m <= 2 ^ 64 -> -100 <= e <= 0 ->
  exists m' e', binary_round_aux F32.prec F32.emax false m e loc_Exact = S754_finite false m' e'.
Proof.
  intros Hm He. unfold binary_round_aux. pose proof (shr_fexp_pos m e loc_Exact ltac:(lia) ltac:(lia)) as R1.
  destruct (shr_fexp _ _ m e loc_Exact) as [r1 e1]. destruct R1 as [Hr1 He1].
  destruct m as [|p|p]; [lia| |lia]. pose proof (digits_le p 64 ltac:(lia) ltac:(lia)) as D.
  set (m1 := round_nearest_even _ _). assert (Hm1 : 0 < m1 <= 2 ^ 24).
  { subst m1. unfold round_nearest_even. destruct (loc_of_shr_record r1) as [|[]]; [lia| |lia|lia]. destruct (Z.even _); lia. }
  pose proof (shr_fexp_pos m1 e1 loc_Exact ltac:(lia) ltac:(lia)) as R2.
  destruct (shr_fexp _ _ m1 e1 loc_Exact) as [r2 e2]. destruct R2 as [Hr2 He2].
  destruct m1 as [|p1|p1]; [lia| |lia]. pose proof (digits_le p1 24 ltac:(lia) ltac:(lia)).
  destruct (shr_m r2) as [|m2|m2]; [lia| |lia]. rewrite (proj2 (Z.leb_le _ _)) by (unfold F32.emax, F32.prec; lia). eauto.
Qed.

Lemma iter_xO p d : Z.pos (Pos.iter xO p d) = Z.pos p * 2 ^ Z.pos d.
Proof.
  induction d as [|d IH] using Pos.peano_ind; [cbn; lia|].
  rewrite Pos.iter_succ, Pos2Z.inj_xO, IH, Pos2Z.inj_succ, Z.pow_succ_r by lia. lia.
Qed.

Lemma of_Z_finite n : 0 < n < 2 ^ 64 -> exists m e, F32.of_Z n = S754_finite false m e.
Proof.
  intros Hn. destruct n as [|p|p]; [lia| |lia]. unfold F32.of_Z. cbn [binary_normalize]. unfold binary_round, shl_align.
  pose proof (digits_bounds p) as B. set (d := Z.pos (digits2_pos p)) in *.
  replace (fexp F32.prec F32.emax (d + 0) - 0) with (d - 24) by (unfold fexp, emin, F32.prec, F32.emax; lia).
  destruct (d - 24) as [|q|q] eqn:D; [apply round_finite; lia..|].
  replace (fexp F32.prec F32.emax (d + 0)) with (d - 24) by (unfold fexp, emin, F32.prec, F32.emax; lia).
  apply round_finite; [|lia]. rewrite iter_xO. split; [lia|].
  replace (2 ^ 64) with (2 ^ d * 2 ^ (64 - d)) by (rewrite <- Z.pow_add_r by lia; f_equal; lia).
  assert (2 ^ Z.pos q <= 2 ^ (64 - d)) by (apply Z.pow_le_mono_r; lia).
  apply Z.mul_le_mono_nonneg; lia.
Qed.

Lemma div_self m e : F32.div (S754_finite false m e) (S754_finite false m e) = F32.of_Z 1.
Proof.
  unfold F32.div, SFdiv, SFdiv_core_binary. rewrite !Z.sub_diag.
  change (Z.min (fexp F32.prec F32.emax 0) 0) with (-24). cbn [Z.sub Z.opp Z.add].
  change (0 - -24) with 24. rewrite Z.shiftl_mul_pow2 by lia.
  destruct (Z.div_eucl (Z.pos m * 2 ^ 24) (Z.pos m)) as [q r] eqn:E.
  pose proof (Z.div_mul (2 ^ 24) (Z.pos m) ltac:(lia)) as Q. pose proof (Z.mod_mul (2 ^ 24) (Z.pos m) ltac:(lia)) as R.
  rewrite Z.mul_comm in Q, R. unfold Z.div in Q. unfold Z.modulo in R. rewrite E in Q, R. subst q r.
  unfold new_location, new_location_even, new_location_odd. cbn [Z.eqb]. by destruct (Z.even _).
Qed.

(** ** A tunnel without losses *)

Section Lossless.
Context `{Features, Crypto, Env}.

(** The session received every packet it knows to have been sent. *)
Definition lossless (s : Transport.Session) : Prop :=
  let '(expected, received) := Transport.current_packet_cnt s in received = expected /\ is_u64 expected.

Lemma session_lossless s : lossless s -> session_loss s = F32.zero.
Proof.
  unfold lossless, session_loss. destruct (Transport.current_packet_cnt s) as [x y]. intros [-> Hx].
  destruct (Z.eqb_spec x 0) as [_|Hn]; [done|].
  destruct (of_Z_finite x) as (m & e & ->); [unfold is_u64 in Hx; lia|]. by rewrite div_self.
Qed.

(** The variables after [k] sessions without a loss. *)
Definition after_sessions (k : nat) : Average :=
  Nat.iter k (fun a => mkAverage (F32.div (weight a) (F32.of_Z 3)) F32.zero (F32.add (total_weight a) (weight a)))
    (mkAverage (F32.of_Z 9) F32.zero F32.zero).

Lemma after_S k : after_sessions (S k) =
  mkAverage (F32.div (weight (after_sessions k)) (F32.of_Z 3)) F32.zero (F32.add (total_weight (after_sessions k)) (weight (after_sessions k))).
Proof. done. Qed.

Definition is_pos (x : spec_float) : bool := match x with S754_finite false _ _ => true | _ => false end.

Lemma after_positive k : (k <= 8)%nat ->
  is_pos (weight (after_sessions k)) = true /\ (k = 0%nat \/ is_pos (total_weight (after_sessions k)) = true).
Proof.
  intros Hk. do 9 (destruct k as [|k]; [vm_compute; auto|]). lia.
Qed.

Lemma average_lossless self l : (forall i s, session_in i self = Some s -> lossless s) ->
  forall k, (k + length l <= 8)%nat ->
  exists k', (k' <= 8)%nat /\ foldl (average_turn self) (after_sessions k) l = after_sessions k'.
Proof.
  intros Hs. induction l as [|i l IH]; intros k Hk; cbn [foldl length] in *; [exists k; split; [lia|done]|].
  unfold average_turn at 2. destruct (session_in _ self) as [s|] eqn:E; [|apply IH; lia].
  rewrite (session_lossless s (Hs _ _ E)).
  destruct (after_positive k ltac:(lia)) as [Hw _]. destruct (IH (S k) ltac:(lia)) as (k' & Hk' & F).
  exists k'. split; [done|]. rewrite <- F. f_equal. rewrite after_S.
  assert (Hc : cur_avg (after_sessions k) = F32.zero) by (by destruct k). rewrite Hc. f_equal.
  by destruct (weight (after_sessions k)) as [| | |[] m e].
Qed.

(** The loss of a tunnel whose sessions received all that was sent is zero,
    exactly, whatever the counters are: the conversions of counters above 2^24
    to [f32] round, but the quotient of equal counters is one. *)
Theorem no_loss_reported self : (forall i s, session_in i self = Some s -> lossless s) ->
  estimate_loss self = F32.zero.
Proof.
  intros Hs. unfold estimate_loss. change (mkAverage _ _ _) with (after_sessions 0).
  destruct (average_lossless self (seqZ 0 N_SESSIONS) Hs 0 ltac:(vm_compute; lia)) as (k & Hk & ->).
  destruct (after_positive k Hk) as [_ [->|Ht]]; [done|].
  assert (Hc : cur_avg (after_sessions k) = F32.zero) by (by destruct k). rewrite Hc.
  destruct (total_weight (after_sessions k)) as [| | |[] m e]; done.
Qed.
End Lossless.

Module Example.
Import HandshakeProps.Example TunnelSafety.Example.
#[local] Existing Instances pq_build Toy.crypto env.

(** A ring with one session that received [y] of [x] packets. *)
Definition ring_of (x y : Z) : Tunn :=
  set_session 1 (Some (Transport.mkSession 257 1 [] [] 0 (Window.mkValidator x y []))) (tunn (process alice fresh_timers)).

Lemma no_loss_reported_witness : estimate_loss (ring_of 123456789 123456789) = F32.zero.
Proof.
  apply no_loss_reported. intros i s. unfold session_in, ring_of.
  do 8 (destruct i as [|i]; [cbn; intros [= <-] || discriminate; try by_computation|]). discriminate.
Defined.

(** A quarter of the packets is missing. *)
Lemma quarter : estimate_loss (ring_of 400 300) = F32.div (F32.of_Z 1) (F32.of_Z 4).
Proof. vm_compute. reflexivity. Qed.
End Example.
