(* ===== verification/TunnelProps.v ===== *)
(** * What a tunnel delivers

    A packet's way from end to end, the validation of decapsulated packets and
    the queue. *)

From S2P Require Import Prelude Packet Crypto Session Instant Handshake NoiseSpec HandshakeSpec.
From S2P Require Import HandshakeProps HandshakeSafety RateLimiter Timers Tunnel TunnelSafety.

Section Properties.
Context `{Features, Crypto, Env, !CryptoLaws}.

(** ** Symbolic execution of the handlers

    The timers play no part in what is delivered: a method's result is given up
    to a function on them. *)

Lemma on_timers_comp f g t : on_timers f (on_timers g t) = on_timers (fun x => f (g x)) t.
Proof. done. Qed.

Lemma timer_tick_eq n t w : exists f, timer_tick n t w = Ok tt (on_timers f t) w.
Proof. unfold timer_tick. destruct n; step; rewrite ?on_timers_comp; eexists; reflexivity. Qed.

Lemma established_eq b i t w : exists f,
  timer_tick_session_established b i t w = Ok tt (on_timers f t) w /\
  forall j, slot j = slot i -> session_time (slot j) (f (tn_timers t)) = session_time (slot i) (f (tn_timers t)).
Proof.
  unfold timer_tick_session_established.
  destruct (timer_tick_eq TimeSessionEstablished t w) as [f Ef]. unfold bind at 1. rewrite Ef. step.
  eexists. split; [by rewrite !on_timers_comp|]. by intros j ->.
Qed.

Lemma session_in_set i j x t : (i < length (sessions t))%nat ->
  session_in j (set_session i x t) = if decide (i = j) then x else session_in j t.
Proof.
  intros L. unfold session_in, set_session. cbn. case_decide as E.
  - subst j. by rewrite list_lookup_insert_eq.
  - by rewrite list_lookup_insert_ne.
Qed.

Lemma session_in_timers j f t : session_in j (on_timers f t) = session_in j t.
Proof. done. Qed.

Lemma set_current_same t : set_current (current t) t = t.
Proof. by destruct t. Qed.

(** After the response the new session is the current one. *)
Lemma establish_initiator_eq session dst t w :
  session_in (slot (current t)) t = None -> length (sessions t) = Z.to_nat N_SESSIONS ->
  (DATA_OVERHEAD_SZ <= length dst)%nat ->
  exists pkt session' f,
    Transport.format_packet_data [] dst session w = Ok pkt session' w /\
    let i := Transport.receiving_index session' in
    establish_initiator session dst t w =
    Ok (WriteToNetwork pkt) (on_timers f (set_current i (set_session (slot i) (Some session') t))) w.
Proof.
  intros Hn L Ld.
  pose proof (Transport.format_packet_data_spec [] dst session w Ld) as F. cbn zeta in F.
  destruct (chacha_seal _ _ _ _) as [ct tag]. set (s' := Transport.set_sending_key_counter _ session) in F.
  set (pkt := encode _ []) in F. set (i := Transport.receiving_index s').
  cut (exists f, establish_initiator session dst t w =
    Ok (WriteToNetwork pkt) (on_timers f (set_current i (set_session (slot i) (Some s') t))) w).
  { intros [f Ef]. by exists pkt, s', f. }
  unfold establish_initiator. unfold bind at 1, on_local. rewrite F. cbn beta iota zeta.
  unfold Transport.local_index. fold i. unfold bind at 1. cbn [modify].
  change (Z.to_nat (i mod N_SESSIONS)) with (slot i).
  set (t1 := set_session (slot i) (Some s') t).
  destruct (timer_tick_eq TimeLastPacketReceived t1 w) as [f Ef]. unfold bind at 1. rewrite Ef.
  destruct (established_eq true (i mod N_SESSIONS) (on_timers f t1) w) as (g & Eg & Hst).
  unfold bind at 1. rewrite Eg, on_timers_comp. unfold bind at 1.
  assert (Ec : set_current_session i (on_timers (fun x => g (f x)) t1) w =
    Ok tt (on_timers (fun x => g (f x)) (set_current i t1)) w).
  { unfold set_current_session. step. change (current (on_timers _ t1)) with (current t).
    destruct (Z.eqb_spec (current t) i) as [E|E].
    { rewrite <- E. by destruct t. }
    match goal with |- context [if ?b then _ else _] => replace b with true; [done|] end.
    symmetry. apply orb_true_iff. destruct (decide (slot i = slot (current t))) as [Es|Es].
    - right. apply Z.leb_le. rewrite <- Es. lia.
    - left. apply bool_decide_eq_true_2. rewrite session_in_timers. unfold t1.
      rewrite session_in_set by (rewrite L; apply slot_lt). by rewrite decide_False. }
  rewrite Ec. by eexists.
Qed.

Lemma establish_responder_eq packet session t w : exists f,
  establish_responder packet session t w =
  Ok (WriteToNetwork packet)
     (on_timers f (set_session (slot (Transport.receiving_index session)) (Some session) t)) w.
Proof.
  unfold establish_responder, Transport.local_index. cbn zeta. unfold bind at 1. cbn [modify].
  set (t1 := set_session _ _ t).
  destruct (timer_tick_eq TimeLastPacketReceived t1 w) as [f Ef]. unfold bind at 1. rewrite Ef.
  destruct (timer_tick_eq TimeLastPacketSent (on_timers f t1) w) as [g Eg]. unfold bind at 1. rewrite Eg.
  rewrite on_timers_comp. edestruct established_eq as (k & Ek & _). unfold bind at 1. rewrite Ek.
  rewrite on_timers_comp. by eexists.
Qed.

Lemma set_current_session_eq i t w : exists c, set_current_session i t w = Ok tt (set_current c t) w.
Proof.
  unfold set_current_session. step. destruct (_ =? _).
  { exists (current t). by rewrite set_current_same. }
  destruct (_ || _); [by eexists|]. exists (current t). by rewrite set_current_same.
Qed.

Lemma handle_data_eq p dst t w session pt session' :
  session_in (slot (pd_receiver_idx p)) t = Some session ->
  Transport.receive_packet_data p dst session w = Ok pt session' w ->
  exists f c, handle_data p dst t w =
    validate_decapsulated_packet pt
      (on_timers f (set_current c (set_session (slot (pd_receiver_idx p)) (Some session') t))) w.
Proof.
  intros Hs Hr. unfold handle_data. cbn zeta. unfold bind at 1. cbn [get]. rewrite Hs.
  unfold bind at 1. cbn [ok_or ret]. unfold bind at 1, zoom. rewrite Hr.
  edestruct set_current_session_eq as [c Ec]. unfold bind at 1. rewrite Ec.
  edestruct timer_tick_eq as [f Ef]. unfold bind at 1. rewrite Ef. by exists f, c.
Qed.

(** The handshake methods a tunnel calls, by the build and by the message. *)
Definition initiate (dst : bytes) : M WireGuardError Handshake.Handshake bytes :=
  if pq then format_pq_handshake_initiation dst else Handshake.format_handshake_initiation dst.
Definition answer (p : Packet) (dst : bytes) :
  M WireGuardError Handshake.Handshake (bytes * Transport.Session) :=
  match p with
  | PHandshakeInit p => receive_handshake_initialization p dst
  | PPqHandshakeInit p => receive_pq_handshake_initialization p dst
  | _ => fail InvalidPacket
  end.
Definition complete (q : Packet) : M WireGuardError Handshake.Handshake Transport.Session :=
  match q with
  | PHandshakeResponse q => receive_handshake_response q
  | PPqHandshakeResponse q => receive_pq_handshake_response q
  | _ => fail InvalidPacket
  end.

(** Sizes that are enough for every message of the handshake. *)
Definition roomy (dst : bytes) : Prop := (PQ_HANDSHAKE_INIT_SZ <= length dst)%nat.

Definition sendable (p : Packet) : Prop :=
  well_formed p /\ is_handshake p = true /\ (is_pq p = true -> pq = true).

(** The exchange of the build's own messages. *)
Lemma exchange a b wa wb dst dst' :
  paired a b -> is_u32 (next_index a) -> is_u32 (next_index b) ->
  stamp_time (stamper a) wa < MAX_DURATION -> stamp_fresh a wa b -> roomy dst -> roomy dst' ->
  exists a1 w1 p sb b1 w2 q,
    initiate dst a wa = Ok (sealed a p) a1 w1 /\ sendable p /\
    answer p dst' b wb = Ok (sealed b q, sb) b1 w2 /\ sendable q /\
    params a1 = params a /\ params b1 = params b /\
    is_u32 (Transport.receiving_index sb) /\ is_u32 (Transport.sending_index sb) /\
    forall wc, exists sa a2, complete q a1 wc = Ok sa a2 (tick wc) /\ crossed sa sb.
Proof.
  intros P Ia Ib Ht Hf L L'. unfold initiate, roomy, PQ_HANDSHAKE_INIT_SZ in *. destruct pq eqn:Hpq.
  - destruct (hybrid_exchange a b wa wb dst dst') as (a1 & w1 & p & sb & b1 & w2 & q & Fi & W & Fr & W' & Pa & Pb & _ & Ui & Uj & R);
      [try done..|]; [unfold PQ_HANDSHAKE_RESP_SZ; lia|].
    exists a1, w1, (PPqHandshakeInit p), sb, b1, w2, (PPqHandshakeResponse q).
    split_and!; try done. intros wc. destruct (R wc) as (sa & a2 & ? & ? & _). by exists sa, a2.
  - destruct (classical_exchange a b wa wb dst dst') as (a1 & w1 & p & sb & b1 & w2 & q & Fi & W & Fr & W' & Pa & Pb & _ & Ui & Uj & R);
      [try done..|]; [unfold HANDSHAKE_INIT_SZ; lia|unfold HANDSHAKE_RESP_SZ; lia|].
    exists a1, w1, (PHandshakeInit p), sb, b1, w2, (PHandshakeResponse q).
    split_and!; try done. intros wc. destruct (R wc) as (sa & a2 & ? & ? & _). by exists sa, a2.
Qed.

(** Sending without a session queues the packet and starts a handshake. *)
Lemma encapsulate_starts src dst t w m h' w' :
  session_in (slot (current t)) t = None -> state (handshake t) = HsNone ->
  (length (packet_queue t) < MAX_QUEUE_DEPTH)%nat ->
  initiate dst (handshake t) w = Ok m h' w' ->
  exists f, encapsulate src dst t w =
    Ok (WriteToNetwork m) (on_timers f (set_handshake h' (set_packet_queue (packet_queue t ++ [src]) t))) w'.
Proof.
  intros Hn Hh Hq Hi. unfold encapsulate. unfold bind at 1. cbn [get]. rewrite Hn.
  unfold bind at 1, queue_packet. unfold bind at 1. cbn [get]. rewrite (proj2 (Nat.ltb_lt _ _) Hq). cbn [modify].
  unfold format_handshake_initiation. unfold bind at 1. cbn [get].
  set (t1 := set_packet_queue _ t). change (handshake t1) with (handshake t).
  assert (E1 : is_in_progress (handshake t) = false) by (unfold is_in_progress; by rewrite Hh).
  assert (E2 : is_expired (handshake t) = false) by (unfold is_expired; by rewrite Hh).
  rewrite E1, E2. cbn [andb negb]. unfold bind at 1. cbn [ret]. cbn zeta.
  fold (initiate dst). unfold bind at 1, attempt, zoom. change (handshake t1) with (handshake t). rewrite Hi.
  destruct (timer_tick_eq TimeLastHandshakeStarted (set_handshake h' t1) w') as [f Ef].
  unfold bind at 1. rewrite Ef. edestruct (timer_tick_eq TimeLastPacketSent) as [g Eg].
  unfold bind at 1. rewrite Eg, on_timers_comp. by eexists.
Qed.

(** With a session, the packet goes out encrypted. *)
Definition data_message (s : Transport.Session) (src : bytes) : PacketData :=
  let ctr := Transport.sending_key_counter s in
  let c := chacha_seal (Transport.sender s) (Transport.nonce_of ctr) [] src in
  mkPacketData (Transport.sending_index s) ctr (c.1 ++ c.2).
Definition advance (s : Transport.Session) : Transport.Session :=
  Transport.set_sending_key_counter (u64 (Transport.sending_key_counter s + 1)) s.

Lemma format_data src dst s w : (length src + DATA_OVERHEAD_SZ <= length dst)%nat ->
  Transport.format_packet_data src dst s w = Ok (encode (PPacketData (data_message s src)) []) (advance s) w.
Proof.
  intros L. rewrite Transport.format_packet_data_spec by done. unfold data_message. cbn zeta.
  by destruct (chacha_seal _ _ _ _).
Qed.

Lemma encapsulate_sends src dst t w s :
  session_in (slot (current t)) t = Some s -> (length src + DATA_OVERHEAD_SZ <= length dst)%nat ->
  exists f n, encapsulate src dst t w =
    Ok (WriteToNetwork (encode (PPacketData (data_message s src)) []))
       (set_tx_bytes n (on_timers f (set_session (slot (current t)) (Some (advance s)) t))) w.
Proof.
  intros Hs L. unfold encapsulate. unfold bind at 1. cbn [get]. rewrite Hs.
  unfold bind at 1, zoom. rewrite (format_data src dst s w L).
  edestruct (timer_tick_eq TimeLastPacketSent) as [f Ef]. unfold bind at 1. rewrite Ef.
  unfold bind at 1. case_bool_decide.
  - edestruct (timer_tick_eq TimeLastDataPacketSent) as [g Eg]. rewrite Eg, on_timers_comp. step. by eexists _, _.
  - step. by eexists _, _.
Qed.

Lemma send_queued_sends p rest dst t w s :
  packet_queue t = p :: rest ->
  session_in (slot (current t)) t = Some s -> (length p + DATA_OVERHEAD_SZ <= length dst)%nat ->
  exists f n, send_queued_packet dst t w =
    Ok (WriteToNetwork (encode (PPacketData (data_message s p)) []))
       (set_tx_bytes n (on_timers f (set_session (slot (current t)) (Some (advance s)) (set_packet_queue rest t)))) w.
Proof.
  intros Hq Hs L. unfold send_queued_packet, dequeue_packet. unfold bind at 1. unfold bind at 1. cbn [get].
  rewrite Hq. unfold bind at 1. cbn [modify ret]. unfold bind at 1.
  destruct (encapsulate_sends p dst (set_packet_queue rest t) w s Hs L) as (f & n & E). rewrite E.
  by exists f, n.
Qed.

(** ** The handlers behind the limiter *)

(** The limiter of [s] lets the messages of [a] through. *)
Definition admits (s : Process) (a : Handshake.Handshake) : Prop :=
  exists l, heap s !! rate_limiter (tunn s) = Some l /\
    mac1_key l = sending_mac1_key (params a) /\ count l < limit l.

Lemma encode_nonempty p macs : encode p macs <> [].
Proof.
  intros E. apply (f_equal length) in E. destruct p; cbn [encode] in E;
    rewrite length_app, length_to_le in E; cbn in E; lia.
Qed.

Lemma decapsulate_sealed addr a p dst s w : admits s a -> sendable p ->
  exists s', tunn s' = tunn s /\ is_Some (heap s' !! rate_limiter (tunn s')) /\
    decapsulate addr (sealed a p) dst s w = in_tunn (handle_verified_packet p dst) s' w.
Proof.
  intros (l & Hl & Hm & Hc) (W & Hh & Hpq). unfold decapsulate.
  rewrite bool_decide_eq_false_2 by apply encode_nonempty. cbn zeta.
  destruct (handshake_sender p) as [[_ ?]|(idx & Hi & _)]; [congruence|].
  assert (V : verify_packet addr (sealed a p) (zeros COOKIE_REPLY_SZ) l w = Ok p (counted l) w).
  { unfold sealed. rewrite (verify_handshake_eq p idx); [|done|done|done|apply length_mac1|apply length_mac2].
    unfold judge. rewrite bool_decide_eq_true_2 by (unfold mac1_valid, mac1_of; by rewrite Hm).
    cbn [negb]. by rewrite (proj2 (Z.ltb_lt _ _) Hc). }
  unfold bind at 1, attempt, with_limiter, zoom. rewrite Hl, V. eexists (mkProcess _ _).
  split_and!; [done| |done]. cbn. by rewrite lookup_insert_eq.
Qed.

Lemma decapsulate_data addr d dst s w : is_Some (heap s !! rate_limiter (tunn s)) ->
  well_formed (PPacketData d) ->
  exists s', tunn s' = tunn s /\ is_Some (heap s' !! rate_limiter (tunn s')) /\
    decapsulate addr (encode (PPacketData d) []) dst s w =
    in_tunn (handle_verified_packet (PPacketData d) dst) s' w.
Proof.
  intros [l Hl] W. unfold decapsulate. rewrite bool_decide_eq_false_2 by apply encode_nonempty. cbn zeta.
  assert (V : verify_packet addr (encode (PPacketData d) []) (zeros COOKIE_REPLY_SZ) l w = Ok (PPacketData d) l w).
  { unfold verify_packet. by rewrite parse_encode_ok. }
  unfold bind at 1, attempt, with_limiter, zoom. rewrite Hl, V. eexists (mkProcess _ _).
  split_and!; [done| |done]. cbn. by rewrite lookup_insert_eq.
Qed.

Lemma handle_init_eq p dst t w m ses h' w' :
  answer p dst (handshake t) w = Ok (m, ses) h' w' ->
  exists f, handle_verified_packet p dst t w =
    Ok (WriteToNetwork m)
       (on_timers f (set_session (slot (Transport.receiving_index ses)) (Some ses) (set_handshake h' t))) w'.
Proof.
  intros Ha. destruct (establish_responder_eq m ses (set_handshake h' t) w') as [f Ef]. exists f.
  unfold handle_verified_packet. unfold bind at 1, attempt. destruct p; try discriminate Ha; cbn [answer] in Ha.
  - unfold handle_handshake_init. unfold bind at 1, zoom. rewrite Ha. cbn beta iota. by rewrite Ef.
  - unfold handle_pq_handshake_init. unfold bind at 1, zoom. rewrite Ha. cbn beta iota. by rewrite Ef.
Qed.

Lemma handle_resp_eq q dst t w ses h' w' :
  complete q (handshake t) w = Ok ses h' w' ->
  session_in (slot (current t)) t = None -> length (sessions t) = Z.to_nat N_SESSIONS ->
  (DATA_OVERHEAD_SZ <= length dst)%nat ->
  exists f, let i := Transport.receiving_index ses in
    handle_verified_packet q dst t w =
    Ok (WriteToNetwork (encode (PPacketData (data_message ses [])) []))
       (on_timers f (set_current i (set_session (slot i) (Some (advance ses)) (set_handshake h' t)))) w'.
Proof.
  intros Hc Hn L Ld.
  destruct (establish_initiator_eq ses dst (set_handshake h' t) w' Hn L Ld) as (pkt & ses' & f & F & Ef).
  rewrite format_data in F by done. injection F as <- <-. cbn zeta in Ef.
  exists f. cbn zeta. unfold handle_verified_packet. unfold bind at 1, attempt.
  destruct q; try discriminate Hc; cbn [complete] in Hc.
  - unfold handle_handshake_response. unfold bind at 1, zoom. rewrite Hc. by rewrite Ef.
  - unfold handle_pq_handshake_response. unfold bind at 1, zoom. rewrite Hc. by rewrite Ef.
Qed.

(** A data message that opens. *)
Lemma handle_data_packet_eq d dst t w s pt s' :
  session_in (slot (pd_receiver_idx d)) t = Some s ->
  Transport.receive_packet_data d dst s w = Ok pt s' w ->
  exists f c, handle_verified_packet (PPacketData d) dst t w =
    validate_decapsulated_packet pt
      (on_timers f (set_current c (set_session (slot (pd_receiver_idx d)) (Some s') t))) w.
Proof.
  intros Hs Hr. destruct (handle_data_eq d dst t w s pt s' Hs Hr) as (f & c & E). exists f, c.
  unfold handle_verified_packet. unfold bind at 1, attempt. rewrite E.
  set (t' := on_timers _ _). clearbody t'. unfold validate_decapsulated_packet.
  case_bool_decide; [done|]. destruct (ip_header pt) as [[n a]|]; [|done].
  destruct (_ <? _)%nat; [done|]. edestruct (timer_tick_eq TimeLastDataPacketReceived) as [g Eg].
  unfold bind. by rewrite Eg.
Qed.

(** ** From end to end *)

Lemma receive_marked v v' d dst s w pt :
  Transport.receiving_key_counter s = v ->
  Window.will_accept (pd_counter d) v = inl tt ->
  Window.mark_did_receive (pd_counter d) v = Some (inl tt, v') ->
  pd_receiver_idx d = Transport.receiving_index s ->
  (length (pd_encrypted_encapsulated_packet d) <= length dst)%nat ->
  chacha_open (Transport.receiver s) (Transport.nonce_of (pd_counter d)) []
    (pd_encrypted_encapsulated_packet d) = Some pt ->
  Transport.receive_packet_data d dst s w =
  Ok pt (Transport.set_receiving_key_counter (Window.mkValidator (Window.next v')
    (u64 (Window.receive_cnt v' + 1)) (Window.bitmap v')) s) w.
Proof.
  intros <- Ha Hm Hi L Ho. unfold Transport.receive_packet_data. rewrite bool_decide_eq_false_2 by lia. step.
  rewrite Hi, Z.eqb_refl. cbn [negb]. unfold Transport.receiving_counter_quick_check. step.
  rewrite Ha. cbn [Transport.verdict]. step. rewrite take_splice, Ho. step.
  unfold Transport.receiving_counter_mark. step. rewrite Hm. step. done.
Qed.

(** The window after the first packet. *)
Definition received_one : Window.ReceivingKeyCounterValidator :=
  Window.mkValidator 1 1 (<[0%nat := 1]> (replicate 16 0)).

(** The receiving side of a crossed pair takes the first two packets of the
    sending side. *)
Lemma first_packets i j k1 k2 src dst w :
  is_u32 i -> is_u32 j -> (length src + 16 <= length dst)%nat ->
  let a := Transport.new i j k2 k1 in
  let b := Transport.new j i k1 k2 in
  let d0 := data_message a [] in
  let d1 := data_message (advance a) src in
  let b1 := Transport.set_receiving_key_counter received_one b in
  well_formed (PPacketData d0) /\ well_formed (PPacketData d1) /\
  pd_receiver_idx d0 = j /\ pd_receiver_idx d1 = j /\
  Transport.receive_packet_data d0 dst b w = Ok [] b1 w /\
  exists b2, Transport.receive_packet_data d1 dst b1 w = Ok src b2 w.
Proof.
  intros Hi Hj L. cbn zeta. set (a := Transport.new i j k2 k1).
  assert (Wf : forall s x, Transport.sending_index s = j -> is_u64 (Transport.sending_key_counter s) ->
    well_formed (PPacketData (data_message s x)) /\
    length (pd_encrypted_encapsulated_packet (data_message s x)) = (length x + 16)%nat).
  { intros s x Es Hc. unfold data_message. cbn -[is_u32 is_u64]. rewrite Es.
    rewrite length_app, chacha_seal_len, chacha_tag_len. split_and!; [done|done|lia|done]. }
  destruct (Wf a []) as [W0 L0]; [done|vm_compute; split; [discriminate|reflexivity]|]. 
  destruct (Wf (advance a) src) as [W1 L1]; [done|vm_compute; split; [discriminate|reflexivity]|].
  split_and!; [done|done|done|done| |].
  - rewrite (receive_marked Window.default (Window.mkValidator 1 0 (<[0%nat := 1]> (replicate 16 0))) _ _ _ _ []);
      [done|done|done|vm_compute; reflexivity|done|rewrite L0; cbn; lia|].
    cbn. apply chacha_open_seal.
  - eexists. eapply (receive_marked received_one (Window.mkValidator 2 1 (<[0%nat := 3]> (replicate 16 0))));
      [done|vm_compute; reflexivity|vm_compute; reflexivity|done|rewrite L1; lia|].
    cbn. apply chacha_open_seal.
Qed.

Lemma crossed_form a b : crossed a b ->
  a = Transport.new (Transport.receiving_index a) (Transport.sending_index a) (Transport.receiver a) (Transport.sender a) /\
  b = Transport.new (Transport.sending_index a) (Transport.receiving_index a) (Transport.sender a) (Transport.receiver a).
Proof. intros [Eb Ea]. split; [|done]. rewrite Eb in Ea. exact Ea. Qed.

(** How a complete IP packet is handed to the tunnel interface. *)
Definition to_tunnel (packet : bytes) (src : IpAddr) : TunnResult :=
  match src with IpV4 a => WriteToTunnelV4 packet a | IpV6 a => WriteToTunnelV6 packet a end.

Lemma validate_complete pkt ip t w : ip_header pkt = Some (length pkt, ip) ->
  exists t', validate_decapsulated_packet pkt t w = Ok (to_tunnel pkt ip) t' w.
Proof.
  intros Hip. unfold validate_decapsulated_packet.
  rewrite bool_decide_eq_false_2 by (intros ->; discriminate Hip).
  rewrite Hip, Nat.ltb_irrefl. edestruct (timer_tick_eq TimeLastDataPacketReceived) as [f Ef].
  unfold bind. rewrite Ef. cbn [modify ret]. rewrite firstn_all. eexists. by destruct ip.
Qed.

Lemma in_tunn_eq {A} (m : M WireGuardError Tunn A) s w r t w' :
  m (tunn s) w = Ok r t w' -> in_tunn m s w = Ok r (mkProcess t (heap s)) w'.
Proof. intros E. unfold in_tunn, zoom. by rewrite E. Qed.

(** The session just stored is found. *)
Lemma stored f c j x t : length (sessions t) = Z.to_nat N_SESSIONS ->
  session_in (slot j) (on_timers f (set_current c (set_session (slot j) x t))) = x.
Proof.
  intros L. change (session_in (slot j) (set_session (slot j) x t) = x).
  rewrite session_in_set by (rewrite L; apply slot_lt). by rewrite decide_True.
Qed.

Lemma stored_responder f j x t : length (sessions t) = Z.to_nat N_SESSIONS ->
  session_in (slot j) (on_timers f (set_session (slot j) x t)) = x.
Proof. intros L. by apply (stored f 0 j x t). Qed.

(** A tunnel that can start a conversation with its peer. *)
Record idle (s : Process) : Prop := {
  idle_state : state (handshake (tunn s)) = HsNone;
  idle_session : session_in (slot (current (tunn s))) (tunn s) = None;
  idle_queue : packet_queue (tunn s) = [];
  idle_ring : length (sessions (tunn s)) = Z.to_nat N_SESSIONS;
}.

(** The first two data messages of a fresh session, an empty one and a packet,
    arrive at the responder. *)
Lemma first_delivery B sa sb pkt ip addr d5 d6 w5 w6 :
  crossed sa sb -> is_u32 (Transport.receiving_index sb) -> is_u32 (Transport.sending_index sb) ->
  session_in (slot (Transport.receiving_index sb)) (tunn B) = Some sb ->
  length (sessions (tunn B)) = Z.to_nat N_SESSIONS -> is_Some (heap B !! rate_limiter (tunn B)) ->
  ip_header pkt = Some (length pkt, ip) -> fits d5 pkt -> fits d6 pkt ->
  exists B2 B3,
    decapsulate addr (encode (PPacketData (data_message sa [])) []) d5 B w5 = Ok Done B2 w5 /\
    decapsulate addr (encode (PPacketData (data_message (advance sa) pkt)) []) d6 B2 w6 =
      Ok (to_tunnel pkt ip) B3 w6.
Proof.
  intros Cr Ui Uj S1 LB HB Hip F5 F6. apply crossed_form in Cr as [Ea Eb].
  set (i := Transport.receiving_index sa) in *. set (j := Transport.sending_index sa) in *.
  set (k1 := Transport.sender sa) in *. set (k2 := Transport.receiver sa) in *.
  unfold fits, DATA_OVERHEAD_SZ in *.
  assert (Ui' : is_u32 i) by (by rewrite Eb in Uj). assert (Uj' : is_u32 j) by (by rewrite Eb in Ui).
  assert (Ej : Transport.receiving_index sb = j) by (by rewrite Eb). rewrite Ej in S1.
  destruct (first_packets i j k1 k2 pkt d5 w5) as (W0 & W1 & I0 & I1 & R0 & _); [done|done|lia|].
  destruct (first_packets i j k1 k2 pkt d6 w6) as (_ & _ & _ & _ & _ & b2 & R1); [done|done|lia|].
  rewrite <- Ea, <- Eb in *.
  destruct (decapsulate_data addr (data_message sa []) d5 B w5) as (B1 & EB1 & HB1 & E5); [done|done|].
  destruct (handle_data_packet_eq (data_message sa []) d5 (tunn B1) w5 sb []
    (Transport.set_receiving_key_counter received_one sb)) as (f5 & c5 & E5');
    [by rewrite I0, EB1|exact R0|]. rewrite I0 in E5'.
  set (b1s := Transport.set_receiving_key_counter received_one sb) in *.
  set (t5 := on_timers f5 _) in E5'.
  change (handle_verified_packet (PPacketData (data_message sa [])) d5 (tunn B1) w5 = Ok Done t5 w5) in E5'.
  apply (in_tunn_eq (handle_verified_packet _ d5) B1) in E5'. rewrite E5' in E5.
  set (B2 := mkProcess _ _) in E5.
  destruct (decapsulate_data addr (data_message (advance sa) pkt) d6 B2 w6) as (B2' & EB2 & _ & E6);
    [exact HB1|done|].
  destruct (handle_data_packet_eq (data_message (advance sa) pkt) d6 (tunn B2') w6 b1s pkt b2)
    as (f6 & c6 & E6'); [|exact R1|].
  { rewrite I1, EB2. apply stored. by rewrite EB1. }
  edestruct (validate_complete pkt ip) as (t6 & E6''); [exact Hip|].
  rewrite E6'' in E6'. apply (in_tunn_eq (handle_verified_packet _ d6) B2') in E6'. rewrite E6' in E6.
  by exists B2; eexists.
Qed.

(** C1. End to end: between two tunnels configured for each other, of which the
    first has no session yet, the packet given to [encapsulate] starts a
    handshake of the build's kind; the four datagrams that follow, each the
    result of one call handed to the other side, end with that very packet
    delivered to the second tunnel's interface under its source address. *)
Theorem end_to_end_delivery A B pkt ip ip_a ip_b wa wb wa' wa'' wb' wb'' d1 d2 d3 d4 d5 d6 :
  let a := handshake (tunn A) in
  let b := handshake (tunn B) in
  paired a b -> is_u32 (next_index a) -> is_u32 (next_index b) ->
  stamp_time (stamper a) wa < MAX_DURATION -> stamp_fresh a wa b ->
  idle A -> length (sessions (tunn B)) = Z.to_nat N_SESSIONS -> admits A b -> admits B a ->
  ip_header pkt = Some (length pkt, ip) ->
  Forall (fun d => roomy d /\ fits d pkt) [d1; d2; d3; d4; d5; d6] ->
  exists m1 A1 w1 m2 B1 w2 m3 A2 w3 m4 A3 B2 B3,
    perform (Encapsulate pkt d1) A wa = Ok (WriteToNetwork m1) A1 w1 /\
    perform (Decapsulate ip_a m1 d2) B wb = Ok (WriteToNetwork m2) B1 w2 /\
    perform (Decapsulate ip_b m2 d3) A1 wa' = Ok (WriteToNetwork m3) A2 w3 /\
    perform (Decapsulate ip_b [] d4) A2 wa'' = Ok (WriteToNetwork m4) A3 wa'' /\
    perform (Decapsulate ip_a m3 d5) B1 wb' = Ok Done B2 wb' /\
    perform (Decapsulate ip_a m4 d6) B2 wb'' = Ok (to_tunnel pkt ip) B3 wb'' /\
    packet_queue (tunn A3) = [].
Proof.
  intros a b P Ia Ib Ht Hf [Ist Ise Iq Ir] LB Aa Ab Hip HF.
  repeat match goal with HF : Forall _ (_ :: _) |- _ => apply Forall_cons_iff in HF as [[? ?] HF] end. clear HF.
  destruct (exchange a b wa wb d1 d2) as (a1 & w1 & p & sb & b1 & w2 & q & Fi & Sp & Fa & Sq & Pa & Pb & Ui & Uj & R);
    [done..|].
  (* 1: the packet is queued and the initiation goes out *)
  destruct (encapsulate_starts pkt d1 (tunn A) wa _ _ _ Ise Ist ltac:(rewrite Iq; unfold MAX_QUEUE_DEPTH; cbn; lia) Fi) as [f1 E1].
  apply (in_tunn_eq (encapsulate pkt d1) A) in E1. set (A1 := mkProcess _ _) in E1.
  (* 2: it is answered *)
  destruct (decapsulate_sealed ip_a a p d2 B wb Ab Sp) as (B0 & EB0 & HB0 & E2).
  assert (Fa' : answer p d2 (handshake (tunn B0)) wb = Ok (sealed b q, sb) b1 w2) by (by rewrite EB0).
  destruct (handle_init_eq p d2 (tunn B0) wb _ _ _ _ Fa') as [f2 E2'].
  apply (in_tunn_eq (handle_verified_packet p d2) B0) in E2'. rewrite E2' in E2. clear E2' Fa'.
  set (B1 := mkProcess _ _) in E2.
  (* 3: the response completes the handshake *)
  destruct (R wa') as (sa & a2 & Fc & Cr).
  destruct (decapsulate_sealed ip_b b q d3 A1 wa') as (A1' & EA1 & _ & E3); [exact Aa|done|].
  assert (Fc' : complete q (handshake (tunn A1')) wa' = Ok sa a2 (tick wa')) by (by rewrite EA1).
  destruct (handle_resp_eq q d3 (tunn A1') wa' _ _ _ Fc') as [f3 E3'];
    [by rewrite EA1|by rewrite EA1|unfold fits in *; lia|].
  apply (in_tunn_eq (handle_verified_packet q d3) A1') in E3'. rewrite E3' in E3. clear E3' Fc'.
  set (A2 := mkProcess _ _) in E3.
  (* 4: the queued packet follows *)
  destruct (send_queued_sends pkt [] d4 (tunn A2) wa'' (advance sa)) as (f4 & n4 & E4);
    [cbn; rewrite EA1; cbn; by rewrite Iq| |done|].
  { apply stored. by rewrite EA1. }
  apply (in_tunn_eq (send_queued_packet d4) A2) in E4. set (A3 := mkProcess _ _) in E4.
  (* 5 and 6: the keepalive and the packet arrive *)
  destruct (first_delivery B1 sa sb pkt ip ip_a d5 d6 wb' wb'') as (B2 & B3 & E5 & E6);
    [done|done|done|apply stored_responder; by rewrite EB0|cbn; by rewrite length_insert, EB0|done|done|done|done|].
  eexists _, A1, _, _, B1, _, _, A2, _, _, A3, B2, B3.
  split_and!; [exact E1|exact E2|exact E3| |exact E5|exact E6|done].
  cbn [perform]. unfold decapsulate. by rewrite bool_decide_eq_true_2.
Qed.

(** ** The queue *)

(** The loop the documentation of [decapsulate] asks of the caller: repeat the
    call with an empty datagram until it returns [Done]. *)
Fixpoint drain (fuel : nat) (dst : bytes) (s : Process) (w : World) : option (list bytes * Process) :=
  match fuel with
  | O => None
  | S fuel =>
      match perform (Decapsulate None [] dst) s w with
      | Ok (WriteToNetwork m) s w => '(ms, s) ← drain fuel dst s w; Some (m :: ms, s)
      | Ok Done s w => Some ([], s)
      | _ => None
      end
  end.

(** The messages a session makes of a sequence of packets. *)
Fixpoint stream (s : Transport.Session) (ps : list bytes) : list bytes :=
  match ps with
  | [] => []
  | p :: ps => encode (PPacketData (data_message s p)) [] :: stream (advance s) ps
  end.

Lemma perform_empty addr dst s w : perform (Decapsulate addr [] dst) s w = in_tunn (send_queued_packet dst) s w.
Proof. cbn [perform]. unfold decapsulate. by rewrite bool_decide_eq_true_2. Qed.

(** The queue drains: once a session is current, the caller's loop sends every
    queued packet exactly once, in order, under consecutive counters, and ends
    after one call per packet and one more. *)
Theorem queue_drains_in_order dst s w session :
  session_in (slot (current (tunn s))) (tunn s) = Some session ->
  length (sessions (tunn s)) = Z.to_nat N_SESSIONS -> Forall (fits dst) (packet_queue (tunn s)) ->
  exists s', drain (S (length (packet_queue (tunn s)))) dst s w =
    Some (stream session (packet_queue (tunn s)), s') /\ packet_queue (tunn s') = [].
Proof.
  remember (packet_queue (tunn s)) as q eqn:Eq. revert s w session Eq.
  induction q as [|p q IH]; intros s w session Eq Hs L Hf; cbn [length drain stream]; rewrite perform_empty.
  - unfold in_tunn, zoom, send_queued_packet, dequeue_packet. step. rewrite <- Eq. step.
    eexists. split; [done|]. cbn. by symmetry.
  - apply Forall_cons_iff in Hf as [Hp Hf].
    destruct (send_queued_sends p q dst (tunn s) w session (eq_sym Eq) Hs Hp) as (f & n & E).
    rewrite (in_tunn_eq _ _ _ _ _ _ E). set (s1 := mkProcess _ _).
    destruct (IH s1 w (advance session)) as (s' & D & Q); [done| |by cbn; rewrite length_insert|done|].
    { change (session_in (slot (current (tunn s))) (set_session (slot (current (tunn s)))
        (Some (advance session)) (set_packet_queue q (tunn s))) = Some (advance session)).
      rewrite session_in_set by (cbn; rewrite L; apply slot_lt). by rewrite decide_True. }
    cbn [length drain] in D. rewrite D. by exists s'.
Qed.

(** The size of the build's initiation. *)
Definition initiation_size : nat := if pq then PQ_HANDSHAKE_INIT_SZ else HANDSHAKE_INIT_SZ.

Lemma initiate_small dst h w : (length dst < initiation_size)%nat ->
  initiate dst h w = Fail DestinationBufferTooSmall h w.
Proof.
  unfold initiate, initiation_size, format_pq_handshake_initiation, Handshake.format_handshake_initiation.
  intros L. destruct pq; by rewrite bool_decide_eq_true_2.
Qed.

(** A failed attempt to send a queued packet duplicates it: without a session
    and with a buffer too small for the initiation, the packet goes to the back
    of the queue, when [encapsulate] queues it, and to its front, when
    [send_queued_packet] puts it back; the caller sees [Done]. *)
Theorem failed_send_duplicates p rest dst t w :
  session_in (slot (current t)) t = None -> state (handshake t) = HsNone ->
  packet_queue t = p :: rest -> (length rest + 1 < MAX_QUEUE_DEPTH)%nat ->
  (length dst < initiation_size)%nat ->
  exists t', send_queued_packet dst t w = Ok Done t' w /\ packet_queue t' = p :: rest ++ [p].
Proof.
  intros Hn Hh Hq Hl Hd. unfold send_queued_packet, dequeue_packet. unfold bind at 1. unfold bind at 1.
  cbn [get]. rewrite Hq. unfold bind at 1. cbn [modify ret]. unfold bind at 1, encapsulate. unfold bind at 1.
  cbn [get]. set (t1 := set_packet_queue rest t). change (session_in (slot (current t1)) t1)
    with (session_in (slot (current t)) t). rewrite Hn. unfold bind at 1, queue_packet. unfold bind at 1.
  cbn [get]. rewrite (proj2 (Nat.ltb_lt _ _)) by (cbn; lia). cbn [modify].
  unfold format_handshake_initiation. unfold bind at 1. cbn [get].
  set (t2 := set_packet_queue _ t1). change (handshake t2) with (handshake t).
  assert (E1 : is_in_progress (handshake t) = false) by (unfold is_in_progress; by rewrite Hh).
  assert (E2 : is_expired (handshake t) = false) by (unfold is_expired; by rewrite Hh).
  rewrite E1, E2. cbn [andb negb]. unfold bind at 1. cbn [ret]. cbn zeta. fold (initiate dst).
  unfold bind at 1, attempt, zoom. rewrite initiate_small by done. cbn [ret].
  unfold bind, requeue_packet. unfold bind. cbn [get].
  rewrite (proj2 (Nat.ltb_lt _ _)) by (cbn; rewrite length_app; cbn; lia). cbn [modify ret].
  eexists. split; [done|]. done.
Qed.

(** ** Validation of decapsulated packets *)

(** C19. Only what the header announces is delivered: on every plaintext the
    validation returns [Done] for a keepalive, delivers exactly the prefix of
    the length in the IPv4 or IPv6 header, with the source address of that
    header, and otherwise refuses the packet and changes nothing. *)
Theorem validate_decapsulated_packet_spec p t w :
  match validate_decapsulated_packet p t w with
  | Ok Done t' w' => p = [] /\ t' = t /\ w' = w
  | Ok (Err e) t' w' => e = InvalidPacket /\ t' = t /\ w' = w /\
      match ip_header p with None => True | Some (n, _) => (length p < n)%nat end
  | Ok (WriteToTunnelV4 q a) t' _ => exists rest, p = q ++ rest /\
      (IPV4_MIN_HEADER_SIZE <= length p)%nat /\ ip_version p = 4 /\
      Z.of_nat (length q) = from_be (sub 2 4 p) /\ a = sub 12 16 p /\
      rx_bytes t' = u64 (rx_bytes t + Z.of_nat (length q))
  | Ok (WriteToTunnelV6 q a) t' _ => exists rest, p = q ++ rest /\
      (IPV6_MIN_HEADER_SIZE <= length q)%nat /\ ip_version p = 6 /\
      Z.of_nat (length q) = from_be (sub 4 6 p) + 40 /\ a = sub 8 24 p /\
      rx_bytes t' = u64 (rx_bytes t + Z.of_nat (length q))
  | _ => False
  end.
Proof.
  unfold validate_decapsulated_packet. case_bool_decide as Hp; [done|].
  destruct (ip_header p) as [[n a]|] eqn:Eh; [|done].
  destruct (Nat.ltb_spec (length p) n) as [Hn|Hn]; [by cbn|].
  destruct (timer_tick_eq TimeLastDataPacketReceived t w) as [f Ef]. unfold bind. rewrite Ef. cbn [modify ret].
  assert (Lt : length (take n p) = n) by len.
  unfold ip_header in Eh. destruct (_ && _) eqn:E4.
  - injection Eh as <- <-. apply andb_prop in E4 as [Ev El]. exists (drop (Z.to_nat (from_be (sub 2 4 p))) p).
    rewrite take_drop, Lt. apply Nat.leb_le in El. apply Z.eqb_eq in Ev.
    split_and!; [done|done|done| |done|done]. rewrite Z2Nat.id by apply from_be_range. done.
  - clear E4. destruct (_ && _) eqn:E6; [|discriminate Eh]. injection Eh as <- <-. apply andb_prop in E6 as [Ev El].
    exists (drop (Z.to_nat (from_be (sub 4 6 p)) + 40) p).
    rewrite take_drop, Lt. apply Z.eqb_eq in Ev. unfold IPV6_MIN_HEADER_SIZE.
    split_and!; [done|lia|done| |done|done]. rewrite Nat2Z.inj_add, Z2Nat.id by apply from_be_range. done.
Qed.

End Properties.

(** ** Concrete runs *)

Module Example.
Import HandshakeProps.Example TunnelSafety.Example.
#[local] Existing Instances pq_build Toy.crypto Toy.laws env env_clock.

(** An IPv4 packet of 24 bytes from 192.0.2.1 to 192.0.2.9. *)
Definition ping : bytes := bytes_of
  [69; 0; 0; 24; 0; 0; 0; 0; 64; 1; 0; 0; 192; 0; 2; 1; 192; 0; 2; 9; 8; 0; 0; 0].

Lemma end_to_end_delivery_witness : exists m A B r,
  perform (Decapsulate None m (zeros 1400)) A w0 = Ok r B w0 /\
  r = WriteToTunnelV4 ping (bytes_of [192; 0; 2; 1]).
Proof.
  destruct (end_to_end_delivery (process alice fresh_timers) (process bob fresh_timers) ping (IpV4 (bytes_of [192; 0; 2; 1])) None None
    w0 w0 w0 w0 w0 w0 (zeros 1400) (zeros 1400) (zeros 1400) (zeros 1400) (zeros 1400) (zeros 1400))
    as (m1 & A1 & w1 & m2 & B1 & w2 & m3 & A2 & w3 & m4 & A3 & B2 & B3 & _ & _ & _ & _ & _ & E & _).
  - by_computation.
  - by_computation.
  - by_computation.
  - by_computation.
  - by_computation.
  - by_computation.
  - reflexivity.
  - exists (limiter_of alice). by_computation.
  - exists (limiter_of bob). by_computation.
  - by_computation.
  - repeat constructor; unfold roomy, fits; vm_compute; lia.
  - eexists _, _, _, _. split; [exact E|reflexivity].
Defined.

(** The same tunnel with a session and a queue. *)
Definition loaded (x : option Transport.Session) (q : list bytes) : Process :=
  mkProcess (set_packet_queue q (set_session 0 x (tunn (process alice fresh_timers))))
    (heap (process alice fresh_timers)).
Definition some_session : Transport.Session := Transport.new 256 7 (zeros 32) (zeros 32).

Lemma queue_drains_in_order_witness : exists s',
  drain 3 (zeros 100) (loaded (Some some_session) [ping; []]) w0 =
    Some (stream some_session [ping; []], s') /\ packet_queue (tunn s') = [].
Proof.
  apply (queue_drains_in_order (zeros 100) (loaded (Some some_session) [ping; []]) w0 some_session);
    [reflexivity|reflexivity|].
  repeat constructor; unfold fits; vm_compute; lia.
Defined.

Lemma failed_send_duplicates_witness : exists t',
  send_queued_packet (zeros 40) (tunn (loaded None [ping])) w0 = Ok Done t' w0 /\
  packet_queue t' = [ping; ping].
Proof.
  apply (failed_send_duplicates ping [] (zeros 40)); [reflexivity|by_computation|reflexivity|by_computation..].
Defined.

End Example.
