(* ===== verification/TimerProps.v ===== *)
(** * What the timers of a tunnel do

    The expiry of sessions and of connections, and the policy by which an idle
    tunnel starts a handshake, sends a keepalive or stays silent. *)

From S2P Require Import Prelude Packet Crypto Session Instant Handshake NoiseSpec HandshakeSpec.
From S2P Require Import HandshakeProps HandshakeSafety RateLimiter Timers Tunnel TunnelSafety TunnelProps.

Section Expiry.
Context `{Features, Crypto, Env, !CryptoLaws, !MonotoneClock}.

(** ** The loop over the sessions *)

Definition expired_at (n : Z) (i : nat) (t : Tunn) : Tunn :=
  if REJECT_AFTER_TIME <? n - session_time i (tn_timers t)
  then on_timers (set_session_time i n) (set_session i None t) else t.

Lemma expire_session_eq n i t w : session_time i (tn_timers t) <= n ->
  expire_session n i t w = Ok tt (expired_at n i t) w.
Proof.
  intros L. unfold expire_session, dur_sub, expired_at. step. rewrite (proj2 (Z.leb_le _ _) L). step.
  by destruct (_ <? _).
Qed.

Lemma nth_insert_ne (l : list Z) i j x : i <> j -> nth j (<[i := x]> l) 0 = nth j l 0.
Proof.
  revert i j. induction l as [|y l IH]; intros [|i] [|j] Hij; try done. cbn. apply IH. lia.
Qed.

Lemma session_in_cases i j x t s :
  session_in j (set_session i x t) = Some s -> (i = j /\ x = Some s) \/ (i <> j /\ session_in j t = Some s).
Proof.
  unfold session_in, set_session. cbn. intros Hs. destruct (decide (i = j)) as [->|Hij].
  - destruct (decide (j < length (sessions t))%nat).
    + left. split; [done|]. by rewrite list_lookup_insert_eq in Hs.
    + rewrite list_insert_ge, lookup_ge_None_2 in Hs by lia. done.
  - right. split; [done|]. by rewrite list_lookup_insert_ne in Hs.
Qed.

(** The loop over the slots [l]: the sessions that are left were there, and no
    older than [REJECT_AFTER_TIME] in a slot of [l]. *)
Lemma expire_all n l : forall t w, NoDup l ->
  (forall i, i ∈ l -> session_time i (tn_timers t) <= n) ->
  exists t' st, for_each (expire_session n) l t w = Ok tt t' w /\ handshake t' = handshake t /\
    tn_timers t' = set_session_timers st (tn_timers t) /\
    forall j s, session_in j t' = Some s -> session_in j t = Some s /\
      (j ∈ l -> n - session_time j (tn_timers t) <= REJECT_AFTER_TIME).
Proof.
  induction l as [|i l IH]; intros t w ND Hl; cbn [for_each].
  { exists t, (session_timers (tn_timers t)). split_and!; [done|done|by destruct (tn_timers t)|]. intros j s Hj. split; [done|]. by intros ?%not_elem_of_nil. }
  apply list.NoDup_cons in ND as [Hi ND].
  unfold bind. rewrite expire_session_eq by (apply Hl; left).
  assert (Hst : forall j, j ∈ l -> session_time j (tn_timers (expired_at n i t)) = session_time j (tn_timers t)).
  { intros j Hj. unfold expired_at. destruct (_ <? _); [|done]. apply nth_insert_ne. by intros ->. }
  destruct (IH (expired_at n i t) w ND) as (t' & st & E & Hh & Ht & Hs).
  { intros j Hj. rewrite Hst by done. apply Hl. by right. }
  exists t', st. rewrite E, Hh, Ht. split_and!; [done|unfold expired_at; by destruct (_ <? _)..|].
  intros j s Hj. destruct (Hs j s Hj) as [Hj' Hage]. unfold expired_at in Hj'.
  destruct (Z.ltb_spec REJECT_AFTER_TIME (n - session_time i (tn_timers t))) as [Hold|Hyoung].
  - apply session_in_cases in Hj' as [[_ ?]|[Hne Hj']]; [done|]. split; [done|].
    intros [->|Hin]%elem_of_cons; [done|]. rewrite <- Hst by done. by apply Hage.
  - split; [done|]. intros [->|Hin]%elem_of_cons; [done|]. rewrite <- Hst by done. by apply Hage.
Qed.

Section Survivors.
Variable P : nat -> Prop.
Definition only (t : Tunn) : Prop := forall j s, session_in j t = Some s -> P j.

Lemma only_timer_tick n : preserves only (timer_tick n).
Proof. unfold timer_tick. keeps; done. Qed.
Lemma only_clear_timers : preserves only clear_timers.
Proof. unfold clear_timers. keeps; done. Qed.
#[local] Hint Resolve only_timer_tick only_clear_timers : keeps.
Lemma only_initiation dst f : preserves only (format_handshake_initiation dst f).
Proof. unfold format_handshake_initiation. keeps; done. Qed.
Lemma only_clear_all : preserves only clear_all.
Proof.
  unfold clear_all. keeps. intros _ j x Hj. unfold session_in in Hj. cbn in Hj.
  rewrite list_lookup_fmap in Hj. by destruct (sessions _ !! j).
Qed.
Lemma only_queue p : preserves only (queue_packet p).
Proof. unfold queue_packet. keeps; done. Qed.
#[local] Hint Resolve only_initiation only_clear_all only_queue : keeps.
Lemma only_encapsulate src dst : preserves only (encapsulate src dst).
Proof.
  intros t w Ht. unfold encapsulate. unfold bind at 1. cbn [get].
  destruct (session_in _ t) as [session|] eqn:Es.
  - unfold bind at 1, zoom. pose proof (Ht _ _ Es) as Hp.
    assert (Hs : forall s', only (set_session (slot (current t)) (Some s') t)).
    { intros s' j s Hj. apply session_in_cases in Hj as [[<- _]|[_ Hj]]; [done|by eapply Ht]. }
    destruct (Transport.format_packet_data _ _ _ _) as [pkt s' w'|e s' w'|]; [|done..].
    cbv beta. lazymatch goal with |- context [?m (set_session ?i ?x ?t) ?w] =>
      enough (preserves only m) as Hm by apply (Hm _ _ (Hs s')) end.
    keeps; done.
  - assert (preserves only (queue_packet src;; format_handshake_initiation dst false)) as Hm by keeps.
    by apply Hm.
Qed.
#[local] Hint Resolve only_encapsulate : keeps.
Lemma only_idle n x : preserves only (idle_timers n x).
Proof.
  unfold idle_timers, and_then, elapsed, dur_sub, take_want_handshake, take_want_keepalive. keeps; done.
Qed.
#[local] Hint Resolve only_idle : keeps.

End Survivors.

Lemma only_impl (P Q : nat -> Prop) t : (forall j, P j -> Q j) -> only P t -> only Q t.
Proof. intros Hi Ht j s Hj. apply Hi. by eapply Ht. Qed.

(** What [update_tunn] leaves in the ring was there, and young. *)
Definition young (n : Z) (t : Tunn) (j : nat) : Prop :=
  session_in j t <> None /\ n - session_time j (tn_timers t) <= REJECT_AFTER_TIME.

Lemma update_tunn_survivors time dst t w :
  let n := duration_since time (time_started (tn_timers t)) in
  length (sessions t) = Z.to_nat N_SESSIONS -> bounded n (tn_timers t) ->
  match update_tunn time dst t w with
  | Ok _ t' _ | Fail _ t' _ => only (young n t) t'
  | Panic => True
  end.
Proof.
  intros n L Hb. unfold update_tunn. unfold bind at 1. cbn [get]. fold n. cbn zeta.
  unfold bind at 1. cbn [modify]. set (t1 := on_timers _ t).
  destruct (expire_all n (seq 0 (Z.to_nat N_SESSIONS)) t1 w) as (t2 & st & E & _ & _ & Hs).
  { apply NoDup_ListNoDup, seq_NoDup. }
  { intros i _. change (session_time i (tn_timers t) <= n). apply session_time_bounded; [unfold n, duration_since; lia|done]. }
  unfold bind at 1, update_session_timers. rewrite E.
  assert (H2' : only (young n t) t2).
  { intros j s Hj. destruct (Hs j s Hj) as [Hj1 Ha]. split; [change (session_in j t) with (session_in j t1); by rewrite Hj1|].
    apply Ha, elem_of_seq. unfold session_in in Hj1. destruct (sessions t1 !! j) eqn:El; [|done].
    apply lookup_lt_Some in El. change (sessions t1) with (sessions t) in El. lia. }
  unfold bind at 1. cbn [get]. cbn zeta.
  lazymatch goal with |- context [?m t2 w] =>
    enough (preserves (only (young n t)) m) as Hm by apply (Hm _ _ H2') end.
  clear. unfold and_then, elapsed, dur_sub. pose proof only_encapsulate. pose proof only_idle.
  pose proof only_clear_all. pose proof only_initiation. keeps; done.
Qed.


(** ** The clock reading and the limiter *)

Lemma update_timers_tunn dst s w : is_Some (heap s !! rate_limiter (tunn s)) ->
  exists s1 w1, tunn s1 = tunn s /\ (ticks w < ticks w1)%nat /\
    update_timers dst s w = in_tunn (update_tunn (clock (ticks w)) dst) s1 w1.
Proof.
  intros [l Hl]. unfold update_timers. unfold bind at 1. cbn [now]. unfold bind at 1. cbn [get].
  destruct (should_reset_rr _); [|eexists _, _; split_and!; [done| |reflexivity]; cbn; lia].
  unfold bind at 1, with_limiter, zoom. rewrite Hl.
  destruct (reset_count_eq (E:=WireGuardError) l (tick w)) as (l' & El). unfold tick in El. rewrite El.
  eexists _, _. split_and!; [| |reflexivity]; [done|cbn; lia].
Qed.

Variable peer : Z.

(** C13. Keys do not outlive [REJECT_AFTER_TIME]: [update_timers] returns, and every
    session it leaves in the ring was there before and was established at most
    180 seconds ago. *)
Theorem sessions_expire mtu dst s w :
  pinv peer mtu s w -> (DATA_OVERHEAD_SZ <= length dst)%nat ->
  exists r s' w', update_timers dst s w = Ok r s' w' /\
    forall j x, session_in j (tunn s') = Some x -> session_in j (tunn s) <> None /\
      uptime (tn_timers (tunn s)) w - session_time j (tn_timers (tunn s)) <= REJECT_AFTER_TIME.
Proof.
  intros Hp L. pose proof (ok_update_timers peer mtu dst s w Hp L) as Hk.
  pose proof (nofail_perform (UpdateTimers dst) s w) as Hn. cbn [perform] in Hn.
  destruct Hp as ((_ & [Lr _] & Hb & _) & Ha & _).
  destruct (update_timers_tunn dst s w Ha) as (s1 & w1 & Et & _ & E). rewrite E in *.
  pose proof (update_tunn_survivors (clock (ticks w)) dst (tunn s) w1 Lr Hb) as Hs.
  unfold in_tunn, zoom in *. rewrite Et in *.
  destruct (update_tunn _ _ _ _) as [r t' w'|e t' w'|]; [|done..].
  eexists _, _, _. split; [done|]. exact Hs.
Qed.

(** ** The course of a call on a live connection *)

(** The conditions for a new handshake and for a keepalive. *)
Definition wants_handshake (n : Z) (t : Timers) : bool :=
  let est := time_of TimeSessionEstablished t in
  let received := time_of TimeLastPacketReceived t in
  is_initiator t && (est <? time_of TimeLastDataPacketSent t) && (REKEY_AFTER_TIME <=? n - est)
  || is_initiator t && (est <? time_of TimeLastDataPacketReceived t)
     && (REJECT_AFTER_TIME - KEEPALIVE_TIMEOUT - REKEY_TIMEOUT <=? n - est)
  || (received <? time_of TimeLastDataPacketSent t)
     && (KEEPALIVE_TIMEOUT + REKEY_TIMEOUT <=? n - received) && want_handshake t.

Definition wants_keepalive (n : Z) (t : Timers) : bool :=
  let sent := time_of TimeLastPacketSent t in
  (sent <? time_of TimeLastDataPacketReceived t) && (KEEPALIVE_TIMEOUT <=? n - sent) && want_keepalive t
  || (0 <? persistent_keepalive t)
     && (from_secs (persistent_keepalive t) <=? n - time_of TimePersistentKeepalive t).

Lemma and_then_elapsed_eq b n x limit (t : Tunn) w : x <= n ->
  and_then (E:=WireGuardError) b (elapsed n x limit) t w = Ok (b && (limit <=? n - x)) t w.
Proof. intros L. destruct b; [by apply elapsed_eq|done]. Qed.

Lemma on_timers_id t : on_timers id t = t.
Proof. by destruct t. Qed.

(** A flag that is read and reset only if it is reached. *)
Lemma take_flag_eq b n x limit flag (m : M WireGuardError Tunn bool) g t w : x <= n ->
  m t w = Ok flag (on_timers g t) w ->
  exists f, (f = id \/ f = g) /\
    and_then b (late <- elapsed n x limit;; and_then late m) t w =
    Ok (b && (limit <=? n - x) && flag) (on_timers f t) w.
Proof.
  intros L Hm. destruct b; cbn [and_then andb]; [|exists id; split; [by left|by rewrite on_timers_id]].
  unfold bind. rewrite elapsed_eq by done. destruct (limit <=? _); cbn [and_then andb].
  - exists g. split; [by right|done].
  - exists id. split; [by left|by rewrite on_timers_id].
Qed.

Lemma idle_timers_eq n t w : (forall x, time_of x (tn_timers t) <= n) ->
  let T := tn_timers t in
  exists f, idle_timers n T t w =
    Ok (wants_handshake n T, negb (wants_handshake n T) && wants_keepalive n T) (on_timers f t) w.
Proof.
  intros L T. unfold idle_timers. unfold bind at 1. rewrite and_then_elapsed_eq by apply L. fold T.
  unfold bind at 1.
  lazymatch goal with |- context [and_then ?b ?m t w] => assert (E2 : and_then b m t w = Ok (b &&
    (REJECT_AFTER_TIME - KEEPALIVE_TIMEOUT - REKEY_TIMEOUT <=? n - time_of TimeSessionEstablished T)) t w)
    by (destruct b; [exact (elapsed_eq n _ _ t w (L _))|done]) end.
  rewrite E2. clear E2.
  destruct (take_flag_eq (time_of TimeLastPacketReceived T <? time_of TimeLastDataPacketSent T) n _
    (KEEPALIVE_TIMEOUT + REKEY_TIMEOUT) (want_handshake T) take_want_handshake (set_want_handshake false) t w
    (L TimeLastPacketReceived) eq_refl) as (f & Hf & E3).
  unfold bind at 1. fold T in E3. rewrite E3. clear E3.
  lazymatch goal with |- context [if ?b then ret (true, false) else _] => change b with (wants_handshake n T) end.
  destruct (wants_handshake n T); [by exists f|]. cbn [negb andb].
  assert (Hk : want_keepalive (f T) = want_keepalive T) by (by destruct Hf as [-> | ->]).
  assert (Hp : forall x, time_of x (f T) = time_of x T) by (by destruct Hf as [-> | ->]).
  destruct (take_flag_eq (time_of TimeLastPacketSent T <? time_of TimeLastDataPacketReceived T) n _
    KEEPALIVE_TIMEOUT (want_keepalive (f T)) take_want_keepalive (set_want_keepalive false) (on_timers f t) w
    (L TimeLastPacketSent) eq_refl) as (g & Hg & E4).
  fold T in E4. unfold bind at 1. rewrite E4, Hk. clear E4. rewrite on_timers_comp.
  lazymatch goal with |- context [and_then ?b ?m] => assert (E5 : forall u, u = on_timers (fun x => g (f x)) t ->
    and_then b m u w = Ok (b &&
    (from_secs (persistent_keepalive T) <=? n - time_of TimePersistentKeepalive T)) u w) end.
  { intros u ->. destruct (0 <? _); [|done]. cbn [and_then]. unfold bind. cbn [get].
    assert (Hgf : time_of TimePersistentKeepalive (g (f T)) = time_of TimePersistentKeepalive T)
      by (rewrite <- Hp; by destruct Hg as [-> | ->]).
    cbn [tn_timers on_timers set_tn_timers]. fold T. rewrite Hgf. by apply elapsed_eq. }
  unfold bind at 1. rewrite E5 by done.
  lazymatch goal with |- context [ret (false, ?b)] => change b with (wants_keepalive n T) end.
  unfold bind. destruct (_ && _); cbn [ret]; [|by eexists].
  edestruct (timer_tick_eq TimePersistentKeepalive) as [h ->].
  rewrite on_timers_comp. by eexists.
Qed.

(** [update_tunn] from where the stale cookie is gone. *)
Definition expire : M WireGuardError Tunn TunnResult :=
  modify (fun s => set_handshake (set_expired (handshake s)) s);; clear_all;; ret (Err ConnectionExpired).

Definition live (n : Z) (dst : bytes) (t : Tunn) (w : World) : outcome WireGuardError Tunn TunnResult :=
  let T := tn_timers t in
  if REJECT_AFTER_TIME * 3 <=? n - time_of TimeSessionEstablished T then expire t w else
  match timer (handshake t) with
  | Some sent =>
      if REKEY_ATTEMPT_TIME <=? n - time_of TimeLastHandshakeStarted T then expire t w else
      if REKEY_TIMEOUT <=? duration_since (clock (ticks w)) sent
      then format_handshake_initiation dst true t (tick w) else Ok Done t (tick w)
  | None =>
      ('(initiate, keepalive) <- idle_timers n T;;
       if initiate : bool then format_handshake_initiation dst true else
       if keepalive : bool then encapsulate [] dst else ret Done) t w
  end.

(** The tunnel [t1] in which [live] starts. *)
Definition refreshed (n : Z) (t t1 : Tunn) : Prop :=
  (handshake t1 = handshake t \/ handshake t1 = clear_cookie (handshake t)) /\
  exists st, tn_timers t1 = set_session_timers st (set_time TimeCurrent n (tn_timers t)).

Lemma refreshed_time_of n t t1 x : refreshed n t t1 -> bounded n (tn_timers t) -> x <> TimeCurrent ->
  time_of x (tn_timers t1) = time_of x (tn_timers t).
Proof.
  intros [_ [st ->]] [L _] Hx. change (time_of x (set_session_timers st ?T)) with (time_of x T).
  rewrite time_of_set_time by done. by rewrite decide_False.
Qed.

Lemma refreshed_le n t t1 x : refreshed n t t1 -> bounded n (tn_timers t) -> 0 <= n ->
  time_of x (tn_timers t1) <= n.
Proof.
  intros [_ [st ->]] Hb Hn. change (time_of x (set_session_timers st ?T)) with (time_of x T).
  apply time_of_bounded; [done|]. apply set_time_bounded; [lia|done].
Qed.

Lemma refreshed_sane n t t1 w : refreshed n t t1 -> sane peer (handshake t) w ->
  sane peer (handshake t1) w /\ state (handshake t1) = state (handshake t) /\
  next_index (handshake t1) = next_index (handshake t).
Proof. by intros [[-> | ->] _] Hs. Qed.

Lemma update_live time dst t w :
  let n := duration_since time (time_started (tn_timers t)) in
  bounded n (tn_timers t) -> is_expired (handshake t) = false ->
  exists t1, refreshed n t t1 /\ update_tunn time dst t w = live n dst t1 w.
Proof.
  intros n Hb Hx. assert (Hn : 0 <= n) by (unfold n, duration_since; lia).
  unfold update_tunn. unfold bind at 1. cbn [get]. fold n. cbn zeta.
  unfold bind at 1. cbn [modify]. set (t0 := on_timers _ t).
  destruct (expire_all n (seq 0 (Z.to_nat N_SESSIONS)) t0 w) as (t2 & st & E & Hh & Ht & _).
  { apply NoDup_ListNoDup, seq_NoDup. }
  { intros i _. change (session_time i (tn_timers t) <= n). by apply session_time_bounded. }
  unfold bind at 1, update_session_timers. rewrite E. unfold bind at 1. cbn [get]. cbn zeta. rewrite Hh.
  change (handshake t0) with (handshake t). rewrite Hx.
  assert (R : refreshed n t t2) by (split; [left; by rewrite Hh|by exists st]).
  assert (L : forall x, time_of x (tn_timers t2) <= n) by (intros x; by eapply refreshed_le).
  unfold bind at 1. rewrite and_then_elapsed_eq by done.
  set (b := has_cookie _ && _).
  set (t3 := if b then set_handshake (clear_cookie (handshake t2)) t2 else t2).
  exists t3. split.
  { unfold t3. destruct b; [|done]. split; [right; cbn; by rewrite Hh|by exists st]. }
  assert (E3 : tn_timers t3 = tn_timers t2) by (unfold t3; by destruct b).
  assert (E4 : timer (handshake t3) = timer (handshake t))
    by (unfold t3; destruct b; cbn; by rewrite Hh).
  unfold live. rewrite E3, E4. unfold bind at 1.
  assert (Em : (if b
    then modify (fun s => set_handshake (clear_cookie (handshake s)) s) else ret tt) t2 w =
    Ok (E:=WireGuardError) tt t3 w).
  { unfold t3. by destruct b. }
  rewrite Em. clear Em. clearbody t3. clear b. unfold bind at 1. rewrite elapsed_eq by done. destruct (_ <=? _); [done|].
  clear E4. destruct (timer _) as [sent|]; [|done]. unfold bind at 1. rewrite elapsed_eq by done.
  destruct (_ <=? _); [done|]. unfold bind. cbn [now]. by destruct (_ <=? _).
Qed.

(** ** Sending an initiation *)

Definition initiates (dst : bytes) (t t' : Tunn) (r : TunnResult) : Prop :=
  exists m i, r = WriteToNetwork m /\ length m = initiation_size /\
    state (handshake t') = InitSent i /\ is_local_index i = bump (next_index (handshake t)).

Lemma length_sealed s p : length (sealed s p) = (length (encode p []) + 32)%nat.
Proof. unfold sealed. rewrite length_encode, length_app, length_mac1, length_mac2. lia. Qed.

Lemma initiate_ok dst h w : sane peer h w -> (initiation_size <= length dst)%nat ->
  exists m h' w' i, initiate dst h w = Ok m h' w' /\ length m = initiation_size /\
    state h' = InitSent i /\ is_local_index i = bump (next_index h).
Proof.
  intros (Ls & _ & Ht & _) L. pose proof (conj Ls (stamp_time_ok _ w Ht)) as Hc.
  unfold initiate, initiation_size in *. destruct pq.
  - pose proof (format_pq_handshake_initiation_eq dst h w Hc L) as F.
    pose proof (length_mlkem_ek (rng (Datatypes.S (draws w)))) as Lek.
    destruct (mlkem_generate _) as [dk ek]. unfold write_initiation in F.
    destruct (write_init _ _ _ _ _ _ _) as [[c t] st] eqn:E. cbn zeta in F. rewrite F.
    destruct (length_write_init _ _ _ _ _ _ _ _ _ _ E) as [Lc Lt].
    eexists _, _, _, _. split_and!; [done| |done|done].
    rewrite length_sealed. rewrite length_stamp_of in Lt. rewrite Ls in Lc. cbn in Lek.
    cbn [encode pqi_sender_idx pqi_unencrypted_ephemeral pqi_encrypted_static pqi_encrypted_timestamp
      pqi_mlkem_ephemeral_public]. unfold PQ_HANDSHAKE_INIT_SZ. len.
  - pose proof (format_handshake_initiation_eq dst h w Hc L) as F. unfold write_initiation in F.
    destruct (write_init _ _ _ _ _ _ _) as [[c t] st] eqn:E. cbn zeta in F. rewrite F.
    destruct (length_write_init _ _ _ _ _ _ _ _ _ _ E) as [Lc Lt].
    eexists _, _, _, _. split_and!; [done| |done|done].
    rewrite length_sealed. rewrite length_stamp_of in Lt. rewrite Ls in Lc.
    cbn [encode hi_sender_idx hi_unencrypted_ephemeral hi_encrypted_static hi_encrypted_timestamp].
    unfold HANDSHAKE_INIT_SZ. len.
Qed.

(** Without an initiation in flight, or forced. *)
Lemma initiation_sent dst force t w : sane peer (handshake t) w -> (initiation_size <= length dst)%nat ->
  is_in_progress (handshake t) = false \/ force = true ->
  exists r t' w', format_handshake_initiation dst force t w = Ok r t' w' /\ initiates dst t t' r.
Proof.
  intros Hs L Hf. unfold format_handshake_initiation. unfold bind at 1. cbn [get].
  replace (is_in_progress (handshake t) && negb force) with false
    by (destruct Hf as [-> | ->]; by destruct (is_in_progress (handshake t))).
  assert (exists f w1, (if is_expired (handshake t) then clear_timers else ret tt) t w =
    Ok (E:=WireGuardError) tt (on_timers f t) w1) as (f & w1 & E).
  { destruct (is_expired _); [|exists id; by rewrite on_timers_id; exists w].
    unfold clear_timers, zoom, Timers.clear. step. eexists (fun _ => _), _. reflexivity. }
  unfold bind at 1. rewrite E. cbn zeta. fold (initiate dst). unfold bind at 1, attempt, zoom.
  destruct (initiate_ok dst (handshake t) w1 Hs L) as (m & h' & w' & i & Ei & Lm & St & Hi).
  change (handshake (on_timers f t)) with (handshake t). rewrite Ei. unfold bind.
  destruct (negb _).
  - edestruct (timer_tick_eq TimeLastHandshakeStarted) as [g ->].
    edestruct (timer_tick_eq TimeLastPacketSent) as [g' ->]. eexists _, _, _. split; [done|]. by exists m, i.
  - cbn [ret]. edestruct (timer_tick_eq TimeLastPacketSent) as [g' ->]. eexists _, _, _. split; [done|]. by exists m, i.
Qed.

Lemma queue_packet_eq p t w : exists q, queue_packet p t w = Ok tt (set_packet_queue q t) w.
Proof.
  unfold queue_packet. step. destruct (_ <? _)%nat; [by eexists|].
  exists (packet_queue t). by destruct t.
Qed.

Lemma clear_all_eq t w : exists f w',
  clear_all t w = Ok tt (on_timers f (set_packet_queue [] (set_sessions ((fun _ => None) <$> sessions t) t))) w'.
Proof.
  unfold clear_all, clear_timers, zoom, Timers.clear. step. eexists (fun _ => _), _. reflexivity.
Qed.

Definition wiped (t : Tunn) : Prop :=
  is_expired (handshake t) = true /\ packet_queue t = [] /\ forall j, session_in j t = None.

Lemma expire_eq t w : exists t' w', expire t w = Ok (Err ConnectionExpired) t' w' /\ wiped t'.
Proof.
  unfold expire. unfold bind at 1. cbn [modify]. set (t1 := set_handshake _ t).
  destruct (clear_all_eq t1 w) as (f & w' & E). unfold bind. rewrite E. eexists _, _. split; [done|].
  split_and!; [done|done|]. intros j. unfold session_in. cbn. rewrite list_lookup_fmap. by destruct (_ !! j).
Qed.

(** ** What a call does *)

Section Call.
Variables (mtu : nat) (dst : bytes) (s : Process) (w : World).
Hypothesis Hp : pinv peer mtu s w.
Let T := tn_timers (tunn s).
Let n := uptime T w.

Lemma update_timers_live : is_expired (handshake (tunn s)) = false ->
  exists s1 w1 t1, refreshed n (tunn s) t1 /\ (ticks w < ticks w1)%nat /\
    sane peer (handshake t1) w1 /\
    update_timers dst s w = in_tunn (fun _ => live n dst t1) s1 w1.
Proof.
  intros Hx. pose proof Hp as ((Hs & _ & Hb & _) & Ha & _).
  destruct (update_timers_tunn dst s w Ha) as (s1 & w1 & Et & Hl & E).
  destruct (update_live (clock (ticks w)) dst (tunn s) w1 Hb Hx) as (t1 & R & E1).
  exists s1, w1, t1. split_and!; [done|done|by eapply refreshed_sane|].
  rewrite E. unfold in_tunn, zoom. rewrite Et, E1. done.
Qed.

(** A connection dies after three times [REJECT_AFTER_TIME] without a new
    session, or after [REKEY_ATTEMPT_TIME] of unanswered initiations: the call
    reports it, every key and the queue are gone and the handshake is expired. *)
Theorem connection_expires :
  is_expired (handshake (tunn s)) = false ->
  REJECT_AFTER_TIME * 3 <= n - time_of TimeSessionEstablished T \/
  (timer (handshake (tunn s)) <> None /\ REKEY_ATTEMPT_TIME <= n - time_of TimeLastHandshakeStarted T) ->
  exists s' w', update_timers dst s w = Ok (Err ConnectionExpired) s' w' /\ wiped (tunn s').
Proof.
  intros Hx Hold. destruct (update_timers_live Hx) as (s1 & w1 & t1 & R & _ & Hs & ->).
  pose proof Hp as ((_ & _ & Hb & _) & _).
  unfold in_tunn, zoom, live. rewrite !(refreshed_time_of _ _ _ _ R Hb) by done. fold T.
  replace (timer (handshake t1)) with (timer (handshake (tunn s))) by (by destruct R as [[-> | ->] _]).
  destruct (expire_eq t1 w1) as (t' & w' & Ee & Hw).
  destruct (Z.leb_spec (REJECT_AFTER_TIME * 3) (n - time_of TimeSessionEstablished T)) as [_|Hl].
  { rewrite Ee. by eexists _, _. }
  destruct Hold as [?|[Ht Ho]]; [lia|]. destruct (timer _) as [sent|]; [|done].
  rewrite (proj2 (Z.leb_le _ _) Ho), Ee. by eexists _, _.
Qed.

(** Retransmission: while an initiation is in flight and the connection is not
    given up, the call repeats the initiation under a new index once
    [REKEY_TIMEOUT] has passed since the last one, read from a clock no earlier
    than the call, and otherwise sends nothing. *)
Theorem initiation_retransmitted sent :
  (initiation_size <= length dst)%nat -> timer (handshake (tunn s)) = Some sent ->
  n - time_of TimeSessionEstablished T < REJECT_AFTER_TIME * 3 ->
  n - time_of TimeLastHandshakeStarted T < REKEY_ATTEMPT_TIME ->
  exists k r s' w', (ticks w < k)%nat /\ update_timers dst s w = Ok r s' w' /\
    if REKEY_TIMEOUT <=? duration_since (clock k) sent
    then initiates dst (tunn s) (tunn s') r
    else r = Done /\ state (handshake (tunn s')) = state (handshake (tunn s)).
Proof.
  intros L Ht He Ha. assert (Hx : is_expired (handshake (tunn s)) = false).
  { unfold timer in Ht. unfold is_expired. by destruct (state _). }
  destruct (update_timers_live Hx) as (s1 & w1 & t1 & R & Hk & Hs & ->).
  pose proof Hp as ((_ & _ & Hb & _) & _). exists (ticks w1).
  unfold in_tunn, zoom, live. rewrite !(refreshed_time_of _ _ _ _ R Hb) by done. fold T.
  replace (timer (handshake t1)) with (timer (handshake (tunn s))) by (by destruct R as [[-> | ->] _]).
  rewrite Ht, !(proj2 (Z.leb_gt _ _)) by done.
  assert (Hi : next_index (handshake t1) = next_index (handshake (tunn s))) by (by destruct R as [[-> | ->] _]).
  destruct (_ <=? _).
  - destruct (initiation_sent dst true t1 (tick w1) Hs L) as (r & t' & w' & -> & Hr); [by right|].
    eexists _, _, _. split_and!; [done|done|]. unfold initiates in *. by rewrite <- Hi.
  - eexists _, _, _. split_and!; [done|done|done|]. cbn. by destruct R as [[-> | ->] _].
Qed.

(** C14. The policy of an idle tunnel: with no initiation in flight, a call starts a
    handshake exactly when the session of an initiator has carried data past
    [REKEY_AFTER_TIME] (or was used to receive near its end), or data sent has
    gone unanswered; otherwise it sends an encrypted keepalive (or starts a
    handshake where no session is left to carry it) exactly when data received
    has not been acknowledged or the persistent keepalive is due; otherwise it
    sends nothing. *)
Theorem idle_policy :
  (initiation_size <= length dst)%nat -> (DATA_OVERHEAD_SZ <= length dst)%nat ->
  is_expired (handshake (tunn s)) = false -> is_in_progress (handshake (tunn s)) = false ->
  n - time_of TimeSessionEstablished T < REJECT_AFTER_TIME * 3 ->
  exists r s' w', update_timers dst s w = Ok r s' w' /\
    if wants_handshake n T then initiates dst (tunn s) (tunn s') r
    else if wants_keepalive n T then
      (exists m, r = WriteToNetwork m /\ length m = DATA_OVERHEAD_SZ) \/ initiates dst (tunn s) (tunn s') r
    else r = Done.
Proof.
  intros L L' Hx Hi He. destruct (update_timers_live Hx) as (s1 & w1 & t1 & R & _ & Hs & ->).
  pose proof Hp as ((_ & _ & Hb & _) & _). unfold in_tunn, zoom, live.
  rewrite !(refreshed_time_of _ _ _ _ R Hb) by done. fold T.
  assert (Es : state (handshake t1) = state (handshake (tunn s))) by (by destruct R as [[-> | ->] _]).
  assert (Ei : next_index (handshake t1) = next_index (handshake (tunn s))) by (by destruct R as [[-> | ->] _]).
  rewrite (proj2 (Z.leb_gt _ _)) by done.
  assert (Et : timer (handshake t1) = None).
  { unfold is_in_progress in Hi. unfold timer. rewrite Es. by destruct (state _). }
  assert (Ep : is_in_progress (handshake t1) = false) by (unfold is_in_progress in *; by rewrite Es).
  rewrite Et. destruct (idle_timers_eq n t1 w1) as (f & E).
  { intros x. eapply refreshed_le; [done|done|unfold n, uptime, duration_since; lia]. }
  unfold bind. rewrite E. replace (wants_handshake n (tn_timers t1)) with (wants_handshake n T).
  2:{ unfold wants_handshake. rewrite !(refreshed_time_of _ _ _ _ R Hb) by done. by destruct R as [_ [st ->]]. }
  replace (wants_keepalive n (tn_timers t1)) with (wants_keepalive n T).
  2:{ unfold wants_keepalive. rewrite !(refreshed_time_of _ _ _ _ R Hb) by done. by destruct R as [_ [st ->]]. }
  destruct (wants_handshake n T); cbn [negb andb].
  { destruct (initiation_sent dst true (on_timers f t1) w1 Hs L) as (r & t' & w' & -> & Hr); [by right|].
    eexists _, _, _. split; [done|]. unfold initiates in *. by rewrite <- Ei. }
  destruct (wants_keepalive n T); [|by eexists _, _, _].
  destruct (session_in (slot (current t1)) t1) as [x|] eqn:Ex.
  - destruct (encapsulate_sends [] dst (on_timers f t1) w1 x Ex L') as (g & k & ->).
    eexists _, _, _. split; [done|]. left. eexists. split; [done|].
    by apply (Transport.length_format [] dst x w1 _ (advance x) w1), format_data.
  - unfold encapsulate. unfold bind at 1. cbn [get]. change (session_in (slot (current ?a)) (on_timers f t1))
      with (session_in (slot (current t1)) t1). rewrite Ex.
    edestruct (queue_packet_eq [] (on_timers f t1)) as [q Eq]. unfold bind. rewrite Eq.
    destruct (initiation_sent dst false (set_packet_queue q (on_timers f t1)) w1 Hs L)
      as (r & t' & w' & -> & Hr); [by left|].
    eexists _, _, _. split; [done|]. right. unfold initiates in *. by rewrite <- Ei.
Qed.

End Call.
End Expiry.

(** ** Concrete runs *)

Module Example.
Import HandshakeProps.Example TunnelSafety.Example.
#[local] Existing Instances pq_build Toy.crypto Toy.laws env env_clock.

(** Timers of a session established after five seconds that sent data after
    six; [at_second k] is a moment [k] seconds after the start. *)
Definition busy_timers (initiator : bool) : Timers :=
  mkTimers initiator 0 [0; from_secs 5; from_secs 4; from_secs 5; from_secs 6; from_secs 3; from_secs 6; 0; 0]
    (replicate 8 0) false true 25 true.
Definition at_second (k : nat) : World := mkWorld k 0 0 0.

Lemma ready h ts k : sane 1 h (at_second k) -> length (timers ts) = 9%nat -> length (session_timers ts) = 8%nat ->
  forallb (fun x => (0 <=? x) && (x <=? uptime ts (at_second k))) (timers ts ++ session_timers ts) = true ->
  pinv 1 1500 (process h ts) (at_second k).
Proof.
  intros Hh L1 L2 F. apply pinv_start; [done| |by eexists].
  rewrite forallb_app in F. apply andb_prop in F as [F1 F2].
  split_and!; [done|done| |]; apply List.Forall_forall; intros x Hx.
  1: apply (proj1 (forallb_forall _ _) F1) in Hx. 2: apply (proj1 (forallb_forall _ _) F2) in Hx.
  all: apply andb_prop in Hx as [?%Z.leb_le ?%Z.leb_le]; lia.
Qed.

(** An initiation in flight since the fourth second. *)
Definition waiting : Handshake.Handshake :=
  set_state (InitSent (mkInitSent 256 (zeros 32) (zeros 32) (zeros 32) (from_secs 4) None)) alice.

Lemma sessions_expire_witness : exists r s' w',
  update_timers (zeros 40) (process alice (busy_timers true)) (at_second 60) = Ok r s' w' /\
  forall j x, session_in j (tunn s') = Some x -> session_in j (tunn (process alice (busy_timers true))) <> None /\
    uptime (busy_timers true) (at_second 60) - session_time j (busy_timers true) <= REJECT_AFTER_TIME.
Proof.
  apply (sessions_expire 1 1500 (zeros 40) (process alice (busy_timers true)) (at_second 60));
    [apply ready|]; by_computation.
Defined.

Lemma connection_expires_witness : exists s' w',
  update_timers (zeros 40) (process waiting (busy_timers true)) (at_second 95) = Ok (Err ConnectionExpired) s' w' /\
  wiped (tunn s').
Proof.
  apply (connection_expires 1 1500 (zeros 40) (process waiting (busy_timers true)) (at_second 95)).
  - apply ready; by_computation.
  - reflexivity.
  - right. split; by_computation.
Defined.

Lemma initiation_retransmitted_witness : exists k r s' w', (10 < k)%nat /\
  update_timers (zeros 1400) (process waiting (busy_timers true)) (at_second 10) = Ok r s' w' /\
  if REKEY_TIMEOUT <=? duration_since (clock k) (from_secs 4)
  then initiates (zeros 1400) (tunn (process waiting (busy_timers true))) (tunn s') r
  else r = Done /\ state (handshake (tunn s')) = state waiting.
Proof.
  apply (initiation_retransmitted 1 1500 (zeros 1400) (process waiting (busy_timers true)) (at_second 10));
    [apply ready|..]; by_computation.
Defined.

Lemma idle_policy_witness : exists r s' w',
  update_timers (zeros 1400) (process alice (busy_timers true)) (at_second 130) = Ok r s' w' /\
  initiates (zeros 1400) (tunn (process alice (busy_timers true))) (tunn s') r.
Proof.
  assert (W : wants_handshake (uptime (busy_timers true) (at_second 130)) (busy_timers true) = true)
    by (vm_compute; reflexivity).
  destruct (idle_policy 1 1500 (zeros 1400) (process alice (busy_timers true)) (at_second 130))
    as (r & s' & w' & E & I); [apply ready; by_computation|by_computation..|].
  exists r, s', w'. split; [exact E|]. cbn [tunn process tn_timers] in I. rewrite W in I. exact I.
Defined.

End Example.
