(* ===== verification/KeyBytes.v ===== *)
(** * Keys in configuration text: [KeyBytes] of [serialization.rs]

    A string is its UTF-8 bytes.  [base64::decode] is a parameter; what the
    standard library does to slice a string and to read a hexadecimal number is
    modelled, so that the strings the parser accepts, refuses and panics on are
    all visible. *)

From S2P Require Import Prelude.

(** The two error strings. *)
Inductive KeyError := IllegalCharacter | IllegalSize.

(** [str::is_char_boundary]: not in front of a continuation byte. *)
Definition is_char_boundary (s : bytes) (i : nat) : bool :=
  match s !! i with
  | Some b => negb ((128 <=? byte.unsigned b) && (byte.unsigned b <? 192))
  | None => (i =? length s)%nat
  end.

(** [char::to_digit(16)] of a byte *)
Definition to_digit (b : byte) : option Z :=
  let c := byte.unsigned b in
  if (48 <=? c) && (c <=? 57) then Some (c - 48)
  else if (97 <=? c) && (c <=? 102) then Some (c - 87)
  else if (65 <=? c) && (c <=? 70) then Some (c - 55)
  else None.

(** [u8::from_str_radix(_, 16)] on two bytes: a leading ['+'] is allowed. *)
Definition from_str_radix (a b : byte) : option Z :=
  if byte.unsigned a =? 43 then to_digit b
  else match to_digit a, to_digit b with
       | Some x, Some y => Some (x * 16 + y)
       | _, _ => None
       end.

Section Parser.
Context {S : Type}.
Variable base64_decode : bytes -> option bytes.

(** One iteration of the loop over the digits: the bytes [2 i] and [2 i + 1]. *)
Definition hex_byte (s : bytes) (i : nat) : M KeyError S byte :=
  if is_char_boundary s (i * 2) && is_char_boundary s (i * 2 + 2) then
    match sub (i * 2) (i * 2 + 2) s with
    | [a; b] => x <- ok_or IllegalCharacter (from_str_radix a b);; ret (byte.of_Z x)
    | _ => panic
    end
  else panic.

Fixpoint hex_loop (s : bytes) (l : list nat) (internal : bytes) : M KeyError S bytes :=
  match l with
  | [] => ret internal
  | i :: l => x <- hex_byte s i;; hex_loop s l (<[i := x]> internal)
  end.

(** [KeyBytes::from_str] *)
Definition from_str (s : bytes) : M KeyError S bytes :=
  let internal := zeros 32 in
  if (length s =? 64)%nat then hex_loop s (seq 0 32) internal
  else if (length s =? 43)%nat || (length s =? 44)%nat then
    match base64_decode s with
    | Some decoded_key =>
        if (length decoded_key =? length internal)%nat then ret decoded_key
        else fail IllegalCharacter
    | None => ret internal
    end
  else fail IllegalSize.

(** ** The strings of 64 bytes *)

Definition ascii (b : byte) : Prop := byte.unsigned b < 128.

(** What a string of pairs denotes. *)
Fixpoint pairs (s : bytes) : option (list byte) :=
  match s with
  | [] => Some []
  | [_] => None
  | a :: b :: s => x ← from_str_radix a b; l ← pairs s; Some (byte.of_Z x :: l)
  end.

Lemma boundary_ascii s i : Forall ascii s -> (i <= length s)%nat -> is_char_boundary s i = true.
Proof.
  intros Hs Hi. unfold is_char_boundary. destruct (s !! i) as [b|] eqn:E.
  - apply (Forall_lookup_1 _ _ _ _ Hs) in E. unfold ascii in E.
    rewrite (proj2 (Z.leb_gt _ _)) by done. done.
  - apply lookup_ge_None in E. apply Nat.eqb_eq. lia.
Qed.

Lemma hex_byte_ascii pre a b post (s : S) w : Forall ascii (pre ++ a :: b :: post) ->
  forall i, length pre = (i * 2)%nat ->
  hex_byte (pre ++ a :: b :: post) i s w =
  match from_str_radix a b with Some x => Ok (byte.of_Z x) s w | None => Fail IllegalCharacter s w end.
Proof.
  intros Hs i Hi. unfold hex_byte.
  rewrite !boundary_ascii by (try done; rewrite length_app; cbn; lia). cbn [andb]. unfold sub.
  rewrite <- Hi, drop_app_length. replace (length pre + 2 - length pre)%nat with 2%nat by lia. cbn [take].
  by destruct (from_str_radix a b).
Qed.

(** The loop from pair [i] on, where the pairs before it are in place. *)
Lemma hex_loop_ascii n : forall i pre post internal (s : S) w,
  Forall ascii (pre ++ post) -> length pre = (i * 2)%nat -> length post = (n * 2)%nat ->
  length internal = (i + n)%nat ->
  hex_loop (pre ++ post) (seq i n) internal s w =
  match pairs post with
  | Some l => Ok (take i internal ++ l) s w
  | None => Fail IllegalCharacter s w
  end.
Proof.
  induction n as [|n IH]; intros i pre post internal s w Hs Lp Lq Li; cbn [seq hex_loop].
  { destruct post; [|discriminate Lq]. cbn. by rewrite app_nil_r, take_ge by lia. }
  destruct post as [|a [|b post]]; [discriminate Lq..|]. unfold bind at 1.
  rewrite (hex_byte_ascii pre a b post s w Hs i Lp). cbn [pairs].
  destruct (from_str_radix a b) as [x|]; [|done]. cbn [mbind option_bind].
  replace (pre ++ a :: b :: post) with ((pre ++ [a; b]) ++ post) in * by (by rewrite <- app_assoc).
  rewrite IH; [|done|rewrite length_app; cbn; lia|cbn in Lq; lia|rewrite length_insert; lia].
  destruct (pairs post) as [l|]; [|done]. cbn [mbind option_bind]. f_equal.
  rewrite (take_S_r _ i (byte.of_Z x)) by (apply list_lookup_insert_eq; lia).
  rewrite take_insert_ge by lia. by rewrite <- app_assoc.
Qed.

(** ** Printing *)

Definition hex_digit (d : Z) : byte := byte.of_Z (if d <? 10 then 48 + d else 87 + d).

(** Lower-case hexadecimal, two digits for a byte. *)
Definition encode_hex (k : bytes) : bytes :=
  k ≫= (fun b => [hex_digit (byte.unsigned b / 16); hex_digit (byte.unsigned b mod 16)]).

Lemma radix_hex b :
  from_str_radix (hex_digit (byte.unsigned b / 16)) (hex_digit (byte.unsigned b mod 16)) =
  Some (byte.unsigned b).
Proof. by destruct b. Qed.

Lemma ascii_hex b : ascii (hex_digit (byte.unsigned b / 16)) /\ ascii (hex_digit (byte.unsigned b mod 16)).
Proof. unfold ascii. by destruct b. Qed.

Lemma length_encode_hex k : length (encode_hex k) = (length k * 2)%nat.
Proof. induction k as [|b k IH]; [done|]. unfold encode_hex in *. cbn. by rewrite IH. Qed.

Lemma pairs_encode_hex k : pairs (encode_hex k) = Some k.
Proof.
  induction k as [|b k IH]; [done|]. cbn [encode_hex mbind list_bind app pairs].
  fold (encode_hex k). rewrite radix_hex. cbn [mbind option_bind]. rewrite IH. cbn [mbind option_bind].
  by rewrite byte.of_Z_unsigned.
Qed.

Lemma ascii_encode_hex k : Forall ascii (encode_hex k).
Proof.
  induction k as [|b k IH]; [constructor|]. cbn. destruct (ascii_hex b). by repeat constructor.
Qed.

(** The parser of keys, on every string without characters outside ASCII: no
    panic; 64 characters are read as 32 pairs, which may carry a plus sign; 43
    or 44 characters go to base64; text that base64 refuses
    becomes the key of 32 zeros; every other length is refused. *)
Theorem from_str_spec str (s : S) w : Forall ascii str ->
  from_str str s w =
  if (length str =? 64)%nat then
    match pairs str with Some k => Ok k s w | None => Fail IllegalCharacter s w end
  else if (length str =? 43)%nat || (length str =? 44)%nat then
    match base64_decode str with
    | Some k => if (length k =? 32)%nat then Ok k s w else Fail IllegalCharacter s w
    | None => Ok (zeros 32) s w
    end
  else Fail IllegalSize s w.
Proof.
  intros Hs. unfold from_str. destruct (Nat.eqb_spec (length str) 64) as [L|_].
  - exact (hex_loop_ascii 32 0 [] str (zeros 32) s w Hs eq_refl L eq_refl).
  - destruct (_ || _); [|done]. destruct (base64_decode str) as [k|]; [|done].
    change (length (zeros 32)) with 32%nat. by destruct (_ =? _)%nat.
Qed.

(** Keys survive printing: the parser reads the hexadecimal form that the
    configuration protocol prints back to the same 32 bytes. *)
Theorem hex_key_roundtrip k (s : S) w : length k = 32%nat -> from_str (encode_hex k) s w = Ok k s w.
Proof.
  intros L. unfold from_str. rewrite length_encode_hex, L. cbn [Nat.eqb Nat.mul].
  transitivity (match pairs (encode_hex k) with
    | Some l => Ok l s w | None => Fail IllegalCharacter s w end); [|by rewrite pairs_encode_hex].
  refine (hex_loop_ascii 32 0 [] (encode_hex k) (zeros 32) s w _ eq_refl _ eq_refl);
    [apply ascii_encode_hex|by rewrite length_encode_hex, L].
Qed.

End Parser.

(** ** Concrete keys *)

Module Example.
Definition some_key : bytes := bytes_of [171; 205; 239] ++ zeros 29.
Definition no_base64 (s : bytes) : option bytes := None.
Definition w0 : World := mkWorld 0 0 0 0.

Lemma from_str_spec_witness :
  from_str no_base64 (encode_hex some_key) tt w0 = Ok some_key tt w0.
Proof.
  rewrite (from_str_spec no_base64 (encode_hex some_key) tt w0 (ascii_encode_hex some_key)).
  vm_compute. reflexivity.
Defined.

Lemma hex_key_roundtrip_witness : from_str no_base64 (encode_hex some_key) tt w0 = Ok some_key tt w0.
Proof. apply hex_key_roundtrip. reflexivity. Defined.
End Example.
