(* ===== verification/IndexLfsr.v ===== *)
(** * Peer indices: [IndexLfsr] of [device/mod.rs]

    A shift register over 24 bits hands out the indices of peers.  The step of
    the register is injective, so the indices of one device are distinct until
    the register is back at its seed, where [next] panics. *)

From S2P Require Import Prelude.

Record IndexLfsr := mkIndexLfsr { initial : Z; lfsr : Z; mask : Z }.

Definition LFSR_MAX : Z := 0xffffff.
Definition LFSR_POLY : Z := 0xd80000.

Section Methods.
Context `{Env} {E S : Type}.

(** [OsRng.next_u32()] *)
Definition next_u32 : M E S Z := stream <- draw;; ret (from_le (fill_bytes 4 stream)).

(** [IndexLfsr::random_index]: the loop draws until it finds a non-zero seed.
    The fuel bounds the draws. *)
Fixpoint random_index (fuel : nat) : M E S Z :=
  match fuel with
  | O => panic
  | Datatypes.S fuel =>
      r <- next_u32;;
      let i := Z.land r LFSR_MAX in
      if 0 <? i then ret i else random_index fuel
  end.

(** [IndexLfsr::default] *)
Definition default (fuel : nat) : M E S IndexLfsr :=
  seed <- random_index fuel;;
  mask <- random_index fuel;;
  ret (mkIndexLfsr seed seed mask).

End Methods.

(** The register's step, [0u32.wrapping_sub(lfsr & 1)] being all ones or zero. *)
Definition shift (x : Z) : Z :=
  Z.lxor (Z.shiftr x 1) (Z.land (u32 (0 - Z.land x 1)) LFSR_POLY).

(** [IndexLfsr::next] *)
Definition next {E} : M E IndexLfsr Z :=
  self <- get;;
  let value := u32 (lfsr self - 1) in
  modify (fun self => mkIndexLfsr (initial self) (shift (lfsr self)) (mask self));;
  self <- get;;
  if lfsr self =? initial self then panic else
  ret (Z.lxor value (mask self)).

(** ** The step is a permutation of the non-zero values *)

Definition is_index (x : Z) : Prop := 0 <= x < 2 ^ 24.
Definition nonzero (x : Z) : Prop := 0 < x < 2 ^ 24.

Lemma land_one x : Z.land x 1 = x mod 2.
Proof. change 1 with (Z.ones 1) at 1. by rewrite Z.land_ones by lia. Qed.

Lemma shift_eq x : shift x = if Z.odd x then Z.lxor (x / 2) LFSR_POLY else x / 2.
Proof.
  unfold shift. rewrite land_one, Zmod_odd, Z.shiftr_div_pow2 by lia. change (2 ^ 1) with 2.
  destruct (Z.odd x); [done|]. change (Z.land (u32 (0 - 0)) LFSR_POLY) with 0. apply Z.lxor_0_r.
Qed.

Lemma testbit_above x n : is_index x -> 24 <= n -> Z.testbit x n = false.
Proof.
  intros Hx Hn. destruct (decide (x = 0)) as [->|]; [apply Z.testbit_0_l|].
  apply Z.bits_above_log2; [apply Hx|]. apply Z.log2_lt_pow2; [unfold is_index in Hx; lia|].
  assert (2 ^ 24 <= 2 ^ n) by (apply Z.pow_le_mono_r; lia). unfold is_index in Hx. lia.
Qed.

Lemma index_of_bits x : 0 <= x -> (forall n, 24 <= n -> Z.testbit x n = false) -> is_index x.
Proof.
  intros Hx Hb. split; [done|]. destruct (Z.lt_ge_cases x (2 ^ 24)) as [|Hge]; [done|].
  assert (L : 24 <= Z.log2 x) by (apply Z.log2_le_pow2; lia).
  specialize (Hb _ L). rewrite Z.bit_log2 in Hb; [done|lia].
Qed.

Lemma lxor_index a b : is_index a -> is_index b -> is_index (Z.lxor a b).
Proof.
  intros Ha Hb. apply index_of_bits.
  - apply Z.lxor_nonneg. unfold is_index in *. lia.
  - intros n Hn. rewrite Z.lxor_spec, !testbit_above by done. done.
Qed.

Lemma poly_index : is_index LFSR_POLY.
Proof. unfold is_index, LFSR_POLY. lia. Qed.

Lemma half_index x : is_index x -> is_index (x / 2).
Proof. unfold is_index. intros Hx. dlia. Qed.

(** The top bit of the result is the bit that was shifted out. *)
Lemma shift_top x : is_index x -> Z.testbit (shift x) 23 = Z.odd x.
Proof.
  intros Hx. rewrite shift_eq.
  assert (T : Z.testbit (x / 2) 23 = false).
  { rewrite <- Z.div2_div, Z.div2_spec, Z.shiftr_spec by lia. by apply testbit_above. }
  destruct (Z.odd x); [|done]. by rewrite Z.lxor_spec, T.
Qed.

Lemma shift_inj x y : is_index x -> is_index y -> shift x = shift y -> x = y.
Proof.
  intros Hx Hy E. assert (Ho : Z.odd x = Z.odd y) by (rewrite <- !shift_top, E; done).
  assert (Eh : x / 2 = y / 2).
  { rewrite !shift_eq, Ho in E. destruct (Z.odd y); [|done].
    apply (f_equal (fun z => Z.lxor z LFSR_POLY)) in E. by rewrite !Z.lxor_assoc, Z.lxor_nilpotent, !Z.lxor_0_r in E. }
  rewrite (Z.div_mod x 2), (Z.div_mod y 2), Eh, !Zmod_odd, Ho by lia. done.
Qed.

Lemma shift_nonzero x : nonzero x -> nonzero (shift x).
Proof.
  intros Hx. assert (Hi : is_index x) by (unfold nonzero, is_index in *; lia).
  assert (Hs : is_index (shift x)).
  { rewrite shift_eq. destruct (Z.odd x); [apply lxor_index; [by apply half_index|apply poly_index]|by apply half_index]. }
  assert (shift x <> 0); [|unfold nonzero, is_index in *; lia].
  intros E. apply (shift_inj x 0 Hi ltac:(unfold is_index; lia)) in E. unfold nonzero in Hx. lia.
Qed.

(** ** The register as a sequence *)

Lemma iter_nonzero k x : nonzero x -> nonzero (Nat.iter k shift x).
Proof. intros Hx. induction k as [|k IH]; [done|]. cbn. by apply shift_nonzero. Qed.

Lemma nonzero_index x : nonzero x -> is_index x.
Proof. unfold nonzero, is_index. lia. Qed.

Lemma iter_inj k x y : nonzero x -> nonzero y -> Nat.iter k shift x = Nat.iter k shift y -> x = y.
Proof.
  intros Hx Hy. induction k as [|k IH]; [done|]. cbn. intros E. apply IH.
  apply shift_inj; [by apply nonzero_index, iter_nonzero..|done].
Qed.

(** The register after [n] calls, none of which met the seed again. *)
Record wf (n : nat) (s : IndexLfsr) : Prop := {
  wf_seed : nonzero (initial s);
  wf_mask : is_index (mask s);
  wf_lfsr : lfsr s = Nat.iter n shift (initial s);
  wf_fresh k : (0 < k <= n)%nat -> Nat.iter k shift (initial s) <> initial s;
}.

(** The index of call [k], and the state after one more call. *)
Definition index_at (s : IndexLfsr) (k : nat) : Z := Z.lxor (Nat.iter k shift (initial s) - 1) (mask s).
Definition advance (s : IndexLfsr) : IndexLfsr := mkIndexLfsr (initial s) (shift (lfsr s)) (mask s).

Lemma index_at_range n s k : wf n s -> is_index (index_at s k).
Proof.
  intros Hs. apply lxor_index; [|apply Hs]. pose proof (iter_nonzero k _ (wf_seed _ _ Hs)).
  unfold nonzero, is_index in *. lia.
Qed.

Lemma next_eq {E} n s w : wf n s ->
  next (E:=E) s w = if Nat.iter (S n) shift (initial s) =? initial s then Panic else Ok (index_at s n) (advance s) w.
Proof.
  intros Hs. unfold next. step. cbn [lfsr initial mask]. rewrite (wf_lfsr _ _ Hs). cbn [Nat.iter nat_rect].
  fold (Nat.iter n shift (initial s)). destruct (_ =? _); [done|]. unfold index_at, advance. rewrite u32_small.
  - by rewrite (wf_lfsr _ _ Hs).
  - pose proof (iter_nonzero n _ (wf_seed _ _ Hs)). unfold nonzero, is_u32 in *. lia.
Qed.

Lemma wf_advance n s : wf n s -> Nat.iter (S n) shift (initial s) <> initial s -> wf (S n) (advance s).
Proof.
  intros Hs Hn. split; cbn; [apply Hs|apply Hs|by rewrite (wf_lfsr _ _ Hs)|].
  intros k Hk. destruct (decide (k = S n)) as [->|]; [done|]. apply (wf_fresh _ _ Hs). lia.
Qed.

Lemma iter_fresh n s i j : wf n s -> (i < j <= n)%nat ->
  Nat.iter i shift (initial s) <> Nat.iter j shift (initial s).
Proof.
  intros Hs Hij E. replace j with (i + (j - i))%nat in E by lia. rewrite Nat.iter_add in E.
  apply iter_inj in E; [|apply Hs|by apply iter_nonzero, Hs].
  by apply (wf_fresh _ _ Hs (j - i)%nat); [lia|].
Qed.

Lemma index_at_inj n s i j : wf n s -> (i <= n)%nat -> (j <= n)%nat -> index_at s i = index_at s j -> i = j.
Proof.
  intros Hs Hi Hj E. unfold index_at in E. apply (f_equal (fun z => Z.lxor z (mask s))) in E.
  rewrite !Z.lxor_assoc, Z.lxor_nilpotent, !Z.lxor_0_r in E.
  assert (E' : Nat.iter i shift (initial s) = Nat.iter j shift (initial s)) by lia.
  destruct (Nat.lt_trichotomy i j) as [Hlt|[?|Hlt]]; [|done|]; exfalso.
  - by apply (iter_fresh n s i j Hs ltac:(lia)).
  - by apply (iter_fresh n s j i Hs ltac:(lia)).
Qed.

Lemma iter_advance n s : initial (Nat.iter n advance s) = initial s /\
  forall k, index_at (Nat.iter n advance s) k = index_at s k.
Proof.
  unfold index_at. induction n as [|n [IHi IHm]]; [done|]. rewrite Nat.iter_succ. by split.
Qed.

(** [n] calls in a row. *)
Fixpoint issue {E} (n : nat) : M E IndexLfsr (list Z) :=
  match n with
  | O => ret []
  | S n => i <- next;; rest <- issue n;; ret (i :: rest)
  end.

Lemma issue_eq {E} n : forall m s w, wf m s ->
  (forall k, (0 < k <= m + n)%nat -> Nat.iter k shift (initial s) <> initial s) ->
  issue (E:=E) n s w = Ok (index_at s <$> seq m n) (Nat.iter n advance s) w /\ wf (m + n) (Nat.iter n advance s).
Proof.
  induction n as [|n IH]; intros m s w Hs Hf; cbn [issue].
  { rewrite Nat.add_0_r. done. }
  unfold bind. rewrite (next_eq m) by done. rewrite (proj2 (Z.eqb_neq _ _)) by (apply Hf; lia).
  destruct (IH (S m) (advance s) w) as [-> Hw].
  - apply wf_advance; [done|]. apply Hf. lia.
  - intros k Hk. apply Hf. lia.
  - rewrite Nat.iter_succ_r. replace (m + S n)%nat with (S m + n)%nat by lia. by split.
Qed.

(** ** Seeding *)

Section Seed.
Context `{Env} {E S : Type}.

(** Of any [fuel] consecutive draws one is not zero in its low 24 bits. *)
Definition lively (fuel : nat) : Prop := forall d, exists k, (k < fuel)%nat /\
  Z.land (from_le (fill_bytes 4 (rng (d + k)))) LFSR_MAX <> 0.

Lemma land_max r : 0 <= r -> is_index (Z.land r LFSR_MAX).
Proof.
  intros Hr. change LFSR_MAX with (Z.ones 24). rewrite Z.land_ones by lia. apply Z.mod_pos_bound. lia.
Qed.

Lemma random_index_ok fuel : forall (s : S) w,
  (exists k, (k < fuel)%nat /\ Z.land (from_le (fill_bytes 4 (rng (draws w + k)))) LFSR_MAX <> 0) ->
  exists i w', random_index (E:=E) fuel s w = Ok i s w' /\ nonzero i.
Proof.
  induction fuel as [|fuel IH]; intros s w (k & Hk & Hz); [lia|]. cbn [random_index]. unfold next_u32. step.
  pose proof (land_max (from_le (fill_bytes 4 (rng (draws w)))) (proj1 (from_le_range _))) as Hr.
  destruct (Z.ltb_spec 0 (Z.land (from_le (fill_bytes 4 (rng (draws w)))) LFSR_MAX)) as [Hp|Hn].
  - eexists _, _. split; [done|]. unfold nonzero, is_index in *. lia.
  - destruct k as [|k]; [rewrite Nat.add_0_r in Hz; unfold is_index in Hr; lia|].
    apply IH. exists k. split; [lia|]. cbn. by rewrite Nat.add_succ_r in Hz.
Qed.

Lemma default_wf fuel (s : S) w : lively fuel ->
  exists r w', default (E:=E) fuel s w = Ok r s w' /\ wf 0 r.
Proof.
  intros Hl. unfold default. unfold bind at 1.
  destruct (random_index_ok fuel s w (Hl _)) as (seed & w1 & -> & Hs).
  unfold bind. destruct (random_index_ok fuel s w1 (Hl _)) as (m & w2 & -> & Hm).
  eexists _, _. split; [done|]. split; cbn; [done|by apply nonzero_index|done|lia].
Qed.
End Seed.
