(* ===== verification/IndexPeriod.v ===== *)
(** * The period of the index register

    The step of the register is linear over the two-element field; its powers
    are matrices of 24 bits square, computed by repeated squaring.  The orbit of
    a seed has all [2 ^ 24 - 1] non-zero values, so a device can create
    [2 ^ 24 - 2] peers before [IndexLfsr::next] panics. *)

From S2P Require Import Prelude IndexLfsr.

(** ** Linear maps as lists of columns *)

Fixpoint mapply (m : list Z) (x : Z) : Z :=
  match m with
  | [] => 0
  | c :: m => Z.lxor (if Z.odd x then c else 0) (mapply m (Z.div2 x))
  end.
Definition mcomp (m1 m2 : list Z) : list Z := mapply m1 <$> m2.
Fixpoint mpow (m : list Z) (p : positive) : list Z :=
  match p with
  | xH => m
  | xO p => let q := mpow m p in mcomp q q
  | xI p => let q := mpow m p in mcomp m (mcomp q q)
  end.

Definition linear (f : Z -> Z) : Prop := forall x y, f (Z.lxor x y) = Z.lxor (f x) (f y).

Lemma odd_lxor x y : Z.odd (Z.lxor x y) = xorb (Z.odd x) (Z.odd y).
Proof. rewrite <- !Z.bit0_odd. apply Z.lxor_spec. Qed.

Lemma div2_lxor x y : Z.div2 (Z.lxor x y) = Z.lxor (Z.div2 x) (Z.div2 y).
Proof. rewrite !Z.div2_spec. apply Z.shiftr_lxor. Qed.

Lemma lxor_if (b1 b2 : bool) c :
  (if xorb b1 b2 then c else 0) = Z.lxor (if b1 then c else 0) (if b2 then c else 0).
Proof. destruct b1, b2; cbn; by rewrite ?Z.lxor_nilpotent, ?Z.lxor_0_r, ?Z.lxor_0_l. Qed.

Lemma lxor_swap a b c d : Z.lxor (Z.lxor a b) (Z.lxor c d) = Z.lxor (Z.lxor a c) (Z.lxor b d).
Proof. rewrite !Z.lxor_assoc. f_equal. by rewrite <- !Z.lxor_assoc, (Z.lxor_comm b c). Qed.

Lemma mapply_linear m : linear (mapply m).
Proof.
  induction m as [|c m IH]; intros x y; cbn [mapply]; [done|].
  by rewrite odd_lxor, div2_lxor, IH, lxor_if, lxor_swap.
Qed.

Lemma linear_0 f : linear f -> f 0 = 0.
Proof. intros Hf. rewrite <- (Z.lxor_nilpotent 0) at 1. by rewrite Hf, Z.lxor_nilpotent. Qed.

Lemma mapply_mcomp m1 m2 x : mapply (mcomp m1 m2) x = mapply m1 (mapply m2 x).
Proof.
  revert x. induction m2 as [|c m2 IH]; intros x; cbn [mapply mcomp fmap list_fmap].
  - symmetry. apply linear_0, mapply_linear.
  - rewrite IH, mapply_linear. f_equal. destruct (Z.odd x); [done|]. symmetry. apply linear_0, mapply_linear.
Qed.

Lemma mapply_mpow m p x : mapply (mpow m p) x = Pos.iter (mapply m) x p.
Proof.
  revert x. induction p as [p IH|p IH|]; intros x; cbn [mpow Pos.iter]; [| |done].
  - by rewrite !mapply_mcomp, !IH.
  - by rewrite !mapply_mcomp, !IH.
Qed.

(** The matrix of a linear map on numbers of [n] bits. *)
Definition powers (i : Z) (n : nat) : list Z := (fun k => 2 ^ (i + Z.of_nat k)) <$> seq 0 n.

Lemma split_low x i : 0 <= i ->
  x * 2 ^ i = Z.lxor (if Z.odd x then 2 ^ i else 0) (Z.div2 x * 2 ^ (i + 1)).
Proof.
  intros Hi. replace (Z.lxor _ _) with (Z.lxor (Z.shiftl (Z.b2z (Z.odd x)) i) (Z.shiftl (2 * Z.div2 x) i)).
  - rewrite <- Z.shiftl_lxor, Z.shiftl_mul_pow2 by lia. f_equal. apply Z.bits_inj'. intros n Hn.
    rewrite Z.lxor_spec. destruct (decide (n = 0)) as [->|].
    + rewrite Z.testbit_even_0, Z.bit0_odd. by destruct (Z.odd x).
    + replace n with (Z.succ (n - 1)) by lia. rewrite Z.testbit_even_succ, Z.div2_spec, Z.shiftr_spec by lia.
      replace (Z.testbit (Z.b2z (Z.odd x)) (Z.succ (n - 1))) with false.
      * by f_equal; try lia.
      * destruct (Z.odd x); [|by rewrite Z.testbit_0_l]. symmetry. apply Z.bits_above_log2; cbn; lia.
  - rewrite !Z.shiftl_mul_pow2, Z.pow_add_r by lia. f_equal; [destruct (Z.odd x); cbn [Z.b2z]; lia|lia].
Qed.

Lemma mapply_powers f n : linear f -> forall i x, 0 <= i -> 0 <= x < 2 ^ Z.of_nat n ->
  mapply (f <$> powers i n) x = f (x * 2 ^ i).
Proof.
  intros Hf. induction n as [|n IH]; intros i x Hi Hx.
  { cbn in *. replace x with 0 by lia. symmetry. by apply linear_0. }
  unfold powers. cbn [seq fmap list_fmap mapply]. rewrite (split_low x i) by done. rewrite Hf. f_equal.
  - rewrite Z.add_0_r. destruct (Z.odd x); [done|]. symmetry. by apply linear_0.
  - rewrite <- IH; [|lia|].
    + f_equal. f_equal. unfold powers. rewrite <- (seq_shift n 0). change (map S (seq 0 n)) with (S <$> seq 0 n).
      rewrite <- list_fmap_compose. apply list_fmap_ext. intros k y _. unfold compose. f_equal. lia.
    + rewrite Nat2Z.inj_succ, Z.pow_succ_r in Hx by lia. rewrite Z.div2_div. dlia.
Qed.

(** ** Powers of the step *)

Lemma shift_linear : linear shift.
Proof.
  intros x y. rewrite !shift_eq, odd_lxor, <- !Z.div2_div, div2_lxor.
  destruct (Z.odd x), (Z.odd y); cbn [xorb]; [|by rewrite ?Z.lxor_assoc, ?(Z.lxor_comm LFSR_POLY)..].
  by rewrite lxor_swap, Z.lxor_nilpotent, Z.lxor_0_r.
Qed.

Definition shift_matrix : list Z := Eval vm_compute in shift <$> powers 0 24.

Lemma mapply_shift x : is_index x -> mapply shift_matrix x = shift x.
Proof.
  intros Hx. change shift_matrix with (shift <$> powers 0 24).
  rewrite mapply_powers; [by rewrite Z.mul_1_r|apply shift_linear|lia|exact Hx].
Qed.

(** [shift] iterated [p] times on a non-zero value, computed in the size of [p]. *)
Lemma iter_shift_eq p x : nonzero x -> Nat.iter (Pos.to_nat p) shift x = mapply (mpow shift_matrix p) x.
Proof.
  intros Hx. rewrite mapply_mpow, Pos2Nat.inj_iter. generalize (Pos.to_nat p). intros n.
  fold (Nat.iter n (mapply shift_matrix) x).
  induction n as [|n IH]; [done|]. rewrite !Nat.iter_succ, <- IH. symmetry.
  apply mapply_shift, nonzero_index, iter_nonzero, Hx.
Qed.

(** ** The order of the step at 1 *)

Definition period_pos : positive := 16777215.
Definition period : nat := Pos.to_nat period_pos.
Definition orbit (k : nat) : Z := Nat.iter k shift 1.

Lemma one_nonzero : nonzero 1.
Proof. unfold nonzero. lia. Qed.

Lemma orbit_period : orbit period = 1.
Proof. unfold orbit, period. rewrite iter_shift_eq by apply one_nonzero. vm_compute. reflexivity. Qed.

(** The quotients of the period by its prime divisors. *)
Definition cofactors : list (positive * positive) :=
  [(3, 5592405); (5, 3355443); (7, 2396745); (13, 1290555); (17, 986895); (241, 69615)]%positive.

Lemma orbit_cofactors : Forall (fun pq => orbit (Pos.to_nat pq.2) <> 1) cofactors.
Proof.
  unfold orbit. repeat constructor; cbn [snd]; rewrite iter_shift_eq by apply one_nonzero; vm_compute; discriminate.
Qed.

Lemma period_Z : Z.of_nat period = 2 ^ 24 - 1.
Proof. unfold period. by rewrite positive_nat_Z. Qed.
#[global] Opaque period.

Lemma orbit_add a b : orbit (a + b) = Nat.iter a shift (orbit b).
Proof. apply Nat.iter_add. Qed.

Lemma orbit_mul a b : orbit a = 1 -> orbit (b * a) = 1.
Proof. intros E. induction b as [|b IH]; [done|]. cbn [Nat.mul]. by rewrite orbit_add, IH. Qed.

Lemma orbit_gcd b : forall a, orbit a = 1 -> orbit b = 1 -> orbit (Nat.gcd a b) = 1.
Proof.
  induction b as [b IH] using lt_wf_ind. intros a Ha Hb. destruct b as [|b]; [by rewrite Nat.gcd_0_r|].
  rewrite Nat.gcd_comm, <- Nat.Lcm0.gcd_mod, Nat.gcd_comm. apply IH; [by apply Nat.mod_upper_bound|done|].
  rewrite (Nat.div_mod_eq a (S b)), Nat.mul_comm, Nat.add_comm, orbit_add, orbit_mul in Ha by done. exact Ha.
Qed.

(** A divisor of the period other than 1 shares a prime with it. *)
Lemma divides_or_coprime p q :
  (1 <? p) && forallb (fun n => Z.gcd (Z.of_nat n) p =? 1) (seq 1 (Z.to_nat p - 1)) = true ->
  (p | q) \/ Z.gcd q p = 1.
Proof.
  intros [H1%Z.ltb_lt H2]%andb_prop. destruct (decide (q mod p = 0)) as [E|E].
  - left. apply Z.mod_divide; [lia|done].
  - right. rewrite Z.gcd_comm, <- Z.gcd_mod by lia. rewrite forallb_forall in H2.
    pose proof (Z.mod_pos_bound q p). specialize (H2 (Z.to_nat (q mod p))). rewrite Z2Nat.id in H2 by lia.
    apply Z.eqb_eq, H2, in_seq. lia.
Qed.

Lemma period_divisor q : 0 < q -> (q | 2 ^ 24 - 1) -> q <> 1 ->
  exists pq, In pq cofactors /\ (Z.pos pq.1 | q).
Proof.
  intros Hq Hd H1.
  assert (D : forall pq, In pq cofactors -> (Z.pos pq.1 | q) \/ Z.gcd q (Z.pos pq.1) = 1).
  { intros pq Hin. apply divides_or_coprime.
    repeat (destruct Hin as [<-|Hin]; [vm_compute; reflexivity|]). destruct Hin. }
  assert (G : forall p m, In p cofactors -> (q | Z.pos p.1 * m) -> (exists pq, In pq cofactors /\ (Z.pos pq.1 | q)) \/ (q | m)).
  { intros p m Hin Hm. destruct (D p Hin) as [Hp|Hg]; [left; by exists p|right; by eapply Z.gauss]. }
  change (2 ^ 24 - 1) with (3 * (3 * (5 * (7 * (13 * (17 * (241 * 1))))))) in Hd.
  apply (G (3, 5592405)%positive) in Hd as [?|Hd]; [done| |cbn; tauto].
  apply (G (3, 5592405)%positive) in Hd as [?|Hd]; [done| |cbn; tauto].
  apply (G (5, 3355443)%positive) in Hd as [?|Hd]; [done| |cbn; tauto].
  apply (G (7, 2396745)%positive) in Hd as [?|Hd]; [done| |cbn; tauto].
  apply (G (13, 1290555)%positive) in Hd as [?|Hd]; [done| |cbn; tauto].
  apply (G (17, 986895)%positive) in Hd as [?|Hd]; [done| |cbn; tauto].
  apply (G (241, 69615)%positive) in Hd as [?|Hd]; [done| |cbn; tauto].
  exfalso. apply H1. apply Z.divide_1_r_nonneg; [lia|done].
Qed.

(** The orbit of 1 does not return before the period. *)
Lemma orbit_order k : (0 < k < period)%nat -> orbit k <> 1.
Proof.
  intros Hk E. pose proof (orbit_gcd period k E orbit_period) as Eg.
  set (g := Nat.gcd k period) in Eg.
  destruct (Nat.gcd_divide_r k period) as [q Hq]. fold g in Hq.
  assert (g <= k)%nat by (apply Nat.divide_pos_le; [lia|apply Nat.gcd_divide_l]).
  pose proof period_Z as HP. rewrite Hq, Nat2Z.inj_mul in HP.
  destruct (period_divisor (Z.of_nat q)) as ([p c] & Hin & [r Hr]);
    [lia|exists (Z.of_nat g); lia|nia|].
  cbn [fst] in Hr. rewrite Hr in HP.
  assert (Hc : Pos.to_nat c = (Z.to_nat r * g)%nat).
  { assert (Z.pos p * Z.pos c = 2 ^ 24 - 1).
    { clear -Hin. repeat (destruct Hin as [[= <- <-]|Hin]; [reflexivity|]). destruct Hin. }
    assert (Z.pos c = r * Z.of_nat g) by nia. nia. }
  pose proof (proj1 (List.Forall_forall _ _) orbit_cofactors _ Hin) as Hne. cbn [snd] in Hne.
  rewrite Hc in Hne. by apply Hne, orbit_mul.
Qed.

(** Every non-zero value is on the orbit of 1. *)
Lemma orbit_inj i j : (i < period)%nat -> (j < period)%nat -> orbit i = orbit j -> i = j.
Proof.
  assert (L : forall i j, (i < j < period)%nat -> orbit i <> orbit j).
  { clear. intros i j Hij E. replace j with (i + (j - i))%nat in E by lia. rewrite orbit_add in E.
    apply iter_inj in E; [|apply one_nonzero|by apply iter_nonzero, one_nonzero].
    by apply (orbit_order (j - i)); [lia|]. }
  intros Hi Hj E. destruct (Nat.lt_trichotomy i j) as [?|[?|?]]; [|done|]; exfalso;
    [apply (L i j)|apply (L j i)]; done || lia.
Qed.

Lemma orbit_all x : nonzero x -> exists k, (k < period)%nat /\ orbit k = x.
Proof.
  intros Hx. pose proof period_Z as HP.
  assert (Hin : In x (map orbit (seq 0 period))).
  { apply (@NoDup_length_incl Z (map orbit (seq 0 period)) (map Z.of_nat (seq 1 period))).
    - apply List.NoDup_map_NoDup_ForallPairs; [|apply seq_NoDup].
      intros i j Hi%in_seq Hj%in_seq. apply orbit_inj; lia.
    - by rewrite !length_map, !length_seq.
    - intros y (k & <- & _)%in_map_iff. pose proof (iter_nonzero k 1 one_nonzero) as Hn. fold (orbit k) in Hn.
      apply in_map_iff. exists (Z.to_nat (orbit k)). unfold nonzero in Hn. rewrite in_seq. lia.
    - apply in_map_iff. exists (Z.to_nat x). unfold nonzero in Hx. rewrite in_seq. lia. }
  apply in_map_iff in Hin as (k & Ek & Hk%in_seq). exists k. split; [lia|done].
Qed.

Lemma full_orbit x k : nonzero x -> (0 < k < period)%nat -> Nat.iter k shift x <> x.
Proof.
  intros Hx Hk E. destruct (orbit_all x Hx) as (j & _ & <-). apply (orbit_order k Hk).
  rewrite <- orbit_add, Nat.add_comm, orbit_add in E.
  apply iter_inj in E; [done|by apply iter_nonzero, one_nonzero|apply one_nonzero].
Qed.

Lemma full_orbit_period x : nonzero x -> Nat.iter period shift x = x.
Proof.
  intros Hx. destruct (orbit_all x Hx) as (j & _ & <-). rewrite <- orbit_add, Nat.add_comm, orbit_add.
  by rewrite orbit_period.
Qed.

(** C20. A device never hands out an index twice: from any seed and mask the first
    [2 ^ 24 - 2] calls of [next] return distinct indices of 24 bits, and only
    the call after them panics. *)
Theorem indices_distinct {E} s w : wf 0 s ->
  exists l s', issue (E:=E) (period - 1) s w = Ok l s' w /\ Z.of_nat (length l) = 2 ^ 24 - 2 /\
    List.NoDup l /\ Forall is_index l /\ next (E:=E) s' w = Panic.
Proof.
  intros Hs. pose proof period_Z as HP.
  destruct (issue_eq (E:=E) (period - 1) 0 s w Hs) as [Ei Hw].
  { intros k Hk. apply full_orbit; [apply Hs|lia]. }
  rewrite Ei. eexists _, _. cbn [Nat.add] in Hw.
  destruct (iter_advance (period - 1) s) as [Hi Hm].
  split_and!; [done|rewrite length_fmap, length_seq; lia| | |].
  - apply List.NoDup_map_NoDup_ForallPairs; [|apply seq_NoDup].
    intros i j Hi'%in_seq Hj%in_seq Eq. rewrite <- !Hm in Eq. eapply index_at_inj in Eq; [done|exact Hw|lia..].
  - apply List.Forall_forall. intros i (k & <- & _)%in_map_iff. by eapply index_at_range.
  - rewrite (next_eq (period - 1)) by done. rewrite Hi. replace (S (period - 1)) with period by lia.
    by rewrite full_orbit_period, Z.eqb_refl by apply Hs.
Qed.

(** ** A concrete register *)

Lemma indices_distinct_witness : exists l s',
  issue (E:=unit) (period - 1) (mkIndexLfsr 5 5 77) (mkWorld 0 0 0 0) = Ok l s' (mkWorld 0 0 0 0) /\
  Z.of_nat (length l) = 2 ^ 24 - 2 /\ List.NoDup l /\ Forall is_index l /\
  next (E:=unit) s' (mkWorld 0 0 0 0) = Panic.
Proof.
  apply indices_distinct. split; [unfold nonzero; cbn; lia|unfold is_index; cbn; lia|reflexivity|lia].
Defined.
