(* ===== verification/AllowedIps.v ===== *)
(** * Allowed addresses: [AllowedIps] of [device/allowed_ips.rs]

    The routing table is that of the crates [ip_network] and
    [ip_network_table]: a class of operations, with their documented behaviour
    as a class of laws.  What [AllowedIps] makes of it is compared with a scan of
    the configured networks; an association list is an instance of both
    classes. *)

From S2P Require Import Prelude Packet.

(** ** Addresses and prefixes *)

Definition octets (a : IpAddr) : bytes := match a with IpV4 b | IpV6 b => b end.
Definition width (a : IpAddr) : Z := match a with IpV4 _ => 32 | IpV6 _ => 128 end.

(** The first [c] bits of an address. *)
Definition prefix (c : Z) (a : IpAddr) : Z := from_be (octets a) / 2 ^ (width a - c).
Definition same_prefix (c : Z) (a b : IpAddr) : bool := (width a =? width b) && (prefix c a =? prefix c b).

(** ** The interface of the two crates *)

Class IpNetworkTable := {
  IpNetwork : Type;
  IpNetwork_eq :: EqDecision IpNetwork;
  new_truncate : IpAddr -> Z -> option IpNetwork;
  netmask : IpNetwork -> Z;
  network_address : IpNetwork -> IpAddr;
  contains : IpNetwork -> IpAddr -> bool;
  Table : Type -> Type;
  table_new {D} : Table D;
  table_insert {D} : IpNetwork -> D -> Table D -> Table D * option D;
  exact_match {D} : IpNetwork -> Table D -> option D;
  longest_match {D} : IpAddr -> Table D -> option (IpNetwork * D);
  retain {D} : (IpNetwork -> D -> bool) -> Table D -> Table D;
  table_iter {D} : Table D -> list (IpNetwork * D);
}.

Class IpNetworkTableLaws `{IpNetworkTable} : Prop := {
  new_truncate_valid a c : 0 <= c <= width a -> is_Some (new_truncate a c);
  new_truncate_spec a c n : new_truncate a c = Some n ->
    netmask n = c /\ forall b, contains n b = same_prefix c a b;
  network_unique n m a : netmask n = netmask m -> contains n a = true -> contains m a = true -> n = m;
  exact_new {D} n : exact_match n (table_new (D:=D)) = None;
  exact_insert {D} n m d (t : Table D) :
    exact_match m (table_insert n d t).1 = if decide (n = m) then Some d else exact_match m t;
  insert_old {D} n d (t : Table D) : (table_insert n d t).2 = exact_match n t;
  exact_retain {D} f n (t : Table D) :
    exact_match n (retain f t) = match exact_match n t with
      Some d => if f n d then Some d else None | None => None end;
  longest_some {D} a (t : Table D) n d : longest_match a t = Some (n, d) ->
    exact_match n t = Some d /\ contains n a = true /\
    forall m e, exact_match m t = Some e -> contains m a = true -> netmask m <= netmask n;
  longest_none {D} a (t : Table D) : longest_match a t = None ->
    forall m e, exact_match m t = Some e -> contains m a = false;
  iter_exact {D} (t : Table D) n d : In (n, d) (table_iter t) <-> exact_match n t = Some d;
}.

(** [AllowedIP] of [device/peer.rs] *)
Record AllowedIP := mkAllowedIP { addr : IpAddr; cidr : Z }.

Section AllowedIps.
Context `{IpNetworkTable}.

Record AllowedIps (D : Type) := mkAllowedIps { ips : Table D }.
Arguments mkAllowedIps {D} ips.
Arguments ips {D} a.

Context {E D : Type}.

(** [AllowedIps::new], [clear] *)
Definition new : AllowedIps D := mkAllowedIps table_new.
Definition clear : M E (AllowedIps D) unit := modify (fun _ => mkAllowedIps table_new).

(** [AllowedIps::insert]: an invalid prefix length panics. *)
Definition insert (key : IpAddr) (cidr : Z) (data : D) : M E (AllowedIps D) (option D) :=
  net <- unwrap (new_truncate key (u8 cidr));;
  self <- get;;
  let '(t, old) := table_insert net data (ips self) in
  modify (fun _ => mkAllowedIps t);;
  ret old.

(** [AllowedIps::find], [remove], [iter] *)
Definition find (key : IpAddr) (self : AllowedIps D) : option D := snd <$> longest_match key (ips self).
Definition remove (predicate : D -> bool) : M E (AllowedIps D) unit :=
  modify (fun self => mkAllowedIps (retain (fun _ v => negb (predicate v)) (ips self))).
Definition iter (self : AllowedIps D) : list (D * IpAddr * Z) :=
  (fun '(ipa, d) => (d, network_address ipa, netmask ipa)) <$> table_iter (ips self).

(** [AllowedIps::from_iter] *)
Fixpoint insert_all (l : list (AllowedIP * D)) : M E (AllowedIps D) unit :=
  match l with
  | [] => ret tt
  | (ip, data) :: l => insert (addr ip) (cidr ip) data;; insert_all l
  end.
Definition from_iter {S} (l : list (AllowedIP * D)) : M E S (AllowedIps D) := fun s w =>
  match insert_all l new w with
  | Ok _ t w => Ok t s w
  | Fail e _ w => Fail e s w
  | Panic => Panic
  end.

(** ** Longest prefix, latest entry *)

Context `{!IpNetworkTableLaws}.

Definition valid (ip : AllowedIP) : Prop := 0 <= cidr ip <= width (addr ip).
Definition matches (a : IpAddr) (ip : AllowedIP) : bool := same_prefix (cidr ip) (addr ip) a.

Lemma longest_insert a n d (t : Table D) :
  longest_match a (table_insert n d t).1 =
  if contains n a && match longest_match a t with Some (m, _) => netmask m <=? netmask n | None => true end
  then Some (n, d) else longest_match a t.
Proof.
  destruct (longest_match a (table_insert n d t).1) as [[m e]|] eqn:E'.
  - apply longest_some in E' as (X & C & Lm). rewrite exact_insert in X. case_decide as Hnm.
    + subst m. injection X as ->. rewrite C. cbn [andb].
      destruct (longest_match a t) as [[m' e']|] eqn:E0; [|done]. apply longest_some in E0 as (X0 & C0 & _).
      destruct (decide (n = m')) as [->|Hne]; [by rewrite Z.leb_refl|].
      rewrite (proj2 (Z.leb_le _ _)); [done|]. apply (Lm m' e'); [|done]. by rewrite exact_insert, decide_False.
    + destruct (longest_match a t) as [[m' e']|] eqn:E0; [|by rewrite (longest_none _ _ E0 _ _ X) in C].
      apply longest_some in E0 as (X0 & C0 & L0). pose proof (L0 _ _ X C) as Hle.
      destruct (contains n a) eqn:Cn; cbn [andb].
      * pose proof (Lm n d ltac:(by rewrite exact_insert, decide_True) Cn) as Hle2.
        destruct (Z.leb_spec (netmask m') (netmask n)) as [Hle3|Hgt].
        { exfalso. apply Hnm, (network_unique n m a); [lia|done|done]. }
        destruct (decide (n = m')) as [->|Hne]; [exfalso; lia|].
        pose proof (Lm m' e' ltac:(by rewrite exact_insert, decide_False) C0) as Hle4.
        assert (m = m') as -> by (apply (network_unique m m' a); [lia|done|done]). congruence.
      * destruct (decide (n = m')) as [->|Hne]; [congruence|].
        pose proof (Lm m' e' ltac:(by rewrite exact_insert, decide_False) C0) as Hle4.
        assert (m = m') as -> by (apply (network_unique m m' a); [lia|done|done]). congruence.
  - pose proof (longest_none _ _ E' n d ltac:(by rewrite exact_insert, decide_True)) as ->. cbn [andb].
    destruct (longest_match a t) as [[m e]|] eqn:E0; [|done]. exfalso.
    apply longest_some in E0 as (X & C & _).
    assert (contains m a = false); [|congruence]. destruct (decide (n = m)) as [->|Hne].
    + apply (longest_none _ _ E' m d). by rewrite exact_insert, decide_True.
    + apply (longest_none _ _ E' m e). by rewrite exact_insert, decide_False.
Qed.

Lemma insert_eq ip d (t : AllowedIps D) w : valid ip ->
  exists n, insert (addr ip) (cidr ip) d t w =
      Ok (exact_match n (ips t)) (mkAllowedIps (table_insert n d (ips t)).1) w /\
    netmask n = cidr ip /\ forall b, contains n b = matches b ip.
Proof.
  intros Hv. unfold insert. assert (Hu : u8 (cidr ip) = cidr ip).
  { apply Z.mod_small. unfold valid, width in Hv. destruct (addr ip); lia. }
  rewrite Hu. destruct (new_truncate_valid _ _ Hv) as [n En]. exists n. rewrite En. step.
  rewrite <- (insert_old n d (ips t)). destruct (table_insert n d (ips t)) as [t' old]. step.
  split; [done|]. by apply new_truncate_spec.
Qed.

Lemma insert_all_snoc l ip d (t : AllowedIps D) w t' w' :
  insert_all l t w = Ok tt t' w' ->
  insert_all (l ++ [(ip, d)]) t w = (insert (addr ip) (cidr ip) d;; ret tt) t' w'.
Proof.
  revert t w. induction l as [|[ip0 d0] l IH]; intros t w; cbn [insert_all app].
  - by intros [= <- <-].
  - unfold bind. destruct (insert _ _ _ t w) as [o t1 w1| |]; [apply IH|done|done].
Qed.

(** [d] is what the entries [l] say of the address [a]: the data of an entry that
    matches with the longest prefix, the last of these. *)
Definition decides (a : IpAddr) (l : list (AllowedIP * D)) (ip : AllowedIP) (d : D) : Prop :=
  exists l1 l2, l = l1 ++ (ip, d) :: l2 /\ matches a ip = true /\
    (forall e, e ∈ l1 -> matches a e.1 = true -> cidr e.1 <= cidr ip) /\
    (forall e, e ∈ l2 -> matches a e.1 = true -> cidr e.1 < cidr ip).

Lemma decides_last a l ip d : matches a ip = true ->
  (forall e, e ∈ l -> matches a e.1 = true -> cidr e.1 <= cidr ip) -> decides a (l ++ [(ip, d)]) ip d.
Proof. intros Hm Hl. exists l, []. split_and!; [done|done|done|]. by intros e ?%not_elem_of_nil. Qed.

Lemma decides_older a l ip d e : decides a l ip d ->
  (matches a e.1 = true -> cidr e.1 < cidr ip) -> decides a (l ++ [e]) ip d.
Proof.
  intros (l1 & l2 & -> & Hm & H1 & H2) He. exists l1, (l2 ++ [e]). split_and!; [by rewrite <- app_assoc|done|done|].
  intros e' [Hin|Hin]%elem_of_app; [by apply H2|]. apply list_elem_of_singleton in Hin as ->. exact He.
Qed.

Lemma decides_bound a l ip d e : decides a l ip d -> e ∈ l -> matches a e.1 = true -> cidr e.1 <= cidr ip.
Proof.
  intros (l1 & l2 & -> & Hm & H1 & H2) [Hin|[->|Hin]%elem_of_cons]%elem_of_app He; [by apply H1|done|].
  specialize (H2 e Hin He). lia.
Qed.

Lemma insert_all_longest a w l : Forall (fun e => valid e.1) l ->
  exists t, insert_all l new w = Ok tt t w /\
    match longest_match a (ips t) with
    | Some (n, d) => exists ip, decides a l ip d /\ netmask n = cidr ip
    | None => forall e, e ∈ l -> matches a e.1 = false
    end.
Proof.
  induction l as [|[ip d] l IH] using rev_ind; intros Hv.
  { exists new. split; [done|]. cbn. destruct (longest_match a table_new) as [[n d]|] eqn:El.
    - apply longest_some in El as [X _]. by rewrite exact_new in X.
    - by intros e ?%not_elem_of_nil. }
  apply Forall_app in Hv as [Hv Hv1]. apply Forall_cons_iff in Hv1 as [Hip _]. cbn in Hip.
  destruct (IH Hv) as (t & Et & Ht). rewrite (insert_all_snoc _ _ _ _ _ _ _ Et).
  destruct (insert_eq ip d t w Hip) as (n & En & Nn & Cn). unfold bind. rewrite En. eexists. split; [done|].
  cbn [ips]. rewrite longest_insert, Cn.
  destruct (longest_match a (ips t)) as [[m e]|]; [destruct Ht as (ip' & Hd & Hm)|].
  - destruct (matches a ip) eqn:Ma; cbn [andb].
    + rewrite Hm, Nn. destruct (Z.leb_spec (cidr ip') (cidr ip)) as [Hle|Hgt].
      * exists ip. split; [|done]. apply decides_last; [done|]. intros x Hx Mx.
        pose proof (decides_bound _ _ _ _ _ Hd Hx Mx). lia.
      * exists ip'. split; [|done]. by apply decides_older.
    + exists ip'. split; [|done]. apply decides_older; [done|]. cbn. congruence.
  - destruct (matches a ip) eqn:Ma; cbn [andb].
    + exists ip. split; [|done]. apply decides_last; [done|]. intros x Hx Mx. by rewrite Ht in Mx.
    + intros x [Hx| ->%list_elem_of_singleton]%elem_of_app; [by apply Ht|done].
Qed.

(** C21. Routing by longest prefix: a table built from valid entries exists and finds
    for every address the data of the entry that matches it with the longest
    prefix, the latest entry where a network was configured twice, and nothing
    exactly where no entry matches. *)
Theorem find_longest_prefix {S} a l (s : S) w : Forall (fun e => valid e.1) l ->
  exists t, from_iter l s w = Ok t s w /\
    match find a t with
    | Some d => exists ip, decides a l ip d
    | None => forall e, e ∈ l -> matches a e.1 = false
    end.
Proof.
  intros Hv. destruct (insert_all_longest a w l Hv) as (t & Et & Ht). exists t. unfold from_iter, find.
  rewrite Et. split; [done|]. destruct (longest_match a (ips t)) as [[n d]|]; [|done].
  destruct Ht as (ip & Hd & _). by exists ip.
Qed.

End AllowedIps.

Arguments mkAllowedIps {_ D} ips.
Arguments ips {_ D} a.

(** ** The laws can hold: networks in a finite map *)

Module MapTable.

(** Width of the addresses, prefix, length of the prefix. *)
Definition net : Type := Z * Z * Z.
Definition net_contains (n : net) (b : IpAddr) : bool := (n.1.1 =? width b) && (n.1.2 =? prefix n.2 b).

Fixpoint longest {D} (a : IpAddr) (l : list (net * D)) : option (net * D) :=
  match l with
  | [] => None
  | (n, d) :: l =>
      if net_contains n a then
        match longest a l with
        | Some (m, e) => if n.2 <=? m.2 then Some (m, e) else Some (n, d)
        | None => Some (n, d)
        end
      else longest a l
  end.

#[global] Instance table : IpNetworkTable := {|
  IpNetwork := net;
  new_truncate a c :=
    if (0 <=? c) && (c <=? width a) then Some (width a, prefix c a, c) else None;
  netmask n := n.2;
  network_address n :=
    let b := to_be (Z.to_nat (n.1.1 / 8)) (n.1.2 * 2 ^ (n.1.1 - n.2)) in
    if n.1.1 =? 32 then IpV4 b else IpV6 b;
  contains := net_contains;
  Table D := gmap net D;
  table_new D := ∅;
  table_insert D n d t := (<[n := d]> t, t !! n);
  exact_match D n t := t !! n;
  longest_match D a t := longest a (map_to_list t);
  retain D f t := filter (fun nd => f nd.1 nd.2 = true) t;
  table_iter D t := map_to_list t;
|}.

Lemma longest_out {D} a (l : list (net * D)) m e :
  longest a l = None -> (m, e) ∈ l -> net_contains m a = false.
Proof.
  intros El Hin. induction l as [|[x y] l IHl]; [by apply not_elem_of_nil in Hin|]. cbn [longest] in El.
  destruct (net_contains x a) eqn:Cx; [destruct (longest a l) as [[? ?]|]; [by destruct (_ <=? _)|done]|].
  apply elem_of_cons in Hin as [[= -> ->]|Hin]; [done|by apply IHl].
Qed.

Lemma longest_in {D} a (l : list (net * D)) n d : longest a l = Some (n, d) ->
  (n, d) ∈ l /\ net_contains n a = true /\
  forall m e, (m, e) ∈ l -> net_contains m a = true -> m.2 <= n.2.
Proof.
  revert n d. induction l as [|[m e] l IH]; intros n d; cbn [longest]; [done|].
  destruct (net_contains m a) eqn:C.
  - destruct (longest a l) as [[n' d']|] eqn:El.
    + destruct (IH n' d' eq_refl) as (I & C' & Hl).
      destruct (Z.leb_spec m.2 n'.2) as [Hle|Hgt]; intros [= <- <-].
      * split_and!; [by right|done|]. intros m0 e0 [[= -> ->]|Hin]%elem_of_cons Hc; [done|by eapply Hl].
      * split_and!; [by left|done|]. intros m0 e0 [[= -> ->]|Hin]%elem_of_cons Hc; [done|].
        specialize (Hl _ _ Hin Hc). lia.
    + intros [= <- <-]. split_and!; [by left|done|]. intros m0 e0 [[= -> ->]|Hin]%elem_of_cons Hc; [done|].
      by rewrite (longest_out a l m0 e0 El Hin) in Hc.
  - intros El. destruct (IH n d El) as (I & C' & Hl). split_and!; [by right|done|].
    intros m0 e0 [[= -> ->]|Hin]%elem_of_cons Hc; [congruence|by eapply Hl].
Qed.

#[global] Instance laws : IpNetworkTableLaws.
Proof.
  split; cbn.
  - intros a c Hc. rewrite !(proj2 (Z.leb_le _ _)) by lia. by eexists.
  - intros a c n. destruct (_ && _); [|done]. by intros [= <-].
  - intros [[f p] k] [[f' p'] k'] a. unfold net_contains. cbn. intros -> [Hf Hp]%andb_prop [Hf' Hp']%andb_prop.
    apply Z.eqb_eq in Hf, Hf', Hp, Hp'. congruence.
  - intros D n. apply lookup_empty.
  - intros D n m d t. case_decide as Hnm; [subst; apply lookup_insert_eq|by apply lookup_insert_ne].
  - done.
  - intros D f n t. destruct (t !! n) as [d|] eqn:El.
    + destruct (f n d) eqn:Ef.
      * by apply map_lookup_filter_Some.
      * apply map_lookup_filter_None. right. intros x Hx. cbn. congruence.
    + apply map_lookup_filter_None. by left.
  - intros D a t n d (Hin & Hc & Hl)%longest_in. split_and!; [by apply elem_of_map_to_list|done|].
    intros m e Hm. apply (Hl m e). by apply elem_of_map_to_list.
  - intros D a t El m e Hm. apply (longest_out a _ m e El). by apply elem_of_map_to_list.
  - intros D t n d. by rewrite <- list_elem_of_In, elem_of_map_to_list.
Qed.
End MapTable.

(** ** A concrete table *)

Module Example.
Definition v4 (a b c d : Z) : IpAddr := IpV4 (bytes_of [a; b; c; d]).
Definition entries : list (AllowedIP * nat) :=
  [(mkAllowedIP (v4 10 0 0 0) 8, 1%nat); (mkAllowedIP (v4 10 1 0 0) 16, 2%nat); (mkAllowedIP (v4 10 1 7 7) 16, 3%nat)].

Lemma find_longest_prefix_witness : exists t,
  from_iter (E:=unit) entries tt (mkWorld 0 0 0 0) = Ok t tt (mkWorld 0 0 0 0) /\
  match find (v4 10 1 2 3) t with
  | Some d => exists ip, decides (v4 10 1 2 3) entries ip d
  | None => forall e, e ∈ entries -> matches (v4 10 1 2 3) e.1 = false
  end.
Proof. apply find_longest_prefix. repeat constructor; vm_compute; discriminate. Defined.
End Example.
