(* ===== verification/Text.v ===== *)
(** * Strings: what the standard library does with configuration text

    A string is its UTF-8 bytes.  Lines, splitting, and the parsers and printers
    of integers and booleans, as [BufRead::read_line], [str::split],
    [str::splitn], [FromStr] and [Display] have them, with the lemmas that
    reading what was printed gives back the value. *)

From Stdlib Require Import Strings.String.
From S2P Require Import Prelude.

(** A literal. *)
Definition str (s : string) : bytes := list_byte_of_string s.
Arguments str s%_string_scope.

Definition code (b : byte) : Z := byte.unsigned b.
Definition is_char (c : Z) (b : byte) : bool := code b =? c.

(** ** UTF-8 *)

Definition in_range (lo hi : Z) (b : byte) : bool := (lo <=? code b) && (code b <=? hi).
Definition continuation : byte -> bool := in_range 128 191.

(** [str::from_utf8(s).is_ok()] *)
Fixpoint is_utf8 (s : bytes) : bool :=
  match s with
  | [] => true
  | a :: s =>
      if code a <? 128 then is_utf8 s else
      match s with
      | [] => false
      | b :: s =>
          if in_range 194 223 a then continuation b && is_utf8 s else
          match s with
          | [] => false
          | c :: s =>
              if in_range 224 239 a then
                (if is_char 224 a then in_range 160 191 b else if is_char 237 a then in_range 128 159 b else continuation b)
                && continuation c && is_utf8 s
              else
              match s with
              | [] => false
              | d :: s =>
                  in_range 240 244 a
                  && (if is_char 240 a then in_range 144 191 b else if is_char 244 a then in_range 128 143 b else continuation b)
                  && continuation c && continuation d && is_utf8 s
              end
          end
      end
  end.

(** [String::pop]: the last character is its first byte and what continues it. *)
Fixpoint drop_last_char (rev_s : bytes) : bytes :=
  match rev_s with
  | [] => []
  | b :: s => if continuation b then drop_last_char s else s
  end.
Definition pop (s : bytes) : bytes := rev (drop_last_char (rev s)).

(** ** Lines *)

(** What is left of a stream, and whether it ends in an error. *)
Record Reader := mkReader { input : bytes; io_error : bool }.

(** A line with its newline, and the rest; without one, all there is. *)
Fixpoint split_line (s : bytes) : bytes * bytes * bool :=
  match s with
  | [] => ([], [], false)
  | b :: s =>
      if is_char 10 b then ([b], s, true)
      else let '(line, rest, found) := split_line s in (b :: line, rest, found)
  end.

(** [reader.read_line(&mut cmd)] on an empty [cmd]: the line, or [None] for an
    error. *)
Definition read_line (r : Reader) : option bytes * Reader :=
  let '(line, rest, found) := split_line (input r) in
  if negb found && io_error r then (None, mkReader rest (io_error r))
  else if is_utf8 line then (Some line, mkReader rest (io_error r))
  else (None, mkReader rest (io_error r)).

(** ** Splitting *)

(** [s.split(c).collect()] *)
Fixpoint split (c : Z) (s : bytes) : list bytes :=
  match s with
  | [] => [[]]
  | b :: s =>
      if is_char c b then [] :: split c s
      else match split c s with
           | x :: l => (b :: x) :: l
           | [] => [[b]]
           end
  end.

(** [s.splitn(2, c).collect()] *)
Fixpoint splitn2 (c : Z) (s : bytes) : list bytes :=
  match s with
  | [] => [[]]
  | b :: s =>
      if is_char c b then [[]; s]
      else match splitn2 c s with
           | x :: l => (b :: x) :: l
           | [] => [[b]]
           end
  end.

(** ** Numbers *)

Definition digit (radix : Z) (b : byte) : option Z :=
  let c := code b in
  let d := if (48 <=? c) && (c <=? 57) then c - 48
           else if (97 <=? c) && (c <=? 122) then c - 87
           else if (65 <=? c) && (c <=? 90) then c - 55
           else radix in
  if d <? radix then Some d else None.

(** The loop of [from_str_radix], with [checked_mul] and [checked_add]. *)
Fixpoint checked_digits (max : Z) (acc : Z) (s : bytes) : option Z :=
  match s with
  | [] => Some acc
  | b :: s =>
      d ← digit 10 b;
      if max <? acc * 10 then None else
      if max <? acc * 10 + d then None else
      checked_digits max (acc * 10 + d) s
  end.

(** [s.parse::<uN>()]: not empty, a leading ['+'] allowed. *)
Definition parse_uint (bits : Z) (s : bytes) : option Z :=
  let max := 2 ^ bits - 1 in
  match s with
  | [] => None
  | b :: rest =>
      if is_char 43 b then (if bool_decide (rest = []) then None else checked_digits max 0 rest)
      else checked_digits max 0 s
  end.

(** [s.parse::<bool>()] *)
Definition parse_bool (s : bytes) : option bool :=
  if bool_decide (s = str "true") then Some true
  else if bool_decide (s = str "false") then Some false else None.

(** [Display] of an unsigned integer: its digits from the last. *)
Definition digit_char (d : Z) : byte := byte.of_Z (if d <? 10 then 48 + d else 87 + d).
Fixpoint show_digits (fuel : nat) (radix n : Z) (acc : bytes) : bytes :=
  match fuel with
  | O => acc
  | S fuel =>
      let acc := digit_char (n mod radix) :: acc in
      if n / radix =? 0 then acc else show_digits fuel radix (n / radix) acc
  end.
Definition show (n : Z) : bytes := show_digits 20 10 n [].
Definition show_hex (n : Z) : bytes := show_digits 16 16 n [].

Definition newline : bytes := [byte.of_Z 10].

(** ** Reading what was printed *)

Definition value (radix : Z) (ds : list Z) : Z := fold_left (fun a d => a * radix + d) ds 0.

Lemma value_snoc radix ds d : value radix (ds ++ [d]) = value radix ds * radix + d.
Proof. unfold value. by rewrite fold_left_app. Qed.

(** The digits of a number: in range, with its value, no leading zero, no more than
    needed. *)
Record digits_of (radix n : Z) (ds : list Z) : Prop := {
  do_range : Forall (fun d => 0 <= d < radix) ds;
  do_value : value radix ds = n;
  do_head : ds = [0] \/ exists d rest, ds = d :: rest /\ 0 < d;
  do_small k : n < radix ^ Z.of_nat k -> (0 < k)%nat -> (length ds <= k)%nat;
}.

Lemma digits_snoc radix n ds : 2 <= radix -> 0 < n / radix -> digits_of radix (n / radix) ds ->
  digits_of radix n (ds ++ [n mod radix]).
Proof.
  intros Hr Hn [Fr Fv Fh Fs]. pose proof (Z.mod_pos_bound n radix ltac:(lia)). pose proof (Z.div_mod n radix ltac:(lia)).
  split.
  - apply Forall_app_2; [done|]. by constructor.
  - rewrite value_snoc, Fv. lia.
  - right. destruct Fh as [->|(d & rest & -> & Hd)]; [cbn in Fv; lia|]. exists d, (rest ++ [n mod radix]). done.
  - intros k Hk Hk0. destruct k as [|k]; [lia|]. rewrite length_app. cbn.
    assert (n / radix < radix ^ Z.of_nat k).
    { apply Z.div_lt_upper_bound; [lia|]. rewrite Nat2Z.inj_succ, Z.pow_succ_r in Hk by lia. lia. }
    assert (0 < k)%nat by (destruct k; [cbn in *; lia|lia]). specialize (Fs k ltac:(done) ltac:(done)). lia.
Qed.

Lemma show_digits_spec radix : 2 <= radix -> forall fuel n acc, 0 <= n < radix ^ Z.of_nat fuel -> (0 < fuel)%nat ->
  exists ds, show_digits fuel radix n acc = (digit_char <$> ds) ++ acc /\ digits_of radix n ds.
Proof.
  intros Hr. induction fuel as [|fuel IH]; intros n acc Hn Hf; [lia|]. cbn [show_digits]. cbn zeta.
  pose proof (Z.mod_pos_bound n radix ltac:(lia)). pose proof (Z.div_mod n radix ltac:(lia)).
  destruct (Z.eqb_spec (n / radix) 0) as [E|E].
  - exists [n mod radix]. split; [done|]. assert (n mod radix = n) by lia. split.
    + by constructor.
    + unfold value. cbn. lia.
    + destruct (decide (n = 0)) as [->|]; [left; f_equal; lia|right; exists (n mod radix), []; split; [done|lia]].
    + intros k _ Hk. cbn. lia.
  - assert (0 <= n / radix) by (apply Z.div_pos; lia).
    assert (n / radix < radix ^ Z.of_nat fuel).
    { apply Z.div_lt_upper_bound; [lia|]. rewrite Nat2Z.inj_succ, Z.pow_succ_r in Hn by lia. lia. }
    assert (0 < fuel)%nat by (destruct fuel; [cbn in *; lia|lia]).
    destruct (IH (n / radix) (digit_char (n mod radix) :: acc)) as (ds & Es & Hd); [lia|done|].
    exists (ds ++ [n mod radix]). split; [rewrite Es, fmap_app, <- app_assoc; done|]. apply digits_snoc; [done|lia|done].
Qed.

Lemma digit_digit_char radix d : 0 <= d < radix -> radix <= 16 -> digit radix (digit_char d) = Some d.
Proof.
  intros Hd Hr. assert (d ∈ seqZ 0 16) as Hin by (apply elem_of_seqZ; lia).
  unfold digit, digit_char, code.
  destruct (Z.ltb_spec d 10).
  - rewrite byte.unsigned_of_Z. unfold byte.wrap. rewrite Z.mod_small by lia.
    rewrite (proj2 (Z.leb_le 48 _)), (proj2 (Z.leb_le _ 57)) by lia. cbn [andb].
    replace (48 + d - 48) with d by lia. by rewrite (proj2 (Z.ltb_lt _ _)) by lia.
  - rewrite byte.unsigned_of_Z. unfold byte.wrap. rewrite Z.mod_small by lia.
    rewrite (proj2 (Z.leb_gt _ 57)) by lia. rewrite andb_false_r.
    rewrite (proj2 (Z.leb_le 97 _)), (proj2 (Z.leb_le _ 122)) by lia. cbn [andb].
    replace (87 + d - 87) with d by lia. by rewrite (proj2 (Z.ltb_lt _ _)) by lia.
Qed.

Lemma value_mono radix ds : 2 <= radix -> Forall (fun d => 0 <= d < radix) ds -> forall a, 0 <= a ->
  a <= fold_left (fun a d => a * radix + d) ds a.
Proof.
  intros Hr Hd. induction Hd as [|d ds Hd _ IH]; intros a Ha; cbn; [lia|].
  specialize (IH (a * radix + d) ltac:(nia)). nia.
Qed.

Lemma checked_digits_spec max ds : Forall (fun d => 0 <= d < 10) ds -> forall a, 0 <= a ->
  fold_left (fun a d => a * 10 + d) ds a <= max -> checked_digits max a (digit_char <$> ds) = Some (fold_left (fun a d => a * 10 + d) ds a).
Proof.
  intros Hd. induction Hd as [|d ds Hd Hds IH]; intros a Ha Hm; cbn [fmap list_fmap checked_digits fold_left]; [done|].
  rewrite digit_digit_char by lia. cbn. cbn in Hm. pose proof (value_mono 10 ds ltac:(lia) Hds (a * 10 + d) ltac:(lia)).
  rewrite (proj2 (Z.ltb_ge _ _)) by lia. rewrite (proj2 (Z.ltb_ge _ _)) by lia. apply IH; [lia|done].
Qed.

Lemma digit_char_not radix d c : 0 <= d < radix -> radix <= 16 -> ~ (48 <= c <= 57) -> ~ (97 <= c <= 102) ->
  is_char c (digit_char d) = false.
Proof.
  intros Hd Hr N1 N2. unfold is_char, code, digit_char. rewrite byte.unsigned_of_Z. unfold byte.wrap.
  destruct (Z.ltb_spec d 10); rewrite Z.mod_small by lia; apply Z.eqb_neq; lia.
Qed.

(** A printed number reads back. *)
Lemma parse_show bits n : 0 <= bits <= 64 -> 0 <= n < 2 ^ bits -> parse_uint bits (show n) = Some n.
Proof.
  intros Hb Hn. assert (2 ^ bits <= 2 ^ 64) by (apply Z.pow_le_mono_r; lia).
  destruct (show_digits_spec 10 ltac:(lia) 20 n []) as (ds & E & [Fr Fv Fh _]); [lia|lia|].
  unfold show. rewrite E, app_nil_r. unfold parse_uint. cbn zeta.
  assert (Hc : checked_digits (2 ^ bits - 1) 0 (digit_char <$> ds) = Some n).
  { rewrite checked_digits_spec; [unfold value in Fv; by rewrite Fv|done|lia|]. unfold value in Fv. lia. }
  destruct ds as [|d ds]; [destruct Fh as [?|(? & ? & ? & _)]; done|]. cbn [fmap list_fmap] in *.
  apply Forall_cons_iff in Fr as [Hd _]. rewrite (digit_char_not 10) by lia. exact Hc.
Qed.

Lemma parse_bool_show (b : bool) : parse_bool (if b then str "true" else str "false") = Some b.
Proof. by destruct b. Qed.
