(* ===== verification/Base64.v ===== *)
(** * Base64

    The functions [encode] and [decode] of the crate [base64] with its standard
    alphabet, as the class [Base64]; what its documentation promises, as
    [Base64Laws]; and [Rfc4648], an instance of both that computes. *)

From S2P Require Import Prelude Text.

Class Base64 := {
  base64_encode : bytes -> bytes;
  base64_decode : bytes -> option bytes;
}.

Class Base64Laws `{Base64} : Prop := {
  decode_encode64 b : base64_decode (base64_encode b) = Some b;
  (** three bytes become four characters, with padding *)
  length_base64_encode b : length (base64_encode b) = ((length b + 2) / 3 * 4)%nat;
  (** from the letters, the digits, plus, slash and equals *)
  base64_alphabet b : Forall (fun c => 32 < code c < 127) (base64_encode b);
}.

Module Rfc4648.

(** Base64 with padding, as RFC 4648 has it. *)
Definition alphabet (d : Z) : byte :=
  byte.of_Z (if d <? 26 then 65 + d else if d <? 52 then 71 + d else if d <? 62 then d - 4 else if d =? 62 then 43 else 47).
Definition pad : byte := byte.of_Z 61.
Definition index (b : byte) : option Z :=
  let c := code b in
  if (65 <=? c) && (c <=? 90) then Some (c - 65)
  else if (97 <=? c) && (c <=? 122) then Some (c - 71)
  else if (48 <=? c) && (c <=? 57) then Some (c + 4)
  else if c =? 43 then Some 62 else if c =? 47 then Some 63 else None.

Fixpoint encode (s : bytes) : bytes :=
  match s with
  | [] => []
  | [a] => [alphabet (code a / 4); alphabet (code a mod 4 * 16); pad; pad]
  | [a; b] => [alphabet (code a / 4); alphabet (code a mod 4 * 16 + code b / 16); alphabet (code b mod 16 * 4); pad]
  | a :: b :: c :: s =>
      alphabet (code a / 4) :: alphabet (code a mod 4 * 16 + code b / 16) ::
      alphabet (code b mod 16 * 4 + code c / 64) :: alphabet (code c mod 64) :: encode s
  end.

Definition first (x y : Z) : byte := byte.of_Z (x * 4 + y / 16).
Definition second (y z : Z) : byte := byte.of_Z (y mod 16 * 16 + z / 4).
Definition third (z t : Z) : byte := byte.of_Z (z mod 4 * 64 + t).

Fixpoint decode (s : bytes) : option bytes :=
  match s with
  | [] => Some []
  | x :: y :: z :: t :: s =>
      x ← index x; y ← index y;
      match index z, index t, s with
      | Some z, Some t, s => r ← decode s; Some (first x y :: second y z :: third z t :: r)
      | Some z, None, [] => if is_char 61 t && (z mod 4 =? 0) then Some [first x y; second y z] else None
      | None, None, [] => if is_char 61 z && is_char 61 t && (y mod 16 =? 0) then Some [first x y] else None
      | _, _, _ => None
      end
  | _ => None
  end.

Lemma digits_ok : forallb (fun n => let c := alphabet (Z.of_nat n) in
  (32 <? code c) && (code c <? 127) && bool_decide (index c = Some (Z.of_nat n))) (seq 0 64) = true.
Proof. vm_compute. reflexivity. Qed.

Lemma alphabet_ok d : 0 <= d < 64 -> 32 < code (alphabet d) < 127 /\ index (alphabet d) = Some d.
Proof.
  intros Hd. pose proof digits_ok as Hk. rewrite forallb_forall in Hk.
  specialize (Hk (Z.to_nat d)). rewrite in_seq, Z2Nat.id in Hk by lia. specialize (Hk ltac:(lia)).
  apply andb_prop in Hk as [Hk ?%bool_decide_eq_true_1]. split; [lia|done].
Qed.

Lemma code_bounds b : 0 <= code b < 256.
Proof. apply byte.unsigned_range. Qed.

Lemma thirds (P : bytes -> Prop) : P [] -> (forall a, P [a]) -> (forall a b, P [a; b]) ->
  (forall a b c s, P s -> P (a :: b :: c :: s)) -> forall s, P s.
Proof. intros H0 H1 H2 H3. fix IH 1. intros [|a [|b [|c s]]]; [done..|by apply H3, IH]. Qed.

(** The sextets of a byte string are digits. *)
Lemma sextet_a a : 0 <= code a / 4 < 64 /\ 0 <= code a mod 4 * 16 < 64.
Proof. pose proof (code_bounds a). dlia. Qed.
Lemma sextet_ab a b : 0 <= code a mod 4 * 16 + code b / 16 < 64 /\ 0 <= code b mod 16 * 4 < 64.
Proof. pose proof (code_bounds a). pose proof (code_bounds b). dlia. Qed.
Lemma sextet_bc b c : 0 <= code b mod 16 * 4 + code c / 64 < 64 /\ 0 <= code c mod 64 < 64.
Proof. pose proof (code_bounds b). pose proof (code_bounds c). dlia. Qed.

Lemma decode_encode s : decode (encode s) = Some s.
Proof.
  induction s as [|a|a b|a b c s IH] using thirds; [done|..]; cbn [encode decode].
  all: pose proof (sextet_a a) as [? ?]; pose proof (code_bounds a).
  2,3: pose proof (sextet_ab a b) as [? ?]; pose proof (code_bounds b).
  3: pose proof (sextet_bc b c) as [? ?]; pose proof (code_bounds c).
  all: rewrite !(fun d H => proj2 (alphabet_ok d H)) by done; cbn [mbind option_bind].
  - change (index pad) with (@None Z). change (is_char 61 pad) with true. cbn [andb].
    rewrite (proj2 (Z.eqb_eq _ _)) by dlia. unfold first.
    replace (_ * 4 + _) with (code a) by dlia. by rewrite (byte.of_Z_unsigned a : byte.of_Z (code a) = a).
  - change (index pad) with (@None Z). change (is_char 61 pad) with true. cbn [andb].
    rewrite (proj2 (Z.eqb_eq _ _)) by dlia. unfold first, second.
    replace (_ * 4 + _) with (code a) by dlia. replace (_ * 16 + _ / 4) with (code b) by dlia.
    by rewrite !(fun b => byte.of_Z_unsigned b : byte.of_Z (code b) = b).
  - rewrite IH. cbn [mbind option_bind]. unfold first, second, third.
    replace (code a / 4 * 4 + _) with (code a) by dlia. replace (_ mod 16 * 16 + _) with (code b) by dlia.
    replace (_ mod 4 * 64 + _) with (code c) by dlia.
    by rewrite !(fun b => byte.of_Z_unsigned b : byte.of_Z (code b) = b).
Qed.

#[local] Instance codec : Base64 := {| base64_encode := encode; base64_decode := decode |}.
#[local] Instance codec_laws : Base64Laws.
Proof.
  constructor; cbn [base64_encode base64_decode codec].
  - apply decode_encode.
  - intros s. induction s as [|a|a b|a b c s IH] using thirds; [done..|]. cbn [encode length]. rewrite IH.
    pose proof (Nat.div_add (length s + 2) 1 3 ltac:(done)) as D.
    replace (length s + 2 + 1 * 3)%nat with (S (S (S (length s))) + 2)%nat in D by lia. rewrite D. lia.
  - intros s. assert (Hp : 32 < code pad < 127) by (vm_compute; split; reflexivity).
    induction s as [|a|a b|a b c s IH] using thirds; [constructor|..]; cbn [encode].
    all: repeat apply Forall_cons_2; try done.
    all: apply alphabet_ok; first
      [apply sextet_a|apply (sextet_ab pad)|apply sextet_ab|apply (sextet_bc pad)|apply sextet_bc].
Qed.

End Rfc4648.
