(* ===== verification/Utf8.v ===== *)
(** * Text of any bytes: [String::from_utf8_lossy]

    The conversion of the standard library that the interface's name and the log's
    lines go through: a sequence that is not UTF-8 becomes the replacement
    character, the rest stays. *)

From S2P Require Import Prelude Text.

(** U+FFFD *)
Definition REPLACEMENT : bytes := bytes_of [239; 191; 189].

(** The second byte of a sequence of three or four that begins with [a]. *)
Definition second (a b : byte) : bool :=
  if is_char 224 a then in_range 160 191 b else if is_char 237 a then in_range 128 159 b else
  if is_char 240 a then in_range 144 191 b else if is_char 244 a then in_range 128 143 b else continuation b.

(** How many of the bytes that follow [a] a character would have. *)
Definition follow (a : byte) : option nat :=
  if code a <? 128 then Some 0%nat else if in_range 194 223 a then Some 1%nat else
  if in_range 224 239 a then Some 2%nat else if in_range 240 244 a then Some 3%nat else None.

(** [Utf8Chunks]: what is taken from the front, and whether it is a character; of
    an invalid sequence, the bytes that could have begun one. *)
Definition chunk (a : byte) (s : bytes) : nat * bool :=
  match follow a with
  | None => (1%nat, false)
  | Some 0%nat => (1%nat, true)
  | Some n =>
      match s with
      | b :: s =>
          if negb (second a b) then (1%nat, false) else
          match n, s with
          | 1%nat, _ => (2%nat, true)
          | _, c :: s =>
              if negb (continuation c) then (2%nat, false) else
              match n, s with
              | 2%nat, _ => (3%nat, true)
              | _, d :: _ => if continuation d then (4%nat, true) else (3%nat, false)
              | _, [] => (3%nat, false)
              end
          | _, [] => (2%nat, false)
          end
      | [] => (1%nat, false)
      end
  end.

(** Every turn takes a byte at least. *)
Fixpoint lossy_loop (fuel : nat) (s : bytes) : bytes :=
  match fuel, s with
  | S fuel, a :: rest =>
      let '(n, valid) := chunk a rest in
      (if valid : bool then take n s else REPLACEMENT) ++ lossy_loop fuel (drop n s)
  | _, _ => []
  end.
Definition from_utf8_lossy (s : bytes) : bytes := lossy_loop (length s) s.

(** ** What it does *)

(** The second byte, by the kind of the first. *)
Lemma second_two a b : in_range 194 223 a = true -> second a b = continuation b.
Proof. unfold second, is_char, in_range. intros E. repeat case_match; try done; lia. Qed.
Lemma second_three a b : in_range 224 239 a = true ->
  second a b = if is_char 224 a then in_range 160 191 b else if is_char 237 a then in_range 128 159 b else continuation b.
Proof. unfold second, is_char, in_range. intros E. repeat case_match; try done; lia. Qed.
Lemma second_four a b : in_range 224 239 a = false ->
  second a b = if is_char 240 a then in_range 144 191 b else if is_char 244 a then in_range 128 143 b else continuation b.
Proof. unfold second, is_char, in_range. intros E. repeat case_match; try done; lia. Qed.

(** The validation goes by the same chunks. *)
Lemma is_utf8_chunk a s : is_utf8 (a :: s) = (chunk a s).2 && is_utf8 (drop (chunk a s).1 (a :: s)).
Proof.
  cbn [is_utf8]. unfold chunk, follow. destruct (code a <? 128) eqn:E0; [done|].
  destruct (in_range 194 223 a) eqn:E1; [|destruct (in_range 224 239 a) eqn:E2; [|destruct (in_range 240 244 a) eqn:E3]].
  - destruct s as [|b s]; [done|]. rewrite second_two by done. by destruct (continuation b).
  - destruct s as [|b [|c s]]; [done|by destruct (second a b)|]. rewrite second_three by done.
    destruct (if is_char 224 a then _ else _); [|done]. by destruct (continuation c).
  - destruct s as [|b [|c [|d s]]]; [done|by destruct (second a b)|destruct (second a b); [by destruct (continuation c)|done]|].
    rewrite second_four by done. destruct (if is_char 240 a then _ else _); [|done].
    destruct (continuation c); [|done]. by destruct (continuation d).
  - by destruct s as [|b [|c [|d s]]].
Qed.

Lemma chunk_size a s : (1 <= (chunk a s).1 <= S (length s))%nat.
Proof.
  unfold chunk. destruct (follow a) as [[|[|[|n]]]|], s as [|b [|c [|d s]]]; cbn; repeat case_match; cbn; lia.
Qed.

(** A character is recognised whatever follows it. *)
Lemma chunk_char a s r : (chunk a s).2 = true -> chunk a (take ((chunk a s).1 - 1) s ++ r) = ((chunk a s).1, true).
Proof.
  unfold chunk. destruct (follow a) as [[|[|[|n]]]|], s as [|b [|c [|d s]]]; cbn; try done.
  all: destruct (second a b) eqn:Hb; cbn; rewrite ?Hb; cbn; try done.
  all: destruct (continuation c) eqn:Hc; cbn; rewrite ?Hb, ?Hc; cbn; rewrite ?Hc; cbn; try done.
  all: destruct (continuation d) eqn:Hd; cbn; rewrite ?Hb; cbn; rewrite ?Hc; cbn; by rewrite ?Hd.
Qed.
Lemma is_utf8_char a s r : (chunk a s).2 = true -> is_utf8 (take (chunk a s).1 (a :: s) ++ r) = is_utf8 r.
Proof.
  intros Hc. pose proof (chunk_char a s r Hc) as E. pose proof (chunk_size a s). set (n := (chunk a s).1) in *.
  destruct n as [|n]; [lia|]. cbn [take app]. replace (S n - 1)%nat with n in E by lia.
  rewrite is_utf8_chunk, E. cbn [snd fst andb drop]. f_equal.
  rewrite drop_app_ge, length_take_le, Nat.sub_diag by (rewrite ?length_take; lia). done.
Qed.

Lemma lossy_spec fuel : forall s, (length s <= fuel)%nat ->
  is_utf8 (lossy_loop fuel s) = true /\ (is_utf8 s = true -> lossy_loop fuel s = s).
Proof.
  induction fuel as [|fuel IH]; intros [|a s] Hl; try done; [cbn in Hl; lia|].
  cbn [lossy_loop]. pose proof (chunk_size a s) as Hn. pose proof (is_utf8_chunk a s) as Hu.
  destruct (chunk a s) as [n v] eqn:Ec. cbn [fst snd] in *.
  destruct (IH (drop n (a :: s))) as [IH1 IH2]; [rewrite length_drop; cbn in *; lia|]. split.
  - destruct v; [|by cbn].
    pose proof (is_utf8_char a s (lossy_loop fuel (drop n (a :: s)))) as E. rewrite Ec in E. cbn [fst] in E. by rewrite E.
  - intros Hv. rewrite Hu in Hv. apply andb_true_iff in Hv as [-> Hv]. rewrite IH2 by done. apply take_drop.
Qed.

(** The text is valid, and valid text stays as it is. *)
Lemma lossy_valid s : is_utf8 (from_utf8_lossy s) = true.
Proof. by apply lossy_spec. Qed.
Lemma lossy_id s : is_utf8 s = true -> from_utf8_lossy s = s.
Proof. by apply lossy_spec. Qed.
