(* ===== verification/NetAddr.v ===== *)
(** * Addresses in text: [std::net]

    The recursive-descent parser behind [FromStr] of [IpAddr] and [SocketAddr]
    and their [Display], with the compression of IPv6 addresses, as the standard
    library has them. *)

From Stdlib Require Import Strings.String.
From S2P Require Import Prelude Packet Text.

(** [SocketAddr]; the last two fields are those of [SocketAddrV6], zero in an
    IPv4 address. *)
Record SocketAddr := mkSocketAddr { ip : IpAddr; port : Z; flowinfo : Z; scope_id : Z }.
#[global] Instance SocketAddr_eq_dec : EqDecision SocketAddr.
Proof. solve_decision. Defined.

Definition is_ipv4 (a : SocketAddr) : bool := match ip a with IpV4 _ => true | IpV6 _ => false end.

(** ** Parsing

    A parser consumes a prefix or leaves the state as it was. *)

Abbreviation Parser A := (bytes -> option (A * bytes)) (only parsing).

Definition read_given_char (c : Z) : Parser unit := fun s =>
  match s with b :: s => if is_char c b then Some (tt, s) else None | [] => None end.

Definition read_separator {A} (sep : Z) (index : nat) (inner : Parser A) : Parser A := fun s =>
  if (0 <? index)%nat then '(_, s) ← read_given_char sep s; inner s else inner s.

(** The loop of [read_number] with [max_digits]: the value, the number of digits. *)
Fixpoint bounded_digits (radix : Z) (max_digits : nat) (result : Z) (count : nat) (s : bytes) : option (Z * nat * bytes) :=
  match s with
  | b :: rest =>
      match digit radix b with
      | Some d =>
          if (max_digits <? S count)%nat then None
          else bounded_digits radix max_digits (result * radix + d) (S count) rest
      | None => Some (result, count, s)
      end
  | [] => Some (result, count, s)
  end.

(** The same without: [checked_mul] and [checked_add]. *)
Fixpoint unbounded_digits (max result : Z) (count : nat) (s : bytes) : option (Z * nat * bytes) :=
  match s with
  | b :: rest =>
      match digit 10 b with
      | Some d =>
          if max <? result * 10 then None else
          if max <? result * 10 + d then None else
          unbounded_digits max (result * 10 + d) (S count) rest
      | None => Some (result, count, s)
      end
  | [] => Some (result, count, s)
  end.

Definition leading_zero (s : bytes) : bool := match s with b :: _ => is_char 48 b | [] => false end.

(** [read_number(radix, Some(max_digits), allow_zero_prefix)] into an integer of at
    most [max]. *)
Definition read_number (radix : Z) (max_digits : nat) (allow_zero_prefix : bool) (max : Z) : Parser Z := fun s =>
  '(result, count, rest) ← bounded_digits radix max_digits 0 0 s;
  if (count =? 0)%nat then None
  else if negb allow_zero_prefix && leading_zero s && (1 <? count)%nat then None
  else if result <=? max then Some (result, rest) else None.

(** [read_number(10, None, true)] *)
Definition read_any_number (max : Z) : Parser Z := fun s =>
  '(result, count, rest) ← unbounded_digits max 0 0 s;
  if (count =? 0)%nat then None else Some (result, rest).

Fixpoint read_octets (n i : nat) : Parser (list Z) := fun s =>
  match n with
  | O => Some ([], s)
  | S n =>
      '(x, s) ← read_separator 46 i (read_number 10 3 false 255) s;
      '(l, s) ← read_octets n (S i) s;
      Some (x :: l, s)
  end.
Definition read_ipv4_addr : Parser (list Z) := read_octets 4 0.

(** [read_groups]: the groups read of [slots] slots, whether the last two are an
    embedded IPv4 address. *)
Fixpoint read_groups (slots i : nat) (s : bytes) : list Z * bool * bytes :=
  match slots with
  | O => ([], false, s)
  | S slots =>
      let ipv4 := if (0 <? slots)%nat then read_separator 58 i read_ipv4_addr s else None in
      match ipv4 with
      | Some ([one; two; three; four], rest) => ([one * 256 + two; three * 256 + four], true, rest)
      | _ =>
          match read_separator 58 i (read_number 16 4 true 65535) s with
          | Some (g, rest) => let '(gs, v4, rest) := read_groups slots (S i) rest in (g :: gs, v4, rest)
          | None => ([], false, s)
          end
      end
  end.

Definition read_ipv6_addr : Parser (list Z) := fun s =>
  let '(head, head_ipv4, s) := read_groups 8 0 s in
  if (length head =? 8)%nat then Some (head, s)
  else if head_ipv4 : bool then None
  else
    '(_, s) ← read_given_char 58 s;
    '(_, s) ← read_given_char 58 s;
    let limit := (8 - (length head + 1))%nat in
    let '(tail, _, s) := read_groups limit 0 s in
    Some (head ++ replicate (8 - length head - length tail) 0 ++ tail, s).

(** Octets and segments as the bytes of an address. *)
Definition of_octets (l : list Z) : IpAddr := IpV4 (byte.of_Z <$> l).
Definition of_segments (l : list Z) : IpAddr := IpV6 (concat (to_be 2 <$> l)).

Definition read_ip_addr : Parser IpAddr := fun s =>
  match read_ipv4_addr s with
  | Some (l, rest) => Some (of_octets l, rest)
  | None => '(l, rest) ← read_ipv6_addr s; Some (of_segments l, rest)
  end.

Definition read_port : Parser Z := fun s => '(_, s) ← read_given_char 58 s; read_any_number 65535 s.
Definition read_scope_id : Parser Z := fun s => '(_, s) ← read_given_char 37 s; read_any_number (2 ^ 32 - 1) s.

Definition read_socket_addr_v4 : Parser SocketAddr := fun s =>
  '(l, s) ← read_ipv4_addr s;
  '(port, s) ← read_port s;
  Some (mkSocketAddr (of_octets l) port 0 0, s).

Definition read_socket_addr_v6 : Parser SocketAddr := fun s =>
  '(_, s) ← read_given_char 91 s;
  '(l, s) ← read_ipv6_addr s;
  let '(scope_id, s) := match read_scope_id s with Some (x, rest) => (x, rest) | None => (0, s) end in
  '(_, s) ← read_given_char 93 s;
  '(port, s) ← read_port s;
  Some (mkSocketAddr (of_segments l) port 0 scope_id, s).

Definition read_socket_addr : Parser SocketAddr := fun s =>
  match read_socket_addr_v4 s with Some r => Some r | None => read_socket_addr_v6 s end.

(** [parse_with]: all of the text must be consumed. *)
Definition parse_with {A} (inner : Parser A) (s : bytes) : option A :=
  match inner s with Some (a, []) => Some a | _ => None end.
Definition parse_ip_addr : bytes -> option IpAddr := parse_with read_ip_addr.
Definition parse_socket_addr : bytes -> option SocketAddr := parse_with read_socket_addr.

(** ** Printing *)

Definition show_ipv4 (o : list Z) : bytes :=
  match o with
  | [a; b; c; d] => show a ++ str "." ++ show b ++ str "." ++ show c ++ str "." ++ show d
  | _ => []
  end.

(** [Ipv6Addr::segments] *)
Fixpoint segments (b : bytes) : list Z :=
  match b with
  | x :: y :: b => code x * 256 + code y :: segments b
  | _ => []
  end.

(** The longest run of zeros, the first of several: its start and length. *)
Fixpoint zero_span (i : nat) (current longest : nat * nat) (l : list Z) : nat * nat :=
  match l with
  | [] => longest
  | x :: l =>
      if x =? 0 then
        let start := if (current.2 =? 0)%nat then i else current.1 in
        let current := (start, S current.2) in
        let longest := if (longest.2 <? current.2)%nat then current else longest in
        zero_span (S i) current longest l
      else zero_span (S i) (0, 0)%nat longest l
  end.

Fixpoint fmt_tail (l : list Z) : bytes :=
  match l with [] => [] | x :: l => str ":" ++ show_hex x ++ fmt_tail l end.
Definition fmt_subslice (l : list Z) : bytes :=
  match l with [] => [] | x :: l => show_hex x ++ fmt_tail l end.

(** [to_ipv4_mapped] *)
Definition ipv4_mapped (l : list Z) : option (list Z) :=
  match l with
  | [0; 0; 0; 0; 0; 65535; x; y] => Some [x / 256; x mod 256; y / 256; y mod 256]
  | _ => None
  end.

Definition show_ipv6 (l : list Z) : bytes :=
  match ipv4_mapped l with
  | Some o => str "::ffff:" ++ show_ipv4 o
  | None =>
      let '(start, len) := zero_span 0 (0, 0)%nat (0, 0)%nat l in
      if (1 <? len)%nat then fmt_subslice (take start l) ++ str "::" ++ fmt_subslice (drop (start + len) l)
      else fmt_subslice l
  end.

Definition show_ip (a : IpAddr) : bytes :=
  match a with
  | IpV4 b => show_ipv4 (code <$> b)
  | IpV6 b => show_ipv6 (segments b)
  end.

Definition show_socket_addr (a : SocketAddr) : bytes :=
  match ip a with
  | IpV4 _ => show_ip (ip a) ++ str ":" ++ show (port a)
  | IpV6 _ =>
      if scope_id a =? 0 then str "[" ++ show_ip (ip a) ++ str "]:" ++ show (port a)
      else str "[" ++ show_ip (ip a) ++ str "%" ++ show (scope_id a) ++ str "]:" ++ show (port a)
  end.

(** The standard library's examples. *)
Example parse_loopback : parse_ip_addr (str "127.0.0.1") = Some (IpV4 (bytes_of [127; 0; 0; 1])).
Proof. reflexivity. Qed.
Example refuse_octal : parse_ip_addr (str "127.0.0.01") = None.
Proof. reflexivity. Qed.
Example parse_v6 : show_ip <$> parse_ip_addr (str "2001:db8:0:0:1:0:0:1") = Some (str "2001:db8::1:0:0:1").
Proof. reflexivity. Qed.
Example parse_mapped : show_ip <$> parse_ip_addr (str "0::FFFF:10.0.0.1") = Some (str "::ffff:10.0.0.1").
Proof. reflexivity. Qed.
Example parse_endpoint : show_socket_addr <$> parse_socket_addr (str "[fe80::1%3]:51820") = Some (str "[fe80::1%3]:51820").
Proof. reflexivity. Qed.
Example refuse_port : parse_socket_addr (str "10.0.0.1:65536") = None.
Proof. reflexivity. Qed.

(** ** Reading what was printed *)

(** What follows does not continue a number. *)
Definition stops (radix : Z) (s : bytes) : Prop := match s with [] => True | b :: _ => digit radix b = None end.

Lemma bounded_digits_spec radix max ds rest : 2 <= radix <= 16 -> Forall (fun d => 0 <= d < radix) ds -> stops radix rest ->
  forall a c, (c + length ds <= max)%nat ->
  bounded_digits radix max a c ((digit_char <$> ds) ++ rest) =
    Some (fold_left (fun a d => a * radix + d) ds a, (c + length ds)%nat, rest).
Proof.
  intros Hr Hd Hs. induction Hd as [|d ds Hd _ IH]; intros a c Hc; cbn [fmap list_fmap app bounded_digits fold_left length].
  - rewrite Nat.add_0_r. destruct rest as [|b rest]; [done|]. cbn. cbn in Hs. by rewrite Hs.
  - cbn [length] in Hc. rewrite digit_digit_char by lia. rewrite (proj2 (Nat.ltb_ge _ _)) by lia.
    rewrite IH by lia. do 3 f_equal. lia.
Qed.

Lemma unbounded_digits_spec max ds rest : Forall (fun d => 0 <= d < 10) ds -> stops 10 rest ->
  forall a c, 0 <= a -> fold_left (fun a d => a * 10 + d) ds a <= max ->
  unbounded_digits max a c ((digit_char <$> ds) ++ rest) =
    Some (fold_left (fun a d => a * 10 + d) ds a, (c + length ds)%nat, rest).
Proof.
  intros Hd Hs. induction Hd as [|d ds Hd Hds IH]; intros a c Ha Hm; cbn [fmap list_fmap app unbounded_digits fold_left length].
  - rewrite Nat.add_0_r. destruct rest as [|b rest]; [done|]. cbn. cbn in Hs. by rewrite Hs.
  - cbn in Hm. rewrite digit_digit_char by lia. pose proof (value_mono 10 ds ltac:(lia) Hds (a * 10 + d) ltac:(lia)).
    rewrite (proj2 (Z.ltb_ge _ _)) by lia. rewrite (proj2 (Z.ltb_ge _ _)) by lia.
    rewrite IH by lia. do 3 f_equal. lia.
Qed.

Lemma digits_nonempty radix n ds : digits_of radix n ds -> (length ds =? 0)%nat = false.
Proof. intros [_ _ [->|(d & rest & -> & _)] _]; done. Qed.

Lemma no_leading_zero radix n ds rest : 2 <= radix <= 16 -> digits_of radix n ds ->
  leading_zero ((digit_char <$> ds) ++ rest) && (1 <? length ds)%nat = false.
Proof.
  intros Hr [Fr _ [->|(d & l & -> & Hd)] _]; [apply andb_false_r|]. apply Forall_cons_iff in Fr as [Hd' _].
  cbn [fmap list_fmap app leading_zero]. unfold is_char, code, digit_char. rewrite byte.unsigned_of_Z. unfold byte.wrap.
  rewrite (proj2 (Z.eqb_neq _ _)); [done|]. destruct (Z.ltb_spec d 10); rewrite Z.mod_small by lia; lia.
Qed.

Lemma read_number_show radix k allow max n fuel rest : 2 <= radix <= 16 -> 0 <= n <= max -> max < radix ^ Z.of_nat k ->
  (0 < k <= fuel)%nat -> stops radix rest ->
  read_number radix k allow max (show_digits fuel radix n [] ++ rest) = Some (n, rest).
Proof.
  intros Hr Hn Hm Hk Hs. assert (radix ^ Z.of_nat k <= radix ^ Z.of_nat fuel) by (apply Z.pow_le_mono_r; lia).
  destruct (show_digits_spec radix ltac:(lia) fuel n []) as (ds & E & Hd); [lia|lia|]. rewrite E, app_nil_r.
  unfold read_number. pose proof (do_small _ _ _ Hd k ltac:(lia) ltac:(lia)) as Hl.
  rewrite (bounded_digits_spec radix k ds rest Hr (do_range _ _ _ Hd) Hs 0 0) by lia. cbn [mbind option_bind Nat.add].
  rewrite (digits_nonempty _ _ _ Hd). rewrite <- andb_assoc, (no_leading_zero _ _ _ _ Hr Hd), andb_false_r.
  pose proof (do_value _ _ _ Hd) as Fv. unfold value in Fv. rewrite Fv. by rewrite (proj2 (Z.leb_le _ _)) by lia.
Qed.

Lemma read_decimal n rest : 0 <= n < 256 -> stops 10 rest -> read_number 10 3 false 255 (show n ++ rest) = Some (n, rest).
Proof. intros Hn Hs. apply read_number_show; [lia|lia|done|lia|done]. Qed.

Lemma read_hexadecimal n rest : 0 <= n < 65536 -> stops 16 rest -> read_number 16 4 true 65535 (show_hex n ++ rest) = Some (n, rest).
Proof. intros Hn Hs. apply read_number_show; [lia|lia|done|lia|done]. Qed.

Lemma read_any_show max n rest : 0 <= n <= max -> max < 10 ^ 20 -> stops 10 rest -> read_any_number max (show n ++ rest) = Some (n, rest).
Proof.
  intros Hn Hm Hs. destruct (show_digits_spec 10 ltac:(lia) 20 n []) as (ds & E & Hd); [lia|lia|].
  unfold show. rewrite E, app_nil_r. unfold read_any_number. pose proof (do_value _ _ _ Hd) as Fv. unfold value in Fv.
  rewrite (unbounded_digits_spec max ds rest (do_range _ _ _ Hd) Hs 0 0) by lia. cbn [mbind option_bind Nat.add].
  rewrite (digits_nonempty _ _ _ Hd). by rewrite Fv.
Qed.

(** *** IPv4 *)

Lemma given_dot s : read_given_char 46 (str "." ++ s) = Some (tt, s).
Proof. done. Qed.
Lemma given_colon s : read_given_char 58 (str ":" ++ s) = Some (tt, s).
Proof. done. Qed.

Lemma read_ipv4_show o rest : length o = 4%nat -> Forall (fun x => 0 <= x < 256) o -> stops 10 rest ->
  read_ipv4_addr (show_ipv4 o ++ rest) = Some (o, rest).
Proof.
  intros L F Hs. destruct o as [|a [|b [|c [|d [|]]]]]; try discriminate L.
  apply Forall_cons_iff in F as [Ha F]. apply Forall_cons_iff in F as [Hb F]. apply Forall_cons_iff in F as [Hc F].
  apply Forall_cons_iff in F as [Hd _]. unfold read_ipv4_addr, show_ipv4. rewrite <- !app_assoc.
  cbn [read_octets]. unfold read_separator. cbn [Nat.ltb Nat.leb].
  repeat (rewrite ?given_dot; cbn [mbind option_bind]; rewrite read_decimal by done; cbn [mbind option_bind]). done.
Qed.

Lemma of_code b : byte.of_Z (code b) = b.
Proof. apply byte.of_Z_unsigned. Qed.
Lemma code_range b : 0 <= code b < 256.
Proof. apply byte.unsigned_range. Qed.

Lemma octets_code (b : bytes) : of_octets (code <$> b) = IpV4 b.
Proof. unfold of_octets. f_equal. rewrite <- list_fmap_compose. rewrite <- (list_fmap_id b) at 2. apply list_fmap_ext. intros i x _. apply of_code. Qed.

Lemma codes_range (b : bytes) : Forall (fun x => 0 <= x < 256) (code <$> b).
Proof. apply Forall_fmap, Forall_true. intros x. apply code_range. Qed.

(** *** IPv6 *)

Lemma digit_16_10 b : digit 16 b = None -> digit 10 b = None.
Proof.
  unfold digit. cbn zeta. repeat match goal with |- context [if ?c then _ else _] => destruct c eqn:? end; try done; lia.
Qed.
Lemma stops_16_10 s : stops 16 s -> stops 10 s.
Proof. destruct s; [done|]. apply digit_16_10. Qed.

Lemma read_number_stops radix k allow max s : stops radix s -> read_number radix k allow max s = None.
Proof. unfold read_number. destruct s as [|b s]; [done|]. cbn. intros ->. done. Qed.

Lemma read_ipv4_stops s : stops 10 s -> read_ipv4_addr s = None.
Proof. intros Hs. unfold read_ipv4_addr. cbn [read_octets]. unfold read_separator. cbn [Nat.ltb Nat.leb]. by rewrite read_number_stops. Qed.

(** What may follow a group: no digit, no dot, and after a colon no digit. *)
Definition closes (s : bytes) : Prop :=
  stops 16 s /\ read_given_char 46 s = None /\ match read_given_char 58 s with Some (_, r) => stops 16 r | None => True end.

Lemma digit_char_no_dot d : 0 <= d < 16 -> is_char 46 (digit_char d) = false.
Proof. intros Hd. apply (digit_char_not 16); lia. Qed.

Lemma bounded_digits_rest k ds rest : Forall (fun d => 0 <= d < 16) ds -> stops 10 rest -> read_given_char 46 rest = None ->
  forall a c v n r, bounded_digits 10 k a c ((digit_char <$> ds) ++ rest) = Some (v, n, r) -> read_given_char 46 r = None.
Proof.
  intros Hd Hs Hdot. induction Hd as [|d ds Hd _ IH]; intros a c v n r; cbn [fmap list_fmap app bounded_digits].
  - destruct rest as [|b rest]; [by intros [= _ _ <-]|]. cbn in Hs. cbn [bounded_digits]. rewrite Hs. by intros [= _ _ <-].
  - destruct (digit 10 (digit_char d)) as [x|].
    + destruct (_ <? _)%nat; [done|]. apply IH.
    + intros [= _ _ <-]. cbn. by rewrite digit_char_no_dot.
Qed.

Lemma not_ipv4 g rest : 0 <= g < 65536 -> stops 16 rest -> read_given_char 46 rest = None ->
  read_ipv4_addr (show_hex g ++ rest) = None.
Proof.
  intros Hg Hs Hdot. destruct (show_digits_spec 16 ltac:(lia) 16 g []) as (ds & E & Hd); [lia|lia|].
  unfold show_hex. rewrite E, app_nil_r. set (s := (digit_char <$> ds) ++ rest).
  change (read_ipv4_addr s) with ('(x, s) ← read_number 10 3 false 255 s; '(l, s) ← read_octets 3 1 s; Some (x :: l, s)).
  destruct (read_number 10 3 false 255 s) as [[v r]|] eqn:En; [|done]. cbn [mbind option_bind].
  assert (Er : read_given_char 46 r = None); [|change (read_octets 3 1 r) with
    ('(x, s) ← ('(_, s) ← read_given_char 46 r; read_number 10 3 false 255 s); '(l, s) ← read_octets 2 2 s; Some (x :: l, s)); by rewrite Er].
  unfold read_number in En. destruct (bounded_digits 10 3 0 0 s) as [[[v' n] r']|] eqn:Eb; [|done].
  apply bounded_digits_rest in Eb; [|apply Hd|by apply stops_16_10|done]. cbn [mbind option_bind] in En.
  destruct (_ =? _)%nat; [done|]. destruct (_ && _); [done|]. destruct (_ <=? _); [|done]. by injection En as _ <-.
Qed.

Lemma closes_tail gs rest : closes rest -> stops 16 (fmt_tail gs ++ rest) /\ read_given_char 46 (fmt_tail gs ++ rest) = None.
Proof. intros (Hs & Hd & _). by destruct gs. Qed.

Definition is_group (x : Z) : Prop := 0 <= x < 65536.

(** The groups after the first: each has a colon in front. *)
Lemma read_groups_tail gs rest : Forall is_group gs -> closes rest -> forall slots i, (length gs <= slots)%nat ->
  read_groups slots (S i) (fmt_tail gs ++ rest) = (gs, false, rest).
Proof.
  intros Hg Hc. induction Hg as [|x gs Hx _ IH]; intros slots i L.
  - destruct slots as [|n]; [done|]. cbn [fmt_tail app read_groups]. destruct Hc as (Hs & _ & Hc). unfold read_separator. cbn [Nat.ltb Nat.leb].
    destruct (read_given_char 58 rest) as [[[] r]|] eqn:E.
    + cbn [mbind option_bind]. rewrite (read_ipv4_stops r) by (by apply stops_16_10).
      rewrite (read_number_stops 16) by done. by destruct n.
    + cbn [mbind option_bind]. by destruct n.
  - destruct slots as [|n]; [cbn in L; lia|]. cbn [length] in L. cbn [fmt_tail]. rewrite <- !app_assoc. cbn [read_groups].
    destruct (closes_tail gs rest Hc) as [Hs Hd]. unfold read_separator. cbn [Nat.ltb Nat.leb]. rewrite given_colon. cbn [mbind option_bind].
    rewrite (not_ipv4 x) by done. rewrite read_hexadecimal by done. rewrite IH by lia. by destruct n.
Qed.

Lemma read_groups_show gs rest slots : Forall is_group gs -> closes rest -> (length gs <= slots)%nat ->
  read_groups slots 0 (fmt_subslice gs ++ rest) = (gs, false, rest).
Proof.
  intros Hg Hc L. destruct gs as [|x gs]; destruct slots as [|n]; try (cbn in L; lia); [done|..].
  - cbn [fmt_subslice app read_groups]. unfold read_separator. cbn [Nat.ltb Nat.leb]. destruct Hc as (Hs & _).
    rewrite read_ipv4_stops by (by apply stops_16_10). rewrite (read_number_stops 16) by done. by destruct n.
  - cbn [length] in L. apply Forall_cons_iff in Hg as [Hx Hg]. cbn [fmt_subslice]. rewrite <- app_assoc. cbn [read_groups].
    destruct (closes_tail gs rest Hc) as [Hs Hd]. unfold read_separator. cbn [Nat.ltb Nat.leb].
    rewrite (not_ipv4 x) by done. rewrite read_hexadecimal by done. rewrite read_groups_tail by (done || lia). by destruct n.
Qed.

(** The span of zeros is one. *)
Definition zeros_at (l : list Z) (start len : nat) : Prop := forall j, (start <= j < start + len)%nat -> l !! j = Some 0.

Lemma zero_span_spec l : forall pre cur longest,
  zeros_at (pre ++ l) longest.1 longest.2 ->
  (cur.2 = 0%nat \/ (cur.1 + cur.2 = length pre)%nat /\ zeros_at (pre ++ l) cur.1 cur.2) ->
  let r := zero_span (length pre) cur longest l in zeros_at (pre ++ l) r.1 r.2.
Proof.
  induction l as [|x l IH]; intros pre cur longest Hl Hc; cbn [zero_span]; [done|].
  replace (pre ++ x :: l) with ((pre ++ [x]) ++ l) in * by (by rewrite <- app_assoc).
  replace (S (length pre)) with (length (pre ++ [x])) by (rewrite length_app; cbn; lia).
  destruct (Z.eqb_spec x 0) as [->|Hx]; [|apply IH; [done|by left]]. cbn zeta.
  set (start := if (cur.2 =? 0)%nat then length pre else cur.1).
  assert (Hcur : (start + S cur.2 = length (pre ++ [0]%Z))%nat /\ zeros_at ((pre ++ [0]) ++ l) start (S cur.2)).
  { rewrite length_app. cbn [length]. assert (Hx : ((pre ++ [0]) ++ l) !! length pre = Some 0).
    { rewrite <- app_assoc. cbn. by rewrite lookup_app_r, Nat.sub_diag by lia. }
    unfold start. destruct (Nat.eqb_spec cur.2 0) as [E0|E0].
    - split; [lia|]. intros j Hj. replace j with (length pre) by lia. done.
    - destruct Hc as [?|[E Hz]]; [done|]. split; [lia|]. intros j Hj.
      destruct (decide (j = length pre)) as [->|]; [done|]. apply Hz. lia. }
  apply IH; [|right; exact Hcur]. destruct (_ <? _)%nat; [exact (proj2 Hcur)|exact Hl].
Qed.

Lemma zeros_split (l : list Z) start len : zeros_at l start len -> (0 < len)%nat ->
  (start + len <= length l)%nat /\ l = take start l ++ replicate len 0 ++ drop (start + len) l.
Proof.
  intros Hz Hl. assert (L : (start + len <= length l)%nat).
  { pose proof (Hz (start + len - 1)%nat ltac:(lia)) as E. apply lookup_lt_Some in E. lia. }
  split; [done|]. rewrite <- (take_drop start l) at 1. f_equal. rewrite <- (take_drop len (drop start l)) at 1.
  rewrite drop_drop. f_equal. apply list_eq. intros j. destruct (decide (j < len)%nat).
  - rewrite lookup_take_lt, lookup_drop by done. rewrite Hz by lia. by rewrite lookup_replicate_2.
  - rewrite !(lookup_ge_None_2); [done|rewrite length_replicate; lia|rewrite length_take, length_drop; lia].
Qed.

(** What may follow an address. *)
Definition follows (s : bytes) : Prop := stops 16 s /\ read_given_char 46 s = None /\ read_given_char 58 s = None.
Lemma follows_closes s : follows s -> closes s.
Proof. intros (Hs & Hd & Hc). split_and!; [done|done|by rewrite Hc]. Qed.

Lemma closes_colons s : closes (str "::" ++ s).
Proof. done. Qed.

Lemma ipv4_mapped_spec l o : ipv4_mapped l = Some o -> Forall is_group l ->
  exists x y, l = [0; 0; 0; 0; 0; 65535; x; y] /\ o = [x / 256; x mod 256; y / 256; y mod 256] /\ is_group x /\ is_group y.
Proof.
  intros E F. unfold ipv4_mapped in E. repeat case_match; try discriminate E. injection E as <-. subst.
  do 6 apply Forall_cons_iff in F as [_ F]. apply Forall_cons_iff in F as [Hx F]. apply Forall_cons_iff in F as [Hy _].
  eauto 6.
Qed.

Lemma split_group x : is_group x -> 0 <= x / 256 < 256 /\ 0 <= x mod 256 < 256 /\ x / 256 * 256 + x mod 256 = x.
Proof. unfold is_group. intros Hx. dlia. Qed.

Lemma read_mapped x y rest : is_group x -> is_group y -> follows rest ->
  read_ipv6_addr (str "::ffff:" ++ show_ipv4 [x / 256; x mod 256; y / 256; y mod 256] ++ rest) =
    Some ([0; 0; 0; 0; 0; 65535; x; y], rest).
Proof.
  intros Hx Hy Hf. destruct (split_group x Hx) as (X1 & X2 & X3), (split_group y Hy) as (Y1 & Y2 & Y3).
  set (v4 := show_ipv4 _). unfold read_ipv6_addr.
  pose proof (read_groups_show [] (str "::ffff:" ++ v4 ++ rest) 8 ltac:(constructor) ltac:(done) ltac:(cbn; lia)) as E0.
  cbn [fmt_subslice app] in E0. rewrite E0. cbn [length Nat.eqb].
  change (str "::ffff:" ++ v4 ++ rest) with (str ":" ++ str ":" ++ show_hex 65535 ++ str ":" ++ v4 ++ rest).
  rewrite given_colon. cbn [mbind option_bind]. rewrite given_colon. cbn [mbind option_bind Nat.add Nat.sub].
  assert (Hv : read_ipv4_addr (v4 ++ rest) = Some ([x / 256; x mod 256; y / 256; y mod 256], rest)).
  { apply read_ipv4_show; [done|repeat (constructor; [done|]); constructor|]. apply stops_16_10, Hf. }
  assert (Hn : read_ipv4_addr (show_hex 65535 ++ str ":" ++ v4 ++ rest) = None) by (by apply not_ipv4).
  assert (Hh : read_number 16 4 true 65535 (show_hex 65535 ++ str ":" ++ v4 ++ rest) = Some (65535, str ":" ++ v4 ++ rest))
    by (by apply read_hexadecimal).
  change (read_groups 7 0 (show_hex 65535 ++ str ":" ++ v4 ++ rest)) with
    (match read_ipv4_addr (show_hex 65535 ++ str ":" ++ v4 ++ rest) with
     | Some ([one; two; three; four], rest) => ([one * 256 + two; three * 256 + four], true, rest)
     | _ => match read_number 16 4 true 65535 (show_hex 65535 ++ str ":" ++ v4 ++ rest) with
            | Some (g, rest) => let '(gs, v4, rest) := read_groups 6 1 rest in (g :: gs, v4, rest)
            | None => ([], false, show_hex 65535 ++ str ":" ++ v4 ++ rest) end end).
  rewrite Hn, Hh.
  change (read_groups 6 1 (str ":" ++ v4 ++ rest)) with
    (match read_ipv4_addr (v4 ++ rest) with
     | Some ([one; two; three; four], rest) => ([one * 256 + two; three * 256 + four], true, rest)
     | _ => match read_number 16 4 true 65535 (v4 ++ rest) with
            | Some (g, rest) => let '(gs, v4, rest) := read_groups 5 2 rest in (g :: gs, v4, rest)
            | None => ([], false, str ":" ++ v4 ++ rest) end end).
  rewrite Hv, X3, Y3. done.
Qed.

Lemma read_ipv6_show l rest : length l = 8%nat -> Forall is_group l -> follows rest ->
  read_ipv6_addr (show_ipv6 l ++ rest) = Some (l, rest).
Proof.
  intros L F Hf. pose proof (follows_closes _ Hf) as Hc. unfold show_ipv6. destruct (ipv4_mapped l) as [o|] eqn:Em.
  { destruct (ipv4_mapped_spec l o Em F) as (x & y & -> & -> & Hx & Hy). rewrite <- app_assoc. by apply read_mapped. }
  pose proof (zero_span_spec l [] (0, 0)%nat (0, 0)%nat) as Hz. cbn zeta in Hz. cbn [length app fst snd] in Hz.
  destruct (zero_span 0 _ _ l) as [start len]. cbn [fst snd] in Hz. destruct (Nat.ltb_spec 1 len) as [Hl|Hl].
  - destruct (zeros_split l start len) as [Hle El]; [apply Hz; [intros j; lia|by left]|lia|].
    set (hd := take start l) in *. set (tl := drop (start + len) l) in *.
    assert (Lh : length hd = start) by (unfold hd; rewrite length_take; lia).
    assert (Lt : length tl = (8 - (start + len))%nat) by (unfold tl; rewrite length_drop; lia).
    assert (Fh : Forall is_group hd) by (by apply Forall_take). assert (Ft : Forall is_group tl) by (by apply Forall_drop).
    rewrite <- !app_assoc. unfold read_ipv6_addr.
    rewrite (read_groups_show hd (str "::" ++ fmt_subslice tl ++ rest) 8 Fh (closes_colons _)) by lia.
    rewrite (proj2 (Nat.eqb_neq _ _)) by lia.
    change (str "::" ++ fmt_subslice tl ++ rest) with (str ":" ++ str ":" ++ fmt_subslice tl ++ rest).
    rewrite given_colon. cbn [mbind option_bind]. rewrite given_colon. cbn [mbind option_bind].
    rewrite (read_groups_show tl rest _ Ft Hc) by lia.
    replace (8 - length hd - length tl)%nat with len by lia. by rewrite <- El.
  - unfold read_ipv6_addr. rewrite (read_groups_show l rest 8 F Hc) by lia. by rewrite L.
Qed.

(** No printed IPv6 address starts like an IPv4 address. *)
Lemma show_ipv6_not_v4 l rest : Forall is_group l -> follows rest -> read_ipv4_addr (show_ipv6 l ++ rest) = None.
Proof.
  intros F Hf. pose proof (follows_closes _ Hf) as Hc. unfold show_ipv6.
  assert (Hsub : forall gs r, Forall is_group gs -> closes r -> read_ipv4_addr (fmt_subslice gs ++ r) = None).
  { intros gs r Fg Hr. destruct gs as [|x gs]; [apply read_ipv4_stops, stops_16_10, Hr|].
    apply Forall_cons_iff in Fg as [Hx _]. cbn [fmt_subslice]. rewrite <- app_assoc.
    destruct (closes_tail gs r Hr). by apply not_ipv4. }
  destruct (ipv4_mapped l); [done|]. destruct (zero_span 0 _ _ l) as [start len]. destruct (_ <? _)%nat.
  - rewrite <- !app_assoc. apply Hsub; [by apply Forall_take|apply closes_colons].
  - by apply Hsub.
Qed.

(** *** Addresses *)

Definition wf_ip (a : IpAddr) : Prop := match a with IpV4 b => length b = 4%nat | IpV6 b => length b = 16%nat end.

Lemma segments_groups b : Forall is_group (segments b).
Proof.
  enough (H2 : forall n b, (length b <= n)%nat -> Forall is_group (segments b)) by (by apply (H2 (length b))).
  clear b. induction n as [|n IH]; intros [|x [|y b]] L; cbn in *; try lia; try constructor.
  - unfold is_group. pose proof (code_range x). pose proof (code_range y). lia.
  - apply IH. lia.
Qed.

Lemma of_segments_eq b k : length b = (2 * k)%nat -> concat (to_be 2 <$> segments b) = b /\ length (segments b) = k.
Proof.
  revert b. induction k as [|k IH]; intros b L; [by destruct b|].
  destruct b as [|x [|y b]]; try (cbn in L; lia). destruct (IH b) as [E El]; [cbn in L; lia|].
  cbn [segments fmap list_fmap concat length]. rewrite E, El. split; [|done].
  pose proof (code_range x). pose proof (code_range y). 
  change (to_be 2 (code x * 256 + code y)) with
    [byte.of_Z (Z.shiftr (code x * 256 + code y) 8); byte.of_Z (code x * 256 + code y)].
  assert (E1 : byte.of_Z (code x * 256 + code y) = y).
  { rewrite <- (of_code y) at 2. apply byte.unsigned_inj. rewrite !byte.unsigned_of_Z. unfold byte.wrap. dlia. }
  assert (E2 : byte.of_Z (Z.shiftr (code x * 256 + code y) 8) = x).
  { rewrite Z.shiftr_div_pow2 by lia. rewrite <- (of_code x) at 2. f_equal. dlia. }
  by rewrite E1, E2.
Qed.

Lemma read_ip_show a rest : wf_ip a -> follows rest -> read_ip_addr (show_ip a ++ rest) = Some (a, rest).
Proof.
  intros Hw Hf. unfold read_ip_addr. destruct a as [b|b]; cbn [wf_ip show_ip] in *.
  - rewrite read_ipv4_show; [|by rewrite length_fmap|apply codes_range|apply stops_16_10, Hf]. by rewrite octets_code.
  - destruct (of_segments_eq b 8 ltac:(lia)) as [E L]. pose proof (segments_groups b) as F.
    rewrite show_ipv6_not_v4, (read_ipv6_show _ _ L F Hf) by done. cbn. unfold of_segments. by rewrite E.
Qed.

Lemma parse_show_ip a : wf_ip a -> parse_ip_addr (show_ip a) = Some a.
Proof.
  intros Hw. unfold parse_ip_addr, parse_with. rewrite <- (app_nil_r (show_ip a)). by rewrite read_ip_show.
Qed.

Definition wf_socket_addr (a : SocketAddr) : Prop :=
  wf_ip (ip a) /\ 0 <= port a < 65536 /\ flowinfo a = 0 /\
  match ip a with IpV4 _ => scope_id a = 0 | IpV6 _ => 0 <= scope_id a < 2 ^ 32 end.

Lemma read_port_show n : 0 <= n < 65536 -> read_port (str ":" ++ show n) = Some (n, []).
Proof.
  intros Hn. unfold read_port. rewrite given_colon. cbn [mbind option_bind]. rewrite <- (app_nil_r (show n)).
  apply read_any_show; [lia|done|done].
Qed.

Lemma given_closing s : read_given_char 93 (str "]" ++ s) = Some (tt, s).
Proof. done. Qed.
Lemma given_percent s : read_given_char 37 (str "%" ++ s) = Some (tt, s).
Proof. done. Qed.
Lemma given_opening s : read_given_char 91 (str "[" ++ s) = Some (tt, s).
Proof. done. Qed.

Lemma read_v6_socket b sc n rest : length b = 16%nat -> 0 <= n < 65536 -> follows rest ->
  match read_scope_id rest with Some (x, r) => (x, r) | None => (0, rest) end = (sc, str "]:" ++ show n) ->
  read_socket_addr_v6 (str "[" ++ show_ipv6 (segments b) ++ rest) = Some (mkSocketAddr (IpV6 b) n 0 sc, []).
Proof.
  intros L Hn Hf Hs. destruct (of_segments_eq b 8 ltac:(lia)) as [E L8]. unfold read_socket_addr_v6.
  rewrite given_opening. cbn [mbind option_bind]. rewrite (read_ipv6_show _ _ L8 (segments_groups b) Hf). cbn [mbind option_bind].
  rewrite Hs. change (str "]:" ++ show n) with (str "]" ++ str ":" ++ show n). rewrite given_closing. cbn [mbind option_bind].
  rewrite read_port_show by done. cbn. unfold of_segments. by rewrite E.
Qed.

Lemma parse_show_socket_addr a : wf_socket_addr a -> parse_socket_addr (show_socket_addr a) = Some a.
Proof.
  destruct a as [a p fl sc]. intros (Hw & Hp & Hfl & Hsc). cbn [ip port flowinfo scope_id] in *. subst fl.
  unfold parse_socket_addr, parse_with, read_socket_addr, show_socket_addr. cbn [ip port scope_id].
  destruct a as [b|b]; cbn [wf_ip show_ip] in *.
  - subst sc. unfold read_socket_addr_v4. rewrite read_ipv4_show; [|by rewrite length_fmap|apply codes_range|done].
    cbn [mbind option_bind]. rewrite read_port_show by done. cbn. by rewrite octets_code.
  - assert (Hv4 : forall s, read_socket_addr_v4 (str "[" ++ s) = None)
      by (intros s; unfold read_socket_addr_v4; by rewrite read_ipv4_stops).
    destruct (Z.eqb_spec sc 0) as [->|Hne]; rewrite Hv4.
    + by rewrite (read_v6_socket b 0 p (str "]:" ++ show p)).
    + rewrite (read_v6_socket b sc p (str "%" ++ show sc ++ str "]:" ++ show p)); [done|done|done|done|].
      unfold read_scope_id. rewrite given_percent. cbn [mbind option_bind].
      by rewrite (read_any_show (2 ^ 32 - 1) sc (str "]:" ++ show p)) by (done || lia).
Qed.
