(* ===== verification/Lines.v ===== *)
(** * Lines of configuration text

    What [read_line], [pop], [split] and [splitn] make of a line [key=value] that
    was printed, and that the printed values are plain: ASCII, on one line. *)

From Stdlib Require Import Strings.String.
From S2P Require Import Prelude KeyBytes Packet Text NetAddr.

(** ** The characters of what is printed *)

Section Chars.
Variable ok : byte -> bool.
Definition made_of (s : bytes) : Prop := Forall (fun b => ok b = true) s.

Lemma made_of_app s t : made_of (s ++ t) <-> made_of s /\ made_of t.
Proof. apply Forall_app. Qed.

(** Digits, and what stands between them in an address. *)
Definition marks : bytes := str ".:[]%f".
Hypothesis ok_digits : forall d, 0 <= d < 16 -> ok (digit_char d) = true.
Hypothesis ok_marks : forallb ok marks = true.

Lemma made_of_marks s : forallb (fun b => bool_decide (b ∈ marks)) s = true -> made_of s.
Proof.
  intros Hs. apply List.Forall_forall. intros b Hb. apply (proj1 (forallb_forall _ _) ok_marks).
  apply list_elem_of_In. by apply (bool_decide_eq_true_1 _), (proj1 (forallb_forall _ _) Hs).
Qed.
Lemma made_of_digits radix fuel : 0 < radix <= 16 -> forall n acc, made_of acc -> made_of (show_digits fuel radix n acc).
Proof.
  intros Hr. induction fuel as [|fuel IH]; intros n acc Ha; cbn [show_digits]; [done|]. cbn zeta.
  pose proof (Z.mod_pos_bound n radix ltac:(lia)).
  assert (made_of (digit_char (n mod radix) :: acc)) by (constructor; [apply ok_digits; lia|done]).
  destruct (_ =? 0); [done|]. by apply IH.
Qed.
Lemma made_of_show n : made_of (show n).
Proof. apply made_of_digits; [lia|constructor]. Qed.
Lemma made_of_show_hex n : made_of (show_hex n).
Proof. apply made_of_digits; [lia|constructor]. Qed.

#[local] Ltac made :=
  repeat first [ assumption | apply made_of_show | apply made_of_show_hex | apply made_of_app; split
               | apply made_of_marks; reflexivity ].
Lemma made_of_ipv4 o : made_of (show_ipv4 o).
Proof. destruct o as [|a [|b [|c [|d []]]]]; try constructor. cbn [show_ipv4]. made. Qed.
Lemma made_of_tail l : made_of (fmt_tail l).
Proof. induction l as [|x l IH]; cbn [fmt_tail]; [constructor|]. made. Qed.
Lemma made_of_subslice l : made_of (fmt_subslice l).
Proof. destruct l as [|x l]; cbn [fmt_subslice]; [constructor|]. pose proof (made_of_tail l). made. Qed.
Lemma made_of_ip a : made_of (show_ip a).
Proof.
  pose proof made_of_ipv4. pose proof made_of_subslice. destruct a as [b|b]; cbn [show_ip]; [done|]. unfold show_ipv6.
  destruct (ipv4_mapped _); [apply made_of_app; split; [by apply made_of_marks|done]|].
  destruct (zero_span _ _ _ _) as [s n]. destruct (_ <? _)%nat; [|done]. repeat (apply made_of_app; split); try done.
  by apply made_of_marks.
Qed.
Lemma made_of_socket_addr a : made_of (show_socket_addr a).
Proof. pose proof (made_of_ip (ip a)). unfold show_socket_addr. destruct (ip a); [made|]. destruct (_ =? _); made. Qed.
End Chars.

(** ** Plain text *)

Definition is_plain (b : byte) : bool := (code b <? 128) && negb (is_char 10 b).
Abbreviation plain := (made_of is_plain).
Definition is_not (c : Z) (b : byte) : bool := negb (is_char c b).
Abbreviation lacks c := (made_of (is_not c)).

Lemma plain_digit d : 0 <= d < 16 -> is_plain (digit_char d) = true.
Proof.
  intros Hd. unfold is_plain. rewrite (digit_char_not 16) by lia. unfold digit_char, code. rewrite byte.unsigned_of_Z. unfold byte.wrap.
  destruct (d <? 10); rewrite Z.mod_small by lia; rewrite (proj2 (Z.ltb_lt _ _)) by lia; done.
Qed.
Lemma slash_digit d : 0 <= d < 16 -> is_not 47 (digit_char d) = true.
Proof. intros Hd. unfold is_not. by rewrite (digit_char_not 16) by lia. Qed.

Lemma all_made_of ok s : forallb ok s = true -> made_of ok s.
Proof. intros Hs. apply List.Forall_forall. intros b Hb. by apply (proj1 (forallb_forall _ _) Hs). Qed.

Lemma plain_show n : plain (show n).
Proof. apply made_of_show, plain_digit. Qed.
Lemma plain_encode_hex k : plain (encode_hex k).
Proof. induction k as [|b k IH]; [constructor|]. cbn. constructor; [by destruct b|]. constructor; [by destruct b|done]. Qed.
Lemma plain_show_ip a : plain (show_ip a).
Proof. apply made_of_ip; [exact plain_digit|reflexivity]. Qed.
Lemma plain_show_socket_addr a : plain (show_socket_addr a).
Proof. apply made_of_socket_addr; [exact plain_digit|reflexivity]. Qed.
Lemma no_slash_show n : lacks 47 (show n).
Proof. apply made_of_show, slash_digit. Qed.
Lemma no_slash_show_ip a : lacks 47 (show_ip a).
Proof. apply made_of_ip; [exact slash_digit|reflexivity]. Qed.
Lemma no_equals_hex k : lacks 61 (encode_hex k).
Proof. induction k as [|b k IH]; [constructor|]. cbn. constructor; [by destruct b|]. constructor; [by destruct b|done]. Qed.

Create HintDb plain discriminated.
#[export] Hint Resolve plain_show plain_encode_hex plain_show_ip plain_show_socket_addr
  no_slash_show no_slash_show_ip no_equals_hex : plain.
(** Literals by computation. *)
Ltac plain :=
  repeat first
    [ solve [eauto 1 with plain nocore]
    | apply made_of_app; split
    | apply all_made_of; reflexivity ].

(** ** Reading a line *)

Lemma plain_utf8 s t : plain s -> is_utf8 (s ++ t) = is_utf8 t.
Proof.
  induction 1 as [|b s Hb _ IH]; [done|]. cbn [app is_utf8]. unfold is_plain in Hb.
  apply andb_true_iff in Hb as [-> _]. exact IH.
Qed.

Lemma split_line_plain s t : plain s -> split_line (s ++ newline ++ t) = (s ++ newline, t, true).
Proof.
  induction 1 as [|b s Hb _ IH]; [done|]. cbn [app split_line]. unfold is_plain in Hb.
  apply andb_true_iff in Hb as [_ Hn]. apply negb_true_iff in Hn. rewrite Hn. by rewrite IH.
Qed.

Lemma read_line_plain s t e : plain s ->
  read_line (mkReader (s ++ newline ++ t) e) = (Some (s ++ newline), mkReader t e).
Proof. intros Hs. unfold read_line. cbn [input io_error]. rewrite split_line_plain by done. cbn. by rewrite plain_utf8. Qed.

Lemma pop_newline s : pop (s ++ newline) = s.
Proof. unfold pop. rewrite rev_app_distr. cbn. apply rev_involutive. Qed.

(** An empty line, the end of the stream. *)
Lemma read_line_empty e t : read_line (mkReader (newline ++ t) e) = (Some newline, mkReader t e).
Proof. done. Qed.
Lemma read_line_end : read_line (mkReader [] false) = (Some [], mkReader [] false).
Proof. done. Qed.

(** A line that is read was there. *)
Lemma split_line_length s : let '(l, rest, _) := split_line s in length s = (length l + length rest)%nat.
Proof.
  induction s as [|b s IH]; [done|]. cbn [split_line]. destruct (is_char 10 b); [done|].
  destruct (split_line s) as [[l rest] f]. cbn. lia.
Qed.
Lemma read_line_shorter r cmd r' : read_line r = (Some cmd, r') ->
  length (input r) = (length cmd + length (input r'))%nat.
Proof.
  unfold read_line. pose proof (split_line_length (input r)) as L. destruct (split_line (input r)) as [[l rest] f].
  destruct (_ && _); [done|]. destruct (is_utf8 l); [|done]. by intros [= <- <-].
Qed.

(** ** Splitting a line *)

Lemma splitn2_line c key sep val : lacks c key -> is_char c sep = true -> splitn2 c (key ++ sep :: val) = [key; val].
Proof.
  intros Hk Hs. induction Hk as [|b key Hb%negb_true_iff _ IH]; cbn [app splitn2]; [by rewrite Hs|]. by rewrite Hb, IH.
Qed.
Lemma split_none c s : lacks c s -> split c s = [s].
Proof. induction 1 as [|b s Hb%negb_true_iff _ IH]; [done|]. cbn [split]. by rewrite Hb, IH. Qed.
Lemma split_line_once c key sep val : lacks c key -> is_char c sep = true -> lacks c val ->
  split c (key ++ sep :: val) = [key; val].
Proof.
  intros Hk Hs Hv. induction Hk as [|b key Hb%negb_true_iff _ IH]; cbn [app split]; [by rewrite Hs, split_none|]. by rewrite Hb, IH.
Qed.
(** As many parts as there are separators, and one. *)
Lemma length_split c s : length (split c s) = S (count_occ Z.eq_dec (code <$> s) c).
Proof.
  induction s as [|b s IH]; [done|]. cbn [split fmap list_fmap count_occ]. unfold is_char.
  destruct (Z.eqb_spec (code b) c) as [E|E]; destruct (Z.eq_dec (code b) c) as [E'|E']; try done; cbn [length]; [by f_equal|].
  destruct (split c s); cbn in *; lia.
Qed.
