(* ===== verification/Peer.v ===== *)
(** * Peers: [device/peer.rs]

    A peer is its tunnel, its endpoint and the addresses it may use.  Sockets
    are the operating system's: a socket is a handle, the number of its file
    descriptor, and what the calls on it answer is a parameter. *)

From S2P Require Import Prelude Packet Crypto Session Instant Handshake RateLimiter Timers Tunnel AllowedIps.
From S2P Require Export Text NetAddr.

Abbreviation Socket := nat (only parsing).
(** [device::Error], without the messages; two variants that would be the names of
    something else end in [Error]. *)
Inductive Error :=
| IoError | SocketError | Bind | FCntl | EventQueue | IOCtl | Connect | SetSockOpt | InvalidTunnelName | GetSockOpt
| GetSockName | Timer | IfaceReadError | DropPrivileges | ApiSocket.

(** What the operating system answers to the [n]-th call of a run.  [UdpSocket::shutdown]
    of a socket succeeds; [open_bound] is [Socket::new], [set_reuse_address],
    [bind] to an address and [set_nonblocking]; [open_connected] the same with a
    [connect] to an address and a mark; [try_clone] is a second descriptor for the
    same socket; [local_port] the port it is bound to; [set_mark] succeeds. *)
Class Os := {
  shutdown_ok : Socket -> bool;
  open_bound : nat -> forall bind_addr : SocketAddr, Socket + Error;
  open_connected : nat -> forall (bind_addr addr : SocketAddr) (fwmark : option Z), Socket + Error;
  try_clone : nat -> Socket -> option Socket;
  local_port : nat -> Socket -> option Z;
  set_mark : nat -> Socket -> Z -> bool;
}.

Definition unspecified (v4 : bool) (port : Z) : SocketAddr :=
  mkSocketAddr (if v4 then IpV4 (zeros 4) else IpV6 (zeros 16)) port 0 0.

Record Endpoint := mkEndpoint { ep_addr : option SocketAddr; ep_conn : option Socket }.

Section Peer.
Context `{Features, Crypto, Env, IpNetworkTable, Os}.

Record Peer := mkPeer {
  tunnel : Tunn;
  index : Z;
  endpoint : Endpoint;
  allowed_ips : AllowedIps unit;
  preshared_key : option bytes;
}.

Definition set_endpoint_cell (e : Endpoint) (p : Peer) : Peer :=
  mkPeer (tunnel p) (index p) e (allowed_ips p) (preshared_key p).
Definition set_tunnel (t : Tunn) (p : Peer) : Peer :=
  mkPeer t (index p) (endpoint p) (allowed_ips p) (preshared_key p).

(** [AllowedIP::from_str] *)
Definition allowed_ip_from_str (s : bytes) : option AllowedIP :=
  match split 47 s with
  | [a; c] =>
      match parse_ip_addr a, parse_uint 8 c with
      | Some (IpV4 o), Some cidr => if cidr <=? 32 then Some (mkAllowedIP (IpV4 o) cidr) else None
      | Some (IpV6 o), Some cidr => if cidr <=? 128 then Some (mkAllowedIP (IpV6 o) cidr) else None
      | _, _ => None
      end
  | _ => None
  end.

Section Methods.
Context {E : Type}.

(** [Peer::new] *)
Definition new {S} (tunnel : Tunn) (index : Z) (endpoint : option SocketAddr) (allowed_ips : list AllowedIP)
  (preshared_key : option bytes) : M E S Peer :=
  ips <- from_iter ((fun ip => (ip, tt)) <$> allowed_ips);;
  ret (mkPeer tunnel index (mkEndpoint endpoint None) ips preshared_key).

(** [conn.shutdown(Shutdown::Both).unwrap()] *)
Definition shutdown {S} (conn : Socket) : M E S unit := if shutdown_ok conn then ret tt else panic.

Definition shutdown_endpoint : M E Peer unit :=
  self <- get;;
  match ep_conn (endpoint self) with
  | Some conn =>
      modify (set_endpoint_cell (mkEndpoint (ep_addr (endpoint self)) None));;
      shutdown conn
  | None => ret tt
  end.

Definition set_endpoint (addr : SocketAddr) : M E Peer unit :=
  self <- get;;
  if bool_decide (ep_addr (endpoint self) <> Some addr) then
    match ep_conn (endpoint self) with
    | Some conn => modify (set_endpoint_cell (mkEndpoint (ep_addr (endpoint self)) None));; shutdown conn
    | None => ret tt
    end;;
    self <- get;;
    modify (set_endpoint_cell (mkEndpoint (Some addr) (ep_conn (endpoint self))))
  else ret tt.

Definition is_allowed_ip (addr : IpAddr) (self : Peer) : bool := bool_decide (is_Some (find addr (allowed_ips self))).

(** [Peer::allowed_ips] *)
Definition allowed_networks (self : Peer) : list (IpAddr * Z) :=
  (fun '(_, ip, cidr) => (ip, cidr)) <$> iter (allowed_ips self).

End Methods.

Definition connect_endpoint (port : Z) (fwmark : option Z) : M Error Peer Socket :=
  self <- get;;
  if bool_decide (is_Some (ep_conn (endpoint self))) then fail Connect else
  addr <- unwrap (ep_addr (endpoint self));;
  let bind_addr := unspecified (is_ipv4 addr) port in
  opened <- syscall (fun n => open_connected n bind_addr addr fwmark);;
  match opened with
  | inl udp_conn =>
      clone <- syscall (fun n => try_clone n udp_conn);;
      clone <- unwrap clone;;
      modify (set_endpoint_cell (mkEndpoint (ep_addr (endpoint self)) (Some clone)));;
      ret udp_conn
  | inr e => fail e
  end.

(** [Peer::update_timers], [time_since_last_handshake], [persistent_keepalive] *)
Definition peer_update_timers (dst : bytes) (self : Peer) (heap : gmap nat RateLimiter) (w : World) :
  outcome WireGuardError (Peer * gmap nat RateLimiter) TunnResult :=
  match update_timers dst (mkProcess (tunnel self) heap) w with
  | Ok r s w => Ok r (set_tunnel (tunn s) self, Tunnel.heap s) w
  | Fail e s w => Fail e (set_tunnel (tunn s) self, Tunnel.heap s) w
  | Panic => Panic
  end.
Definition peer_time_since_last_handshake : M WireGuardError Peer (option Z) :=
  zoom tunnel set_tunnel time_since_last_handshake.
Definition peer_persistent_keepalive (self : Peer) : option Z := tunn_persistent_keepalive (tunnel self).

End Peer.
