(* ===== verification/Privileges.v ===== *)
(** * Giving up privileges: [device/drop_privileges.rs]

    The process that created the interface as root goes on as the user who started
    it.  The identities of the process and what [setgid] and [setuid] do to them
    are the operating system's. *)

From S2P Require Import Prelude Peer.

(** The user and group identities of a process (real, effective, saved) and its
    supplementary groups. *)
Record Ids := mkIds { ruid : Z; euid : Z; suid : Z; rgid : Z; egid : Z; sgid : Z; groups : gset Z }.

(** The system calls, and the files and the environment that name the user: [getlogin]
    with [getpwnam] on Linux, [USER] with [User::from_name] on macOS.  A user is
    the pair of its [uid] and [gid]. *)
Class Credentials (C : Type) := {
  ids : C -> Ids;
  setgid : Z -> C -> bool * C;
  setuid : Z -> C -> bool * C;
  getlogin : C -> option bytes;
  getpwnam : C -> bytes -> option (Z * Z);
  env_user : C -> option bytes;
  user_from_name : C -> bytes -> option (Z * Z) + Error;
}.

Definition with_group (g : Z) (i : Ids) : Ids := mkIds (ruid i) (euid i) (suid i) g g g (groups i).
Definition with_user (u : Z) (i : Ids) : Ids := mkIds u u u (rgid i) (egid i) (sgid i) (groups i).
Definition with_egid (g : Z) (i : Ids) : Ids := mkIds (ruid i) (euid i) (suid i) (rgid i) g (sgid i) (groups i).
Definition with_euid (u : Z) (i : Ids) : Ids := mkIds (ruid i) u (suid i) (rgid i) (egid i) (sgid i) (groups i).

(** POSIX: a process whose effective user is root sets the real, the effective and
    the saved identity; another one may set the effective identity to its real or
    saved one, and is refused everything else. *)
Class CredentialsLaws (C : Type) `{Credentials C} : Prop := {
  setgid_root g c : euid (ids c) = 0 -> (setgid g c).1 = true /\ ids (setgid g c).2 = with_group g (ids c);
  setgid_own g c : euid (ids c) <> 0 -> g = rgid (ids c) \/ g = sgid (ids c) ->
    (setgid g c).1 = true /\ ids (setgid g c).2 = with_egid g (ids c);
  setgid_refused g c : euid (ids c) <> 0 -> g <> rgid (ids c) -> g <> sgid (ids c) ->
    (setgid g c).1 = false /\ ids (setgid g c).2 = ids c;
  setuid_root u c : euid (ids c) = 0 -> (setuid u c).1 = true /\ ids (setuid u c).2 = with_user u (ids c);
  setuid_own u c : euid (ids c) <> 0 -> u = ruid (ids c) \/ u = suid (ids c) ->
    (setuid u c).1 = true /\ ids (setuid u c).2 = with_euid u (ids c);
  setuid_refused u c : euid (ids c) <> 0 -> u <> ruid (ids c) -> u <> suid (ids c) ->
    (setuid u c).1 = false /\ ids (setuid u c).2 = ids c;
}.

Section Privileges.
Context {C : Type} `{Credentials C}.
Abbreviation CM := (M Error C).

(** [get_saved_ids], on macOS and elsewhere *)
Definition get_saved_ids (macos : bool) : CM (Z * Z) :=
  c <- get;;
  if macos then
    uname <- ok_or DropPrivileges (env_user c);;
    match user_from_name c uname with
    | inl (Some user) => ret user
    | inr _ | inl None => fail DropPrivileges
    end
  else
    uname <- ok_or DropPrivileges (getlogin c);;
    ok_or DropPrivileges (getpwnam c uname).

(** A system call on the process, [true] unless it returns -1. *)
Definition sys (f : C -> bool * C) : CM bool := fun c w => Ok (f c).1 (f c).2 w.

Definition drop_privileges (macos : bool) : CM unit :=
  '(saved_uid, saved_gid) <- get_saved_ids macos;;
  done <- sys (setgid saved_gid);;
  if negb done then fail DropPrivileges else
  done <- sys (setuid saved_uid);;
  if negb done then fail DropPrivileges else
  back <- (done <- sys (setgid 0);; if done : bool then ret true else sys (setuid 0));;
  if back : bool then fail DropPrivileges else ret tt.

(** ** What is given up *)

(** No identity that a call could make use of is root's. *)
Definition unprivileged (i : Ids) : Prop :=
  ruid i <> 0 /\ euid i <> 0 /\ suid i <> 0 /\ rgid i <> 0 /\ egid i <> 0 /\ sgid i <> 0.

(** What a process can do about its identities afterwards. *)
Inductive regain : C -> C -> Prop :=
| regain_setgid g c : regain c (setgid g c).2
| regain_setuid u c : regain c (setuid u c).2.

Context `{!CredentialsLaws C}.

(** The outcomes of the two calls, by what the process was. *)
Lemma setgid_cases g c :
  (euid (ids c) = 0 /\ (setgid g c).1 = true /\ ids (setgid g c).2 = with_group g (ids c)) \/
  (euid (ids c) <> 0 /\ (g = rgid (ids c) \/ g = sgid (ids c)) /\ (setgid g c).1 = true /\ ids (setgid g c).2 = with_egid g (ids c)) \/
  (euid (ids c) <> 0 /\ g <> rgid (ids c) /\ g <> sgid (ids c) /\ (setgid g c).1 = false /\ ids (setgid g c).2 = ids c).
Proof.
  destruct (decide (euid (ids c) = 0)); [left; split; [done|by apply setgid_root]|right].
  destruct (decide (g = rgid (ids c) \/ g = sgid (ids c))) as [Hg|Hg]; [left|right].
  - split_and!; [done|done|by apply setgid_own..].
  - apply Decidable.not_or in Hg as [? ?]. split_and!; [done..|by apply setgid_refused|by apply setgid_refused].
Qed.
Lemma setuid_cases u c :
  (euid (ids c) = 0 /\ (setuid u c).1 = true /\ ids (setuid u c).2 = with_user u (ids c)) \/
  (euid (ids c) <> 0 /\ (u = ruid (ids c) \/ u = suid (ids c)) /\ (setuid u c).1 = true /\ ids (setuid u c).2 = with_euid u (ids c)) \/
  (euid (ids c) <> 0 /\ u <> ruid (ids c) /\ u <> suid (ids c) /\ (setuid u c).1 = false /\ ids (setuid u c).2 = ids c).
Proof.
  destruct (decide (euid (ids c) = 0)); [left; split; [done|by apply setuid_root]|right].
  destruct (decide (u = ruid (ids c) \/ u = suid (ids c))) as [Hg|Hg]; [left|right].
  - split_and!; [done|done|by apply setuid_own..].
  - apply Decidable.not_or in Hg as [? ?]. split_and!; [done..|by apply setuid_refused|by apply setuid_refused].
Qed.

(** Without root nothing is regained. *)
Lemma regain_unprivileged c c' : regain c c' -> unprivileged (ids c) -> unprivileged (ids c').
Proof.
  intros [g c0|u c0] (Hr & He & Hs & Hg & Heg & Hsg).
  - destruct (setgid_cases g c0) as [(? & _)|[(_ & Hu & _ & ->)|(_ & _ & _ & _ & ->)]]; split_and!; try done.
    cbn. naive_solver.
  - destruct (setuid_cases u c0) as [(? & _)|[(_ & Hu & _ & ->)|(_ & _ & _ & _ & ->)]]; split_and!; try done.
    cbn. naive_solver.
Qed.

(** [drop_privileges] step by step. *)
Lemma drop_privileges_eq macos c w : drop_privileges macos c w =
  match get_saved_ids macos c w with
  | Ok (u, g) c0 w =>
      if negb (setgid g c0).1 then Fail DropPrivileges (setgid g c0).2 w else
      let c1 := (setgid g c0).2 in
      if negb (setuid u c1).1 then Fail DropPrivileges (setuid u c1).2 w else
      let c2 := (setuid u c1).2 in
      if (setgid 0 c2).1 then Fail DropPrivileges (setgid 0 c2).2 w else
      let c3 := (setgid 0 c2).2 in
      if (setuid 0 c3).1 then Fail DropPrivileges (setuid 0 c3).2 w else Ok tt (setuid 0 c3).2 w
  | Fail e c w => Fail e c w
  | Panic => Panic
  end.
Proof.
  unfold drop_privileges, bind at 1. destruct (get_saved_ids macos c w) as [[u g] c0 w0|e c0 w0|]; [|done..].
  unfold sys. step. destruct (setgid g c0).1; [|done]. cbn [negb]. step. destruct (setuid u _).1; [|done]. cbn [negb]. step.
  destruct (setgid 0 _).1; [done|]. step. by destruct (setuid 0 _).1.
Qed.

(** The user is found without changing anything. *)
Lemma saved_ids_pure macos c w : match get_saved_ids macos c w with Ok _ c' w' | Fail _ c' w' => c' = c /\ w' = w | Panic => False end.
Proof.
  unfold get_saved_ids. step. destruct macos.
  - destruct (env_user c); [|done]. step. by destruct (user_from_name c _) as [[]|].
  - destruct (getlogin c); [|done]. step. by destruct (getpwnam c _).
Qed.

(** Both calls refused root: none of the identities is root's. *)
Lemma refused_root c : (setgid 0 c).1 = false -> (setuid 0 (setgid 0 c).2).1 = false ->
  ids (setuid 0 (setgid 0 c).2).2 = ids c /\ ruid (ids c) <> 0 /\ euid (ids c) <> 0 /\ suid (ids c) <> 0 /\
  rgid (ids c) <> 0 /\ sgid (ids c) <> 0.
Proof.
  intros Hg Hu. destruct (setgid_cases 0 c) as [(_ & ? & _)|[(_ & _ & ? & _)|(He & Hr & Hs & _ & Ei)]]; [congruence..|].
  destruct (setuid_cases 0 (setgid 0 c).2) as [(_ & ? & _)|[(_ & _ & ? & _)|(_ & Hru & Hsu & _ & ->)]]; [congruence..|].
  rewrite Ei in Hru, Hsu. split_and!; congruence.
Qed.

Lemma groups_setgid g c : groups (ids (setgid g c).2) = groups (ids c).
Proof. destruct (setgid_cases g c) as [(_ & _ & ->)|[(_ & _ & _ & ->)|(_ & _ & _ & _ & ->)]]; done. Qed.
Lemma groups_setuid u c : groups (ids (setuid u c).2) = groups (ids c).
Proof. destruct (setuid_cases u c) as [(_ & _ & ->)|[(_ & _ & _ & ->)|(_ & _ & _ & _ & ->)]]; done. Qed.
Lemma egid_setuid u c : egid (ids (setuid u c).2) = egid (ids c) /\ rgid (ids (setuid u c).2) = rgid (ids c) /\
  sgid (ids (setuid u c).2) = sgid (ids c).
Proof. destruct (setuid_cases u c) as [(_ & _ & ->)|[(_ & _ & _ & ->)|(_ & _ & _ & _ & ->)]]; done. Qed.

(** Success means that both attempts to be root again were refused. *)
Lemma dropped_unprivileged macos c w c' w' : drop_privileges macos c w = Ok tt c' w' -> unprivileged (ids c').
Proof.
  intros E. rewrite drop_privileges_eq in E. destruct (get_saved_ids macos c w) as [[u g] c0 w0|e c0 w0|]; [|done..].
  destruct (setgid g c0).1 eqn:Eg; [|done]. cbn [negb] in E. cbv zeta in E. destruct (setuid u _).1 eqn:Eu; [|done]. cbn [negb] in E.
  destruct (setgid 0 _).1 eqn:E0; [done|]. destruct (setuid 0 _).1 eqn:E1; [done|]. injection E as <- <-.
  destruct (refused_root _ E0 E1) as (-> & Hr & He & Hs & Hg & Hsg). split_and!; [done..| |done].
  pose proof (egid_setuid u (setgid g c0).2) as (-> & Er & Es). rewrite Er in Hg. rewrite Es in Hsg.
  destruct (setgid_cases g c0) as [(_ & _ & Ei)|[(_ & Hi & _ & Ei)|(_ & _ & _ & ? & _)]]; [| |congruence]; rewrite Ei in *; cbn in *; naive_solver.
Qed.
(** Root that gave itself up is the login in every place. *)
Lemma dropped_is_login macos c w c' w' : euid (ids c) = 0 -> drop_privileges macos c w = Ok tt c' w' ->
  exists u g, get_saved_ids macos c w = Ok (u, g) c w /\ w' = w /\ ids c' = with_user u (with_group g (ids c)).
Proof.
  intros He E. rewrite drop_privileges_eq in E. pose proof (saved_ids_pure macos c w) as Hp.
  destruct (get_saved_ids macos c w) as [[u g] c0 w0|e c0 w0|]; [|done..]. destruct Hp as [-> ->].
  destruct (setgid_root g c He) as [E1 I1]. rewrite E1 in E. cbn [negb] in E. cbv zeta in E.
  destruct (setuid_root u (setgid g c).2) as [E2 I2]; [by rewrite I1|]. rewrite E2 in E. cbn [negb] in E.
  destruct (setgid 0 _).1 eqn:E3; [done|]. destruct (setuid 0 _).1 eqn:E4; [done|]. injection E as <- <-.
  exists u, g. split_and!; [done|done|]. destruct (refused_root _ E3 E4) as [-> _]. by rewrite I2, I1.
Qed.
Lemma drop_clock macos c w : match drop_privileges macos c w with Ok _ _ w' | Fail _ _ w' => w' = w | Panic => True end.
Proof.
  rewrite drop_privileges_eq. pose proof (saved_ids_pure macos c w) as Hp.
  destruct (get_saved_ids macos c w) as [[u g] c0 w0|e c0 w0|]; [|by destruct Hp|done]. destruct Hp as [_ ->].
  cbv zeta. destruct (setgid g c0).1; [|done]. cbn [negb]. destruct (setuid u _).1; [|done]. cbn [negb].
  destruct (setgid 0 _).1; [done|]. by destruct (setuid 0 _).1.
Qed.
Lemma drop_never_panics macos c w : drop_privileges macos c w <> Panic.
Proof.
  rewrite drop_privileges_eq. pose proof (saved_ids_pure macos c w) as Hp.
  destruct (get_saved_ids macos c w) as [[u g] c0 w0|e c0 w0|]; [|done..]. cbv zeta.
  destruct (setgid g c0).1; [|done]. cbn [negb]. destruct (setuid u _).1; [|done]. cbn [negb].
  destruct (setgid 0 _).1; [done|]. by destruct (setuid 0 _).1.
Qed.

(** C37. Root cannot be had back: when [drop_privileges] reports success, whoever
    started the process, no user or group identity of it is root's, and no
    sequence of calls to [setuid] and [setgid] gives it one again. *)
Theorem dropped_for_good macos c w c' w' : drop_privileges macos c w = Ok tt c' w' ->
  forall c'', rtc regain c' c'' -> unprivileged (ids c'').
Proof.
  intros Hc%dropped_unprivileged c'' Hr. revert Hc. induction Hr as [|c1 c2 c3 H12 _ IH]; [done|].
  intros Hc. by eapply IH, regain_unprivileged.
Qed.

(** What [drop_privileges] does for root: the process takes the group and then the
    user of the login, in every place, if neither is root's, and is refused if
    one is.  The supplementary groups, which root's login may have been given,
    stay with it in either case. *)
Theorem root_becomes_user macos c w u g : euid (ids c) = 0 -> get_saved_ids macos c w = Ok (u, g) c w ->
  (u <> 0 -> g <> 0 -> exists c', drop_privileges macos c w = Ok tt c' w /\ ids c' = with_user u (with_group g (ids c))) /\
  (u = 0 \/ g = 0 -> exists c', drop_privileges macos c w = Fail DropPrivileges c' w) /\
  (forall c', final (drop_privileges macos c w) = Some c' -> groups (ids c') = groups (ids c)).
Proof.
  intros He Eg. rewrite drop_privileges_eq, Eg. destruct (setgid_root g c He) as [E1 I1]. rewrite E1. cbn [negb]. cbv zeta.
  set (c1 := (setgid g c).2) in *. destruct (setuid_root u c1) as [E2 I2]; [by rewrite I1|]. rewrite E2. cbn [negb].
  set (c2 := (setuid u c1).2) in *. rewrite I1 in I2. split_and!.
  - intros Hu Hg. destruct (setgid_refused 0 c2) as [E3 I3]; [by rewrite I2..|]. rewrite E3. set (c3 := (setgid 0 c2).2) in *.
    destruct (setuid_refused 0 c3) as [E4 I4]; [by rewrite I3, I2..|]. rewrite E4. eexists. split; [done|]. by rewrite I4, I3.
  - intros Hz. destruct (decide (u = 0)) as [->|Hu].
    + destruct (setgid_root 0 c2) as [E3 _]; [by rewrite I2|]. rewrite E3. by eexists.
    + destruct Hz as [?| ->]; [done|]. destruct (setgid_own 0 c2) as [E3 _]; [by rewrite I2|left; by rewrite I2|]. rewrite E3. by eexists.
  - intros c' Hf. assert (Hc2 : groups (ids c2) = groups (ids c)) by (by rewrite I2). revert Hf.
    destruct (setgid 0 c2).1; [|destruct (setuid 0 _).1]; intros [= <-]; by rewrite ?groups_setuid, groups_setgid.
Qed.
End Privileges.

(** ** A process *)

Module Process.
Record Process := mkProcess { proc_ids : Ids; login : bytes; home : Z * Z }.

Definition set_group (g : Z) (p : Process) : bool * Process :=
  let i := proc_ids p in
  if euid i =? 0 then (true, mkProcess (with_group g i) (login p) (home p)) else
  if (g =? rgid i) || (g =? sgid i) then (true, mkProcess (with_egid g i) (login p) (home p)) else (false, p).
Definition set_user (u : Z) (p : Process) : bool * Process :=
  let i := proc_ids p in
  if euid i =? 0 then (true, mkProcess (with_user u i) (login p) (home p)) else
  if (u =? ruid i) || (u =? suid i) then (true, mkProcess (with_euid u i) (login p) (home p)) else (false, p).

#[local] Instance credentials : Credentials Process := {|
  ids := proc_ids;
  setgid := set_group;
  setuid := set_user;
  getlogin p := Some (login p);
  getpwnam p name := if bool_decide (name = login p) then Some (home p) else None;
  env_user p := Some (login p);
  user_from_name p name := inl (if bool_decide (name = login p) then Some (home p) else None);
|}.
#[local] Instance laws : CredentialsLaws Process.
Proof.
  split; cbn; unfold set_group, set_user; intros x p He; try intros H1; try intros H2.
  all: repeat match goal with |- context [if ?b then _ else _] => destruct b eqn:? end; try done; lia.
Qed.

(** Root, by way of [sudo], with the groups of root's login. *)
Definition sudo : Process := mkProcess (mkIds 0 0 0 0 0 0 {[0; 6]}) (bytes_of [97; 110; 110]) (1000, 1000).
Definition w0 : World := mkWorld 0 0 0 0.
Definition after {E S A} (o : outcome E S A) (s : S) : S := from_option id s (final o).

Lemma dropped_for_good_witness : exists c, drop_privileges false sudo w0 = Ok tt c w0 /\ unprivileged (ids (setuid 0 c).2).
Proof.
  exists (after (drop_privileges false sudo w0) sudo).
  assert (E : drop_privileges false sudo w0 = Ok tt (after (drop_privileges false sudo w0) sudo) w0) by (vm_compute; reflexivity).
  split; [exact E|]. apply (dropped_for_good false sudo w0 _ w0 E). apply rtc_once. constructor.
Defined.

Lemma root_becomes_user_witness : exists c, drop_privileges true sudo w0 = Ok tt c w0 /\ 0 ∈ groups (ids c).
Proof.
  destruct (root_becomes_user (H:=credentials) true sudo w0 1000 1000 eq_refl ltac:(vm_compute; reflexivity)) as (Hok & _ & Hg).
  destruct (Hok ltac:(done) ltac:(done)) as (c & E & _). exists c. split; [exact E|].
  rewrite (Hg c) by (by rewrite E). cbn. set_solver.
Defined.
End Process.
