(* ===== verification/Tun.v ===== *)
(** * The tunnel interface: [device/tun_linux.rs], [device/tun_darwin.rs]

    [TunSocket] on Linux, a descriptor of [/dev/net/tun] or one that was handed to
    the process, and on macOS, a control socket whose messages begin with a header
    of four bytes.  The table of the process's descriptors is the state: what the
    methods open and close can be seen in it. *)

From Stdlib Require Import Strings.String.
From S2P Require Import Prelude Text Utf8 Peer.

Definition IFNAMSIZ : nat := 16.

(** [s.parse::<i32>()] *)
Definition parse_i32 (s : bytes) : option Z :=
  match s with
  | b :: rest =>
      if is_char 45 b then
        if bool_decide (rest = []) then None else Z.opp <$> checked_digits (2 ^ 31) 0 rest
      else parse_uint 31 s
  | [] => None
  end.

(** [ifr.ifr_name[..name.len()].copy_from_slice(name)] in a buffer of zeros. *)
Definition ifr_name {E S} (name : bytes) : M E S bytes :=
  if (IFNAMSIZ <? length name)%nat then panic else ret (splice 0 name (zeros IFNAMSIZ)).

(** [x as usize] of a [c_int]. *)
Definition c_int_usize (x : Z) : Z := u64 x.

(** The table of descriptors and the calls that both systems have: a socket of the
    internet, the flags of a descriptor, the MTU of an interface, [close]. *)
Class Fds (O : Type) := {
  open_fds : O -> gset Z;
  inet_socket : nat -> O -> option Z * O;
  getfl : nat -> Z -> O -> option Z;
  setfl : nat -> Z -> Z -> O -> bool * O;
  siocgifmtu : nat -> Z -> bytes -> O -> option Z;
  close : Z -> O -> O;
}.

(** A call opens a descriptor that was not open, or fails and opens none. *)
Definition opens {O} `{Fds O} (call : nat -> O -> option Z * O) : Prop := forall n o,
  match call n o with
  | (Some fd, o') => (fd ∉ open_fds o) /\ open_fds o' = {[fd]} ∪ open_fds o
  | (None, o') => open_fds o' = open_fds o
  end.

Class FdsLaws (O : Type) `{Fds O} : Prop := {
  inet_socket_opens : opens inet_socket;
  getfl_open n fd o flags : getfl n fd o = Some flags -> fd ∈ open_fds o;
  setfl_fds n fd flags o : open_fds (setfl n fd flags o).2 = open_fds o;
  close_fds fd o : open_fds (close fd o) = open_fds o ∖ {[fd]};
  open_fds_nonneg o fd : fd ∈ open_fds o -> 0 <= fd;
}.

(** A system call, which may change the table. *)
Definition sys {O E A} (f : nat -> O -> A * O) : M E O A :=
  o <- get;; '(a, o) <- syscall (fun n => f n o);; modify (fun _ => o);; ret a.

(** [set_non_blocking]: the socket is consumed, and closed when it fails. *)
Definition O_NONBLOCK : Z := 2048.
Definition set_non_blocking {O} `{Fds O} (fd : Z) : M Error O Z :=
  o <- get;;
  flags <- syscall (fun n => getfl n fd o);;
  match flags with
  | None => modify (close fd);; fail FCntl
  | Some flags =>
      done <- sys (fun n => setfl n fd (Z.lor flags O_NONBLOCK));;
      if negb done then modify (close fd);; fail FCntl else ret fd
  end.

(** The end of [mtu], with the name of the interface. *)
Definition read_mtu {O} `{Fds O} (fd : Z) (name : bytes) : M Error O Z :=
  ifr <- ifr_name name;;
  o <- get;;
  mtu <- syscall (fun n => siocgifmtu n fd ifr o);;
  match mtu with
  | None => fail IOCtl
  | Some mtu => modify (close fd);; ret (c_int_usize mtu)
  end.

(** ** Linux *)

Module Linux.
Definition IFF_TUN : Z := 1.
Definition IFF_NO_PI : Z := 4096.
Definition IFF_MULTI_QUEUE : Z := 256.

(** [open("/dev/net/tun", O_RDWR)], [ioctl] with [TUNSETIFF], [read] and [write]. *)
Class TunDevice (O : Type) `{Fds O} := {
  open_tun : nat -> O -> option Z * O;
  tunsetiff : nat -> Z -> bytes -> Z -> O -> bool * O;
  fd_read : nat -> Z -> nat -> O -> option bytes * O;
  fd_write : nat -> Z -> bytes -> O -> option Z * O;
}.
Class TunDeviceLaws (O : Type) `{TunDevice O} : Prop := {
  open_tun_opens : opens open_tun;
  tunsetiff_fds n fd name flags o : open_fds (tunsetiff n fd name flags o).2 = open_fds o;
  fd_read_len n fd len o b o' : fd_read n fd len o = (Some b, o') -> (length b <= len)%nat;
}.

Record TunSocket := mkTunSocket { fd : Z; name : bytes }.

Section Linux.
Context {O : Type} `{TunDevice O}.
Abbreviation OM := (M Error O).

Definition write (self : TunSocket) (buf : bytes) : OM Z :=
  n <- sys (fun n => fd_write n (fd self) buf);;
  ret (match n with Some n => n | None => 0 end).
Definition write4 (self : TunSocket) (src : bytes) : OM Z := write self src.
Definition write6 (self : TunSocket) (src : bytes) : OM Z := write self src.

(** [TunSocket::new]; both names are as long as the buffer allows. *)
Definition new (name : bytes) : OM TunSocket :=
  match parse_i32 name with
  | Some fd => ret (mkTunSocket fd name)
  | None =>
      opened <- sys open_tun;;
      fd <- ok_or SocketError opened;;
      if (IFNAMSIZ <=? length name)%nat then fail InvalidTunnelName else
      ifr <- ifr_name name;;
      done <- sys (fun n => tunsetiff n fd ifr (Z.lor (Z.lor IFF_TUN IFF_NO_PI) IFF_MULTI_QUEUE));;
      if negb done then fail IOCtl else ret (mkTunSocket fd name)
  end.

Definition mtu (self : TunSocket) : OM Z :=
  match parse_i32 (name self) with
  | Some _ => ret 1500
  | None =>
      opened <- sys inet_socket;;
      fd <- ok_or SocketError opened;;
      read_mtu fd (name self)
  end.

(** [read] returns the part of the buffer that was written. *)
Definition read (self : TunSocket) (dst : bytes) : OM bytes :=
  b <- sys (fun n => fd_read n (fd self) (length dst));;
  match b with
  | None => fail IfaceReadError
  | Some b => if (length b <=? length dst)%nat then ret (take (length b) (splice 0 b dst)) else panic
  end.
End Linux.
End Linux.

(** ** macOS *)

Module Darwin.
Definition AF_INET : Z := 2.
Definition AF_INET6 : Z := 30.

(** The control socket: [socket(PF_SYSTEM, SOCK_DGRAM, SYSPROTO_CONTROL)], the
    identifier of [com.apple.net.utun_control], [connect] to a unit of it, the
    name of the interface with the zero that ends it, [sendmsg] and [recvmsg],
    which gather and scatter a message. *)
Class UtunControl (O : Type) `{Fds O} := {
  control_socket : nat -> O -> option Z * O;
  ctliocginfo : nat -> Z -> bytes -> O -> option Z;
  connect_unit : nat -> Z -> forall sc_id sc_unit : Z, O -> bool * O;
  utun_ifname : nat -> Z -> O -> option bytes;
  sendmsg : nat -> Z -> list bytes -> O -> option Z * O;
  recvmsg : nat -> Z -> nat -> O -> option bytes * O;
}.
Class UtunControlLaws (O : Type) `{UtunControl O} : Prop := {
  control_socket_opens : opens control_socket;
  connect_unit_fds n fd i u o : open_fds (connect_unit n fd i u o).2 = open_fds o;
  recvmsg_len n fd len o b o' : recvmsg n fd len o = (Some b, o') -> (length b <= len)%nat;
}.

Definition CTRL_NAME : bytes := str "com.apple.net.utun_control".

(** [parse_utun_name]: the unit of [connect], 0 for any; the sum wraps around. *)
Definition parse_utun_name (name : bytes) : option Z :=
  if negb (bool_decide (take 4 name = str "utun")) then None else
  match drop 4 name with
  | [] => Some 0
  | idx => (fun x => u32 (x + 1)) <$> parse_uint 32 idx
  end.

Section Darwin.
Context {O : Type} `{UtunControl O}.
Abbreviation OM := (M Error O).

(** [TunSocket] is its descriptor. *)
Definition write (self : Z) (src : bytes) (af : Z) : OM Z :=
  n <- sys (fun n => sendmsg n self [bytes_of [0; 0; 0; af]; src]);;
  ret (match n with Some n => n | None => 0 end).
Definition write4 (self : Z) (src : bytes) : OM Z := write self src AF_INET.
Definition write6 (self : Z) (src : bytes) : OM Z := write self src AF_INET6.

Definition new (name : bytes) : OM Z :=
  idx <- ok_or InvalidTunnelName (parse_utun_name name);;
  opened <- sys control_socket;;
  fd <- ok_or SocketError opened;;
  o <- get;;
  info <- syscall (fun n => ctliocginfo n fd (splice 0 CTRL_NAME (zeros 96)) o);;
  match info with
  | None => modify (close fd);; fail IOCtl
  | Some ctl_id =>
      done <- sys (fun n => connect_unit n fd ctl_id idx);;
      if negb done then modify (close fd);; fail Connect else ret fd
  end.

(** [tunnel_name_len] is the length with the zero at the end. *)
Definition name (self : Z) : OM bytes :=
  o <- get;;
  tunnel_name <- syscall (fun n => utun_ifname n self o);;
  match tunnel_name with
  | None | Some [] => fail GetSockOpt
  | Some tunnel_name => ret (from_utf8_lossy (take (length tunnel_name - 1) tunnel_name))
  end.

Definition mtu (self : Z) : OM Z :=
  opened <- sys inet_socket;;
  fd <- ok_or SocketError opened;;
  name <- name self;;
  read_mtu fd name.

(** The message fills the header's four bytes first and the buffer then. *)
Definition read (self : Z) (dst : bytes) : OM bytes :=
  b <- sys (fun n => recvmsg n self (4 + length dst)%nat);;
  match b with
  | None => fail IfaceReadError
  | Some b =>
      if (length b <=? 4)%nat then ret []
      else if (length b - 4 <=? length dst)%nat then ret (take (length b - 4) (splice 0 (drop 4 b) dst)) else panic
  end.
End Darwin.
End Darwin.
