(* ===== verification/TunProps.v ===== *)
(** * The tunnel interface: which descriptors stay open

    What the constructors and [mtu] of [Tun] leave in the table of descriptors on
    each outcome, the units that names stand for on macOS, and the header of its
    messages. *)

From Stdlib Require Import Strings.String.
From S2P Require Import Prelude Text Utf8 Peer Tun.

(** A table that has one descriptor more. *)
Definition one_more {O} `{Fds O} (o o' : O) (fd : Z) : Prop := (fd ∉ open_fds o) /\ open_fds o' = {[fd]} ∪ open_fds o.

Lemma one_more_size {O} `{Fds O} (o o' : O) fd : one_more o o' fd -> size (open_fds o') = S (size (open_fds o)).
Proof. intros [Hf ->]. rewrite size_union by set_solver. by rewrite size_singleton. Qed.

Lemma one_more_closed {O} `{FdsLaws O} (o o' : O) fd : one_more o o' fd -> open_fds (close fd o') = open_fds o.
Proof. intros [Hf E]. rewrite close_fds, E. set_solver. Qed.

Lemma sys_eq {O E A} (f : nat -> O -> A * O) (o : O) w :
  sys (E:=E) f o w = Ok (f (calls w) o).1 (f (calls w) o).2 (mkWorld (ticks w) (wall w) (draws w) (S (calls w))).
Proof. unfold sys. step. by destruct (f _ _). Qed.

(** Calls that leave the table. *)
Lemma one_more_same {O} `{Fds O} (o o1 o2 : O) fd : one_more o o1 fd -> open_fds o2 = open_fds o1 -> one_more o o2 fd.
Proof. intros [Hf E] E2. split; [done|]. by rewrite E2. Qed.

(** ** Both systems *)

Section Both.
Context {O : Type} `{FdsLaws O}.

(** A socket that is not made non-blocking is closed. *)
Lemma set_non_blocking_fds fd (o : O) w :
  match set_non_blocking fd o w with
  | Ok x o' _ => x = fd /\ fd ∈ open_fds o /\ open_fds o' = open_fds o
  | Fail e o' _ => e = FCntl /\ open_fds o' = open_fds o ∖ {[fd]}
  | Panic => False
  end.
Proof.
  unfold set_non_blocking. step. destruct (getfl _ _ _) as [flags|] eqn:Ef; [|step; by rewrite close_fds].
  unfold bind. rewrite sys_eq. pose proof (setfl_fds (S (calls w)) fd (Z.lor flags O_NONBLOCK) o) as Es.
  cbn [calls]. destruct (setfl _ _ _ _) as [[] o1]; cbn [fst snd negb] in *.
  - split_and!; [done|by eapply getfl_open|done].
  - step. split; [done|]. by rewrite close_fds, Es.
Qed.

(** The socket of [mtu] is closed only if the interface answered. *)
Lemma read_mtu_fds fd name (o0 o : O) w : one_more o0 o fd -> (length name <= IFNAMSIZ)%nat ->
  match read_mtu fd name o w with
  | Ok _ o' _ => open_fds o' = open_fds o0
  | Fail e o' _ => e = IOCtl /\ one_more o0 o' fd
  | Panic => False
  end.
Proof.
  intros Ho Hn. unfold read_mtu, ifr_name. rewrite (proj2 (Nat.ltb_ge _ _) Hn). step.
  destruct (siocgifmtu _ _ _ _); step; [by eapply one_more_closed|done].
Qed.

(** [mtu] as the monitor calls it, once a second: the error is ignored. *)
Fixpoint polls (m : M Error O Z) (n : nat) : M Error O (list (Z + Error)) :=
  match n with
  | 0%nat => ret []
  | S n => r <- attempt m;; rest <- polls m n;; ret (r :: rest)
  end.

(** The errors of [m] in [leaky] leave a descriptor behind, its other results none. *)
Definition leaks (leaky : Error -> bool) (m : M Error O Z) : Prop := forall o w,
  match m o w with
  | Ok _ o' _ => open_fds o' = open_fds o
  | Fail e o' _ => if leaky e then exists fd, one_more o o' fd else open_fds o' = open_fds o
  | Panic => False
  end.

Definition failures (leaky : Error -> bool) (l : list (Z + Error)) : nat :=
  length (List.filter (fun r => match r with inr e => leaky e | inl _ => false end) l).

Lemma polls_leak leaky m n : leaks leaky m -> forall o w, exists l o' w', polls m n o w = Ok l o' w' /\
  length l = n /\ size (open_fds o') = (size (open_fds o) + failures leaky l)%nat.
Proof.
  intros Hm. induction n as [|n IH]; intros o w; [eexists _, _, _; split; [reflexivity|]; cbn; lia|].
  cbn [polls]. unfold bind, attempt. specialize (Hm o w). destruct (m o w) as [x o1 w1|e o1 w1|]; [| |done].
  - destruct (IH o1 w1) as (l & o' & w' & -> & <- & E). eexists _, _, _. split; [reflexivity|]. by rewrite E, Hm.
  - destruct (IH o1 w1) as (l & o' & w' & -> & <- & E). eexists _, _, _. split; [reflexivity|]. split; [done|].
    unfold failures in *. cbn. destruct (leaky e); [destruct Hm as [fd Hm]|by rewrite E, Hm].
    rewrite E, (one_more_size _ _ _ Hm). cbn. lia.
Qed.
End Both.

(** ** Linux *)

Section LinuxProperties.
Context {O : Type} `{Linux.TunDeviceLaws O} `{!FdsLaws O}.

(** A call that opens something. *)
Lemma opened_some (call : nat -> O -> option Z * O) n o fd o' : opens call -> call n o = (Some fd, o') -> one_more o o' fd.
Proof. intros Hc E. specialize (Hc n o). by rewrite E in Hc. Qed.
Lemma opened_none (call : nat -> O -> option Z * O) n o o' : opens call -> call n o = (None, o') -> open_fds o' = open_fds o.
Proof. intros Hc E. specialize (Hc n o). by rewrite E in Hc. Qed.

(** What opening an interface does to the table, by outcome. *)
Definition tun_outcome (name : bytes) (o : O) (r : outcome Error O Linux.TunSocket) : Prop :=
  match r with
  | Ok t o' _ => Linux.name t = name /\
      match parse_i32 name with
      | Some n => Linux.fd t = n /\ open_fds o' = open_fds o
      | None => (length name < IFNAMSIZ)%nat /\ one_more o o' (Linux.fd t)
      end
  | Fail e o' _ => parse_i32 name = None /\
      (e = SocketError /\ open_fds o' = open_fds o \/
       (e = InvalidTunnelName /\ (IFNAMSIZ <= length name)%nat \/ e = IOCtl /\ (length name < IFNAMSIZ)%nat) /\
       exists fd, one_more o o' fd)
  | Panic => False
  end.

Lemma tun_new_outcome name (o : O) w : tun_outcome name o (Linux.new name o w).
Proof.
  unfold tun_outcome, Linux.new. destruct (parse_i32 name) as [n|]; [done|]. unfold bind at 1. rewrite sys_eq.
  destruct (Linux.open_tun (calls w) o) as [[fd|] o1] eqn:Eo; cbn [fst snd]; step.
  - pose proof (opened_some _ _ _ _ _ Linux.open_tun_opens Eo) as Ho.
    destruct (IFNAMSIZ <=? length name)%nat eqn:En; [split; [done|]; right; split; [left; split; [done|by apply Nat.leb_le]|by exists fd]|].
    apply Nat.leb_gt in En. unfold ifr_name. rewrite (proj2 (Nat.ltb_ge _ _)) by lia. step. unfold bind. rewrite sys_eq. cbn [calls].
    pose proof (Linux.tunsetiff_fds (S (calls w)) fd (splice 0 name (zeros IFNAMSIZ))
      (Z.lor (Z.lor Linux.IFF_TUN Linux.IFF_NO_PI) Linux.IFF_MULTI_QUEUE) o1) as Ht.
    destruct (Linux.tunsetiff _ _ _ _ _) as [[] o2]; cbn [fst snd negb] in *; step.
    + split_and!; [done|done|by eapply one_more_same].
    + split; [done|]. right. split; [right; done|]. exists fd. by eapply one_more_same.
  - split; [done|]. left. split; [done|]. by eapply opened_none, Eo; apply Linux.open_tun_opens.
Qed.

(** Opening an interface on Linux, by outcome: a name that is a number is taken as
    the descriptor itself, nothing is opened; another name gives a descriptor
    that was not open before.  A name of sixteen bytes or more, and a name that
    the kernel refuses, are reported as errors, but [/dev/net/tun] stays
    open. *)
Theorem tun_new_descriptors name (o : O) w :
  match Linux.new name o w with
  | Ok t o' _ => (forall n, parse_i32 name = Some n -> Linux.fd t = n /\ open_fds o' = open_fds o) /\
      (parse_i32 name = None -> (length name < IFNAMSIZ)%nat /\ one_more o o' (Linux.fd t))
  | Fail e o' _ => parse_i32 name = None /\ (e = SocketError -> open_fds o' = open_fds o) /\
      (e = InvalidTunnelName <-> e <> SocketError /\ (IFNAMSIZ <= length name)%nat) /\
      (e <> SocketError -> exists leaked, one_more o o' leaked)
  | Panic => False
  end.
Proof.
  pose proof (tun_new_outcome name o w) as Hn. destruct (Linux.new name o w) as [t o' w'|e o' w'|]; [| |done].
  - destruct Hn as [_ Hn]. destruct (parse_i32 name); naive_solver.
  - destruct Hn as (-> & [[-> Ho]|[[[-> Hl]|[-> Hl]] Hm]]); (split_and!; [done|done| |done]); split; naive_solver lia.
Qed.

(** The name of an interface that was opened is short enough for [mtu]. *)
Definition named (t : Linux.TunSocket) : Prop :=
  is_Some (parse_i32 (Linux.name t)) \/ (length (Linux.name t) < IFNAMSIZ)%nat.

Definition ioctl_failed (e : Error) : bool := match e with IOCtl => true | _ => false end.

Lemma opened_named name (o : O) w t o' w' : Linux.new name o w = Ok t o' w' -> named t.
Proof.
  intros E. pose proof (tun_new_outcome name o w) as Hn. rewrite E in Hn. destruct Hn as [En Hn]. unfold named. rewrite En.
  destruct (parse_i32 name); [left; by eexists|right; apply Hn].
Qed.

Lemma mtu_leaks t : named t -> leaks ioctl_failed (Linux.mtu (O:=O) t).
Proof.
  intros Hn o w. unfold Linux.mtu. destruct (parse_i32 (Linux.name t)) as [n|] eqn:Ep; [done|].
  destruct Hn as [[x Hx]|Hn]; [congruence|]. unfold bind at 1. rewrite sys_eq.
  destruct (inet_socket (calls w) o) as [[fd|] o1] eqn:Eo; cbn [fst snd]; step.
  - pose proof (opened_some _ _ _ _ _ inet_socket_opens Eo) as Ho.
    pose proof (read_mtu_fds fd (Linux.name t) o o1 (mkWorld (ticks w) (wall w) (draws w) (S (calls w))) Ho ltac:(lia)) as Hr.
    destruct (read_mtu _ _ _ _) as [x o2 w2|e o2 w2|]; [done| |done]. destruct Hr as [-> Hr]. by exists fd.
  - cbn. by eapply opened_none, Eo; apply inet_socket_opens.
Qed.

(** Asking for the MTU leaks: the monitor asks every second, and every time that
    the kernel does not know the interface (any more) a socket stays open.  After
    [n] questions, none of which panics, exactly as many descriptors were added
    as there were failures of that kind. *)
Theorem failed_mtu_leaks_socket t n (o : O) w : named t ->
  exists l o' w', polls (Linux.mtu t) n o w = Ok l o' w' /\ length l = n /\
    size (open_fds o') = (size (open_fds o) + failures ioctl_failed l)%nat.
Proof. intros Hn. by apply polls_leak, mtu_leaks. Qed.
End LinuxProperties.

(** ** macOS *)

Section DarwinProperties.
Context {O : Type} `{Darwin.UtunControlLaws O} `{!FdsLaws O}.

(** On macOS a constructor that fails closes what it opened. *)
Theorem utun_new_descriptors name (o : O) w :
  match Darwin.new name o w with
  | Ok fd o' _ => one_more o o' fd /\ is_Some (Darwin.parse_utun_name name)
  | Fail e o' _ => open_fds o' = open_fds o /\ (e = InvalidTunnelName <-> Darwin.parse_utun_name name = None)
  | Panic => False
  end.
Proof.
  unfold Darwin.new. destruct (Darwin.parse_utun_name name) as [idx|] eqn:Ep; step; [|done].
  unfold bind at 1. rewrite sys_eq. destruct (Darwin.control_socket (calls w) o) as [[fd|] o1] eqn:Eo; cbn [fst snd]; step.
  - pose proof (opened_some _ _ _ _ _ Darwin.control_socket_opens Eo) as Ho.
    destruct (Darwin.ctliocginfo _ _ _ _) as [i|]; step; [|split; [by eapply one_more_closed|done]].
    unfold bind. rewrite sys_eq. cbn [calls].
    pose proof (Darwin.connect_unit_fds (S (S (calls w))) fd i idx o1) as Ec.
    destruct (Darwin.connect_unit _ _ _ _ _) as [[] o2]; cbn [fst snd negb] in *; step; [split; [by eapply one_more_same|done]|].
    split; [|done]. eapply one_more_closed, one_more_same; [exact Ho|done].
  - split; [|done]. by eapply opened_none, Eo; apply Darwin.control_socket_opens.
Qed.

Lemma take_str4 s : take 4 (str "utun" ++ s) = str "utun" /\ drop 4 (str "utun" ++ s) = s.
Proof. done. Qed.

(** A message that [write] sends is read back as the packet, as far as the buffer has
    room. *)
Theorem utun_message_roundtrip self src af dst (o o1 : O) w : src <> [] -> dst <> [] ->
  Darwin.recvmsg (calls w) self (4 + length dst) o =
    (Some (take (4 + length dst) (concat [bytes_of [0; 0; 0; af]; src])), o1) ->
  Darwin.read self dst o w = Ok (take (length dst) src) o1 (mkWorld (ticks w) (wall w) (draws w) (S (calls w))).
Proof.
  intros Hs Hd E. unfold Darwin.read, bind. rewrite sys_eq, E. cbn [fst snd]. cbn [concat]. rewrite app_nil_r.
  change (take (4 + length dst) (bytes_of [0; 0; 0; af] ++ src)) with (bytes_of [0; 0; 0; af] ++ take (length dst) src).
  rewrite length_app, length_bytes_of. cbn [length]. set (p := take (length dst) src).
  assert (0 < length p <= length dst)%nat.
  { unfold p. rewrite length_take. destruct src, dst; cbn; try done; lia. }
  rewrite (proj2 (Nat.leb_gt _ _)), (proj2 (Nat.leb_le _ _)) by lia. replace (4 + length p - 4)%nat with (length p) by lia.
  change (drop 4 _) with p. step. by rewrite take_splice.
Qed.
End DarwinProperties.

(** The unit of a named interface: [utunN] is unit [N + 1], and 0, which stands
    for any, only [utun]; all units are of 32 bits.  The last name is an
    exception: the sum wraps around and [utun4294967295] is any interface. *)
Theorem utun_units :
  (forall x, 0 <= x < 2 ^ 32 - 1 -> Darwin.parse_utun_name (str "utun" ++ show x) = Some (x + 1)) /\
  (forall name x, Darwin.parse_utun_name name = Some x -> is_u32 x) /\
  Darwin.parse_utun_name (str "utun4294967295") = Darwin.parse_utun_name (str "utun").
Proof.
  split_and!; [|intros name x|vm_compute; reflexivity].
  - intros x Hx. unfold Darwin.parse_utun_name. destruct (take_str4 (show x)) as [-> ->]. rewrite bool_decide_eq_true_2 by done. cbn [negb].
    destruct (show x) as [|b s] eqn:Es; [|rewrite <- Es, parse_show by lia; cbn; by rewrite u32_small by (unfold is_u32; lia)].
    pose proof (parse_show 32 x ltac:(lia) ltac:(lia)) as Hp. by rewrite Es in Hp.
  - unfold Darwin.parse_utun_name. destruct (negb _); [done|]. destruct (drop 4 name) as [|b s]; [intros [= <-]; done|].
    destruct (parse_uint 32 (b :: s)) as [y|]; [|done]. intros [= <-]. apply u32_range.
Qed.

(** ** A table of descriptors *)

Module Table.
#[local] Instance fds : Fds (gset nat) := {|
  open_fds o := set_map Z.of_nat o;
  inet_socket _ o := (Some (Z.of_nat (fresh o)), {[fresh o]} ∪ o);
  getfl _ fd o := if bool_decide (fd ∈ (set_map Z.of_nat o : gset Z)) then Some 2 else None;
  setfl _ _ _ o := (true, o);
  siocgifmtu _ _ _ _ := None;
  close fd o := if 0 <=? fd then o ∖ {[Z.to_nat fd]} else o;
|}.

Lemma fresh_opens (o : gset nat) : (Z.of_nat (fresh o) ∉ (set_map Z.of_nat o : gset Z)) /\
  (set_map Z.of_nat ({[fresh o]} ∪ o) : gset Z) = {[Z.of_nat (fresh o)]} ∪ set_map Z.of_nat o.
Proof.
  split; [|by rewrite set_map_union_L, set_map_singleton_L].
  intros (x & E & Hx)%elem_of_map. apply Nat2Z.inj in E as <-. by apply (is_fresh o).
Qed.

#[local] Instance fds_laws : FdsLaws (gset nat).
Proof.
  split.
  - intros n o. cbn. apply fresh_opens.
  - intros n fd o flags. cbn. by case_bool_decide.
  - done.
  - intros fd o. cbn. destruct (0 <=? fd) eqn:E.
    + apply set_eq. intros x. rewrite elem_of_difference, !elem_of_map, elem_of_singleton. split.
      * intros (y & -> & Hy). split; [exists y; set_solver|]. intros <-. rewrite Nat2Z.id in Hy. set_solver.
      * intros [(y & -> & Hy) Hn]. exists y. split; [done|]. apply elem_of_difference. split; [done|].
        intros ->%elem_of_singleton. apply Hn. rewrite Z2Nat.id; [done|]. lia.
    + apply set_eq. intros x. rewrite elem_of_difference, !elem_of_map, elem_of_singleton. split; [|naive_solver].
      intros (y & -> & Hy). split; [by exists y|]. lia.
  - intros o fd (x & -> & _)%elem_of_map. lia.
Qed.

#[local] Instance tun : Linux.TunDevice (gset nat) := {|
  Linux.open_tun _ o := (Some (Z.of_nat (fresh o)), {[fresh o]} ∪ o);
  Linux.tunsetiff _ _ _ _ o := (true, o);
  Linux.fd_read _ _ _ o := (None, o);
  Linux.fd_write _ _ b o := (Some (Z.of_nat (length b)), o);
|}.
#[local] Instance tun_laws : Linux.TunDeviceLaws (gset nat).
Proof. split; [intros n o; cbn; apply fresh_opens|done|done]. Qed.

Definition w0 : World := mkWorld 0 0 0 0.
Definition wg : Linux.TunSocket := Linux.mkTunSocket 3 (str "wg0").

(** A name that is too long: the caller gets an error and keeps a descriptor. *)
Lemma tun_new_descriptors_witness : exists o w,
  Linux.new (str "a-very-long-interface-name") {[0%nat; 1%nat; 2%nat]} w0 = Fail InvalidTunnelName o w /\ exists fd : Z, one_more {[0%nat; 1%nat; 2%nat]} o fd.
Proof.
  pose proof (tun_new_descriptors (str "a-very-long-interface-name") {[0%nat; 1%nat; 2%nat]} w0) as Hn.
  assert (E : match Linux.new (str "a-very-long-interface-name") {[0%nat; 1%nat; 2%nat]} w0 with
    Fail InvalidTunnelName _ _ => True | _ => False end) by (vm_compute; exact I).
  destruct (Linux.new _ _ _) as [t o' w|[] o' w|]; try contradiction. exists o', w. split; [reflexivity|].
  destruct Hn as (_ & _ & _ & Hf). exact (Hf ltac:(discriminate)).
Defined.

(** The interface is gone: a minute of questions, a minute of sockets. *)
Lemma failed_mtu_leaks_socket_witness : exists l (o' : gset nat) w', polls (Linux.mtu wg) 60 {[0%nat; 1%nat; 2%nat; 3%nat]} w0 = Ok l o' w' /\
  length l = 60%nat /\ size (open_fds o') = (size (open_fds ({[0; 1; 2; 3]} : gset nat)%nat) + failures ioctl_failed l)%nat.
Proof.
  apply (failed_mtu_leaks_socket wg 60 ({[0; 1; 2; 3]} : gset nat)%nat w0). right. vm_compute. lia.
Defined.
Lemma gone_minute : match polls (Linux.mtu wg) 60 ({[0; 1; 2; 3]} : gset nat)%nat w0 with
  | Ok l o' _ => failures ioctl_failed l = 60%nat /\ size (open_fds o') = 64%nat | _ => False end.
Proof. vm_compute. done. Qed.
End Table.
