(* ===== verification/Device.v ===== *)
(** * The device's tables of peers: [Device] of [device/mod.rs]

    Peers are behind [Arc<Mutex<..>>] and shared between three tables: by public
    key, by index, by allowed address.  A peer has an address in a store, the
    tables hold addresses, and [Arc::ptr_eq] compares them.  The limiters have a
    heap of their own, as in [Tunnel]. *)

From S2P Require Import Prelude Packet Crypto Session Instant Handshake RateLimiter Timers Tunnel.
From S2P Require Import IndexLfsr AllowedIps Peer.

Definition HANDSHAKE_RATE_LIMIT : Z := 100.

Section Device.
Context `{Features, Crypto, Env, IpNetworkTable, Os}.

(** [DeviceConfig] of the Linux build *)
Record DeviceConfig := mkDeviceConfig {
  n_threads : Z;
  use_connected_socket : bool;
  use_multi_queue : bool;
  uapi_fd : Z;
}.

(** The event queue and the notices are in [Handlers.Machine]; the handle of the
    interface and the files to remove are not part of the model. *)
Record Device := mkDevice {
  key_pair : option (bytes * bytes);
  listen_port : Z;
  dev_fwmark : option Z;
  udp4 : option Socket;
  udp6 : option Socket;
  peers : gmap bytes nat;
  peers_by_ip : AllowedIps nat;
  peers_by_idx : gmap Z nat;
  next_index : IndexLfsr;
  config : DeviceConfig;
  mtu : Z;
  dev_rate_limiter : option nat;
}.

Definition set_key_pair x d := mkDevice x (listen_port d) (dev_fwmark d) (udp4 d) (udp6 d)
  (peers d) (peers_by_ip d) (peers_by_idx d) (next_index d) (config d) (mtu d) (dev_rate_limiter d).
Definition set_peers x d := mkDevice (key_pair d) (listen_port d) (dev_fwmark d) (udp4 d)
  (udp6 d) x (peers_by_ip d) (peers_by_idx d) (next_index d) (config d) (mtu d) (dev_rate_limiter d).
Definition set_peers_by_ip x d := mkDevice (key_pair d) (listen_port d) (dev_fwmark d) (udp4 d)
  (udp6 d) (peers d) x (peers_by_idx d) (next_index d) (config d) (mtu d) (dev_rate_limiter d).
Definition set_peers_by_idx x d := mkDevice (key_pair d) (listen_port d) (dev_fwmark d) (udp4 d)
  (udp6 d) (peers d) (peers_by_ip d) x (next_index d) (config d) (mtu d) (dev_rate_limiter d).
Definition set_register x d := mkDevice (key_pair d) (listen_port d) (dev_fwmark d) (udp4 d)
  (udp6 d) (peers d) (peers_by_ip d) (peers_by_idx d) x (config d) (mtu d) (dev_rate_limiter d).
Definition set_dev_rate_limiter x d := mkDevice (key_pair d) (listen_port d) (dev_fwmark d)
  (udp4 d) (udp6 d) (peers d) (peers_by_ip d) (peers_by_idx d) (next_index d) (config d) (mtu d) x.

Definition set_listen_port x d := mkDevice (key_pair d) x (dev_fwmark d) (udp4 d) (udp6 d)
  (peers d) (peers_by_ip d) (peers_by_idx d) (next_index d) (config d) (mtu d) (dev_rate_limiter d).
Definition set_dev_fwmark x d := mkDevice (key_pair d) (listen_port d) x (udp4 d) (udp6 d)
  (peers d) (peers_by_ip d) (peers_by_idx d) (next_index d) (config d) (mtu d) (dev_rate_limiter d).
Definition set_udp4 x d := mkDevice (key_pair d) (listen_port d) (dev_fwmark d) x (udp6 d)
  (peers d) (peers_by_ip d) (peers_by_idx d) (next_index d) (config d) (mtu d) (dev_rate_limiter d).
Definition set_udp6 x d := mkDevice (key_pair d) (listen_port d) (dev_fwmark d) (udp4 d) x
  (peers d) (peers_by_ip d) (peers_by_idx d) (next_index d) (config d) (mtu d) (dev_rate_limiter d).
Definition set_mtu x d := mkDevice (key_pair d) (listen_port d) (dev_fwmark d) (udp4 d) (udp6 d)
  (peers d) (peers_by_ip d) (peers_by_idx d) (next_index d) (config d) x (dev_rate_limiter d).

Record System := mkSystem { device : Device; store : gmap nat Peer; limiters : gmap nat RateLimiter }.

Abbreviation SM := (M WireGuardError System).

Definition in_device {A} (m : M WireGuardError Device A) : SM A :=
  zoom device (fun d s => mkSystem d (store s) (limiters s)) m.
Definition in_limiters {A} (m : M WireGuardError (gmap nat RateLimiter) A) : SM A :=
  zoom limiters (fun l s => mkSystem (device s) (store s) l) m.

(** [peer.lock()]: a method on the peer at an address. *)
Definition lock {A} (a : nat) (m : M WireGuardError Peer A) : SM A := fun s w =>
  match store s !! a with
  | None => Panic
  | Some p => zoom (fun _ => p) (fun p s => mkSystem (device s) (<[a := p]> (store s)) (limiters s)) m s w
  end.

(** [Arc::new(Mutex::new(peer))] *)
Definition alloc (p : Peer) : SM nat :=
  s <- get;;
  let a := fresh (dom (store s)) in
  modify (fun s => mkSystem (device s) (<[a := p]> (store s)) (limiters s));;
  ret a.

(** [Device::next_index] *)
Definition fresh_index : SM Z :=
  in_device (zoom next_index set_register IndexLfsr.next).

Definition remove_peer (pub_key : bytes) : SM unit :=
  s <- get;;
  match peers (device s) !! pub_key with
  | None => ret tt
  | Some peer =>
      in_device (modify (fun d => set_peers (delete pub_key (peers d)) d));;
      i <- lock peer (shutdown_endpoint;; p <- get;; ret (index p));;
      in_device (modify (fun d => set_peers_by_idx (delete i (peers_by_idx d)) d));;
      in_device (zoom peers_by_ip set_peers_by_ip (remove (fun p => bool_decide (peer = p))))
  end.

(** The loop that enters the addresses of a new peer. *)
Fixpoint enter_ips (peer : nat) (l : list AllowedIP) : M WireGuardError (AllowedIps nat) unit :=
  match l with
  | [] => ret tt
  | ip :: l => insert (addr ip) (cidr ip) peer;; enter_ips peer l
  end.

Definition update_peer (pub_key : bytes) (remove replace_ips : bool) (endpoint : option SocketAddr)
  (allowed_ips : list AllowedIP) (keepalive : option Z) (preshared_key : option bytes) : SM unit :=
  if remove then remove_peer pub_key else
  s <- get;;
  if bool_decide (is_Some (peers (device s) !! pub_key)) then panic else
  next_index <- fresh_index;;
  s <- get;;
  device_key_pair <- unwrap (key_pair (device s));;
  tunn <- in_limiters (Tunnel.new device_key_pair.1 pub_key preshared_key keepalive next_index None);;
  peer <- Peer.new tunn next_index endpoint allowed_ips preshared_key;;
  peer <- alloc peer;;
  in_device (modify (fun d => set_peers (<[pub_key := peer]> (peers d)) d));;
  in_device (modify (fun d => set_peers_by_idx (<[next_index := peer]> (peers_by_idx d)) d));;
  in_device (zoom peers_by_ip set_peers_by_ip (enter_ips peer allowed_ips)).

(** A method of the tunnel of the peer at an address. *)
Definition with_tunnel {A} (a : nat) (m : M WireGuardError Process A) : SM A := fun s w =>
  match store s !! a with
  | None => Panic
  | Some p =>
      zoom (fun s => mkProcess (tunnel p) (limiters s))
        (fun t s => mkSystem (device s) (<[a := set_tunnel (tunn t) p]> (store s)) (heap t)) m s w
  end.

(** [Tunn::set_static_private] of the peer at an address, with the device's
    limiter. *)
Definition rekey_peer (private_key public_key : bytes) (limiter a : nat) : SM unit :=
  with_tunnel a (Tunnel.set_static_private private_key public_key (Some limiter)).

(** [Device::set_key]; the peers are visited in the order of the map. *)
Definition set_key (private_key : bytes) : SM unit :=
  let public_key := x25519_public private_key in
  s <- get;;
  if bool_decide (Some public_key = snd <$> key_pair (device s)) then ret tt else
  l <- RateLimiter.new public_key HANDSHAKE_RATE_LIMIT;;
  rate_limiter <- in_limiters (heap <- get;; let a := fresh (dom heap) in modify (<[a := l]>);; ret a);;
  for_each (rekey_peer private_key public_key rate_limiter) (snd <$> map_to_list (peers (device s)));;
  in_device (modify (set_key_pair (Some (private_key, public_key))));;
  in_device (modify (set_dev_rate_limiter (Some rate_limiter))).

Definition clear_peers : SM unit :=
  in_device (modify (set_peers ∅));;
  in_device (modify (set_peers_by_idx ∅));;
  in_device (zoom peers_by_ip set_peers_by_ip clear).

(** The peer a message of the anonymous socket belongs to: the choice in the
    handler of [register_udp_handler]. *)
Definition peer_of_packet (private_key public_key : bytes) (packet : Packet) (d : Device) (w : World) : option nat :=
  let by_key (half : outcome WireGuardError unit HalfHandshake) :=
    match half with Ok hh _ _ => peers d !! hh_peer_static_public hh | _ => None end in
  match packet with
  | PHandshakeInit p => by_key (parse_handshake_anon private_key public_key p tt w)
  | PPqHandshakeInit p => by_key (parse_pq_handshake_anon private_key public_key p tt w)
  | PPqHandshakeResponse p => peers_by_idx d !! Z.shiftr (pqr_receiver_idx p) 8
  | PHandshakeResponse p => peers_by_idx d !! Z.shiftr (hr_receiver_idx p) 8
  | PPacketCookieReply p => peers_by_idx d !! Z.shiftr (cr_receiver_idx p) 8
  | PPacketData p => peers_by_idx d !! Z.shiftr (pd_receiver_idx p) 8
  end.

(** The peer a packet of the interface is routed to: the choice in the handler of
    [register_iface_handler]. *)
Definition peer_of_destination (src : bytes) (d : Device) : option nat :=
  a ← dst_address src; find a (peers_by_ip d).

(** [Device::new]: the fields of the new device, with a seeded register and the
    interface's [mtu]. *)
Definition new_device (config : DeviceConfig) (mtu : Z) (register : IndexLfsr) : Device :=
  mkDevice None 0 None None None ∅ AllowedIps.new ∅ register config mtu None.

End Device.
