(* ===== verification/DeviceProps.v ===== *)
(** * The device's tables agree

    The invariant of the three tables of peers, kept by every operation of the
    configuration protocol; from it, that the messages of a peer are handed to
    that peer. *)

From S2P Require Import Prelude Packet Crypto Session Instant Handshake NoiseSpec HandshakeSpec.
From S2P Require Import HandshakeProps.
From S2P Require Import HandshakeSafety RateLimiter Timers Tunnel TunnelSafety IndexLfsr AllowedIps Peer.
From S2P Require Import Device.

Section Properties.
Context `{Features, Crypto, Env, IpNetworkTable, Os, !CryptoLaws, !MonotoneClock, !IpNetworkTableLaws}.
(** No packet of the interface is longer. *)
Variable longest : nat.

(** The keys a peer's tunnel works with. *)
Definition keyed (s : System) (p : Peer) : Prop :=
  exists sk, key_pair (device s) = Some (sk, x25519_public sk) /\
    static_private (params (handshake (tunnel p))) = sk /\
    static_public (params (handshake (tunnel p))) = x25519_public sk.

(** A peer under the key [pk] with the device's keys, and a tunnel that can be
    used. *)
Definition healthy (s : System) (pk : bytes) (p : Peer) : Prop :=
  peer_static_public (params (handshake (tunnel p))) = pk /\ keyed s p.
Definition running (s : System) (w : World) (p : Peer) : Prop :=
  pinv (index p) longest (mkProcess (tunnel p) (limiters s)) w.

(** Also peers that are in no table any more keep running: the handler of a
    connected socket may still hold them. *)
Record dinv (s : System) (w : World) : Prop := {
  d_by_key pk a : peers (device s) !! pk = Some a ->
    exists p, store s !! a = Some p /\ healthy s pk p /\ peers_by_idx (device s) !! index p = Some a;
  d_by_idx i a : peers_by_idx (device s) !! i = Some a ->
    exists pk p, peers (device s) !! pk = Some a /\ store s !! a = Some p /\ index p = i;
  d_by_ip n a : exact_match n (ips (peers_by_ip (device s))) = Some a ->
    exists pk, peers (device s) !! pk = Some a;
  d_store a p : store s !! a = Some p -> running s w p;
  d_register : exists n, wf n (next_index (device s)) /\
    forall i a, peers_by_idx (device s) !! i = Some a -> exists k, (k < n)%nat /\ i = index_at (next_index (device s)) k;
  d_keys sk pk : key_pair (device s) = Some (sk, pk) ->
    pk = x25519_public sk /\ is_Some (dev_rate_limiter (device s));
  d_limiter l : dev_rate_limiter (device s) = Some l -> is_Some (limiters s !! l);
}.

Lemma dinv_later s w w' : dinv s w -> later w w' -> dinv s w'.
Proof.
  intros [K I P V R Y Z] L. split; [done..| |done|done|done]. intros a p Hp. eapply pinv_later; [by eapply V|done].
Qed.

(** More limiters, as good. *)
Lemma running_grows s s' w p : running s w p ->
  (forall x, is_Some (limiters s !! x) -> is_Some (limiters s' !! x)) -> running s' w p.
Proof. intros (Hi & Ha & Hq) Hl. split_and!; [exact Hi|by apply Hl|exact Hq]. Qed.

(** The tables are all that matters of the device, and the tunnels of a peer. *)
Lemma dinv_device d' s w : dinv s w ->
  peers d' = peers (device s) -> peers_by_idx d' = peers_by_idx (device s) -> peers_by_ip d' = peers_by_ip (device s) ->
  next_index d' = next_index (device s) -> key_pair d' = key_pair (device s) ->
  dev_rate_limiter d' = dev_rate_limiter (device s) -> dinv (mkSystem d' (store s) (limiters s)) w.
Proof.
  intros [K I P V R Y Z] E1 E2 E3 E4 E5 E6. split; cbn; rewrite ?E1, ?E2, ?E3, ?E4, ?E5, ?E6; try done.
  intros pk a Ha. destruct (K pk a Ha) as (p & Hp & (Hh & sk & Hk) & Hi). exists p. split_and!; [done| |done].
  split; [done|]. exists sk. cbn. by rewrite E5.
Qed.

Lemma dinv_endpoint a p e s w : dinv s w -> store s !! a = Some p ->
  dinv (mkSystem (device s) (<[a := set_endpoint_cell e p]> (store s)) (limiters s)) w.
Proof.
  intros [Vk Vi Vp Vs Vr Vy Vz] E. split; cbn; [| |exact Vp| |exact Vr|exact Vy|exact Vz].
  - intros pk b Hb. destruct (Vk pk b Hb) as (q & Hq & Hh & Hx). destruct (decide (a = b)) as [<-|Hne].
    + exists (set_endpoint_cell e p). assert (q = p) as -> by congruence. rewrite lookup_insert_eq. by split_and!.
    + exists q. by rewrite lookup_insert_ne.
  - intros i b Hb. destruct (Vi i b Hb) as (pk & q & Hpk & Hq & Hx). destruct (decide (a = b)) as [<-|Hne].
    + exists pk, (set_endpoint_cell e p). assert (q = p) as -> by congruence. rewrite lookup_insert_eq. by split_and!.
    + exists pk, q. by rewrite lookup_insert_ne.
  - intros b q [[<- <-]|[_ Hb]]%lookup_insert_Some; [exact (Vs a p E)|exact (Vs b q Hb)].
Qed.

(** Two keys never share a peer. *)
Lemma peers_inj s w pk pk' a : dinv s w ->
  peers (device s) !! pk = Some a -> peers (device s) !! pk' = Some a -> pk = pk'.
Proof.
  intros Hd H1' H2'. destruct (d_by_key _ _ Hd _ _ H1') as (p & Hp & [E _] & _).
  destruct (d_by_key _ _ Hd _ _ H2') as (p' & Hp' & [E' _] & _). congruence.
Qed.

Lemma dinv_empty c mtu reg limiters w : wf 0 reg -> dinv (mkSystem (new_device c mtu reg) ∅ limiters) w.
Proof.
  intros Hw. split; cbn.
  - intros pk a. by rewrite lookup_empty.
  - intros i a. by rewrite lookup_empty.
  - intros n a. by rewrite exact_new.
  - intros a p. by rewrite lookup_empty.
  - exists 0%nat. split; [done|]. intros i a. by rewrite lookup_empty.
  - done.
  - done.
Qed.

(** ** Removing *)

(** The connected socket of a peer, if closing it fails. *)
Definition stuck (p : Peer) : Prop := exists c, ep_conn (endpoint p) = Some c /\ shutdown_ok c = false.

Lemma shutdown_endpoint_eq {E} p w : shutdown_endpoint (E:=E) p w =
  match ep_conn (endpoint p) with
  | Some c => if shutdown_ok c then Ok tt (set_endpoint_cell (mkEndpoint (ep_addr (endpoint p)) None) p) w else Panic
  | None => Ok tt p w
  end.
Proof.
  unfold shutdown_endpoint, shutdown. step. destruct (ep_conn _) as [c|]; [|done]. step. by destruct (shutdown_ok c).
Qed.

(** What [remove_peer] leaves of a device with the peer [a]. *)
Definition without (pk : bytes) (a : nat) (i : Z) (d : Device) : Device :=
  set_peers_by_ip (mkAllowedIps (retain (fun _ v => negb (bool_decide (a = v))) (ips (peers_by_ip d))))
    (set_peers_by_idx (delete i (peers_by_idx d)) (set_peers (delete pk (peers d)) d)).

Lemma remove_peer_eq s w pk a p : peers (device s) !! pk = Some a -> store s !! a = Some p ->
  remove_peer pk s w =
    let left e := mkSystem (without pk a (index p) (device s)) (<[a := set_endpoint_cell e p]> (store s)) (limiters s) in
    match ep_conn (endpoint p) with
    | Some c => if shutdown_ok c then Ok tt (left (mkEndpoint (ep_addr (endpoint p)) None)) w else Panic
    | None => Ok tt (left (endpoint p)) w
    end.
Proof.
  intros Ha Hp. unfold remove_peer. unfold bind at 1. cbn [get]. rewrite Ha.
  unfold bind at 1. cbn [in_device zoom modify]. unfold bind at 1, lock. cbn [store]. rewrite Hp. cbn [zoom].
  unfold bind at 1. rewrite shutdown_endpoint_eq.
  destruct (ep_conn (endpoint p)) as [c|]; [by destruct (shutdown_ok c)|].
  cbn zeta. by replace (set_endpoint_cell (endpoint p) p) with p by (by destruct p).
Qed.

Lemma dinv_without s w pk a p e : dinv s w -> peers (device s) !! pk = Some a -> store s !! a = Some p ->
  dinv (mkSystem (without pk a (index p) (device s)) (<[a := set_endpoint_cell e p]> (store s)) (limiters s)) w.
Proof.
  intros Hd Ha Hp. pose proof Hd as [K I P V R Y Z]. split; cbn.
  - intros pk' a' [Hne Ha']%lookup_delete_Some. destruct (K _ _ Ha') as (p' & Hp' & Hh & Hi).
    assert (a' <> a) by (intros ->; apply Hne; by eapply peers_inj).
    exists p'. rewrite lookup_insert_ne by done. split_and!; [done|exact Hh|].
    apply lookup_delete_Some. split; [|done]. intros E. rewrite <- E in Hi.
    destruct (K _ _ Ha) as (p0 & Hp0 & _ & Hi0). congruence.
  - intros i a' [Hne Hi]%lookup_delete_Some. destruct (I _ _ Hi) as (pk' & p' & Hk & Hp' & Ei).
    assert (a' <> a) by (intros ->; congruence).
    exists pk', p'. rewrite lookup_insert_ne by done. split_and!; [|done|done].
    apply lookup_delete_Some. split; [|done]. intros ->. congruence.
  - intros n a'. rewrite exact_retain. destruct (exact_match n _) as [a0|] eqn:Ex; [|done].
    case_bool_decide as Hne; cbn; [done|]. intros [= ->]. destruct (P _ _ Ex) as [pk' Hk].
    exists pk'. apply lookup_delete_Some. split; [|done]. intros ->. congruence.
  - intros a' p' [[<- <-]|[_ Hp']]%lookup_insert_Some; [exact (V _ _ Hp)|exact (V _ _ Hp')].
  - destruct R as (n & Hw & Hr). exists n. split; [done|]. intros i a' [_ Hi]%lookup_delete_Some. by eapply Hr.
  - exact Y.
  - exact Z.
Qed.

Lemma remove_peer_ok s w pk : dinv s w ->
  match remove_peer pk s w with
  | Ok _ s' w' => dinv s' w' /\ later w w' /\ peers (device s') = delete pk (peers (device s))
  | Fail _ _ _ => False
  | Panic => exists a p, peers (device s) !! pk = Some a /\ store s !! a = Some p /\ stuck p
  end.
Proof.
  intros Hd. destruct (peers (device s) !! pk) as [a|] eqn:Ha.
  - destruct (d_by_key _ _ Hd _ _ Ha) as (p & Hp & _). rewrite (remove_peer_eq s w pk a p Ha Hp). cbn zeta.
    destruct (ep_conn (endpoint p)) as [c|] eqn:Ec; [destruct (shutdown_ok c) eqn:Es|].
    + split_and!; [by apply dinv_without|done|done].
    + exists a, p. split_and!; [done|done|]. by exists c.
    + split_and!; [by apply dinv_without|done|done].
  - unfold remove_peer, bind. cbn [get]. rewrite Ha. cbn [ret]. split_and!; [done|done|].
    by rewrite delete_id.
Qed.

Lemma clear_peers_ok s w : dinv s w ->
  exists s', clear_peers s w = Ok tt s' w /\ dinv s' w /\ peers (device s') = ∅.
Proof.
  intros Hd. eexists. split; [reflexivity|]. split; [|done]. pose proof Hd as [_ _ _ V (n & Hw & _) Y Z]. split; cbn.
  - intros pk a. by rewrite lookup_empty.
  - intros i a. by rewrite lookup_empty.
  - intros m a. by rewrite exact_new.
  - exact V.
  - exists n. split; [done|]. intros i a. by rewrite lookup_empty.
  - exact Y.
  - exact Z.
Qed.

(** ** Adding *)

Lemma insert_cases {D} ip (d : D) (t : AllowedIps D) w :
  match insert (E:=WireGuardError) (addr ip) (cidr ip) d t w with
  | Ok _ t' w' => w' = w /\ forall n x, exact_match n (ips t') = Some x -> x = d \/ exact_match n (ips t) = Some x
  | Fail _ _ _ => False
  | Panic => ~ valid ip
  end.
Proof.
  destruct (insert _ _ _ t w) as [o t1 w1|e t1 w1|] eqn:Ei.
  - unfold insert in Ei. step in Ei. destruct (new_truncate _ _) as [n|]; [|done]. step in Ei.
    pose proof (fun m => exact_insert n m d (ips t)) as Ex.
    destruct (table_insert n d (ips t)) as [t' old]. step in Ei. injection Ei as <- <- <-. split; [done|].
    intros m x Hx. cbn in Hx, Ex. rewrite Ex in Hx. case_decide; [left; congruence|by right].
  - unfold insert in Ei. step in Ei. destruct (new_truncate _ _) as [n|]; [|done]. step in Ei.
    by destruct (table_insert n d (ips t)).
  - intros Hv. destruct (insert_eq ip d t w Hv (E:=WireGuardError)) as (n & E & _). congruence.
Qed.

Lemma insert_all_cases {D} (d : D) l : forall (t : AllowedIps D) w,
  match insert_all (E:=WireGuardError) ((fun ip => (ip, d)) <$> l) t w with
  | Ok _ t' w' => w' = w /\ forall n x, exact_match n (ips t') = Some x -> x = d \/ exact_match n (ips t) = Some x
  | Fail _ _ _ => False
  | Panic => ~ Forall valid l
  end.
Proof.
  induction l as [|ip l IH]; intros t w; cbn [fmap list_fmap insert_all].
  { split; [done|]. tauto. }
  unfold bind. pose proof (insert_cases ip d t w) as Hi.
  destruct (insert _ _ _ t w) as [o t1 w1|e t1 w1|]; [|done|by intros [? _]%Forall_cons_iff].
  destruct Hi as [-> Hi]. specialize (IH t1 w).
  destruct (insert_all _ t1 w) as [[] t2 w2|e t2 w2|]; [|done|by intros [_ ?]%Forall_cons_iff].
  destruct IH as [-> IH]. split; [done|]. intros n x Hx. apply IH in Hx as [?|Hx]; [by left|by apply Hi].
Qed.

Lemma enter_ips_eq a l : enter_ips a l = insert_all ((fun ip => (ip, a)) <$> l).
Proof. induction l as [|ip l IH]; [done|]. cbn. by rewrite IH. Qed.

(** [Peer::new] returns the peer it was told to make. *)
Lemma peer_new_ok {S} t i ep l psk (s : S) w :
  match Peer.new (E:=WireGuardError) t i ep l psk s w with
  | Ok p s' w' => s' = s /\ w' = w /\ tunnel p = t /\ index p = i
  | Fail _ _ _ => False
  | Panic => ~ Forall valid l
  end.
Proof.
  unfold Peer.new, bind, from_iter. pose proof (insert_all_cases tt l AllowedIps.new w) as Hl.
  destruct (insert_all _ _ w); [by destruct Hl as [-> _]|done|done].
Qed.

(** A new peer, in the tables of a device that gives it the next index. *)
Definition with_peer (pk : bytes) (a : nat) (p : Peer) (t : AllowedIps nat) (d : Device) : Device :=
  set_peers_by_ip t (set_peers_by_idx (<[index p := a]> (peers_by_idx d))
    (set_peers (<[pk := a]> (peers d)) (set_register (advance (next_index d)) d))).

Lemma dinv_with s w pk p t lims n :
  dinv s w -> peers (device s) !! pk = None -> wf n (next_index (device s)) ->
  (forall i a, peers_by_idx (device s) !! i = Some a -> exists k, (k < n)%nat /\ i = index_at (next_index (device s)) k) ->
  Nat.iter (S n) shift (initial (next_index (device s))) <> initial (next_index (device s)) ->
  index p = index_at (next_index (device s)) n ->
  let a := fresh (dom (store s)) in
  let s' := mkSystem (with_peer pk a p t (device s)) (<[a := p]> (store s)) lims in
  healthy s' pk p -> running s' w p -> (forall x, is_Some (limiters s !! x) -> is_Some (lims !! x)) ->
  (forall m x, exact_match m (ips t) = Some x -> x = a \/ exact_match m (ips (peers_by_ip (device s))) = Some x) ->
  dinv s' w.
Proof.
  intros Hd Hk Hw Hr Hx Hi a s' Hh Hu Hl Ht. pose proof Hd as [K I P V _ Y Z].
  assert (Fr : store s !! a = None) by (apply not_elem_of_dom, is_fresh).
  assert (Fi : peers_by_idx (device s) !! index p = None).
  { destruct (peers_by_idx (device s) !! index p) as [a'|] eqn:E; [|done]. exfalso.
    destruct (Hr _ _ E) as (k & Hkn & Ek). rewrite Hi in Ek. apply (index_at_inj n) in Ek; [lia|done|lia|lia]. }
  split; cbn.
  - intros pk' a' [[<- <-]|[Hne Ha']]%lookup_insert_Some.
    + exists p. rewrite !lookup_insert_eq. by split_and!.
    + destruct (K _ _ Ha') as (p' & Hp' & (Ep & Ky) & Ix). exists p'.
      assert (a <> a') by (intros <-; congruence). assert (index p <> index p') by (intros E; congruence).
      rewrite !lookup_insert_ne by done. split_and!; [done| |done]. split_and!; [done|exact Ky].
  - intros i a' [[<- <-]|[Hne Ha']]%lookup_insert_Some.
    + exists pk, p. by rewrite !lookup_insert_eq.
    + destruct (I _ _ Ha') as (pk' & p' & Hp & Hs & Ei). exists pk', p'.
      assert (a <> a') by (intros <-; congruence). assert (pk <> pk') by (intros <-; congruence).
      by rewrite !lookup_insert_ne.
  - intros m x [->|Hm]%Ht; [exists pk; by rewrite lookup_insert_eq|]. destruct (P _ _ Hm) as [pk' Hp'].
    exists pk'. rewrite lookup_insert_ne; [done|]. intros <-. congruence.
  - intros a' p' [[<- <-]|[_ Hp']]%lookup_insert_Some; [exact Hu|].
    exact (running_grows _ s' _ _ (V _ _ Hp') Hl).
  - exists (S n). split; [by apply wf_advance|]. intros i a' [[<- <-]|[_ Ha']]%lookup_insert_Some.
    + exists n. split; [lia|]. exact Hi.
    + destruct (Hr _ _ Ha') as (k & Hkn & ->). exists k. split; [lia|done].
  - exact Y.
  - intros l El. by apply Hl, Z.
Qed.

(** When a peer can be added. *)
Record addable (pk : bytes) (l : list AllowedIP) (s : System) (w : World) : Prop := {
  a_new : peers (device s) !! pk = None;
  a_key : is_Some (key_pair (device s));
  a_index : IndexLfsr.next (E:=WireGuardError) (next_index (device s)) w <> Panic;
  a_ips : Forall valid l;
  a_time : 0 <= system_time (wall w);
}.

Lemma tunn_new_early priv pub psk keepalive i limiter hp w : system_time (wall w) < 0 ->
  Tunnel.new priv pub psk keepalive i limiter hp w = Panic.
Proof.
  intros Ht. unfold Tunnel.new, Handshake.new, Stamp.new. step. by rewrite (proj2 (Z.ltb_lt _ _) Ht).
Qed.

Lemma add_peer_ok s w pk b ep l ka psk : dinv s w ->
  match update_peer pk false b ep l ka psk s w with
  | Ok _ s' w' => dinv s' w' /\ later w w' /\ exists a, peers (device s') = <[pk := a]> (peers (device s))
  | Fail _ _ _ => False
  | Panic => ~ addable pk l s w
  end.
Proof.
  intros Hd. unfold update_peer. unfold bind at 1. cbn [get].
  case_bool_decide as Hk; [intros [Ha _ _ _ _]; destruct Hk; congruence|].
  assert (Hn : peers (device s) !! pk = None) by (by apply eq_None_not_Some).
  destruct (d_register _ _ Hd) as (n & Hw & Hr).
  unfold bind at 1, fresh_index, in_device, zoom. pose proof (next_eq (E:=WireGuardError) n _ w Hw) as En.
  rewrite En. destruct (Z.eqb_spec (Nat.iter (S n) shift (initial (next_index (device s))))
    (initial (next_index (device s)))) as [Ex|Ex]; [by intros [_ _ Ha _ _]|].
  unfold bind at 1. cbn [get]. unfold bind at 1. cbn [device key_pair set_register].
  destruct (key_pair (device s)) as [[sk pub]|] eqn:Ek; [|intros [_ [? ?] _ _ _]; congruence]. cbn [unwrap ret fst].
  pose proof (d_keys _ _ Hd _ _ Ek) as [-> _]. unfold bind at 1, in_limiters, zoom at 1. cbn [limiters].
  destruct (Z.lt_ge_cases (system_time (wall w)) 0) as [Ht|Ht].
  { rewrite tunn_new_early by done. intros [_ _ _ _ ?]. lia. }
  destruct (tunn_new_eq (index_at (next_index (device s)) n) longest sk pk psk ka None (limiters s) w)
    as (t & lims & w' & Et & Lw & Ep & Hl & Hi); [by eapply index_at_range|done|done|].
  rewrite Et. unfold bind at 1.
  lazymatch goal with |- context [Peer.new t ?i ep l psk ?s1 w'] => set (i0 := i); set (s0 := s1);
    pose proof (peer_new_ok t i0 ep l psk s0 w') as Hp end.
  destruct (Peer.new t i0 ep l psk s0 w') as [p s1 w1|e s1 w1|]; [|done|by intros [_ _ _ ? _]].
  destruct Hp as (-> & -> & Hpt & Hpi). unfold alloc, in_device. step.
  cbn [store limiters device s0]. set (a := fresh (dom (store s))).
  rewrite enter_ips_eq. cbn [peers_by_ip set_peers_by_idx set_peers set_register].
  pose proof (insert_all_cases a l (peers_by_ip (device s)) w') as Hin.
  destruct (insert_all _ _ w') as [[] tb w2|e tb w2|]; [|done|by intros [_ _ _ ? _]]. destruct Hin as [-> Hin].
  rewrite <- Hpi. split_and!; [|done|by exists a].
  apply (dinv_with s w' pk p tb lims n); [by eapply dinv_later|done|done|done|done|done| | |done|done].
  - rewrite <- Hpt in *. unfold healthy. rewrite Ep. split; [done|]. exists sk. rewrite Ep. by split_and!.
  - unfold running. cbn. rewrite Hpt, Hpi. exact Hi.
Qed.

(** ** A new private key *)

(** [Tunn::set_static_private] with a limiter that exists. *)
Lemma rekey_eq sk lim t hp w i : inv i t w ->
  exists t', Tunnel.set_static_private sk (x25519_public sk) (Some lim) (mkProcess t hp) w =
      Ok tt (mkProcess t' hp) w /\ inv i t' w /\ packet_queue t' = packet_queue t /\ rate_limiter t' = lim /\
    peer_static_public (params (handshake t')) = peer_static_public (params (handshake t)) /\
    static_private (params (handshake t')) = sk /\ static_public (params (handshake t')) = x25519_public sk.
Proof.
  intros (Hh & Hr & Hb & Hq). unfold Tunnel.set_static_private, in_tunn, Handshake.set_static_private,
    noise_params_set_static_private. step. rewrite bool_decide_eq_true_2 by done. cbn [negb]. step.
  eexists. split; [reflexivity|]. split; [|by split_and!].
  split_and!; [|by apply (ring_clear i), Hr|exact Hb|exact Hq].
  destruct Hh as (_ & Hn & Hst & Hs & Hp). split_and!; [apply length_x25519_public|done|done|done|done].
Qed.


(** The tunnel [t'] has the device's new key and limiter. *)
Definition rekeyed (sk : bytes) (lim : nat) (w : World) (p : Peer) (t' : Tunn) : Prop :=
  inv (index p) t' w /\ packet_queue t' = packet_queue (tunnel p) /\ rate_limiter t' = lim /\
  peer_static_public (params (handshake t')) = peer_static_public (params (handshake (tunnel p))) /\
  static_private (params (handshake t')) = sk /\ static_public (params (handshake t')) = x25519_public sk.

Lemma rekey_peer_eq sk lim a s w p : store s !! a = Some p -> inv (index p) (tunnel p) w ->
  exists t', rekey_peer sk (x25519_public sk) lim a s w =
    Ok tt (mkSystem (device s) (<[a := set_tunnel t' p]> (store s)) (limiters s)) w /\ rekeyed sk lim w p t'.
Proof.
  intros Hp Hi. unfold rekey_peer, with_tunnel. rewrite Hp. unfold zoom.
  destruct (rekey_eq sk lim (tunnel p) (limiters s) w (index p) Hi) as (t' & E & Hr). rewrite E. by exists t'.
Qed.

Lemma rekey_all sk lim w l : forall s,
  (forall a, a ∈ l -> exists p, store s !! a = Some p /\ inv (index p) (tunnel p) w) ->
  exists st, for_each (rekey_peer sk (x25519_public sk) lim) l s w = Ok tt (mkSystem (device s) st (limiters s)) w /\
    (forall a, a ∉ l -> st !! a = store s !! a) /\
    forall a p, a ∈ l -> store s !! a = Some p -> exists t', st !! a = Some (set_tunnel t' p) /\ rekeyed sk lim w p t'.
Proof.
  induction l as [|a l IH]; intros s Hl; cbn [for_each].
  { exists (store s). split_and!; [by destruct s|done|]. by intros a p ?%not_elem_of_nil. }
  destruct (Hl a ltac:(left)) as (p & Hp & Hi). destruct (rekey_peer_eq sk lim a s w p Hp Hi) as (t' & E & Hr).
  unfold bind. rewrite E. set (s1 := mkSystem _ _ _).
  destruct (IH s1) as (st & -> & Ho & Hn).
  { intros a' Ha'. cbn. destruct (decide (a = a')) as [<-|Hne].
    - rewrite lookup_insert_eq. eexists. split; [done|]. apply Hr.
    - rewrite lookup_insert_ne by done. apply Hl. by right. }
  exists st. split_and!; [done| |].
  - intros a' [Hne Hnin]%not_elem_of_cons. rewrite Ho by done. cbn. by rewrite lookup_insert_ne.
  - intros a' p' Ha' Hp'. destruct (decide (a' ∈ l)) as [Hin|Hnin].
    + destruct (decide (a = a')) as [<-|Hne].
      * destruct (Hn a (set_tunnel t' p) Hin) as (t2 & E2 & Hr2); [cbn; by rewrite lookup_insert_eq|].
        assert (p' = p) as -> by congruence. exists t2. split; [done|].
        destruct Hr as (_ & Eq & _ & Ep & _), Hr2 as (? & Eq2 & ? & Ep2 & ? & ?). cbn in Eq2, Ep2.
        split_and!; [done|congruence|done|congruence|done|done].
      * apply Hn; [done|]. cbn. by rewrite lookup_insert_ne.
    + apply elem_of_cons in Ha' as [->|?]; [|done]. assert (p' = p) as -> by congruence. exists t'.
      split; [|done]. rewrite Ho by done. cbn. by rewrite lookup_insert_eq.
Qed.

Lemma set_key_ok sk s w : dinv s w ->
  exists s' w', set_key sk s w = Ok tt s' w' /\ dinv s' w' /\ later w w' /\
    peers (device s') = peers (device s) /\ snd <$> key_pair (device s') = Some (x25519_public sk).
Proof.
  intros Hd. unfold set_key. unfold bind at 1. cbn [get]. case_bool_decide as Hk.
  { exists s, w. split_and!; [done|done|done|done|by rewrite <- Hk]. }
  unfold RateLimiter.new, rand_bytes, in_limiters. step.
  lazymatch goal with |- context [for_each _ _ ?s0 ?w0] => set (s1 := s0); set (w1 := w0) end.
  assert (Lw : later w w1) by (unfold later; cbn; lia). pose proof (dinv_later _ _ _ Hd Lw) as Hd1.
  set (lim := fresh (dom (limiters s))) in *.
  set (l := snd <$> map_to_list (peers (device s))).
  assert (Hin : forall pk a, peers (device s) !! pk = Some a -> a ∈ l).
  { intros pk a Ha. apply list_elem_of_fmap. exists (pk, a). split; [done|by apply elem_of_map_to_list]. }
  destruct (rekey_all sk lim w1 l s1) as (st & -> & Ho & Hn).
  { intros a ([pk a'] & -> & Ha%elem_of_map_to_list)%list_elem_of_fmap.
    destruct (d_by_key _ _ Hd1 _ _ Ha) as (p & Hp & _). exists p. split; [done|]. apply (d_store _ _ Hd1 _ _ Hp). }
  unfold in_device. step. cbn [device store limiters s1]. eexists _, _.
  split; [reflexivity|]. split; [|done]. pose proof Hd1 as [K I P V R Y Z].
  assert (Hgrow : forall l x, is_Some (limiters s !! x) -> is_Some (<[lim := l]> (limiters s) !! x)).
  { intros l0 x Hx. destruct (decide (lim = x)) as [<-|Hne]; [by rewrite lookup_insert_eq|by rewrite lookup_insert_ne]. }
  split; cbn.
  - intros pk a Ha. destruct (K _ _ Ha) as (p & Hp & (Ep & _) & Ix).
    destruct (Hn a p (Hin _ _ Ha) Hp) as (t' & Et & Hi & _ & El & Ep' & Es & Eu). exists (set_tunnel t' p).
    split_and!; [done| |done]. split; cbn; [congruence|]. exists sk. by split_and!.
  - intros i a Ha. destruct (I _ _ Ha) as (pk & p & Hk' & Hp & Ei).
    destruct (Hn a p (Hin _ _ Hk') Hp) as (t' & Et & _). exists pk, (set_tunnel t' p). by split_and!.
  - exact P.
  - intros a p Hp. destruct (decide (a ∈ l)) as [Ha|Ha].
    + destruct (store s !! a) as [p0|] eqn:Ep0.
      * destruct (Hn a p0 Ha Ep0) as (t' & Et & Hi & Eq & El & _). assert (p = set_tunnel t' p0) as -> by congruence.
        destruct (V _ _ Ep0) as (_ & _ & Hq). split_and!; cbn; [exact Hi|rewrite El; by rewrite lookup_insert_eq|].
        rewrite Eq. exact Hq.
      * apply list_elem_of_fmap in Ha as ([pk a'] & -> & Ha%elem_of_map_to_list).
        destruct (K _ _ Ha) as (p1 & Hp1 & _). cbn in *. congruence.
    + rewrite Ho in Hp by done. apply (running_grows s _ _ _ (V _ _ Hp)). intros x. cbn. apply Hgrow.
  - exact R.
  - intros ? ? [= <- <-]. split; [done|by eexists].
  - intros ? [= <-]. by rewrite lookup_insert_eq.
Qed.

(** ** Configuring *)

Inductive Command :=
| UpdatePeer (pub_key : bytes) (remove replace_ips : bool) (endpoint : option SocketAddr)
    (allowed_ips : list AllowedIP) (keepalive : option Z) (preshared_key : option bytes)
| SetKey (private_key : bytes)
| ClearPeers.

Definition execute (c : Command) : M WireGuardError System unit :=
  match c with
  | UpdatePeer pk rm rp ep l ka psk => update_peer pk rm rp ep l ka psk
  | SetKey sk => set_key sk
  | ClearPeers => clear_peers
  end.

(** What the code asks of a command: a peer is added only once, after the private
    key, with prefix lengths that fit, while an index is left; the socket of a
    peer that is removed can be closed. *)
Definition allowed (c : Command) (s : System) (w : World) : Prop :=
  match c with
  | UpdatePeer pk true _ _ _ _ _ =>
      forall a p, peers (device s) !! pk = Some a -> store s !! a = Some p -> ~ stuck p
  | UpdatePeer pk false _ _ l _ _ => addable pk l s w
  | _ => True
  end.

Lemma execute_ok c s w : dinv s w ->
  match execute c s w with
  | Ok _ s' w' => dinv s' w'
  | Fail _ _ _ => False
  | Panic => ~ allowed c s w
  end.
Proof.
  intros Hd. destruct c as [pk [] rp ep l ka psk|sk|]; cbn [execute allowed].
  - unfold update_peer. pose proof (remove_peer_ok s w pk Hd) as Hr.
    destruct (remove_peer pk s w); [apply Hr|done|]. destruct Hr as (a & p & Ha & Hp & Hs). intros Hn. by apply (Hn a p).
  - pose proof (add_peer_ok s w pk rp ep l ka psk Hd) as Hr. destruct (update_peer _ _ _ _ _ _ _ s w); [apply Hr|done|done].
  - destruct (set_key_ok sk s w Hd) as (s' & w' & -> & Hd' & _). done.
  - destruct (clear_peers_ok s w Hd) as (s' & -> & Hd' & _). done.
Qed.

Lemma execute_all_ok cs : forall s w s' w', dinv s w -> for_each execute cs s w = Ok tt s' w' -> dinv s' w'.
Proof.
  induction cs as [|c cs IH]; intros s w s' w' Hd; cbn [for_each].
  { by intros [= <- <-]. }
  unfold bind. pose proof (execute_ok c s w Hd) as Hc. destruct (execute c s w); [by apply IH|done|done].
Qed.

(** C8. The tables stay consistent: from a device whose tables agree, any sequence
    of configuration commands returns with tables that agree (every key, index
    and address leads to a live peer that is registered under its own key and
    index, and no two peers share either), or panics at a command that the code
    does not support in the state reached, and for no other reason. *)
Theorem tables_consistent cs s w : dinv s w ->
  match for_each execute cs s w with
  | Ok _ s' w' => dinv s' w'
  | Fail _ _ _ => False
  | Panic => exists before c after s1 w1, cs = before ++ c :: after /\
      for_each execute before s w = Ok tt s1 w1 /\ dinv s1 w1 /\ ~ allowed c s1 w1
  end.
Proof.
  revert s w. induction cs as [|c cs IH]; intros s w Hd; cbn [for_each]; [done|].
  unfold bind. pose proof (execute_ok c s w Hd) as Hc.
  destruct (execute c s w) as [[] s1 w1|e s1 w1|] eqn:Ec; [|done|by exists [], c, cs, s, w].
  specialize (IH s1 w1 Hc). destruct (for_each execute cs s1 w1) as [[] s2 w2|e s2 w2|]; [done|done|].
  destruct IH as (before & c' & after & s2 & w2 & -> & Eb & Hd2 & Hn).
  exists (c :: before), c', after, s2, w2. split_and!; [done| |done|done].
  cbn [for_each]. unfold bind. by rewrite Ec.
Qed.

(** ** Dispatching *)

Definition packet_of (m : HandshakeInit + PqHandshakeInit) : Packet :=
  match m with inl p => PHandshakeInit p | inr p => PPqHandshakeInit p end.

(** C7. Messages reach their peer: for every peer of a consistent device, the
    handler of the listening socket hands it the data packets of its sessions,
    the responses to its pending initiations, and the initiations that its
    handshake accepts. *)
Theorem messages_reach_their_peer s w sk pub pk a p :
  dinv s w -> key_pair (device s) = Some (sk, pub) ->
  peers (device s) !! pk = Some a -> store s !! a = Some p ->
  let h := handshake (tunnel p) in
  let to m := peer_of_packet sk pub m (device s) w in
  (forall j x d, session_in j (tunnel p) = Some x -> pd_receiver_idx d = Transport.receiving_index x ->
     to (PPacketData d) = Some a) /\
  (forall i q, state h = InitSent i \/ previous h = InitSent i -> hr_receiver_idx q = is_local_index i ->
     to (PHandshakeResponse q) = Some a) /\
  (forall i q, state h = InitSent i \/ previous h = InitSent i -> pqr_receiver_idx q = is_local_index i ->
     to (PPqHandshakeResponse q) = Some a) /\
  (forall m dst r h' w', wf_initiation m -> receive_initiation m dst h w = Ok r h' w' -> to (packet_of m) = Some a).
Proof.
  intros Hd Hk Ha Hp h to. destruct (d_by_key _ _ Hd _ _ Ha) as (p' & Hp' & (Ep & Ky) & Ix).
  assert (p' = p) as -> by congruence. destruct (d_store _ _ Hd _ _ Hp) as (Hi & _). cbn [tunn] in Hi. destruct Ky as (sk' & Hk' & Es & Eu).
  rewrite Hk in Hk'. injection Hk' as <- ->. destruct Hi as ((_ & _ & _ & Hs1 & Hs2) & [_ Hr] & _).
  assert (Hb : forall i, belongs (index p) i -> peers_by_idx (device s) !! Z.shiftr i 8 = Some a)
    by (intros i [_ ->]; exact Ix).
  assert (Hpend : forall i, state h = InitSent i \/ previous h = InitSent i -> belongs (index p) (is_local_index i)).
  { intros i [E|E]; [unfold h in E; rewrite E in Hs1; exact Hs1|unfold h in E; rewrite E in Hs2; exact Hs2]. }
  split_and!.
  - intros j x d Hj Hd'. unfold to. cbn [peer_of_packet]. rewrite Hd'. apply Hb.
    unfold session_in in Hj. destruct (sessions (tunnel p) !! j) as [o|] eqn:Ej; [|done]. cbn in Hj. subst o.
    by apply (Hr j x).
  - intros i q Hi Hq. unfold to. cbn [peer_of_packet]. rewrite Hq. by apply Hb, Hpend.
  - intros i q Hi Hq. unfold to. cbn [peer_of_packet]. rewrite Hq. by apply Hb, Hpend.
  - intros m dst r h' w' Hm Hacc. pose proof (anon_parse_acceptor m dst h w r h' w' Hm Hacc unit tt) as Hpa.
    unfold to. unfold h in Hpa. rewrite Es, Eu, Ep in Hpa.
    destruct m as [q|q]; cbn [packet_of peer_of_packet]; rewrite Hpa; exact Ha.
Qed.

End Properties.

(** ** A concrete device *)

Module Example.
Import HandshakeProps.Example.
#[local] Existing Instances pq_build Toy.crypto Toy.laws env env_clock MapTable.table MapTable.laws.
#[local] Instance os : Os := {|
  shutdown_ok _ := true; open_bound n _ := inl n; open_connected n _ _ _ := inl n; try_clone n _ := Some n;
  local_port _ _ := Some 51820; set_mark _ _ _ := true |}.

Definition start : System := mkSystem (new_device (mkDeviceConfig 4 true true (-1)) 1420 (mkIndexLfsr 5 5 77)) ∅ ∅.
Definition commands : list Command :=
  [SetKey alice_key;
   UpdatePeer (x25519_public bob_key) false false None [mkAllowedIP (IpV4 (bytes_of [10; 0; 0; 0])) 8] (Some 25) None].

Lemma start_consistent : dinv 1420 start w0.
Proof. apply dinv_empty. split; [unfold nonzero; cbn; lia|unfold is_index; cbn; lia|reflexivity|lia]. Qed.

Lemma tables_consistent_witness :
  match for_each execute commands start w0 with
  | Ok _ s' w' => dinv 1420 s' w'
  | Fail _ _ _ => False
  | Panic => exists before c after s1 w1, commands = before ++ c :: after /\
      for_each execute before start w0 = Ok tt s1 w1 /\ dinv 1420 s1 w1 /\ ~ allowed c s1 w1
  end.
Proof. apply tables_consistent. exact start_consistent. Defined.

Lemma commands_accepted : returns (for_each execute commands start w0) = true.
Proof. vm_compute. reflexivity. Qed.

Definition configured : System := match for_each execute commands start w0 with Ok _ s _ => s | _ => start end.
Definition then_ : World := match for_each execute commands start w0 with Ok _ _ w => w | _ => w0 end.

Lemma configured_consistent : dinv 1420 configured then_.
Proof.
  destruct (returns_ok _ commands_accepted) as ([] & s & w & E). unfold configured, then_. rewrite E.
  exact (execute_all_ok 1420 commands start w0 s w start_consistent E).
Qed.

(** The device's key, and the initiation that its peer sends it. *)
Lemma configured_key : key_pair (device configured) = Some (alice_key, x25519_public alice_key).
Proof. vm_compute. reflexivity. Qed.

Definition bob_address : nat := from_option id 0%nat (peers (device configured) !! x25519_public bob_key).
Lemma bob_listed : peers (device configured) !! x25519_public bob_key = Some bob_address.
Proof. vm_compute. reflexivity. Qed.

Lemma messages_reach_their_peer_witness : exists p, store configured !! bob_address = Some p /\
  forall m dst r h' w', wf_initiation m -> receive_initiation m dst (handshake (tunnel p)) then_ = Ok r h' w' ->
    peer_of_packet alice_key (x25519_public alice_key) (packet_of m) (device configured) then_ = Some bob_address.
Proof.
  destruct (d_by_key _ _ _ configured_consistent _ _ bob_listed) as (p & Hp & _). exists p. split; [exact Hp|].
  destruct (messages_reach_their_peer 1420 configured then_ alice_key (x25519_public alice_key) (x25519_public bob_key)
    bob_address p configured_consistent configured_key bob_listed Hp) as (_ & _ & _ & Hm). exact Hm.
Defined.

End Example.
