(* ===== verification/Epoll.v ===== *)
(** * Event queues: [device/epoll.rs]

    [EventPoll<H>] is a vector of boxed events, indexed by file descriptor, next
    to the kernel's own list of descriptors and the pointers it hands back.  A
    box has an address in a heap of boxes, [take()] frees it, and the kernel is a
    parameter whose state the queue carries. *)

From S2P Require Import Prelude Packet Crypto Session Instant Handshake RateLimiter Timers Tunnel.
From S2P Require Import AllowedIps Peer.

(** The flags of [libc]. *)
Definition EPOLLIN : Z := 1.
Definition EPOLLOUT : Z := 4.
Definition EPOLLHUP : Z := 16.
Definition EPOLLONESHOT : Z := 2 ^ 30.
Definition EPOLLET : Z := 2 ^ 31.

(** [epoll_event]: its flags and its pointer. *)
Record epoll_event := mkEpollEvent { ee_events : Z; ee_u64 : nat }.
Definition oneshot (e : epoll_event) : bool := Z.testbit (ee_events e) 30.

Inductive Polled := PollError | PollEvent (e : epoll_event) | PollOther.

(** The system calls on an instance of [epoll(7)], on event, timer and signal
    descriptors.  [interest] and [armed] describe the kernel's state: the list of
    descriptors with their events, and those that may be reported. *)
Class Epoll (K : Type) := {
  interest : K -> nat -> option epoll_event;
  armed : K -> nat -> bool;
  readable : K -> nat -> bool;
  epoll_create : nat -> option K;
  ctl_add : nat -> nat -> epoll_event -> K -> bool * K;
  ctl_del : nat -> K -> K;
  ctl_mod : nat -> epoll_event -> K -> K;
  epoll_wait : nat -> K -> Polled * K;
  timerfd_create : nat -> forall monotonic : bool, option nat;
  timerfd_settime : nat -> nat -> forall period : Z, bool;
  eventfd : nat -> option nat;
  signalfd : nat -> forall signal : Z, option nat;
  close_fd : nat -> K -> K;
  write_all : nat -> K -> K;
  read_once : nat -> K -> K;
  read_until_empty : nat -> K -> K;
}.

(** The manual of [epoll(7)] and [eventfd(2)]: adding, changing and deleting affect
    the one descriptor; a new or changed entry may be reported; what is reported
    is in the list and may be reported, and an entry with [EPOLLONESHOT] is then
    disabled; closing a descriptor removes it; reads and writes change whether a
    descriptor is readable and not the list. *)
Class EpollLaws (K : Type) `{Epoll K} : Prop := {
  create_empty n k fd : epoll_create n = Some k -> interest k fd = None;
  add_interest n fd e k k' : ctl_add n fd e k = (true, k') ->
    forall x, interest k' x = (if decide (x = fd) then Some e else interest k x);
  add_armed n fd e k k' : ctl_add n fd e k = (true, k') ->
    forall x, armed k' x = (if decide (x = fd) then true else armed k x);
  add_failed n fd e k k' : ctl_add n fd e k = (false, k') ->
    forall x, interest k' x = interest k x /\ armed k' x = armed k x;
  del_interest fd k x : interest (ctl_del fd k) x = (if decide (x = fd) then None else interest k x);
  del_armed fd k x : x <> fd -> armed (ctl_del fd k) x = armed k x;
  mod_interest fd e k x : interest (ctl_mod fd e k) x =
    (if decide (x = fd /\ is_Some (interest k fd)) then Some e else interest k x);
  mod_armed fd e k x : x <> fd -> armed (ctl_mod fd e k) x = armed k x;
  wait_event n k k' e : epoll_wait n k = (PollEvent e, k') ->
    exists fd d, interest k fd = Some d /\ armed k fd = true /\ ee_u64 e = ee_u64 d /\
      forall x, interest k' x = interest k x /\
        armed k' x = (if decide (x = fd /\ oneshot d = true) then false else armed k x);
  wait_other n k k' : (epoll_wait n k).2 = k' -> (forall e, (epoll_wait n k).1 <> PollEvent e) ->
    forall x, interest k' x = interest k x /\ armed k' x = armed k x;
  close_interest fd k x : interest (close_fd fd k) x = (if decide (x = fd) then None else interest k x);
  close_armed fd k x : x <> fd -> armed (close_fd fd k) x = armed k x;
  io_interest fd k x : interest (write_all fd k) x = interest k x /\ interest (read_once fd k) x = interest k x /\
    interest (read_until_empty fd k) x = interest k x;
  io_armed fd k x : armed (write_all fd k) x = armed k x /\ armed (read_once fd k) x = armed k x /\
    armed (read_until_empty fd k) x = armed k x;
  write_readable fd k x : readable (write_all fd k) x = (if decide (x = fd) then true else readable k x);
  read_readable fd k x : readable (read_once fd k) x = (if decide (x = fd) then false else readable k x);
}.

Section EventPoll.
Context {K : Type} `{Epoll K} {Hn : Type}.

Record Event := mkEvent {
  ev_event : epoll_event;
  ev_fd : nat;
  handler : Hn;
  notifier : bool;
  needs_read : bool;
}.

Record EventPoll := mkEventPoll { events : list (option nat); boxes : gmap nat Event; kernel : K }.

(** [EventRef] is its trigger. *)
Abbreviation EventRef := nat (only parsing).
Abbreviation QM := (M Error EventPoll).

Definition set_events x q := mkEventPoll x (boxes q) (kernel q).
Definition set_boxes x q := mkEventPoll (events q) x (kernel q).
Definition on_kernel (f : K -> K) q := mkEventPoll (events q) (boxes q) (f (kernel q)).

(** [EventPoll::new] *)
Definition new : M Error unit EventPoll :=
  epoll <- syscall epoll_create;;
  match epoll with
  | None => fail EventQueue
  | Some epoll => ret (mkEventPoll [] ∅ epoll)
  end.

(** [while events.len() <= index { events.push(None) }] *)
Definition grow (index : nat) (v : list (option nat)) : list (option nat) :=
  v ++ replicate (S index - length v) None.

Definition insert_at (index : nat) (data : nat) : QM unit :=
  modify (fun q => set_events (grow index (events q)) q);;
  q <- get;;
  match events q !! index with
  | None => panic
  | Some previous =>
      match previous with
      | Some a => modify (set_boxes (delete a (boxes q)));; modify (on_kernel (ctl_del index))
      | None => ret tt
      end;;
      modify (fun q => set_events (<[index := Some data]> (events q)) q)
  end.

(** [Box::new(ev)], and the event's pointer back to its box. *)
Definition boxed (ev : Event) : QM nat :=
  q <- get;;
  let a := fresh (dom (boxes q)) in
  modify (set_boxes (<[a := mkEvent (mkEpollEvent (ee_events (ev_event ev)) a) (ev_fd ev) (handler ev)
                             (notifier ev) (needs_read ev)]> (boxes q)));;
  ret a.

Definition register_event (ev : Event) : QM EventRef :=
  let trigger := ev_fd ev in
  ev' <- boxed ev;;
  let event_desc := mkEpollEvent (ee_events (ev_event ev)) ev' in
  insert_at trigger ev';;
  q <- get;;
  '(added, k) <- syscall (fun n => ctl_add n trigger event_desc (kernel q));;
  modify (on_kernel (fun _ => k));;
  if added : bool then ret trigger else fail EventQueue.

Definition new_event (trigger : nat) (handler : Hn) : QM EventRef :=
  let flags := Z.lor EPOLLIN EPOLLONESHOT in
  register_event (mkEvent (mkEpollEvent flags 0) trigger handler false false).

Definition new_write_event (trigger : nat) (handler : Hn) : QM EventRef :=
  let flags := Z.lor (Z.lor EPOLLOUT EPOLLET) EPOLLONESHOT in
  register_event (mkEvent (mkEpollEvent flags 0) trigger handler false false).

Definition new_periodic_event (handler : Hn) (period : Z) : QM EventRef :=
  boot <- syscall (fun n => timerfd_create n false);;
  tfd <- match boot with
         | Some efd => ret efd
         | None => mono <- syscall (fun n => timerfd_create n true);; ok_or Timer mono
         end;;
  set <- syscall (fun n => timerfd_settime n tfd period);;
  if negb set then modify (on_kernel (close_fd tfd));; fail Timer else
  register_event (mkEvent (mkEpollEvent (Z.lor EPOLLIN EPOLLONESHOT) 0) tfd handler false true).

Definition new_notifier (handler : Hn) : QM EventRef :=
  efd <- syscall eventfd;;
  efd <- ok_or EventQueue efd;;
  register_event (mkEvent (mkEpollEvent EPOLLIN 0) efd handler true false).

Definition new_signal_event (signal : Z) (handler : Hn) : QM EventRef :=
  sfd <- syscall (fun n => signalfd n signal);;
  sfd <- ok_or EventQueue sfd;;
  register_event (mkEvent (mkEpollEvent (Z.lor EPOLLIN EPOLLONESHOT) 0) sfd handler false true).

(** A guard is the address of its event. *)
Inductive WaitResult := WaitOk (guard : nat) | WaitEoF (guard : nat) | WaitError.

Definition wait : QM WaitResult :=
  q <- get;;
  '(polled, k) <- syscall (fun n => epoll_wait n (kernel q));;
  modify (on_kernel (fun _ => k));;
  match polled with
  | PollEvent event =>
      if Z.land (ee_events event) EPOLLHUP =? 0 then ret (WaitOk (ee_u64 event)) else ret (WaitEoF (ee_u64 event))
  | PollError | PollOther => ret WaitError
  end.

(** [EventPoll] reading a box: a box that was freed must not be read. *)
Definition deref (a : nat) : QM Event := q <- get;; unwrap (boxes q !! a).

(** The event of [trigger_notification] and [stop_notification]. *)
Definition notification (trigger : EventRef) : QM unit :=
  q <- get;;
  event_ref <- unwrap (events q !! trigger);;
  event_data <- unwrap event_ref;;
  ev <- deref event_data;;
  if notifier ev then ret tt else panic.

Definition trigger_notification (trigger : EventRef) : QM unit :=
  notification trigger;; modify (on_kernel (write_all trigger)).
Definition stop_notification (trigger : EventRef) : QM unit :=
  notification trigger;; modify (on_kernel (read_once trigger)).

Definition clear_event_by_fd (index : nat) : QM unit :=
  q <- get;;
  match events q !! index with
  | None => panic
  | Some previous =>
      modify (set_events (<[index := None]> (events q)));;
      match previous with
      | Some a => modify (set_boxes (delete a (boxes q)));; modify (on_kernel (ctl_del index))
      | None => ret tt
      end
  end.

(** [EventGuard]: [deref], [drop], [cancel], [fd], [notify_writable] *)
Definition guard_handler (guard : nat) : QM Hn := ev <- deref guard;; ret (handler ev).
Definition guard_fd (guard : nat) : QM nat := ev <- deref guard;; ret (ev_fd ev).
Definition drop_guard (guard : nat) : QM unit :=
  ev <- deref guard;;
  (if needs_read ev then modify (on_kernel (read_until_empty (ev_fd ev))) else ret tt);;
  modify (on_kernel (ctl_mod (ev_fd ev) (ev_event ev))).
Definition cancel (guard : nat) : QM unit := ev <- deref guard;; clear_event_by_fd (ev_fd ev).
Definition notify_writable (enabled : bool) (guard : nat) : QM unit :=
  ev <- deref guard;;
  let flags := if enabled then Z.lor (Z.lor (Z.lor EPOLLOUT EPOLLIN) EPOLLET) EPOLLONESHOT
               else Z.lor EPOLLIN EPOLLONESHOT in
  modify (fun q => set_boxes (<[guard := mkEvent (mkEpollEvent flags (ee_u64 (ev_event ev))) (ev_fd ev)
    (handler ev) (notifier ev) (needs_read ev)]> (boxes q)) q).

End EventPoll.
Arguments Event : clear implicits.
Arguments EventPoll : clear implicits.
