(* ===== verification/EpollProps.v ===== *)
(** * The event queue hands out live handlers, one-shot ones to one thread

    Threads that wait on a queue, run the handler they are given and let go of
    it, while events are registered and removed.  The kernel's pointers always
    lead to a box that is alive, and a handler that is not a notifier is never
    with two threads. *)

From S2P Require Import Prelude Peer Epoll.

Section Properties.
Context {K : Type} `{EpollLaws K} {Hn : Type}.
Abbreviation Queue := (EventPoll K Hn).

(** The vector holds live boxes, each in the slot of its descriptor; the kernel
    knows no pointer that is not in the vector. *)
Record sound (q : Queue) : Prop := {
  s_box i a : events q !! i = Some (Some a) -> exists ev, boxes q !! a = Some ev /\ ev_fd ev = i;
  s_flags a ev : boxes q !! a = Some ev -> ee_u64 (ev_event ev) = a /\ oneshot (ev_event ev) = negb (notifier ev);
  s_interest fd d : interest (kernel q) fd = Some d -> exists a ev,
    events q !! fd = Some (Some a) /\ boxes q !! a = Some ev /\ d = ev_event ev;
}.

Record State := mkState { poll : Queue; held : gmap nat nat }.

(** A held guard is of a live event, and nobody else can be given it. *)
Record good (s : State) : Prop := {
  g_sound : sound (poll s);
  g_live t a : held s !! t = Some a -> exists ev,
    boxes (poll s) !! a = Some ev /\ events (poll s) !! ev_fd ev = Some (Some a);
  g_once t a ev : held s !! t = Some a -> boxes (poll s) !! a = Some ev -> notifier ev = false ->
    armed (kernel (poll s)) (ev_fd ev) = false /\ forall t', held s !! t' = Some a -> t' = t;
}.

Definition vacant (fd : nat) (q : Queue) : Prop := forall a, events q !! fd <> Some (Some a).

(** An event as the constructors make them: one-shot unless a notifier. *)
Definition proper (ev : Event Hn) : Prop := oneshot (ev_event ev) = negb (notifier ev).

(** One operation of a thread.  Descriptors of registered events are open, so that
    the kernel gives out only vacant ones; the end of a file is never reported
    for a notifier; [clear_event_by_fd] is for events that nobody holds. *)
Inductive step : State -> State -> Prop :=
| step_register s ev w q' : vacant (ev_fd ev) (poll s) -> proper ev ->
    final (register_event ev (poll s) w) = Some q' -> step s (mkState q' (held s))
| step_wait s t a r w q' w' : held s !! t = None -> wait (poll s) w = Ok r q' w' ->
    r = WaitOk a \/ r = WaitEoF a -> step s (mkState q' (<[t := a]> (held s)))
| step_retry s w q' w' : wait (poll s) w = Ok WaitError q' w' -> step s (mkState q' (held s))
| step_drop s t a w q' w' : held s !! t = Some a -> drop_guard a (poll s) w = Ok tt q' w' ->
    step s (mkState q' (delete t (held s)))
| step_cancel s t a ev w q' w' : held s !! t = Some a -> boxes (poll s) !! a = Some ev -> notifier ev = false ->
    cancel a (poll s) w = Ok tt q' w' -> step s (mkState q' (delete t (held s)))
| step_clear s fd w q' w' : (forall t a, held s !! t = Some a -> events (poll s) !! fd <> Some (Some a)) ->
    clear_event_by_fd fd (poll s) w = Ok tt q' w' -> step s (mkState q' (held s))
| step_trigger s fd w q' w' : trigger_notification fd (poll s) w = Ok tt q' w' -> step s (mkState q' (held s))
| step_stop s fd w q' w' : stop_notification fd (poll s) w = Ok tt q' w' -> step s (mkState q' (held s)).

(** ** What the operations do *)

Lemma grow_lookup i v j a : grow i v !! j = Some (Some a) <-> v !! j = Some (Some a).
Proof.
  unfold grow. destruct (decide (j < length v)%nat).
  - by rewrite lookup_app_l.
  - rewrite lookup_app_r by lia. rewrite (lookup_ge_None_2 v j) by lia. split; [|done].
    intros E. by apply lookup_replicate in E as [? _].
Qed.

Lemma length_grow i v : (i < length (grow i v))%nat.
Proof. unfold grow. rewrite length_app, length_replicate. lia. Qed.

Definition pointing (a : nat) (ev : Event Hn) : Event Hn :=
  mkEvent (mkEpollEvent (ee_events (ev_event ev)) a) (ev_fd ev) (handler ev) (notifier ev) (needs_read ev).

(** Registering under a vacant descriptor: the new queue, whatever the kernel
    answers. *)
Lemma register_event_eq ev (q : Queue) w : vacant (ev_fd ev) q ->
  let a := fresh (dom (boxes q)) in
  let '(added, k) := ctl_add (calls w) (ev_fd ev) (ev_event (pointing a ev)) (kernel q) in
  let q' := mkEventPoll (<[ev_fd ev := Some a]> (grow (ev_fd ev) (events q))) (<[a := pointing a ev]> (boxes q)) k in
  exists w', later w w' /\ register_event ev q w = if added : bool then Ok (ev_fd ev) q' w' else Fail EventQueue q' w'.
Proof.
  intros Hv a. destruct (ctl_add _ _ _ _) as [added k] eqn:Ek. unfold register_event, boxed, insert_at. step.
  cbn [events set_boxes set_events].
  destruct (lookup_lt_is_Some_2 (grow (ev_fd ev) (events q)) (ev_fd ev)) as [o Ho]; [apply length_grow|].
  rewrite Ho. destruct o as [b|].
  { apply grow_lookup in Ho. by destruct (Hv b). }
  step. cbn [set_events set_boxes kernel calls]. fold a. cbn [pointing ev_event] in Ek. rewrite Ek.
  step. destruct added; (eexists; split; [|reflexivity]); unfold later; cbn; lia.
Qed.

Lemma deref_eq a (q : Queue) w ev : boxes q !! a = Some ev -> deref a q w = Ok ev q w.
Proof. intros E. unfold deref. step. by rewrite E. Qed.

Lemma drop_guard_eq a (q : Queue) w ev : boxes q !! a = Some ev ->
  drop_guard a q w = Ok tt (on_kernel (fun k => ctl_mod (ev_fd ev) (ev_event ev)
    (if needs_read ev then read_until_empty (ev_fd ev) k else k)) q) w.
Proof.
  intros E. unfold drop_guard, bind at 1. rewrite (deref_eq _ _ _ _ E). by destruct (needs_read ev).
Qed.

(** The queue without the event [a] of the descriptor [fd]. *)
Definition cleared (fd a : nat) (q : Queue) : Queue :=
  mkEventPoll (<[fd := None]> (events q)) (delete a (boxes q)) (ctl_del fd (kernel q)).

Lemma clear_event_eq fd a (q : Queue) w : events q !! fd = Some (Some a) ->
  clear_event_by_fd fd q w = Ok tt (cleared fd a q) w.
Proof. intros E. unfold clear_event_by_fd. step. by rewrite E. Qed.

Lemma clear_vacant_eq fd (q : Queue) w : events q !! fd = Some None ->
  clear_event_by_fd fd q w = Ok tt (set_events (<[fd := None]> (events q)) q) w.
Proof. intros E. unfold clear_event_by_fd. step. by rewrite E. Qed.

Lemma notification_ok fd (q q' : Queue) w w' : notification fd q w = Ok tt q' w' -> q' = q /\ w' = w.
Proof.
  unfold notification, deref. step. destruct (events q !! fd) as [[a|]|]; step; [|done..].
  destruct (boxes q !! a) as [ev|]; step; [|done]. destruct (notifier ev); step; naive_solver.
Qed.

(** ** The invariant *)

Lemma live_slot (q : Queue) a ev fd : sound q -> boxes q !! a = Some ev -> events q !! fd = Some (Some a) -> fd = ev_fd ev.
Proof. intros Hs Ha He. destruct (s_box _ Hs _ _ He) as (ev' & E & <-). congruence. Qed.

Lemma sound_register ev (q : Queue) a added k n : sound q -> vacant (ev_fd ev) q -> proper ev -> boxes q !! a = None ->
  ctl_add n (ev_fd ev) (ev_event (pointing a ev)) (kernel q) = (added, k) ->
  sound (mkEventPoll (<[ev_fd ev := Some a]> (grow (ev_fd ev) (events q))) (<[a := pointing a ev]> (boxes q)) k).
Proof.
  intros Hs Hv Hp Hf Ek. pose proof (length_grow (ev_fd ev) (events q)) as Hl. split; cbn.
  - intros i b Hi. apply list_lookup_insert_Some in Hi as [(<- & [= ->] & _)|[Hne Hi%grow_lookup]].
    + exists (pointing b ev). split; [by rewrite lookup_insert_eq|done].
    + destruct (s_box _ Hs _ _ Hi) as (e & He & Hfd). exists e. rewrite lookup_insert_ne; [done|]. intros <-. congruence.
  - intros b e [[<- <-]|[_ Hb]]%lookup_insert_Some; [done|by apply (s_flags _ Hs)].
  - intros fd d Hd. assert (Hold : fd <> ev_fd ev -> interest (kernel q) fd = Some d -> exists b e,
        <[ev_fd ev := Some a]> (grow (ev_fd ev) (events q)) !! fd = Some (Some b) /\
        <[a := pointing a ev]> (boxes q) !! b = Some e /\ d = ev_event e).
    { intros Hne Hi. destruct (s_interest _ Hs _ _ Hi) as (b & e & Hb & He & ->). exists b, e.
      rewrite list_lookup_insert_ne by done. rewrite lookup_insert_ne by congruence. by rewrite grow_lookup. }
    destruct added.
    + rewrite (add_interest _ _ _ _ _ Ek) in Hd. case_decide as Hfd; [|by apply Hold].
      injection Hd as <-. subst fd. exists a, (pointing a ev). rewrite list_lookup_insert_eq by done.
      split_and!; [done|by rewrite lookup_insert_eq|done].
    + destruct (add_failed _ _ _ _ _ Ek fd) as [E _]. rewrite E in Hd. apply Hold; [|done].
      intros ->. destruct (s_interest _ Hs _ _ Hd) as (b & e & Hb & _). by destruct (Hv b).
Qed.

Lemma good_register ev s a added k n : good s -> vacant (ev_fd ev) (poll s) -> proper ev ->
  a = fresh (dom (boxes (poll s))) ->
  ctl_add n (ev_fd ev) (ev_event (pointing a ev)) (kernel (poll s)) = (added, k) ->
  good (mkState (mkEventPoll (<[ev_fd ev := Some a]> (grow (ev_fd ev) (events (poll s))))
                   (<[a := pointing a ev]> (boxes (poll s))) k) (held s)).
Proof.
  intros [Hs Hl Ho] Hv Hp Ha Ek.
  assert (Hf : boxes (poll s) !! a = None) by (subst; apply not_elem_of_dom, is_fresh).
  assert (Harm : forall fd, fd <> ev_fd ev -> armed k fd = armed (kernel (poll s)) fd).
  { intros fd Hne. destruct added; [rewrite (add_armed _ _ _ _ _ Ek); by rewrite decide_False|].
    by destruct (add_failed _ _ _ _ _ Ek fd). }
  split; cbn.
  - by eapply sound_register.
  - intros t b Hb. destruct (Hl t b Hb) as (e & He & Hv'). exists e.
    assert (ev_fd ev <> ev_fd e) by (intros E; apply (Hv b); congruence).
    rewrite lookup_insert_ne by congruence. rewrite list_lookup_insert_ne by done. by rewrite grow_lookup.
  - intros t b e Hb He Nn. destruct (Hl t b Hb) as (e' & He' & Hv').
    rewrite lookup_insert_ne in He by congruence. assert (e' = e) as -> by congruence.
    assert (ev_fd e <> ev_fd ev) by (intros E; apply (Hv b); congruence).
    rewrite Harm by done. by eapply Ho.
Qed.

Lemma register_vacant_sound ev (q : Queue) w : sound q -> vacant (ev_fd ev) q -> proper ev ->
  match register_event ev q w with
  | Ok _ q' w' => sound q' /\ later w w'
  | Fail _ q' w' => sound q' /\ later w w' /\ exists n fd e k, interest k fd = None /\ (ctl_add n fd e k).1 = false
  | Panic => False
  end.
Proof.
  intros Hs Hv Hp. pose proof (register_event_eq ev q w Hv) as Hr. cbn zeta in Hr.
  destruct (ctl_add _ _ _ _) as [added k] eqn:Ek. destruct Hr as (w' & L & ->).
  assert (Hq : sound (mkEventPoll (<[ev_fd ev := Some (fresh (dom (boxes q)))]> (grow (ev_fd ev) (events q)))
    (<[fresh (dom (boxes q)) := pointing (fresh (dom (boxes q))) ev]> (boxes q)) k)).
  { eapply sound_register; [done|done|done|apply not_elem_of_dom, is_fresh|exact Ek]. }
  destruct added; [done|]. split_and!; [done|done|]. eexists _, _, _, _. split; [|by rewrite Ek].
  destruct (interest (kernel q) _) as [d|] eqn:Ed; [|done].
  destruct (s_interest _ Hs _ _ Ed) as (x & _ & Hx & _). by destruct (Hv x).
Qed.

(** A change of the kernel's state that keeps the list and arms nothing new. *)
Lemma good_kernel k s : good s ->
  (forall x, interest k x = interest (kernel (poll s)) x) ->
  (forall x, armed k x = armed (kernel (poll s)) x) ->
  good (mkState (mkEventPoll (events (poll s)) (boxes (poll s)) k) (held s)).
Proof.
  intros [Hs Hl Ho] Hi Ha. split; cbn.
  - destruct Hs as [B F I]. split; cbn; [done|done|]. intros fd d. rewrite Hi. apply I.
  - exact Hl.
  - intros t b e Hb He Nn. rewrite Ha. by eapply Ho.
Qed.

(** The kernel reports an entry: the pointer is alive and nobody holds a one-shot
    event that can be reported. *)
Lemma good_wait s t n e k : good s -> held s !! t = None -> epoll_wait n (kernel (poll s)) = (PollEvent e, k) ->
  good (mkState (mkEventPoll (events (poll s)) (boxes (poll s)) k) (<[t := ee_u64 e]> (held s))).
Proof.
  intros [Hs Hl Ho] Ht Ew. destruct (wait_event _ _ _ _ Ew) as (fd & d & Hi & Ha & -> & Hk).
  destruct (s_interest _ Hs _ _ Hi) as (a & ev & Hev & Hb & ->). destruct (s_flags _ Hs _ _ Hb) as [-> Hone].
  destruct (s_box _ Hs _ _ Hev) as (ev' & Hb' & Hfd). assert (ev' = ev) as -> by congruence. subst fd.
  assert (Hfree : notifier ev = false -> forall t', held s !! t' <> Some a).
  { intros Nn t' Ht'. destruct (Ho t' a ev Ht' Hb Nn) as [Hd _]. congruence. }
  split; cbn.
  - destruct Hs as [B F I]. split; cbn; [done|done|]. intros fd d'. rewrite (proj1 (Hk fd)). apply I.
  - intros t' b [[<- <-]|[_ Hb2]]%lookup_insert_Some; [by exists ev|by eapply Hl].
  - intros t' b e' Hb2 He' Nn. rewrite (proj2 (Hk (ev_fd e'))).
    apply lookup_insert_Some in Hb2 as [[<- <-]|[Hne Hb2]].
    + assert (e' = ev) as -> by congruence. rewrite Hone, Nn. rewrite decide_True by done. split; [done|].
      intros t' [[<- _]|[_ Ht']]%lookup_insert_Some; [done|]. by destruct (Hfree Nn t').
    + destruct (Ho t' b e' Hb2 He' Nn) as [Hd Hu]. split; [rewrite Hd; by destruct (decide _)|].
      intros t2 [[<- <-]|[_ Ht2]]%lookup_insert_Some; [|by apply Hu].
      assert (e' = ev) as -> by congruence. by destruct (Hfree Nn t').
Qed.

Lemma good_drop s t a ev k : good s -> held s !! t = Some a -> boxes (poll s) !! a = Some ev ->
  (forall x, interest k x = interest (kernel (poll s)) x) -> (forall x, armed k x = armed (kernel (poll s)) x) ->
  good (mkState (mkEventPoll (events (poll s)) (boxes (poll s)) (ctl_mod (ev_fd ev) (ev_event ev) k)) (delete t (held s))).
Proof.
  intros [Hs Hl Ho] Ht Hb Hi Ha. destruct (Hl t a Ht) as (ev' & Hb' & Hev). assert (ev' = ev) as -> by congruence.
  split; cbn.
  - destruct Hs as [B F I]. split; cbn; [done|done|]. intros fd d. rewrite mod_interest, !Hi.
    case_decide as Hc; [|apply I]. destruct Hc as [-> _]. intros [= <-]. by exists a, ev.
  - intros t' b [_ Hb2]%lookup_delete_Some. by eapply Hl.
  - intros t' b e [Hne Hb2]%lookup_delete_Some He Nn. destruct (Ho t' b e Hb2 He Nn) as [Hd Hu].
    assert (Hab : b <> a) by (intros ->; apply Hne; by apply Hu).
    assert (ev_fd e <> ev_fd ev).
    { intros E. destruct (Hl t' b Hb2) as (e' & He' & Hev'). assert (e' = e) as -> by congruence. congruence. }
    rewrite mod_armed by done. rewrite Ha. split; [done|]. intros t2 [_ Ht2]%lookup_delete_Some. by apply Hu.
Qed.

(** Removing the event [a], held by nobody but, perhaps, [t], who lets go. *)
Lemma good_clear s fd a h : good s -> events (poll s) !! fd = Some (Some a) -> h ⊆ held s ->
  (forall t, h !! t <> Some a) -> good (mkState (cleared fd a (poll s)) h).
Proof.
  intros [Hs Hl Ho] Hev Hsub Hna. destruct (s_box _ Hs _ _ Hev) as (ev & Hb & Hfd).
  assert (Hh : forall t b, h !! t = Some b -> held s !! t = Some b) by (intros t b Ht; by eapply lookup_weaken).
  assert (Hother : forall b e, boxes (poll s) !! b = Some e -> events (poll s) !! ev_fd e = Some (Some b) ->
    b <> a -> ev_fd e <> fd) by (intros b e He Hev' Hne E; rewrite E in Hev'; congruence).
  split; cbn.
  - destruct Hs as [B F I]. split; cbn.
    + intros i b Hi. apply list_lookup_insert_Some in Hi as [(_ & ? & _)|[Hne Hi]]; [done|].
      destruct (B i b Hi) as (e & He & Hefd). exists e. split; [|done]. apply lookup_delete_Some. split; [|done].
      intros <-. congruence.
    + intros b e [_ He]%lookup_delete_Some. by apply F.
    + intros x d. rewrite del_interest. case_decide as Hx; [done|]. intros Hd.
      destruct (I x d Hd) as (b & e & Hxb & He & ->). exists b, e.
      rewrite list_lookup_insert_ne by done. split_and!; [done| |done]. apply lookup_delete_Some. split; [|done].
      intros <-. destruct (B x a Hxb) as (e' & He' & <-). congruence.
  - intros t b Ht. destruct (Hl t b (Hh t b Ht)) as (e & He & Hev'). exists e.
    assert (b <> a) by (intros ->; by apply (Hna t)).
    rewrite lookup_delete_ne by done. rewrite list_lookup_insert_ne; [done|]. by apply not_eq_sym, (Hother b).
  - intros t b e Ht [Hne He]%lookup_delete_Some Nn. destruct (Hl t b (Hh t b Ht)) as (e' & He' & Hev').
    assert (e' = e) as -> by congruence. destruct (Ho t b e (Hh t b Ht) He Nn) as [Hd Hu].
    rewrite del_armed by (by apply (Hother b)). split; [done|]. intros t' Ht'. by apply Hu, Hh.
Qed.

Lemma good_vacant_clear s fd : good s -> events (poll s) !! fd = Some None ->
  good (mkState (set_events (<[fd := None]> (events (poll s))) (poll s)) (held s)).
Proof. intros Hg E. rewrite list_insert_id by done. by destruct s as [[]]. Qed.

Lemma step_good s s' : step s s' -> good s -> good s'.
Proof.
  intros Hstep Hg. destruct Hstep as [s ev w q' Hv Hp Hf|s t a r w q' w' Ht Hw Hr|s w q' w' Hw|s t a w q' w' Ht Hw
    |s t a ev w q' w' Ht Hb Nn Hw|s fd w q' w' Hh Hw|s fd w q' w' Hw|s fd w q' w' Hw].
  - pose proof (register_event_eq ev (poll s) w Hv) as He. cbn zeta in He.
    destruct (ctl_add _ _ _ _) as [added k] eqn:Ek. destruct He as (w' & _ & He). rewrite He in Hf.
    destruct added; injection Hf as <-; by eapply good_register.
  - unfold wait in Hw. step in Hw. destruct (epoll_wait _ _) as [[|e|] k] eqn:Ew; step in Hw; [naive_solver| |naive_solver].
    assert (q' = on_kernel (fun _ => k) (poll s) /\ a = ee_u64 e) as [-> ->] by (destruct (_ =? _); naive_solver).
    by eapply good_wait.
  - unfold wait in Hw. step in Hw. destruct (epoll_wait _ _) as [p k] eqn:Ew.
    assert (Hp : forall e, p <> PollEvent e) by (intros e ->; step in Hw; by destruct (_ =? _)).
    assert (q' = on_kernel (fun _ => k) (poll s)) as -> by (destruct p; step in Hw; naive_solver).
    pose proof (wait_other (calls w) (kernel (poll s)) k) as Hk. rewrite Ew in Hk.
    apply good_kernel; [done|intros x; by apply Hk..].
  - destruct (g_live _ Hg t a Ht) as (ev & Hb & _). rewrite (drop_guard_eq _ _ _ _ Hb) in Hw. injection Hw as <- <-.
    eapply good_drop; [done|done|done|intros x|intros x]; destruct (needs_read ev); try done; [apply io_interest|apply io_armed].
  - destruct (g_live _ Hg t a Ht) as (ev' & Hb' & Hev). assert (ev' = ev) as -> by congruence.
    unfold cancel, bind in Hw. rewrite (deref_eq _ _ _ _ Hb), (clear_event_eq _ _ _ _ Hev) in Hw. injection Hw as <- <-.
    apply good_clear; [done|done|apply delete_subseteq|]. intros t' [Hne Ht']%lookup_delete_Some.
    apply Hne. symmetry. by eapply (g_once _ Hg t a ev).
  - destruct (events (poll s) !! fd) as [[a|]|] eqn:Ev.
    + rewrite (clear_event_eq _ _ _ _ Ev) in Hw. injection Hw as <- <-. apply good_clear; [done|done|done|].
      intros t Ht. by apply (Hh t a).
    + rewrite (clear_vacant_eq _ _ _ Ev) in Hw. injection Hw as <- <-. by apply good_vacant_clear.
    + unfold clear_event_by_fd in Hw. step in Hw. by rewrite Ev in Hw.
  - unfold trigger_notification, bind in Hw. destruct (notification fd (poll s) w) as [[] q w1|e q w1|] eqn:En; [|done..].
    apply notification_ok in En as [-> ->]. injection Hw as <- <-. apply good_kernel; [done|intros x; apply io_interest|intros x; apply io_armed].
  - unfold stop_notification, bind in Hw. destruct (notification fd (poll s) w) as [[] q w1|e q w1|] eqn:En; [|done..].
    apply notification_ok in En as [-> ->]. injection Hw as <- <-. apply good_kernel; [done|intros x; apply io_interest|intros x; apply io_armed].
Qed.

(** Registering under any descriptor: a previous event is removed first. *)
Lemma register_occupied_eq ev (q : Queue) w b : events q !! ev_fd ev = Some (Some b) -> is_Some (boxes q !! b) ->
  let a := fresh (dom (boxes q)) in
  let q0 := cleared (ev_fd ev) b q in
  let '(added, k) := ctl_add (calls w) (ev_fd ev) (ev_event (pointing a ev)) (kernel q0) in
  let q' := mkEventPoll (<[ev_fd ev := Some a]> (grow (ev_fd ev) (events q0))) (<[a := pointing a ev]> (boxes q0)) k in
  exists w', later w w' /\ register_event ev q w = if added : bool then Ok (ev_fd ev) q' w' else Fail EventQueue q' w'.
Proof.
  intros Ho Hb a q0. destruct (ctl_add _ _ _ _) as [added k] eqn:Ek.
  assert (Hl : (ev_fd ev < length (events q))%nat) by (by eapply lookup_lt_Some).
  assert (Hg : forall v : list (option nat), (ev_fd ev < length v)%nat -> grow (ev_fd ev) v = v).
  { intros v Hv. unfold grow. replace (S (ev_fd ev) - length v)%nat with 0%nat by lia. apply app_nil_r. }
  assert (Hab : a <> b). { intros E. destruct Hb as [e He]. apply (is_fresh (dom (boxes q))). fold a. rewrite E. by eapply elem_of_dom_2. }
  unfold register_event, boxed, insert_at. step. cbn [events set_boxes set_events boxes]. rewrite Hg, Ho by done. step.
  cbn [on_kernel set_events set_boxes events boxes kernel calls]. fold a. cbn [pointing ev_event q0 cleared kernel] in Ek.
  rewrite Ek. step. rewrite Hg by (cbn; by rewrite length_insert). cbn [q0 cleared events boxes].
  rewrite list_insert_insert_eq, <- delete_insert_ne by done. unfold pointing.
  destruct added; (eexists; split; [|reflexivity]); unfold later; cbn; lia.
Qed.

Lemma register_sound ev (q : Queue) w : sound q -> proper ev ->
  match register_event ev q w with
  | Ok _ q' w' => sound q' /\ later w w'
  | Fail _ q' w' => sound q' /\ later w w' /\ exists n fd e k, interest k fd = None /\ (ctl_add n fd e k).1 = false
  | Panic => False
  end.
Proof.
  intros Hs Hp. assert (Hfresh : boxes q !! fresh (dom (boxes q)) = None) by apply not_elem_of_dom, is_fresh.
  destruct (events q !! ev_fd ev) as [[b|]|] eqn:Ho.
  - destruct (s_box _ Hs _ _ Ho) as (e & He & _). pose proof (register_occupied_eq ev q w b Ho ltac:(by exists e)) as Hr.
    cbn zeta in Hr. destruct (ctl_add _ _ _ _) as [added k] eqn:Ek. destruct Hr as (w' & L & ->).
    assert (Hc : sound (cleared (ev_fd ev) b q)).
    { apply (good_clear (mkState q ∅) (ev_fd ev) b ∅); [|done|done|done]. split; [done|intros t a|intros t a ev0]; cbn; by rewrite lookup_empty. }
    assert (Hv : vacant (ev_fd ev) (cleared (ev_fd ev) b q)).
    { intros x. cbn. rewrite list_lookup_insert_eq by (by eapply lookup_lt_Some). done. }
    assert (Hq : sound (mkEventPoll (<[ev_fd ev := Some (fresh (dom (boxes q)))]> (grow (ev_fd ev) (events (cleared (ev_fd ev) b q))))
      (<[fresh (dom (boxes q)) := pointing (fresh (dom (boxes q))) ev]> (boxes (cleared (ev_fd ev) b q))) k)).
    { eapply sound_register; [done|done|done| |exact Ek]. cbn. apply lookup_delete_None. by right. }
    destruct added; [done|]. split_and!; [done|done|]. eexists _, _, _, _. split; [|by rewrite Ek].
    destruct (interest (kernel (cleared _ _ _)) _) as [d|] eqn:Ed; [|done].
    destruct (s_interest _ Hc _ _ Ed) as (x & _ & Hx & _). by destruct (Hv x).
  - assert (Hv : vacant (ev_fd ev) q) by (intros x; congruence). apply (register_vacant_sound ev q w Hs Hv Hp).
  - assert (Hv : vacant (ev_fd ev) q) by (intros x; congruence). apply (register_vacant_sound ev q w Hs Hv Hp).
Qed.

Definition idle (q : Queue) : State := mkState q ∅.

Lemma new_good w q w' : Epoll.new tt w = Ok q tt w' -> good (idle q).
Proof.
  unfold Epoll.new. step. destruct (epoll_create _) as [k|] eqn:Ek; step; [|done]. intros [= <- _].
  split; [split|..]; cbn.
  - intros i a. by rewrite lookup_nil.
  - intros a ev. by rewrite lookup_empty.
  - intros fd d. by rewrite (create_empty _ _ _ Ek).
  - intros t a. by rewrite lookup_empty.
  - intros t a ev. by rewrite lookup_empty.
Qed.

Lemma reachable_good s s' : rtc step s s' -> good s -> good s'.
Proof. induction 1 as [|s1 s2 s3 H12 _ IH]; [done|]. intros Hg. by eapply IH, step_good. Qed.

End Properties.

(** ** A kernel that computes *)

Module MapKernel.
Record Kernel := mkKernel { entries : gmap nat (epoll_event * bool); ready : gmap nat bool }.

Definition is_ready (k : Kernel) (fd : nat) : bool := from_option id false (ready k !! fd).
Definition reportable (k : Kernel) : list (nat * (epoll_event * bool)) :=
  List.filter (fun '(fd, (_, on)) => on && is_ready k fd) (map_to_list (entries k)).

Definition poll_first (k : Kernel) : Polled * Kernel :=
  match reportable k with
  | [] => (PollOther, k)
  | (fd, (e, on)) :: _ => (PollEvent e, if oneshot e then mkKernel (<[fd := (e, false)]> (entries k)) (ready k) else k)
  end.

#[local] Instance epoll : Epoll Kernel := {|
  interest k fd := fst <$> entries k !! fd;
  armed k fd := from_option snd false (entries k !! fd);
  readable := is_ready;
  epoll_create _ := Some (mkKernel ∅ ∅);
  ctl_add _ fd e k := if bool_decide (is_Some (entries k !! fd)) then (false, k)
                      else (true, mkKernel (<[fd := (e, true)]> (entries k)) (ready k));
  ctl_del fd k := mkKernel (delete fd (entries k)) (ready k);
  ctl_mod fd e k := if bool_decide (is_Some (entries k !! fd)) then mkKernel (<[fd := (e, true)]> (entries k)) (ready k) else k;
  epoll_wait _ k := poll_first k;
  timerfd_create n _ := Some n;
  timerfd_settime _ _ _ := true;
  eventfd n := Some n;
  signalfd n _ := Some n;
  close_fd fd k := mkKernel (delete fd (entries k)) (ready k);
  write_all fd k := mkKernel (entries k) (<[fd := true]> (ready k));
  read_once fd k := mkKernel (entries k) (<[fd := false]> (ready k));
  read_until_empty fd k := mkKernel (entries k) (<[fd := false]> (ready k));
|}.

Lemma wait_reports n k k' e : epoll_wait n k = (PollEvent e, k') ->
  exists fd, entries k !! fd = Some (e, true) /\
    k' = if oneshot e then mkKernel (<[fd := (e, false)]> (entries k)) (ready k) else k.
Proof.
  cbn. unfold poll_first. destruct (reportable k) as [|[fd [e' on]] l] eqn:E; [done|]. intros [= -> <-].
  exists fd. split; [|done]. assert (Hin : List.In (fd, (e, on)) (reportable k)) by (rewrite E; by left).
  apply List.filter_In in Hin as [Hin Hon]. apply andb_true_iff in Hon as [-> _].
  by apply elem_of_map_to_list, list_elem_of_In.
Qed.

#[local] Instance laws : EpollLaws Kernel.
Proof.
  split.
  - intros n k fd [= <-]. done.
  - intros n fd e k k' E x. cbn in E. case_bool_decide; [done|]. injection E as <-. cbn.
    case_decide as Hx; [subst x; by rewrite lookup_insert_eq|by rewrite lookup_insert_ne].
  - intros n fd e k k' E x. cbn in E. case_bool_decide; [done|]. injection E as <-. cbn.
    case_decide as Hx; [subst x; by rewrite lookup_insert_eq|by rewrite lookup_insert_ne].
  - intros n fd e k k' E x. cbn in E. case_bool_decide; [|done]. by injection E as <-.
  - intros fd k x. cbn. case_decide as Hx; [subst x; by rewrite lookup_delete_eq|by rewrite lookup_delete_ne].
  - intros fd k x Hx. cbn. by rewrite lookup_delete_ne.
  - intros fd e k x. cbn. case_bool_decide as Hs.
    + cbn. case_decide as Hx; [destruct Hx as [-> _]; by rewrite lookup_insert_eq|].
      rewrite lookup_insert_ne; [done|]. intros <-. apply Hx. split; [done|]. by apply fmap_is_Some.
    + case_decide as Hx; [|done]. destruct Hx as [_ Hx%fmap_is_Some]. done.
  - intros fd e k x Hx. cbn. case_bool_decide; [|done]. cbn. by rewrite lookup_insert_ne.
  - intros n k k' e E. destruct (wait_reports n k k' e E) as (fd & He & ->). exists fd, e.
    destruct (oneshot e) eqn:Ho; cbn -[oneshot]; rewrite He; (split_and!; [done|done|done|]); intros x.
    + destruct (decide (x = fd)) as [->|Hne]; [by rewrite lookup_insert_eq, decide_True, He|].
      rewrite lookup_insert_ne by done. by rewrite decide_False by naive_solver.
    + split; [done|]. by rewrite decide_False by naive_solver.
  - intros n k k'. cbn. unfold poll_first. destruct (reportable k) as [|[fd [e on]] l]; cbn; [by intros <-|].
    intros _ Hn. by destruct (Hn e).
  - intros fd k x. cbn. case_decide as Hx; [subst x; by rewrite lookup_delete_eq|by rewrite lookup_delete_ne].
  - intros fd k x Hx. cbn. by rewrite lookup_delete_ne.
  - done.
  - done.
  - intros fd k x. cbn. unfold is_ready. cbn. case_decide as Hx; [subst x; by rewrite lookup_insert_eq|by rewrite lookup_insert_ne].
  - intros fd k x. cbn. unfold is_ready. cbn. case_decide as Hx; [subst x; by rewrite lookup_insert_eq|by rewrite lookup_insert_ne].
Qed.
End MapKernel.

Module Example.
Import MapKernel.
#[local] Existing Instances MapKernel.epoll MapKernel.laws.

(** A queue with a notifier and a socket, and a thread that is woken. *)
Definition w0 : World := mkWorld 0 0 0 7.
Definition after {E S A} (o : outcome E S A) (s : S) : S := from_option id s (final o).
Definition q0 : EventPoll Kernel nat := mkEventPoll [] ∅ (mkKernel ∅ ∅).
Definition bell : Event nat := mkEvent (mkEpollEvent EPOLLIN 0) 2 40%nat true false.
Definition q1 : EventPoll Kernel nat := after (register_event bell q0 w0) q0.
Definition q2 : EventPoll Kernel nat := after (trigger_notification 2 q1 w0) q1.
Definition q3 : EventPoll Kernel nat := after (wait q2 w0) q2.
Definition guard : nat := match wait q2 w0 with Ok (WaitOk a) _ _ => a | _ => 99 end.

Lemma opened : Epoll.new tt w0 = Ok q0 tt (mkWorld 0 0 0 8).
Proof. vm_compute. reflexivity. Qed.

Lemma run : rtc step (idle q0) (mkState q3 {[1%nat := guard]}).
Proof.
  apply (rtc_l _ _ (mkState q1 ∅)).
  { apply (step_register (idle q0) bell w0); [intros a; vm_compute; discriminate|reflexivity|vm_compute; reflexivity]. }
  apply (rtc_l _ _ (mkState q2 ∅)).
  { eapply (step_trigger (mkState q1 ∅) 2%nat w0). vm_compute. reflexivity. }
  apply rtc_once. apply (step_wait (mkState q2 ∅) 1%nat guard (WaitOk guard) w0 q3 (mkWorld 0 0 0 8)).
  - reflexivity.
  - vm_compute. reflexivity.
  - by left.
Qed.

End Example.
