(* ===== verification/Kqueue.v ===== *)
(** * Event queues of the BSDs: [device/kqueue.rs]

    The registry that takes the place of [Epoll] on macOS: three vectors of boxed
    events, for descriptors, for timers and notifiers, and for signals, next to
    the kernel's own list, which is keyed by identifier and filter. *)

From S2P Require Import Prelude Peer Epoll.

Inductive Filter := EVFILT_READ | EVFILT_TIMER | EVFILT_USER | EVFILT_SIGNAL.
#[global] Instance Filter_eq_dec : EqDecision Filter.
Proof. solve_decision. Defined.

(** The flags of [libc]. *)
Definition EV_ADD : Z := 1.
Definition EV_DELETE : Z := 2.
Definition EV_ENABLE : Z := 4.
Definition EV_DISABLE : Z := 8.
Definition EV_DISPATCH : Z := 128.
Definition EV_EOF : Z := 32768.
Definition NOTE_TRIGGER : Z := 16777216.
Definition NOTE_NSECONDS : Z := 4.

(** [kevent]; an identifier is the [RawFd] that it is cast from and to. *)
Record kevent := mkKevent {
  ident : Z;
  filter : Filter;
  flags : Z;
  fflags : Z;
  data : Z;
  udata : nat;
}.
Definition set_flags x e := mkKevent (ident e) (filter e) x (fflags e) (data e) (udata e).
Definition set_fflags x e := mkKevent (ident e) (filter e) (flags e) x (data e) (udata e).
Definition set_ident x e := mkKevent x (filter e) (flags e) (fflags e) (data e) (udata e).
Definition set_udata x e := mkKevent (ident e) (filter e) (flags e) (fflags e) (data e) x.

Definition key (e : kevent) : Z * Filter := (ident e, filter e).
Definition has (flag : Z) (e : kevent) : bool := negb (Z.land (flags e) flag =? 0).

(** The system calls on an instance of [kqueue(2)].  [note] and [enabled] describe
    the kernel's state: of each entry its pointer and whether it was added with
    [EV_DISPATCH], and the entries that may be reported. *)
Class Kqueue (K : Type) := {
  note : K -> Z * Filter -> option (nat * bool);
  enabled : K -> Z * Filter -> bool;
  kqueue : nat -> option K;
  change : nat -> kevent -> K -> bool * K;
  kevent_wait : nat -> K -> option kevent * K;
  closed : Z -> K -> K;
}.

(** The manual of [kevent(2)]: an entry is known by its identifier and filter,
    adding it again replaces its parameters, and what is added is enabled;
    deleting, enabling and disabling affect the one entry; what is reported is an
    enabled entry, which [EV_DISPATCH] disables; closing a descriptor removes
    it. *)
Class KqueueLaws (K : Type) `{Kqueue K} : Prop := {
  kqueue_empty n k x : kqueue n = Some k -> note k x = None;
  added n e k k' : has EV_ADD e = true -> change n e k = (true, k') ->
    forall x, note k' x = (if decide (x = key e) then Some (udata e, has EV_DISPATCH e) else note k x) /\
      enabled k' x = (if decide (x = key e) then true else enabled k x);
  not_added n e k k' : has EV_ADD e = true -> change n e k = (false, k') ->
    forall x, note k' x = note k x /\ enabled k' x = enabled k x;
  deleted n e k : has EV_ADD e = false -> has EV_DELETE e = true ->
    forall x, note (change n e k).2 x = (if decide (x = key e) then None else note k x) /\
      (x <> key e -> enabled (change n e k).2 x = enabled k x);
  touched n e k : has EV_ADD e = false -> has EV_DELETE e = false ->
    (forall u d, note k (key e) = Some (u, d) -> u = udata e) ->
    forall x, note (change n e k).2 x = note k x /\ (x <> key e -> enabled (change n e k).2 x = enabled k x);
  waited n k e k' : kevent_wait n k = (Some e, k') ->
    exists x u d, note k x = Some (u, d) /\ enabled k x = true /\ udata e = u /\
      forall y, note k' y = note k y /\ enabled k' y = (if decide (y = x /\ d = true) then false else enabled k y);
  wait_failed n k k' : kevent_wait n k = (None, k') ->
    forall x, note k' x = note k x /\ enabled k' x = enabled k x;
  closed_note fd k x : note (closed fd k) x = (if decide (x = (fd, EVFILT_READ)) then None else note k x) /\
    (enabled (closed fd k) x = true -> enabled k x = true);
}.

Inductive EventKind := FD | Notifier | Signal | Timer_.
#[global] Instance EventKind_eq_dec : EqDecision EventKind.
Proof. solve_decision. Defined.

(** The three vectors. *)
Inductive Table := TEvents | TCustom | TSignals.
#[global] Instance Table_eq_dec : EqDecision Table.
Proof. solve_decision. Defined.
Definition table_of (kind : EventKind) : Table :=
  match kind with FD => TEvents | Timer_ | Notifier => TCustom | Signal => TSignals end.

Section EventPoll.
Context {K : Type} `{Kqueue K} {Hn : Type}.

Record Event := mkEvent { event : kevent; handler : Hn; kind : EventKind }.

Record EventPoll := mkEventPoll {
  table : Table -> list (option nat);
  boxes : gmap nat Event;
  masked : list Z;
  kernel : K;
}.

(** [EventRef] is its trigger. *)
Abbreviation EventRef := Z (only parsing).
Abbreviation QM := (M Error EventPoll).

Definition set_table (t : Table) (v : list (option nat)) q :=
  mkEventPoll (fun t' => if decide (t' = t) then v else table q t') (boxes q) (masked q) (kernel q).
Definition set_boxes x q := mkEventPoll (table q) x (masked q) (kernel q).
Definition mask signal q := mkEventPoll (table q) (boxes q) (signal :: masked q) (kernel q).
Definition on_kernel (f : K -> K) q := mkEventPoll (table q) (boxes q) (masked q) (f (kernel q)).

(** [kevent(self.kqueue, &e, 1, null_mut(), 0, null()) != -1] *)
Definition apply_change (e : kevent) : QM bool :=
  q <- get;;
  '(done, k) <- syscall (fun n => change n e (kernel q));;
  modify (on_kernel (fun _ => k));;
  ret done.

(** [EventPoll::new] *)
Definition new : M Error unit EventPoll :=
  kq <- syscall kqueue;;
  match kq with
  | None => fail EventQueue
  | Some kq => ret (mkEventPoll (fun _ => []) ∅ [] kq)
  end.

(** [events[index].take()] with the removal of what was there. *)
Definition remove_at (t : Table) (index : nat) : QM unit :=
  q <- get;;
  match table q t !! index with
  | None => panic
  | Some None => ret tt
  | Some (Some a) =>
      modify (fun q => set_table t (<[index := None]> (table q t)) q);;
      ev <- unwrap (boxes q !! a);;
      apply_change (set_flags EV_DELETE (event ev));;
      modify (fun q => set_boxes (delete a (boxes q)) q)
  end.

(** [x as usize] of a [RawFd]. *)
Definition as_usize (x : Z) : nat := Z.to_nat (if 0 <=? x then x else x + 2 ^ 64).

(** The identifier and the slot of an event, in a vector of length [len].  There
    are fewer than 2^31 timers and notifiers, so that their identifiers are
    negative. *)
Definition place (ev : Event) (len : nat) : Z * nat :=
  match kind ev with
  | FD | Signal => (ident (event ev), as_usize (ident (event ev)))
  | Timer_ | Notifier => (- Z.of_nat len - 1, len)
  end.

(** The end of a registration that the kernel accepted. *)
Definition store_event (t : Table) (index : nat) (trigger : Z) (kind : EventKind) (a : nat) : QM EventRef :=
  remove_at t index;;
  (if bool_decide (kind = Signal) then modify (mask trigger) else ret tt);;
  modify (fun q => set_table t (<[index := Some a]> (table q t)) q);;
  ret trigger.

Definition register_event (ev : Event) : QM EventRef :=
  let t := table_of (kind ev) in
  q <- get;;
  let '(trigger, index) := place ev (length (table q t)) in
  modify (set_table t (grow index (table q t)));;
  let a := fresh (dom (boxes q)) in
  let e := set_udata a (set_ident trigger (event ev)) in
  modify (fun q => set_boxes (<[a := mkEvent e (handler ev) (kind ev)]> (boxes q)) q);;
  added <- apply_change (set_flags (Z.lor (flags e) EV_ADD) e);;
  if negb added then modify (fun q => set_boxes (delete a (boxes q)) q);; fail EventQueue else
  store_event t index trigger (kind ev) a.

Definition new_event (trigger : Z) (handler : Hn) : QM EventRef :=
  register_event (mkEvent (mkKevent trigger EVFILT_READ (Z.lor EV_ENABLE EV_DISPATCH) 0 0 0) handler FD).

(** The period is in nanoseconds: it must fit [u64] and is cast to [intptr_t]. *)
Definition new_periodic_event (handler : Hn) (period : Z) : QM EventRef :=
  if 2 ^ 64 <=? period then panic else
  register_event (mkEvent (mkKevent 0 EVFILT_TIMER (Z.lor EV_ENABLE EV_DISPATCH) NOTE_NSECONDS
    ((period + 2 ^ 63) mod 2 ^ 64 - 2 ^ 63) 0) handler Timer_).

Definition new_notifier (handler : Hn) : QM EventRef :=
  register_event (mkEvent (mkKevent 0 EVFILT_USER EV_ENABLE 0 0 0) handler Notifier).

Definition new_signal_event (signal : Z) (handler : Hn) : QM EventRef :=
  register_event (mkEvent (mkKevent signal EVFILT_SIGNAL (Z.lor EV_ENABLE EV_DISPATCH) 0 0 0) handler Signal).

(** A guard is the address of its event. *)
Inductive WaitResult := WaitOk (guard : nat) | WaitEoF (guard : nat) | WaitError.

Definition wait : QM WaitResult :=
  q <- get;;
  '(e, k) <- syscall (fun n => kevent_wait n (kernel q));;
  modify (on_kernel (fun _ => k));;
  ret (match e with
       | None => WaitError
       | Some e => if has EV_EOF e then WaitEoF (udata e) else WaitOk (udata e)
       end).

(** A box that was freed must not be read. *)
Definition deref (a : nat) : QM Event := q <- get;; unwrap (boxes q !! a).

(** The event of [trigger_notification] and [stop_notification]. *)
Definition notification (trigger : EventRef) : QM Event :=
  q <- get;;
  let ev_index := - trigger - 1 in
  event_ref <- unwrap (if 0 <=? ev_index then table q TCustom !! Z.to_nat ev_index else None);;
  event_data <- unwrap event_ref;;
  ev <- deref event_data;;
  if bool_decide (kind ev = Notifier) then ret ev else panic.

Definition trigger_notification (trigger : EventRef) : QM unit :=
  ev <- notification trigger;;
  apply_change (set_fflags NOTE_TRIGGER (event ev));;
  ret tt.

Definition stop_notification (trigger : EventRef) : QM unit :=
  ev <- notification trigger;;
  apply_change (set_fflags 0 (set_flags EV_DISABLE (event ev)));;
  ret tt.

Definition clear_event_by_fd (index : Z) : QM unit :=
  if 0 <=? index then remove_at TEvents (Z.to_nat index) else remove_at TCustom (Z.to_nat (- index - 1)).

(** [EventGuard]: [deref], [drop], [cancel] *)
Definition guard_handler (guard : nat) : QM Hn := ev <- deref guard;; ret (handler ev).
Definition drop_guard (guard : nat) : QM unit :=
  ev <- deref guard;; apply_change (event ev);; ret tt.
Definition cancel (guard : nat) : QM unit :=
  ev <- deref guard;; clear_event_by_fd (ident (event ev)).
End EventPoll.
Arguments Event : clear implicits.
Arguments EventPoll : clear implicits.
