(* ===== verification/KqueueProps.v ===== *)
(** * The registry over kqueue: live handlers, and an event that is lost

    The counterpart of [EpollProps] for [Kqueue]: the pointers that the kernel
    hands out lead to live boxes, and a handler that is not a notifier is never
    with two threads.  Registering a descriptor again, though, leaves the new
    event unknown to the kernel. *)

From S2P Require Import Prelude Peer Epoll EpollProps Kqueue.

Section Properties.
Context {K : Type} `{KqueueLaws K} {Hn : Type}.
Abbreviation Queue := (Kqueue.EventPoll K Hn).
Abbreviation Ev := (Kqueue.Event Hn).

Definition filter_of (kind : EventKind) : Filter :=
  match kind with FD => EVFILT_READ | Notifier => EVFILT_USER | Signal => EVFILT_SIGNAL | Timer_ => EVFILT_TIMER end.

(** The identifier of a slot. *)
Definition trigger_of (t : Table) (i : nat) : Z := match t with TCustom => - Z.of_nat i - 1 | _ => Z.of_nat i end.

(** An event as the four constructors make it. *)
Definition well_made (ev : Ev) : Prop :=
  filter (event ev) = filter_of (kind ev) /\ has EV_ADD (event ev) = false /\ has EV_DELETE (event ev) = false /\
  has EV_DISPATCH (event ev) = negb (bool_decide (kind ev = Notifier)) /\ 0 <= ident (event ev).

(** A box in the queue: made well, pointing to itself, named after its slot. *)
Definition placed (q : Queue) (t : Table) (i a : nat) (ev : Ev) : Prop :=
  table q t !! i = Some (Some a) /\ boxes q !! a = Some ev /\ table_of (kind ev) = t /\
  ident (event ev) = trigger_of t i /\ udata (event ev) = a /\ filter (event ev) = filter_of (kind ev) /\
  has EV_ADD (event ev) = false /\ has EV_DELETE (event ev) = false /\
  has EV_DISPATCH (event ev) = negb (bool_decide (kind ev = Notifier)).

Record sound (q : Queue) : Prop := {
  s_box t i a : table q t !! i = Some (Some a) -> exists ev, placed q t i a ev;
  s_note x u d : note (kernel q) x = Some (u, d) -> exists t i ev, placed q t i u ev /\
    x = key (event ev) /\ d = negb (bool_decide (kind ev = Notifier));
}.

Record State := mkState { poll : Queue; held : gmap nat nat }.

(** A guard is of an event in the queue; nobody else can be given it. *)
Record good (s : State) : Prop := {
  g_sound : sound (poll s);
  g_live th a : held s !! th = Some a -> exists t i ev, placed (poll s) t i a ev;
  g_once th a ev : held s !! th = Some a -> boxes (poll s) !! a = Some ev -> kind ev <> Notifier ->
    enabled (kernel (poll s)) (key (event ev)) = false /\ forall th', held s !! th' = Some a -> th' = th;
}.

(** ** Slots and keys *)

Lemma placed_key q t i a ev : placed q t i a ev -> key (event ev) = (trigger_of t i, filter_of (kind ev)).
Proof. intros (_ & _ & _ & E1 & _ & E2 & _). unfold key. by rewrite E1, E2. Qed.

(** The key of an event tells its slot. *)
Lemma key_slot q t i a ev t' i' a' ev' : placed q t i a ev -> placed q t' i' a' ev' ->
  key (event ev) = key (event ev') -> t = t' /\ i = i' /\ a = a' /\ ev = ev'.
Proof.
  intros P P' E. rewrite (placed_key _ _ _ _ _ P), (placed_key _ _ _ _ _ P') in E. injection E as Et Ef.
  pose proof P as (Ht & Hb & Hk & _). pose proof P' as (Ht' & Hb' & Hk' & _).
  assert (kind ev = kind ev') as Ek by (destruct (kind ev), (kind ev'); done).
  assert (t = t') as <- by congruence. assert (i = i') as <- by (destruct t; cbn in Et; lia).
  assert (a = a') as <- by congruence. by assert (ev = ev') as <- by congruence.
Qed.

Lemma slot_unique q t i a ev t' i' ev' : placed q t i a ev -> placed q t' i' a ev' -> t = t' /\ i = i' /\ ev = ev'.
Proof.
  intros P P'. assert (ev = ev') as -> by (destruct P as (_ & B & _), P' as (_ & B' & _); congruence).
  by destruct (key_slot _ _ _ _ _ _ _ _ _ P P' eq_refl) as (? & ? & _).
Qed.

(** Queues that differ only in empty slots and masked signals. *)
Definition alike (q q' : Queue) : Prop :=
  (forall t i a, table q t !! i = Some (Some a) <-> table q' t !! i = Some (Some a)) /\
  boxes q = boxes q' /\ kernel q = kernel q'.
#[local] Instance alike_equivalence : Equivalence alike.
Proof.
  split.
  - intros q. by split_and!.
  - intros q q' (Ht & Hb & Hk). split_and!; [intros; by rewrite Ht|done..].
  - intros q q' q'' (Ht & Hb & Hk) (Ht' & Hb' & Hk'). split_and!; [intros; by rewrite Ht, Ht'|congruence..].
Qed.
#[local] Instance placed_alike : Proper (alike ==> eq ==> eq ==> eq ==> eq ==> iff) placed.
Proof.
  intros q q' (Ht & Hb & _) t ? <- i ? <- a ? <- ev ? <-. unfold placed. by rewrite Ht, Hb.
Qed.
#[local] Instance sound_alike : Proper (alike ==> iff) sound.
Proof.
  assert (Hi : forall q q', alike q q' -> sound q -> sound q').
  { intros q q' A [B N]. pose proof A as (Ht & _ & Hk). split.
    - intros t i a E. apply Ht in E. destruct (B _ _ _ E) as (ev & P). exists ev. by rewrite <- A.
    - intros x u d E. rewrite <- Hk in E. destruct (N _ _ _ E) as (t & i & ev & P & ?). exists t, i, ev. by rewrite <- A. }
  intros q q' A. split; apply Hi; [done|by symmetry].
Qed.
Lemma good_alike q q' h : alike q q' -> good (mkState q h) -> good (mkState q' h).
Proof.
  intros A [S L O]. pose proof A as (_ & Hb & Hk). split; cbn in *.
  - by rewrite <- A.
  - intros th a E. destruct (L th a E) as (t & i & ev & P). exists t, i, ev. by rewrite <- A.
  - intros th a ev. rewrite <- Hb, <- Hk. apply O.
Qed.

(** ** Removing and placing *)

Definition without (t : Table) (i a : nat) (k : K) (q : Queue) : Queue :=
  Kqueue.mkEventPoll (fun t' => if decide (t' = t) then <[i := None]> (table q t) else table q t')
    (delete a (boxes q)) (masked q) k.
Definition with_new (t : Table) (i a : nat) (ev : Ev) (k : K) (q : Queue) : Queue :=
  Kqueue.mkEventPoll (fun t' => if decide (t' = t) then <[i := Some a]> (grow i (table q t)) else table q t')
    (<[a := ev]> (boxes q)) (masked q) k.

Lemma without_lookup t i a k q t' j b :
  table (without t i a k q) t' !! j = Some (Some b) <-> ~ (t' = t /\ j = i) /\ table q t' !! j = Some (Some b).
Proof.
  cbn. destruct (decide (t' = t)) as [->|Hne]; [|naive_solver].
  destruct (decide (j = i)) as [->|Hj]; [|rewrite list_lookup_insert_ne by done; naive_solver].
  split; [|naive_solver]. intros E. by apply list_lookup_insert_Some in E as [(_ & ? & _)|[? _]].
Qed.
Lemma with_new_lookup t i a ev k q t' j b :
  table (with_new t i a ev k q) t' !! j = Some (Some b) <->
  (t' = t /\ j = i /\ b = a) \/ (~ (t' = t /\ j = i) /\ table q t' !! j = Some (Some b)).
Proof.
  cbn. destruct (decide (t' = t)) as [->|Hne]; [|naive_solver].
  destruct (decide (j = i)) as [->|Hj].
  - rewrite list_lookup_insert_eq by apply length_grow. naive_solver.
  - rewrite list_lookup_insert_ne, grow_lookup by done. naive_solver.
Qed.

(** An event that stays in place. *)
Lemma placed_without t i a k q t' j b ev : placed q t' j b ev -> b <> a -> ~ (t' = t /\ j = i) ->
  placed (without t i a k q) t' j b ev.
Proof.
  intros (Ht & Hb & R) Hba Hs. split_and!; [by apply without_lookup|cbn; by rewrite lookup_delete_ne|apply R..].
Qed.
Lemma placed_with t i a ev k q t' j b e : placed q t' j b e -> b <> a -> ~ (t' = t /\ j = i) ->
  placed (with_new t i a ev k q) t' j b e.
Proof.
  intros (Ht & Hb & R) Hba Hs. split_and!; [apply with_new_lookup; by right|cbn; by rewrite lookup_insert_ne|apply R..].
Qed.

Lemma good_without s t i a ev k h : good s -> placed (poll s) t i a ev -> h ⊆ held s -> (forall th, h !! th <> Some a) ->
  (forall x, note k x = (if decide (x = key (event ev)) then None else note (kernel (poll s)) x) /\
    (x <> key (event ev) -> enabled k x = enabled (kernel (poll s)) x)) ->
  good (mkState (without t i a k (poll s)) h).
Proof.
  intros [[B N] L O] P Hsub Hna Hk.
  assert (Hstay : forall t' j b e, placed (poll s) t' j b e -> b <> a -> placed (without t i a k (poll s)) t' j b e).
  { intros t' j b e P' Hba. apply placed_without; [done|done|]. intros [-> ->].
    destruct P as (E & _), P' as (E' & _). congruence. }
  assert (Hh : forall th b, h !! th = Some b -> held s !! th = Some b) by (intros th b E; by eapply lookup_weaken).
  split; cbn; [split|..].
  - intros t' j b [Hs E]%without_lookup. destruct (B _ _ _ E) as (e & P'). exists e. apply Hstay; [done|].
    intros ->. by destruct (slot_unique _ _ _ _ _ _ _ _ P P') as (-> & -> & _), Hs.
  - intros x u d. change (note _ x) with (note k x). rewrite (proj1 (Hk x)). destruct (decide (x = key (event ev))) as [Hx|Hx]; [done|]. intros E.
    destruct (N _ _ _ E) as (t' & j & e & P' & -> & ->). exists t', j, e. split; [|done]. apply Hstay; [done|].
    intros ->. apply Hx. by destruct (slot_unique _ _ _ _ _ _ _ _ P P') as (_ & _ & ->).
  - intros th b E. destruct (L th b (Hh th b E)) as (t' & j & e & P'). exists t', j, e. apply Hstay; [done|].
    intros ->. by apply (Hna th).
  - intros th b e E [Hba Eb]%lookup_delete_Some Nn. destruct (L th b (Hh th b E)) as (t' & j & e' & P').
    pose proof P' as (_ & Eb' & _). assert (e' = e) as -> by congruence.
    destruct (O th b e (Hh th b E) Eb Nn) as [Hen Hu]. rewrite (proj2 (Hk _)).
    + split; [done|]. intros th' E'. by apply Hu, Hh.
    + intros Ek. apply Hba. by destruct (key_slot _ _ _ _ _ _ _ _ _ P P' (eq_sym Ek)) as (_ & _ & -> & _).
Qed.

Lemma good_with s t i a ev k o : good s -> (forall b, table (poll s) t !! i <> Some (Some b)) ->
  boxes (poll s) !! a = None -> placed (with_new t i a ev k (poll s)) t i a ev ->
  o = None \/ o = Some (a, negb (bool_decide (kind ev = Notifier))) ->
  (forall x, note k x = (if decide (x = key (event ev)) then o else note (kernel (poll s)) x) /\
    (x <> key (event ev) -> enabled k x = enabled (kernel (poll s)) x)) ->
  good (mkState (with_new t i a ev k (poll s)) (held s)).
Proof.
  intros [[B N] L O] Hv Hf P Ho Hk.
  assert (Hstay : forall t' j b e, placed (poll s) t' j b e -> placed (with_new t i a ev k (poll s)) t' j b e).
  { intros t' j b e P'. apply placed_with; [done| |].
    - intros ->. destruct P' as (_ & E & _). congruence.
    - intros [-> ->]. destruct P' as (E & _). by apply (Hv b). }
  split; cbn; [split|..].
  - intros t' j b [(-> & -> & ->)|[Hs E]]%with_new_lookup; [by exists ev|].
    destruct (B _ _ _ E) as (e & P'). exists e. by apply Hstay.
  - intros x u d. change (note _ x) with (note k x). rewrite (proj1 (Hk x)). destruct (decide (x = key (event ev))) as [Hx|Hx].
    + intros Eo. rewrite Eo in Ho. destruct Ho as [?|[= -> ->]]; [done|]. by exists t, i, ev.
    + intros E. destruct (N _ _ _ E) as (t' & j & e & P' & -> & ->). exists t', j, e. split; [by apply Hstay|done].
  - intros th b E. destruct (L th b E) as (t' & j & e & P'). exists t', j, e. by apply Hstay.
  - intros th b e E Eb Nn. destruct (L th b E) as (t' & j & e' & P'). pose proof P' as (Et & Eb' & _).
    assert (b <> a) by congruence. rewrite lookup_insert_ne in Eb by done. assert (e' = e) as -> by congruence.
    destruct (O th b e E Eb Nn) as [Hen Hu]. rewrite (proj2 (Hk _)); [done|].
    intros Ek. destruct (key_slot _ _ _ _ _ _ _ _ _ P (Hstay _ _ _ _ P') (eq_sym Ek)) as (_ & _ & -> & _). done.
Qed.

(** ** What the operations do *)

Definition call (w : World) : World := mkWorld (ticks w) (wall w) (draws w) (S (calls w)).

Lemma apply_change_eq e (q : Queue) w : apply_change e q w =
  Ok (change (calls w) e (kernel q)).1 (Kqueue.on_kernel (fun _ => (change (calls w) e (kernel q)).2) q) (call w).
Proof. unfold apply_change. step. by destruct (change _ _ _). Qed.

Lemma remove_at_eq t i a ev (q : Queue) w : placed q t i a ev ->
  remove_at t i q w = Ok tt (without t i a (change (calls w) (set_flags EV_DELETE (event ev)) (kernel q)).2 q) (call w).
Proof.
  intros (Ht & Hb & _). unfold remove_at. step. rewrite Ht. unfold bind. step. rewrite Hb. step. by rewrite apply_change_eq.
Qed.

Lemma remove_empty_eq t i (q : Queue) w : table q t !! i = Some None -> remove_at t i q w = Ok tt q w.
Proof. intros Ht. unfold remove_at. step. by rewrite Ht. Qed.

Lemma delete_flags e : has EV_ADD (set_flags EV_DELETE e) = false /\ has EV_DELETE (set_flags EV_DELETE e) = true /\
  key (set_flags EV_DELETE e) = key e.
Proof. done. Qed.

(** Where an event goes, and what is stored of it. *)
Definition slot_of (ev : Ev) (q : Queue) : nat :=
  match kind ev with
  | FD | Signal => Z.to_nat (ident (event ev))
  | Timer_ | Notifier => length (table q TCustom)
  end.
Definition stored (a : nat) (ev : Ev) (q : Queue) : Ev :=
  Kqueue.mkEvent (set_udata a (set_ident (trigger_of (table_of (kind ev)) (slot_of ev q)) (event ev))) (handler ev) (kind ev).
Definition adding (e : kevent) : kevent := set_flags (Z.lor (flags e) EV_ADD) e.

Lemma has_lor flag x e : has flag (set_flags (Z.lor (flags e) x) e) = has flag e || negb (Z.land x flag =? 0).
Proof.
  unfold has. cbn. rewrite Z.land_lor_distr_l. destruct (Z.eqb_spec (Z.land (flags e) flag) 0) as [->|N1]; cbn; [done|].
  destruct (Z.eqb_spec (Z.lor (Z.land (flags e) flag) (Z.land x flag)) 0) as [E|]; [|done].
  by apply Z.lor_eq_0_iff in E as [? _].
Qed.
Lemma has_add e : has EV_ADD (adding e) = true.
Proof. unfold adding. rewrite has_lor. by rewrite orb_true_r. Qed.
Lemma has_dispatch e : has EV_DISPATCH (adding e) = has EV_DISPATCH e.
Proof. unfold adding. rewrite has_lor. by rewrite orb_false_r. Qed.

Lemma stored_placed ev (q q0 : Queue) a k : well_made ev ->
  placed (with_new (table_of (kind ev)) (slot_of ev q) a (stored a ev q) k q0) (table_of (kind ev)) (slot_of ev q) a (stored a ev q).
Proof.
  intros (Hf & Ha & Hd & Hp & _). split_and!; [apply with_new_lookup; by left|cbn; by rewrite lookup_insert_eq|done..].
Qed.

Lemma place_eq ev (q : Queue) : 0 <= ident (event ev) ->
  place ev (length (table q (table_of (kind ev)))) = (trigger_of (table_of (kind ev)) (slot_of ev q), slot_of ev q).
Proof. intros Hi. unfold place, as_usize, slot_of, trigger_of. rewrite (proj2 (Z.leb_le 0 _) Hi). destruct (kind ev); cbn; rewrite ?Z2Nat.id by done; done. Qed.

(** The last assignment of a registration. *)
Lemma set_slot_lookup t i a (q : Queue) t' j b : (i < length (table q t))%nat ->
  table (Kqueue.set_table t (<[i := Some a]> (table q t)) q) t' !! j = Some (Some b) <->
  (t' = t /\ j = i /\ b = a) \/ (~ (t' = t /\ j = i) /\ table q t' !! j = Some (Some b)).
Proof.
  intros Hi. cbn. destruct (decide (t' = t)) as [->|Hne]; [|naive_solver].
  destruct (decide (j = i)) as [->|Hj]; [rewrite list_lookup_insert_eq by done|rewrite list_lookup_insert_ne by done]; naive_solver.
Qed.

(** The end of a registration, in a slot that is vacant or holds [b]. *)
Lemma store_vacant_eq t i x kd a (q : Queue) w : (i < length (table q t))%nat -> (forall b, table q t !! i <> Some (Some b)) ->
  exists q', store_event t i x kd a q w = Ok x q' w /\ alike (Kqueue.set_table t (<[i := Some a]> (table q t)) q) q'.
Proof.
  intros Hl Hv. destruct (lookup_lt_is_Some_2 _ _ Hl) as [[b|] Eo]; [by destruct (Hv b)|].
  unfold store_event, bind. rewrite (remove_empty_eq _ _ _ _ Eo).
  destruct (bool_decide _); eexists; (split; [reflexivity|done]).
Qed.
Lemma store_occupied_eq t i x kd a b old (q : Queue) w : placed q t i b old ->
  let q2 := without t i b (change (calls w) (set_flags EV_DELETE (event old)) (kernel q)).2 q in
  exists q', store_event t i x kd a q w = Ok x q' (call w) /\ alike (Kqueue.set_table t (<[i := Some a]> (table q2 t)) q2) q'.
Proof.
  intros P q2. unfold store_event, bind. rewrite (remove_at_eq _ _ _ _ _ _ P).
  destruct (bool_decide _); eexists; (split; [reflexivity|done]).
Qed.

(** Registering, by what the kernel answers and what was in the slot. *)
Lemma kq_register_event_eq ev (q : Queue) w : well_made ev -> sound q ->
  let t := table_of (kind ev) in let i := slot_of ev q in let a := fresh (dom (boxes q)) in
  let '(done, k) := change (calls w) (adding (event (stored a ev q))) (kernel q) in
  if done : bool then
    exists q' w', Kqueue.register_event ev q w = Ok (trigger_of t i) q' w' /\
    match table q t !! i with
    | Some (Some b) => exists old, placed q t i b old /\
        alike (with_new t i a (stored a ev q) (change (calls (call w)) (set_flags EV_DELETE (event old)) k).2
          (without t i b k q)) q'
    | _ => alike (with_new t i a (stored a ev q) k q) q'
    end
  else exists q', Kqueue.register_event ev q w = Fail EventQueue q' (call w) /\ alike (Kqueue.on_kernel (fun _ => k) q) q'.
Proof.
  intros Hw Hs t i a. destruct (change _ _ _) as [done k] eqn:Ek.
  assert (Hfresh : boxes q !! a = None) by apply not_elem_of_dom, is_fresh.
  unfold Kqueue.register_event. step. rewrite place_eq by apply Hw. fold t. fold i. step. cbn [Kqueue.set_table boxes]. fold a.
  unfold bind at 1. rewrite apply_change_eq. cbn [Kqueue.kernel Kqueue.set_boxes Kqueue.set_table].
  change (set_flags (Z.lor _ EV_ADD) _) with (adding (event (stored a ev q))). rewrite Ek. cbn [fst snd].
  set (q1 := Kqueue.on_kernel _ _).
  assert (Hlen : (i < length (table q1 t))%nat) by (cbn; rewrite decide_True by done; apply length_grow).
  assert (Hq1 : forall t' j b, table q1 t' !! j = Some (Some b) <-> table q t' !! j = Some (Some b)).
  { intros t' j b. cbn. destruct (decide (t' = t)) as [->|]; [apply grow_lookup|done]. }
  assert (Hvac : (forall b, table q t !! i <> Some (Some b)) -> exists q' w',
    store_event t i (trigger_of t i) (kind ev) a q1 (call w) = Ok (trigger_of t i) q' w' /\
    alike (with_new t i a (stored a ev q) k q) q').
  { intros Hv. destruct (store_vacant_eq t i (trigger_of t i) (kind ev) a q1 (call w)) as (q' & -> & Ha); [done|..].
    { intros b Eb. by apply Hq1, Hv in Eb. }
    exists q', (call w). split; [done|]. etrans; [|exact Ha]. split_and!; [|done|done].
    intros t' j b'. rewrite set_slot_lookup by exact Hlen. by rewrite with_new_lookup, Hq1. }
  destruct done; cbn [negb].
  - destruct (table q t !! i) as [[b|]|] eqn:Et; [|by apply Hvac..].
    destruct (s_box _ Hs _ _ _ Et) as (old & P). pose proof P as (_ & Eb & R).
    assert (P1 : placed q1 t i b old).
    { split_and!; [by apply Hq1| |apply R..]. cbn. rewrite lookup_insert_ne; [done|congruence]. }
    destruct (store_occupied_eq t i (trigger_of t i) (kind ev) a b old q1 (call w) P1) as (q' & -> & Ha).
    exists q', (call (call w)). split; [done|]. exists old. split; [done|]. etrans; [|exact Ha]. clear Ha.
    split_and!; [|cbn; rewrite delete_insert_ne by congruence; done|done].
    intros t' j b'. rewrite set_slot_lookup by (cbn; rewrite decide_True, length_insert by done; exact Hlen).
    rewrite with_new_lookup, !without_lookup. by rewrite Hq1.
  - step. eexists. split; [reflexivity|]. split_and!; [|cbn; by rewrite delete_insert_id|done].
    intros t' j b. symmetry. apply Hq1.
Qed.

(** ** Threads at work *)

(** One operation of a thread, or the closing of a descriptor.  The event that
    a registration replaces is with no thread, the end of a file is
    reported for descriptors, and [clear_event_by_fd] is for events that nobody
    holds. *)
Inductive step : State -> State -> Prop :=
| step_register s ev w q' : well_made ev ->
    (forall th b, held s !! th = Some b -> table (poll s) (table_of (kind ev)) !! slot_of ev (poll s) <> Some (Some b)) ->
    final (Kqueue.register_event ev (poll s) w) = Some q' -> step s (mkState q' (held s))
| step_wait s th a r w q' w' : held s !! th = None -> Kqueue.wait (poll s) w = Ok r q' w' ->
    r = Kqueue.WaitOk a \/ r = Kqueue.WaitEoF a -> step s (mkState q' (<[th := a]> (held s)))
| step_retry s w q' w' : Kqueue.wait (poll s) w = Ok Kqueue.WaitError q' w' -> step s (mkState q' (held s))
| step_drop s th a w q' w' : held s !! th = Some a -> Kqueue.drop_guard a (poll s) w = Ok tt q' w' ->
    step s (mkState q' (delete th (held s)))
| step_cancel s th a ev w q' w' : held s !! th = Some a -> boxes (poll s) !! a = Some ev -> kind ev = FD \/ kind ev = Timer_ ->
    Kqueue.cancel a (poll s) w = Ok tt q' w' -> step s (mkState q' (delete th (held s)))
| step_clear s fd w q' w' : (forall th a, held s !! th = Some a -> table (poll s) TEvents !! fd <> Some (Some a)) ->
    Kqueue.clear_event_by_fd (Z.of_nat fd) (poll s) w = Ok tt q' w' -> step s (mkState q' (held s))
| step_trigger s x w q' w' : Kqueue.trigger_notification x (poll s) w = Ok tt q' w' -> step s (mkState q' (held s))
| step_stop s x w q' w' : Kqueue.stop_notification x (poll s) w = Ok tt q' w' -> step s (mkState q' (held s))
| step_close s fd : step s (mkState (Kqueue.on_kernel (closed fd) (poll s)) (held s)).

(** The kernel forgets entries and enables nothing. *)
Lemma good_forget s k : good s ->
  (forall x, (note k x = note (kernel (poll s)) x \/ note k x = None) /\ (enabled k x = true -> enabled (kernel (poll s)) x = true)) ->
  good (mkState (Kqueue.on_kernel (fun _ => k) (poll s)) (held s)).
Proof.
  intros [[B N] L O] Hk. split; cbn; [split|done|].
  - exact B.
  - intros x u d. change (note _ x) with (note k x). destruct (Hk x) as [[->| ->] _]; [apply N|done].
  - intros th a ev E Eb Nn. destruct (O th a ev E Eb Nn) as [Hen Hu]. split; [|done].
    apply not_true_iff_false. intros Et%(proj2 (Hk _)). congruence.
Qed.

(** The kernel is asked to change the entry of the event [a]. *)
Lemma good_touch s t i a ev e n h : good s -> placed (poll s) t i a ev -> h ⊆ held s ->
  kind ev = Notifier \/ (forall th, h !! th <> Some a) ->
  key e = key (event ev) -> udata e = a -> has EV_ADD e = false -> has EV_DELETE e = false ->
  good (mkState (Kqueue.on_kernel (fun k => (change n e k).2) (poll s)) h).
Proof.
  intros [[B N] L O] P Hsub Hfree Ek Eu Ha Hd.
  assert (Hu : forall u d, note (kernel (poll s)) (key e) = Some (u, d) -> u = udata e).
  { intros u d E. destruct (N _ _ _ E) as (t' & j & ev' & P' & Ek' & _). rewrite Ek in Ek'.
    by destruct (key_slot _ _ _ _ _ _ _ _ _ P P' Ek') as (_ & _ & -> & _). }
  pose proof (touched n e (kernel (poll s)) Ha Hd Hu) as Hk.
  assert (Hh : forall th b, h !! th = Some b -> held s !! th = Some b) by (intros th b E; by eapply lookup_weaken).
  split; cbn; [split|..].
  - exact B.
  - intros x u d. change (note _ x) with (note (change n e (kernel (poll s))).2 x). rewrite (proj1 (Hk x)). apply N.
  - intros th b E. by apply (L th), Hh.
  - intros th b ev' E Eb Nn. destruct (O th b ev' (Hh th b E) Eb Nn) as [Hen Hu']. rewrite (proj2 (Hk _)).
    + split; [done|]. intros th' E'. by apply Hu', Hh.
    + rewrite Ek. intros Ekk. destruct (L th b (Hh th b E)) as (t' & j & ev2 & P').
      pose proof P' as (_ & Eb2 & _). assert (ev2 = ev') as -> by congruence.
      destruct (key_slot _ _ _ _ _ _ _ _ _ P' P Ekk) as (_ & _ & -> & ->). destruct Hfree as [?|Hf]; [done|by apply (Hf th)].
Qed.

Lemma kq_good_wait s th n e k : good s -> held s !! th = None -> kevent_wait n (kernel (poll s)) = (Some e, k) ->
  good (mkState (Kqueue.on_kernel (fun _ => k) (poll s)) (<[th := udata e]> (held s))).
Proof.
  intros [[B N] L O] Ht Ew. destruct (waited _ _ _ _ Ew) as (x & u & d & Hx & Hen & -> & Hk).
  destruct (N _ _ _ Hx) as (t & i & ev & P & -> & ->). pose proof P as (_ & Hb & _).
  assert (Hfree : kind ev <> Notifier -> forall th', held s !! th' <> Some u).
  { intros Nn th' E. destruct (O th' u ev E Hb Nn) as [Hd _]. congruence. }
  split; cbn; [split|..].
  - exact B.
  - intros y u' d'. change (note _ y) with (note k y). rewrite (proj1 (Hk y)). apply N.
  - intros th' b [[<- <-]|[_ E]]%lookup_insert_Some; [by exists t, i, ev|by eapply L].
  - intros th' b ev' E Eb Nn. rewrite (proj2 (Hk _)). apply lookup_insert_Some in E as [[<- <-]|[Hne E]].
    + assert (ev' = ev) as -> by congruence. rewrite decide_True by (by rewrite bool_decide_eq_false_2). split; [done|].
      intros th2 [[<- _]|[_ E2]]%lookup_insert_Some; [done|]. by destruct (Hfree Nn th2).
    + destruct (O th' b ev' E Eb Nn) as [Hd Hu]. split; [rewrite Hd; by destruct (decide _)|].
      intros th2 [[<- <-]|[_ E2]]%lookup_insert_Some; [|by apply Hu].
      assert (ev' = ev) as -> by congruence. by destruct (Hfree Nn th').
Qed.

(** The key under which an event is stored. *)
Lemma stored_key a ev (q : Queue) : well_made ev ->
  key (event (stored a ev q)) = (trigger_of (table_of (kind ev)) (slot_of ev q), filter_of (kind ev)).
Proof. intros (Hf & _). unfold key. cbn. by rewrite Hf. Qed.

(** Only an event of the same kind can be in the slot of a new one. *)
Lemma occupied_kind ev (q : Queue) b old : placed q (table_of (kind ev)) (slot_of ev q) b old -> kind old = kind ev.
Proof.
  intros (Ht & _ & Hk & _). unfold slot_of in Ht.
  destruct (kind ev), (kind old); cbn in *; try done; apply lookup_lt_Some in Ht; lia.
Qed.

(** Replacing an event: the kernel forgets the new one with the old one. *)
Lemma replaced_note ev (q : Queue) b old a n n' k : well_made ev -> placed q (table_of (kind ev)) (slot_of ev q) b old ->
  change n (adding (event (stored a ev q))) (kernel q) = (true, k) ->
  forall x, note (change n' (set_flags EV_DELETE (event old)) k).2 x =
      (if decide (x = key (event old)) then None else note (kernel q) x) /\
    (x <> key (event old) -> enabled (change n' (set_flags EV_DELETE (event old)) k).2 x = enabled (kernel q) x).
Proof.
  intros Hw P Ek x. pose proof (occupied_kind _ _ _ _ P) as Hkind.
  assert (Ekey : key (event (stored a ev q)) = key (event old)) by (by rewrite stored_key, (placed_key _ _ _ _ _ P), Hkind).
  destruct (deleted n' (set_flags EV_DELETE (event old)) k eq_refl eq_refl x) as [Hno He].
  destruct (added _ _ _ _ (has_add _) Ek x) as [Hno' He'].
  change (key (set_flags EV_DELETE (event old))) with (key (event old)) in *.
  change (key (adding (event (stored a ev q)))) with (key (event (stored a ev q))) in *. rewrite Ekey in *.
  rewrite Hno, Hno'. split; [by destruct (decide _)|]. intros Hx. rewrite He, He' by done. by rewrite decide_False.
Qed.

Lemma kq_good_register s ev w q' : good s -> well_made ev ->
  (forall th b, held s !! th = Some b -> table (poll s) (table_of (kind ev)) !! slot_of ev (poll s) <> Some (Some b)) ->
  final (Kqueue.register_event ev (poll s) w) = Some q' -> good (mkState q' (held s)).
Proof.
  intros Hg Hw Hh Hf. set (q := poll s) in *. pose proof (kq_register_event_eq ev q w Hw (g_sound _ Hg)) as Hr. cbn zeta in Hr.
  set (t := table_of (kind ev)) in *. set (i := slot_of ev q) in *. set (a := fresh (dom (boxes q))) in *.
  assert (Hfr : boxes q !! a = None) by apply not_elem_of_dom, is_fresh.
  destruct (change _ _ _) as [[] k] eqn:Ek.
  - destruct Hr as (q2 & w2 & E & Hr). rewrite E in Hf. injection Hf as ->.
    assert (Hvac : alike (with_new t i a (stored a ev q) k q) q' -> (forall b, table q t !! i <> Some (Some b)) ->
      good (mkState q' (held s))).
    { intros Ha Hv. eapply good_alike; [exact Ha|]. eapply good_with; [done|done|done|by apply stored_placed|by right|].
      intros x. destruct (added _ _ _ _ (has_add _) Ek x) as [Hno He]. rewrite Hno, He, has_dispatch.
      destruct Hw as (_ & _ & _ & Hd & _). change (has EV_DISPATCH (event (stored a ev q))) with (has EV_DISPATCH (event ev)).
      rewrite Hd. split; [done|]. intros Hx. by rewrite decide_False. }
    destruct (table q t !! i) as [[b|]|] eqn:Et; [|by apply Hvac..].
    destruct Hr as (old & P & Ha). set (k2 := (change _ _ k).2) in *.
    pose proof (replaced_note ev q b old a _ (calls (call w)) k Hw P Ek) as Hk. fold k2 in Hk.
    assert (Hg1 : good (mkState (without t i b k2 q) (held s))).
    { apply (good_without s t i b old k2); [done|done|done| |done]. intros th E'. by apply (Hh th b E'). }
    eapply good_alike; [exact Ha|].
    apply (good_with (mkState (without t i b k2 q) (held s)) t i a (stored a ev q) k2 None Hg1).
    + intros b' [Hs _]%without_lookup. by apply Hs.
    + cbn. apply lookup_delete_None. by right.
    + by apply stored_placed.
    + by left.
    + intros x. split; [|done]. cbn [poll Kqueue.kernel without]. case_decide as Hx; [|done]. rewrite (proj1 (Hk x)), decide_True; [done|].
      rewrite Hx, (placed_key _ _ _ _ _ P), stored_key by done. by rewrite (occupied_kind _ _ _ _ P).
  - destruct Hr as (q2 & E & Ha). rewrite E in Hf. injection Hf as ->. eapply good_alike; [exact Ha|].
    apply good_forget; [done|]. intros x. destruct (not_added _ _ _ _ (has_add _) Ek x) as [-> ->]. split; [by left|done].
Qed.

(** Removing what the table has at a slot, if nobody holds it. *)
Lemma good_remove s t i w q' w' h : good s -> h ⊆ held s ->
  (forall th a, h !! th = Some a -> table (poll s) t !! i <> Some (Some a)) ->
  remove_at t i (poll s) w = Ok tt q' w' -> good (mkState q' h).
Proof.
  intros Hg Hsub Hh Hr. destruct (table (poll s) t !! i) as [[a|]|] eqn:Et.
  - destruct (s_box _ (g_sound _ Hg) _ _ _ Et) as (ev & P). rewrite (remove_at_eq _ _ _ _ _ _ P) in Hr. injection Hr as <- <-.
    apply (good_without s t i a ev); [done|done|done|..].
    + intros th E. by apply (Hh th a).
    + apply (deleted (calls w) (set_flags EV_DELETE (event ev)) _ eq_refl eq_refl).
  - rewrite (remove_empty_eq _ _ _ _ Et) in Hr. injection Hr as <- <-. destruct Hg as [S L O]. split; cbn; [done|..].
    + intros th a E. by eapply L, lookup_weaken.
    + intros th a ev E Eb Nn. destruct (O th a ev) as [? Hu]; [by eapply lookup_weaken|done|done|].
      split; [done|]. intros th' E'. by eapply Hu, lookup_weaken.
  - unfold remove_at in Hr. step in Hr. by rewrite Et in Hr.
Qed.

Lemma kq_deref_eq a ev (q : Queue) w : boxes q !! a = Some ev -> Kqueue.deref a q w = Ok ev q w.
Proof. intros E. unfold Kqueue.deref. step. by rewrite E. Qed.

Lemma kq_drop_eq a ev (q : Queue) w : boxes q !! a = Some ev ->
  Kqueue.drop_guard a q w = Ok tt (Kqueue.on_kernel (fun k => (change (calls w) (event ev) k).2) q) (call w).
Proof. intros E. unfold Kqueue.drop_guard, bind. by rewrite (kq_deref_eq _ _ _ _ E), apply_change_eq. Qed.

(** Cancelling an event goes to its own slot, unless it is a signal. *)
Lemma kq_cancel_eq t i a ev (q : Queue) w : placed q t i a ev -> kind ev <> Signal -> Kqueue.cancel a q w = remove_at t i q w.
Proof.
  intros (_ & Hb & <- & Hi & _) Hk. unfold Kqueue.cancel, bind. rewrite (kq_deref_eq _ _ _ _ Hb), Hi.
  unfold Kqueue.clear_event_by_fd, trigger_of. destruct (kind ev); cbn [table_of]; [| |done|].
  - rewrite (proj2 (Z.leb_le 0 _)) by lia. by rewrite Nat2Z.id.
  - rewrite (proj2 (Z.leb_gt 0 _)) by lia. by replace (Z.to_nat _) with i by lia.
  - rewrite (proj2 (Z.leb_gt 0 _)) by lia. by replace (Z.to_nat _) with i by lia.
Qed.

(** What [notification] returns is a notifier in the queue. *)
Lemma kq_notification_ok x ev (q : Queue) w q' w' : sound q -> Kqueue.notification x q w = Ok ev q' w' ->
  q' = q /\ w' = w /\ kind ev = Notifier /\ exists i a, placed q TCustom i a ev.
Proof.
  intros Hs. unfold Kqueue.notification. step. destruct (0 <=? _) eqn:Ex; step; [|done].
  destruct (table q TCustom !! _) as [[a|]|] eqn:Et; step; [|done..].
  destruct (s_box _ Hs _ _ _ Et) as (ev' & P). pose proof P as (_ & Hb & _).
  unfold Kqueue.deref. step. rewrite Hb. step. case_bool_decide; step; [|done]. intros [= -> -> ->]. naive_solver.
Qed.

Lemma good_notify s x ev w q1 w1 e : good s -> Kqueue.notification x (poll s) w = Ok ev q1 w1 ->
  key e = key (event ev) -> udata e = udata (event ev) -> has EV_ADD e = false -> has EV_DELETE e = false ->
  q1 = poll s /\ good (mkState (Kqueue.on_kernel (fun k => (change (calls w1) e k).2) (poll s)) (held s)).
Proof.
  intros Hg En Ek Eu Ha Hd. destruct (kq_notification_ok _ _ _ _ _ _ (g_sound _ Hg) En) as (-> & -> & Hnot & i & a & P).
  split; [done|]. eapply good_touch; [done|exact P|done|by left|done| |done|done].
  rewrite Eu. by destruct P as (_ & _ & _ & _ & ? & _).
Qed.

Lemma kq_step_good s s' : step s s' -> good s -> good s'.
Proof.
  intros Hstep Hg. destruct Hstep as [s ev w q' Hv Hp Hf|s th a r w q' w' Ht Hw Hr|s w q' w' Hw|s th a w q' w' Ht Hw
    |s th a ev w q' w' Ht Hb Hk Hw|s fd w q' w' Hh Hw|s x w q' w' Hw|s x w q' w' Hw|s fd].
  - by eapply kq_good_register.
  - unfold Kqueue.wait in Hw. step in Hw. destruct (kevent_wait _ _) as [[e|] k] eqn:Ew; step in Hw; [|naive_solver].
    assert (q' = Kqueue.on_kernel (fun _ => k) (poll s) /\ a = udata e) as [-> ->] by (destruct (has _ _); naive_solver).
    by eapply kq_good_wait.
  - unfold Kqueue.wait in Hw. step in Hw. destruct (kevent_wait _ _) as [[e|] k] eqn:Ew; step in Hw; [by destruct (has _ _)|].
    injection Hw as <- <-. apply good_forget; [done|]. intros y. destruct (wait_failed _ _ _ Ew y) as [-> ->]. split; [by left|done].
  - destruct (g_live _ Hg th a Ht) as (t & i & ev & P). pose proof P as (_ & Hb & _ & _ & Hu & _ & Ha & Hd & _).
    rewrite (kq_drop_eq _ _ _ _ Hb) in Hw. injection Hw as <- <-.
    eapply good_touch; [done|exact P|apply delete_subseteq| |done|done|done|done].
    destruct (decide (kind ev = Notifier)) as [?|Nn]; [by left|right]. intros th' [Hne E]%lookup_delete_Some.
    apply Hne. symmetry. by eapply (g_once _ Hg th a ev).
  - destruct (g_live _ Hg th a Ht) as (t & i & ev' & P). pose proof P as (Et & Hb' & _). assert (ev' = ev) as -> by congruence.
    rewrite (kq_cancel_eq _ _ _ _ _ _ P) in Hw by (destruct Hk; congruence).
    eapply good_remove; [done|apply delete_subseteq| |exact Hw]. intros th' b [Hne E]%lookup_delete_Some Eb.
    assert (b = a) as -> by congruence. apply Hne. symmetry. eapply (g_once _ Hg th a ev); [done|done|destruct Hk; congruence|done].
  - unfold Kqueue.clear_event_by_fd in Hw. rewrite (proj2 (Z.leb_le 0 _)), Nat2Z.id in Hw by lia. by eapply good_remove.
  - unfold Kqueue.trigger_notification, bind in Hw. destruct (Kqueue.notification x (poll s) w) as [ev q1 w1|e q1 w1|] eqn:En; [|done..].
    rewrite apply_change_eq in Hw. injection Hw as <- <-.
    destruct (kq_notification_ok _ _ _ _ _ _ (g_sound _ Hg) En) as (_ & _ & _ & i & a & _ & _ & _ & _ & _ & _ & Ha & Hd & _).
    by destruct (good_notify s x ev w q1 w1 (set_fflags NOTE_TRIGGER (event ev)) Hg En) as [-> ?].
  - unfold Kqueue.stop_notification, bind in Hw. destruct (Kqueue.notification x (poll s) w) as [ev q1 w1|e q1 w1|] eqn:En; [|done..].
    rewrite apply_change_eq in Hw. injection Hw as <- <-.
    by destruct (good_notify s x ev w q1 w1 (set_fflags 0 (set_flags EV_DISABLE (event ev))) Hg En) as [-> ?].
  - apply good_forget; [done|]. intros y. destruct (closed_note fd (kernel (poll s)) y) as [-> ?]. split; [|done].
    case_decide; [by right|by left].
Qed.

Definition idle (q : Queue) : State := mkState q ∅.

Lemma kq_new_good w q w' : Kqueue.new tt w = Ok q tt w' -> good (idle q).
Proof.
  unfold Kqueue.new. step. destruct (kqueue _) as [k|] eqn:Ek; step; [|done]. intros [= <- _].
  split; [split|..]; cbn.
  - intros t i a. by rewrite lookup_nil.
  - intros x u d. by rewrite (kqueue_empty _ _ _ Ek).
  - intros th a. by rewrite lookup_empty.
  - intros th a ev. by rewrite lookup_empty.
Qed.

Lemma kq_reachable_good s s' : rtc step s s' -> good s -> good s'.
Proof. induction 1 as [|s1 s2 s3 H12 _ IH]; [done|]. intros Hg. by eapply IH, kq_step_good. Qed.

(** C35. Handlers are alive and exclusive on the BSDs too: from a new queue, however
    threads wait, run handlers, let go of them, register, cancel and remove
    events, ring notifiers and close descriptors, every guard that a thread holds
    is of an event that still exists, whose handler can be read and released, and
    two threads hold the same one only if it is a notifier. *)
Theorem kqueue_handlers_live_and_exclusive w0 q w1 s :
  Kqueue.new tt w0 = Ok q tt w1 -> rtc step (idle q) s ->
  forall th a, held s !! th = Some a -> exists ev, boxes (poll s) !! a = Some ev /\
    (forall w, Kqueue.guard_handler a (poll s) w = Ok (handler ev) (poll s) w) /\
    (forall w, exists q' w', Kqueue.drop_guard a (poll s) w = Ok tt q' w') /\
    (kind ev <> Signal -> forall w, exists q' w', Kqueue.cancel a (poll s) w = Ok tt q' w') /\
    (kind ev <> Notifier -> forall th', held s !! th' = Some a -> th' = th).
Proof.
  intros Hnew Hr th a Ht. pose proof (kq_reachable_good _ _ Hr (kq_new_good _ _ _ Hnew)) as Hg.
  destruct (g_live _ Hg th a Ht) as (t & i & ev & P). pose proof P as (_ & Hb & _). exists ev. split_and!; [done|..].
  - intros w. unfold Kqueue.guard_handler, bind. by rewrite (kq_deref_eq _ _ _ _ Hb).
  - intros w. rewrite (kq_drop_eq _ _ _ _ Hb). by eexists _, _.
  - intros Hs w. rewrite (kq_cancel_eq _ _ _ _ _ _ P Hs), (remove_at_eq _ _ _ _ _ _ P). by eexists _, _.
  - intros Nn. by apply (g_once _ Hg th a ev).
Qed.

(** C36. Registering a descriptor again loses it: the kernel is first told of the new
    event, under the descriptor and the read filter, and then to delete the old
    one, under the same descriptor and filter.  The caller is answered with
    success and the registry holds the new handler, but the kernel has no entry
    that could ever report it; in a vacant slot the event is known and
    enabled. *)
Theorem reregistered_event_is_lost (q : Queue) fd h w x q' w' :
  sound q -> 0 <= fd -> Kqueue.new_event fd h q w = Ok x q' w' ->
  x = fd /\ exists a ev, table q' TEvents !! Z.to_nat fd = Some (Some a) /\ boxes q' !! a = Some ev /\ handler ev = h /\
    note (kernel q') (fd, EVFILT_READ) =
      (match table q TEvents !! Z.to_nat fd with Some (Some _) => None | _ => Some (a, true) end) /\
    ((forall b, table q TEvents !! Z.to_nat fd <> Some (Some b)) -> enabled (kernel q') (fd, EVFILT_READ) = true).
Proof.
  intros Hs Hfd. unfold Kqueue.new_event. set (ev := Kqueue.mkEvent _ _ _).
  assert (Hw : well_made ev) by (by split_and!).
  pose proof (kq_register_event_eq ev q w Hw Hs) as Hr. cbn zeta in Hr. set (a := fresh _) in *.
  destruct (change _ _ _) as [[] k] eqn:Ek; [|destruct Hr as (q2 & -> & _); done].
  destruct Hr as (q2 & w2 & -> & Hr). intros [= <- -> ->].
  change (table_of (kind ev)) with TEvents in *. change (slot_of ev q) with (Z.to_nat fd) in *.
  split; [by apply Z2Nat.id|]. exists a, (stored a ev q).
  assert (Hkey : key (event (stored a ev q)) = (fd, EVFILT_READ)) by (rewrite stored_key by done; cbn; by rewrite Z2Nat.id).
  assert (Hin : forall k q0, alike (with_new TEvents (Z.to_nat fd) a (stored a ev q) k q0) q' ->
    table q' TEvents !! Z.to_nat fd = Some (Some a) /\ boxes q' !! a = Some (stored a ev q) /\ kernel q' = k).
  { intros k0 q0 (At & Ab & Ak). rewrite <- Ab, <- Ak. split_and!; [|cbn; by rewrite lookup_insert_eq|done].
    apply At, with_new_lookup. by left. }
  destruct (added _ _ _ _ (has_add _) Ek (fd, EVFILT_READ)) as [Hno He].
  rewrite decide_True in Hno by (by rewrite <- Hkey). rewrite decide_True in He by (by rewrite <- Hkey).
  destruct (table q TEvents !! Z.to_nat fd) as [[b|]|] eqn:Et.
  - destruct Hr as (old & P & Al). destruct (Hin _ _ Al) as (-> & -> & ->). split_and!; [done..| |by intros Hv; destruct (Hv b)].
    rewrite (proj1 (replaced_note ev q b old a _ _ k Hw P Ek _)), decide_True; [done|].
    rewrite (placed_key _ _ _ _ _ P), (occupied_kind ev q b old P). cbn. by rewrite Z2Nat.id.
  - destruct (Hin _ _ Hr) as (-> & -> & ->). by rewrite Hno, He.
  - destruct (Hin _ _ Hr) as (-> & -> & ->). by rewrite Hno, He.
Qed.

(** The guard of a signal cancels whatever has the signal's number as its
    descriptor: signals have a table of their own, but are looked for in that of
    the descriptors. *)
Lemma cancel_signal_elsewhere (q : Queue) i a ev w : placed q TSignals i a ev ->
  Kqueue.cancel a q w = remove_at TEvents i q w.
Proof.
  intros (_ & Hb & _ & Hi & _). unfold Kqueue.cancel, bind. rewrite (kq_deref_eq _ _ _ _ Hb), Hi.
  unfold Kqueue.clear_event_by_fd, trigger_of. rewrite (proj2 (Z.leb_le 0 _)) by lia. by rewrite Nat2Z.id.
Qed.
End Properties.

(** ** A kernel that computes *)

Definition filter_code (f : Filter) : nat :=
  match f with EVFILT_READ => 0 | EVFILT_TIMER => 1 | EVFILT_USER => 2 | EVFILT_SIGNAL => 3 end.
Definition filter_decode (n : nat) : Filter :=
  match n with 0 => EVFILT_READ | 1 => EVFILT_TIMER | 2 => EVFILT_USER | _ => EVFILT_SIGNAL end%nat.
#[global] Instance Filter_countable : Countable Filter.
Proof. apply (inj_countable' filter_code filter_decode). by intros []. Defined.

Module MapQueue.
Record Entry := mkEntry { ptr : nat; once : bool; on : bool }.
Record Kernel := mkKernel { entries : gmap (Z * Filter) Entry; ready : gset (Z * Filter) }.

Definition reportable (k : Kernel) : list ((Z * Filter) * Entry) :=
  List.filter (fun '(x, e) => on e && bool_decide (x ∈ ready k)) (map_to_list (entries k)).
Definition disable (x : Z * Filter) (e : Entry) (k : Kernel) : Kernel :=
  mkKernel (if once e then <[x := mkEntry (ptr e) true false]> (entries k) else entries k) (ready k).
Definition report (k : Kernel) : option kevent * Kernel :=
  match reportable k with
  | [] => (None, k)
  | (x, e) :: _ => (Some (mkKevent x.1 x.2 0 0 0 (ptr e)), disable x e k)
  end.
Definition update (c : kevent) (e : Entry) (k : Kernel) : Kernel :=
  mkKernel (<[key c := mkEntry (udata c) (once e) (negb (has EV_DISABLE c) && (has EV_ENABLE c || on e))]> (entries k))
    (if Z.land (fflags c) NOTE_TRIGGER =? 0 then ready k else {[key c]} ∪ ready k).
Definition apply (c : kevent) (k : Kernel) : bool * Kernel :=
  if has EV_ADD c then (true, mkKernel (<[key c := mkEntry (udata c) (has EV_DISPATCH c) true]> (entries k)) (ready k)) else
  match entries k !! key c with
  | None => (false, k)
  | Some e => (true, if has EV_DELETE c then mkKernel (delete (key c) (entries k)) (ready k) else update c e k)
  end.

#[local] Instance queue : Kqueue Kernel := {|
  note k x := (fun e => (ptr e, once e)) <$> entries k !! x;
  enabled k x := from_option on false (entries k !! x);
  kqueue _ := Some (mkKernel ∅ ∅);
  change _ := apply;
  kevent_wait _ := report;
  closed fd k := mkKernel (delete (fd, EVFILT_READ) (entries k)) (ready k);
|}.

Lemma report_some k e k' : report k = (Some e, k') ->
  exists x n, entries k !! x = Some n /\ on n = true /\ udata e = ptr n /\ k' = disable x n k.
Proof.
  unfold report. destruct (reportable k) as [|[x n] l] eqn:E; [done|]. intros [= <- <-]. exists x, n.
  assert (Hin : List.In (x, n) (reportable k)) by (rewrite E; by left).
  apply List.filter_In in Hin as [Hin Hon]. apply andb_true_iff in Hon as [Hon _].
  split_and!; [|done..]. by apply elem_of_map_to_list, list_elem_of_In.
Qed.

Lemma looked_up {A B} (f : A -> B) (m : gmap (Z * Filter) A) x y (a : A) (d : B) :
  from_option f d (<[y := a]> m !! x) = if decide (x = y) then f a else from_option f d (m !! x).
Proof. case_decide as E; [subst; by rewrite lookup_insert_eq|by rewrite lookup_insert_ne]. Qed.
Lemma looked_up_map {A B} (f : A -> B) (m : gmap (Z * Filter) A) x y (a : A) :
  f <$> <[y := a]> m !! x = if decide (x = y) then Some (f a) else f <$> m !! x.
Proof. case_decide as E; [subst; by rewrite lookup_insert_eq|by rewrite lookup_insert_ne]. Qed.
Lemma looked_up_deleted {A B} (f : A -> B) (m : gmap (Z * Filter) A) x y :
  f <$> delete y m !! x = if decide (x = y) then None else f <$> m !! x.
Proof. case_decide as E; [subst; by rewrite lookup_delete_eq|by rewrite lookup_delete_ne]. Qed.

#[local] Instance laws : KqueueLaws Kernel.
Proof.
  split.
  - intros n k x [= <-]. done.
  - intros n c k k' Ha. cbn. unfold apply. rewrite Ha. intros [= <-] x. cbn. by rewrite looked_up, looked_up_map.
  - intros n c k k' Ha. cbn. unfold apply. by rewrite Ha.
  - intros n c k Ha Hd x. cbn. unfold apply. rewrite Ha, Hd. destruct (entries k !! key c) as [e|] eqn:E; cbn.
    + rewrite looked_up_deleted. split; [done|]. intros Hx. by rewrite lookup_delete_ne.
    + split; [|done]. case_decide; [subst; by rewrite E|done].
  - intros n c k Ha Hd Hu x. cbn in *. unfold apply. rewrite Ha, Hd. destruct (entries k !! key c) as [e|] eqn:E; [|done]. cbn.
    rewrite looked_up, looked_up_map. split; [|intros Hx; by rewrite decide_False].
    case_decide; [|done]. subst x. rewrite E. cbn. by rewrite <- (Hu _ _ eq_refl).
  - intros n k e k' (x & m & Hx & Ho & Hp & ->)%report_some. exists x, (ptr m), (once m). cbn. rewrite Hx.
    split_and!; [done..|]. intros y. destruct (once m) eqn:Hm; cbn.
    + rewrite looked_up, looked_up_map. cbn. split; [case_decide; [subst; by rewrite Hx; cbn; rewrite Hm|done]|].
      destruct (decide (y = x)); [by rewrite decide_True|by rewrite decide_False by naive_solver].
    + split; [done|]. by rewrite decide_False by naive_solver.
  - intros n k k'. cbn. unfold report. destruct (reportable k) as [|[x e] l]; [|done]. by intros [= <-].
  - intros fd k x. cbn. rewrite looked_up_deleted. split; [done|]. destruct (decide (x = (fd, EVFILT_READ))) as [->|Hx].
    + by rewrite lookup_delete_eq.
    + by rewrite lookup_delete_ne.
Qed.
End MapQueue.

Module Example.
Import MapQueue.
#[local] Existing Instances MapQueue.queue MapQueue.laws.

(** A queue with a socket that becomes readable and a thread that takes it. *)
Definition w0 : World := mkWorld 0 0 0 7.
Definition after {E S A} (o : outcome E S A) (s : S) : S := from_option id s (final o).
Definition arrive (fd : Z) (q : Kqueue.EventPoll Kernel nat) : Kqueue.EventPoll Kernel nat :=
  Kqueue.on_kernel (fun k => mkKernel (entries k) ({[(fd, EVFILT_READ)]} ∪ ready k)) q.
Definition q0 : Kqueue.EventPoll Kernel nat := Kqueue.mkEventPoll (fun _ => []) ∅ [] (mkKernel ∅ ∅).
Definition bell : Kqueue.Event nat := Kqueue.mkEvent (mkKevent 0 EVFILT_USER EV_ENABLE 0 0 0) 40%nat Notifier.
Definition q1 : Kqueue.EventPoll Kernel nat := after (Kqueue.register_event bell q0 w0) q0.
Definition q2 : Kqueue.EventPoll Kernel nat := after (Kqueue.trigger_notification (-1) q1 w0) q1.
Definition q3 : Kqueue.EventPoll Kernel nat := after (Kqueue.wait q2 w0) q2.
Definition guard : nat := match Kqueue.wait q2 w0 with Ok (Kqueue.WaitOk a) _ _ => a | _ => 99 end.

Lemma kq_opened : Kqueue.new tt w0 = Ok q0 tt (mkWorld 0 0 0 8).
Proof. vm_compute. reflexivity. Qed.

Lemma kq_run : rtc step (idle q0) (mkState q3 {[1%nat := guard]}).
Proof.
  apply (rtc_l _ _ (mkState q1 ∅)).
  { apply (step_register (idle q0) bell w0); [by split_and!|done|vm_compute; reflexivity]. }
  apply (rtc_l _ _ (mkState q2 ∅)).
  { eapply (step_trigger (mkState q1 ∅) (-1) w0). vm_compute. reflexivity. }
  apply rtc_once. eapply (step_wait (mkState q2 ∅) 1%nat guard (Kqueue.WaitOk guard) w0 q3).
  - reflexivity.
  - vm_compute. reflexivity.
  - by left.
Qed.

Lemma kqueue_handlers_live_and_exclusive_witness : exists ev, boxes q3 !! guard = Some ev /\
  forall w, Kqueue.guard_handler guard q3 w = Ok (handler ev) q3 w.
Proof.
  destruct (kqueue_handlers_live_and_exclusive w0 q0 (mkWorld 0 0 0 8) _ kq_opened kq_run 1%nat guard eq_refl)
    as (ev & Hb & Hh & _). exists ev. exact (conj Hb Hh).
Defined.

(** A socket with descriptor 5, and another one later that gets the number 5. *)
Definition q4 : Kqueue.EventPoll Kernel nat := after (Kqueue.new_event 5 50%nat q0 w0) q0.
Definition q5 : Kqueue.EventPoll Kernel nat := after (Kqueue.new_event 5 60%nat q4 w0) q4.

Lemma q4_sound : sound q4.
Proof.
  apply (g_sound (mkState q4 ∅)). eapply (kq_step_good (idle q0)); [|by eapply kq_new_good, kq_opened].
  eapply (step_register (idle q0) (Kqueue.mkEvent (mkKevent 5 EVFILT_READ (Z.lor EV_ENABLE EV_DISPATCH) 0 0 0) 50%nat FD) w0);
    [by split_and!|done|vm_compute; reflexivity].
Qed.

Lemma reregistered_event_is_lost_witness :
  (exists w, Kqueue.new_event 5 60%nat q4 w0 = Ok 5 q5 w) /\ note (kernel q5) (5, EVFILT_READ) = None.
Proof.
  assert (E : Kqueue.new_event 5 60%nat q4 w0 = Ok 5 q5 (mkWorld 0 0 0 9)) by (vm_compute; reflexivity).
  split; [by eexists|].
  destruct (reregistered_event_is_lost q4 5 60%nat w0 5 q5 _ q4_sound ltac:(lia) E) as (_ & a & ev & _ & _ & _ & Hno & _).
  rewrite Hno. vm_compute. reflexivity.
Defined.

(** Nothing is ever reported of the second socket, whatever arrives. *)
Lemma second_socket_silent : exists q w, Kqueue.wait (arrive 5 q5) w0 = Ok Kqueue.WaitError q w.
Proof. eexists _, _. vm_compute. reflexivity. Qed.
End Example.
