(* ===== verification/Handlers.v ===== *)
(** * The device's event loop: [device/mod.rs]

    The device with its event queue, and the closures it registers there: the
    handlers of the listening sockets, of connected sockets, of the interface, of
    the timers and the notices ([Api] has those of the configuration, [EventLoop]
    runs them).  A closure is a value of [Handler], the datagrams that a handler
    finds waiting are its input, and what it sends is appended to [sent]. *)

From S2P Require Import Prelude Packet Crypto Session Instant Handshake RateLimiter Timers Tunnel.
From S2P Require Import AllowedIps Peer Device Epoll.

Definition MAX_UDP_SIZE : nat := Z.to_nat (2 ^ 16 - 1).
Definition MAX_ITR : nat := 100.

Inductive Action := Continue | Yield | Exit.

(** What the handlers write: [udp.send_to], [udp.send] or [conn.write] on a
    connected socket, [iface.write4] or [write6], and the answer to a request of the
    configuration.  Their errors are ignored. *)
Inductive Output :=
| SendTo (udp : Socket) (packet : bytes) (addr : SocketAddr)
| Send (conn : Socket) (packet : bytes)
| WriteTun (packet : bytes)
| Reply (answer : bytes).

(** The closures, with what they capture. *)
Inductive Handler :=
| HYield
| HExit
| HLimiter
| HTimers
| HUdp (udp : Socket)
| HConn (peer : nat) (udp : Socket) (peer_addr : IpAddr)
| HIface (iface : Socket)
| HApi (listener : Socket)
| HApiFd (fd : Socket)
| HMonitor
| HSignal.

(** What [TunSocket::read] returns: a packet, an error of the system call, which may
    be [Interrupted] or [WouldBlock], or another error. *)
Inductive Read :=
| ReadPacket (src : bytes)
| IfaceRead (again : bool)
| ReadError.

Section Handlers.
Context `{Features, Crypto, Env, IpNetworkTable, Os} {K : Type} `{Epoll K}.

Record Machine := mkMachine {
  sys : System;
  queue : EventPoll K Handler;
  yield_notice : option nat;
  exit_notice : option nat;
  sent : list Output;
}.

Abbreviation MM := (M Error Machine).

(** A method of the tables, which has no error result, and one of the queue. *)
Definition in_sys {A} (m : M WireGuardError System A) : MM A := fun s w =>
  match m (sys s) w with
  | Ok a x w => Ok a (mkMachine x (queue s) (yield_notice s) (exit_notice s) (sent s)) w
  | Fail _ _ _ | Panic => Panic
  end.
Definition in_queue {A} (m : M Error (EventPoll K Handler) A) : MM A :=
  zoom queue (fun q s => mkMachine (sys s) q (yield_notice s) (exit_notice s) (sent s)) m.
Definition emit (o : Output) : MM unit :=
  modify (fun s => mkMachine (sys s) (queue s) (yield_notice s) (exit_notice s) (sent s ++ [o])).
Definition the_device : MM Device := s <- get;; ret (device (sys s)).
Definition on_device (f : Device -> Device) : MM unit := in_sys (in_device (modify f)).
Definition peer_at (a : nat) : MM Peer := s <- get;; unwrap (store (sys s) !! a).

(** [r.unwrap()] *)
Definition unwrapped {A} (m : MM A) : MM A :=
  r <- attempt m;; match r with inl a => ret a | inr _ => panic end.

(** ** Registering *)

Definition register_notifiers : MM unit :=
  yield_ev <- in_queue (new_notifier HYield);;
  modify (fun s => mkMachine (sys s) (queue s) (Some yield_ev) (exit_notice s) (sent s));;
  exit_ev <- in_queue (new_notifier HExit);;
  modify (fun s => mkMachine (sys s) (queue s) (yield_notice s) (Some exit_ev) (sent s)).

Definition register_timers : MM unit :=
  in_queue (new_periodic_event HLimiter 1000000000);;
  in_queue (new_periodic_event HTimers 250000000);;
  ret tt.

Definition trigger_yield : MM unit :=
  s <- get;; n <- unwrap (yield_notice s);; in_queue (trigger_notification n).
Definition trigger_exit : MM unit :=
  s <- get;; n <- unwrap (exit_notice s);; in_queue (trigger_notification n).
Definition cancel_yield : MM unit :=
  s <- get;; n <- unwrap (yield_notice s);; in_queue (stop_notification n).

Definition register_udp_handler (udp : Socket) : MM unit :=
  in_queue (new_event udp (HUdp udp));; ret tt.
Definition register_conn_handler (peer : nat) (udp : Socket) (peer_addr : IpAddr) : MM unit :=
  in_queue (new_event udp (HConn peer udp peer_addr));; ret tt.
Definition register_iface_handler (iface : Socket) : MM unit :=
  in_queue (new_event iface (HIface iface));; ret tt.

(** ** Sockets *)

(** A listening socket is taken out of the device and of the queue.  It is closed
    afterwards, when it is in no list of the queue. *)
Definition take_listener (get_sock : Device -> option Socket) (set_sock : option Socket -> Device -> Device) :
  MM unit :=
  d <- the_device;;
  match get_sock d with
  | Some s => on_device (set_sock None);; in_queue (clear_event_by_fd s)
  | None => ret tt
  end.

Definition bound_socket (v4 : bool) (port : Z) : MM Socket :=
  opened <- syscall (fun n => open_bound n (unspecified v4 port));;
  match opened with inl s => ret s | inr e => fail e end.

Definition cloned (s : Socket) : MM Socket := c <- syscall (fun n => try_clone n s);; unwrap c.

Definition open_listen_socket (port : Z) : MM unit :=
  take_listener udp4 set_udp4;;
  take_listener udp6 set_udp6;;
  d <- the_device;;
  for_each (fun a => in_sys (lock a shutdown_endpoint)) (snd <$> map_to_list (peers d));;
  udp_sock4 <- bound_socket true port;;
  port <- (if port =? 0 then p <- syscall (fun n => local_port n udp_sock4);; ok_or IoError p else ret port);;
  udp_sock6 <- bound_socket false port;;
  clone4 <- cloned udp_sock4;;
  register_udp_handler clone4;;
  clone6 <- cloned udp_sock6;;
  register_udp_handler clone6;;
  on_device (set_udp4 (Some udp_sock4));;
  on_device (set_udp6 (Some udp_sock6));;
  on_device (set_listen_port port).

(** [sock.set_mark(mark)?] for a socket that may be there *)
Definition mark_socket (mark : Z) (s : option Socket) : MM unit :=
  match s with
  | Some s => done <- syscall (fun n => set_mark n s mark);; if done : bool then ret tt else fail IoError
  | None => ret tt
  end.

Definition set_fwmark (mark : Z) : MM unit :=
  on_device (set_dev_fwmark (Some mark));;
  d <- the_device;;
  mark_socket mark (udp4 d);;
  mark_socket mark (udp6 d);;
  for_each (fun a => p <- peer_at a;; mark_socket mark (ep_conn (endpoint p))) (snd <$> map_to_list (peers d)).

(** ** Handlers

    [dst_buf] is the buffer of the thread; the methods of a tunnel write what
    they return of it. *)

Section Bodies.
Variable dst_buf : bytes.

(** [t.iface.write4(packet)] if the packet's source is allowed. *)
Definition to_interface (a : nat) (src : IpAddr) (packet : bytes) : MM unit :=
  p <- peer_at a;;
  if is_allowed_ip src p then emit (WriteTun packet) else ret tt.

(** [while let WriteToNetwork(packet) = p.tunnel.decapsulate(None, &[], ..)] *)
Fixpoint flush_loop (fuel : nat) (send : bytes -> Output) (a : nat) : MM unit :=
  match fuel with
  | O => panic
  | S fuel =>
      r <- in_sys (with_tunnel a (decapsulate None [] dst_buf));;
      match r with
      | WriteToNetwork packet => emit (send packet);; flush_loop fuel send a
      | _ => ret tt
      end
  end.
Definition flush_queue : (bytes -> Output) -> nat -> MM unit := flush_loop (MAX_QUEUE_DEPTH + 2).

(** The part that the handlers of both kinds of socket share: what becomes of a
    result that is not an error. *)
Definition handle_result (send : bytes -> Output) (a : nat) (r : TunnResult) : MM unit :=
  match r with
  | Done | Err _ => ret tt
  | WriteToNetwork packet => emit (send packet);; flush_queue send a
  | WriteToTunnelV4 packet addr => to_interface a (IpV4 addr) packet
  | WriteToTunnelV6 packet addr => to_interface a (IpV6 addr) packet
  end.

(** [rate_limiter.verify_packet] of the device's limiter. *)
Definition verify (limiter : nat) (addr : IpAddr) (packet : bytes) : MM (Packet + TunnResult) :=
  in_sys (in_limiters (fun heap w =>
    match heap !! limiter with
    | None => Panic
    | Some l => zoom (fun _ => l) (fun l heap => <[limiter := l]> heap)
                  (attempt (verify_packet (Some addr) packet dst_buf)) heap w
    end)).

(** The packet was accepted: its source becomes the endpoint, and a socket is
    connected to it. *)
Definition roam (peer : nat) (addr : SocketAddr) : MM unit :=
  in_sys (lock peer (set_endpoint addr));;
  d <- the_device;;
  if use_connected_socket (config d) then
    conn <- in_sys (lock peer (attempt (connect_endpoint (listen_port d) (dev_fwmark d))));;
    match conn with
    | inl sock => unwrapped (register_conn_handler peer sock (ip addr))
    | inr _ => ret tt
    end
  else ret tt.

(** One datagram of a listening socket; [true] when the body of the loop reaches its
    end, where [iter] is counted down. *)
Definition udp_packet (udp : Socket) (private_key public_key : bytes) (limiter : nat) (packet : bytes)
  (addr : SocketAddr) : MM bool :=
  verdict <- verify limiter (ip addr) packet;;
  match verdict with
  | inr (WriteToNetwork cookie) => emit (SendTo udp cookie addr);; ret false
  | inr _ => ret false
  | inl parsed_packet =>
      peer <- (fun s w => Ok (peer_of_packet private_key public_key parsed_packet (device (sys s)) w) s w);;
      match peer with
      | None => ret false
      | Some peer =>
          r <- in_sys (with_tunnel peer (in_tunn (handle_verified_packet parsed_packet dst_buf)));;
          match r with
          | Err _ => ret false
          | r =>
              handle_result (fun packet => SendTo udp packet addr) peer r;;
              roam peer addr;;
              ret true
          end
      end
  end.

(** [while let Ok((packet_len, addr)) = udp.recv_from(src_buf)]: the datagrams that
    are left when the loop ends. *)
Fixpoint udp_loop (iter : nat) (udp : Socket) (private_key public_key : bytes) (limiter : nat)
  (inbox : list (bytes * SocketAddr)) : MM (list (bytes * SocketAddr)) :=
  match inbox with
  | [] => ret []
  | (datagram, addr) :: rest =>
      counted <- udp_packet udp private_key public_key limiter (take MAX_UDP_SIZE datagram) addr;;
      let iter := if counted : bool then (iter - 1)%nat else iter in
      if counted && (iter =? 0)%nat then ret rest
      else udp_loop iter udp private_key public_key limiter rest
  end.

Definition udp_handler (udp : Socket) (inbox : list (bytes * SocketAddr)) :
  MM (Action * list (bytes * SocketAddr)) :=
  d <- the_device;;
  '(private_key, public_key) <- unwrap (key_pair d);;
  limiter <- unwrap (dev_rate_limiter d);;
  rest <- udp_loop MAX_ITR udp private_key public_key limiter inbox;;
  ret (Continue, rest).

Fixpoint conn_loop (iter : nat) (peer : nat) (udp : Socket) (peer_addr : IpAddr) (inbox : list bytes) :
  MM (list bytes) :=
  match inbox with
  | [] => ret []
  | datagram :: rest =>
      r <- in_sys (with_tunnel peer (decapsulate (Some peer_addr) (take MAX_UDP_SIZE datagram) dst_buf));;
      handle_result (Send udp) peer r;;
      let iter := (iter - 1)%nat in
      if (iter =? 0)%nat then ret rest else conn_loop iter peer udp peer_addr rest
  end.

Definition conn_handler (peer : nat) (udp : Socket) (peer_addr : IpAddr) (inbox : list bytes) :
  MM (Action * list bytes) :=
  rest <- conn_loop MAX_ITR peer udp peer_addr inbox;;
  ret (Continue, rest).

(** The socket of the address's family. *)
Definition send_from (udp4 udp6 : Socket) (packet : bytes) (addr : SocketAddr) : MM unit :=
  emit (SendTo (if is_ipv4 addr then udp4 else udp6) packet addr).

(** A packet that was read from the interface. *)
Definition iface_packet (udp4 udp6 : Socket) (src : bytes) : MM unit :=
  d <- the_device;;
  match peer_of_destination src d with
  | None => ret tt
  | Some a =>
      r <- in_sys (with_tunnel a (in_tunn (encapsulate src dst_buf)));;
      match r with
      | Done | Err _ => ret tt
      | WriteToNetwork packet =>
          p <- peer_at a;;
          match ep_conn (endpoint p) with
          | Some conn => emit (Send conn packet)
          | None =>
              match ep_addr (endpoint p) with
              | Some addr => send_from udp4 udp6 packet addr
              | None => ret tt
              end
          end
      | _ => panic
      end
  end.

(** [for _ in 0..MAX_ITR]; a read that finds nothing is [WouldBlock]. *)
Fixpoint iface_loop (n : nat) (mtu : nat) (udp4 udp6 : Socket) (reads : list Read) : MM (Action * list Read) :=
  match n, reads with
  | O, reads => ret (Continue, reads)
  | S _, [] => ret (Continue, [])
  | S _, IfaceRead true :: rest => ret (Continue, rest)
  | S _, IfaceRead false :: rest | S _, ReadError :: rest => ret (Exit, rest)
  | S n, ReadPacket src :: rest =>
      iface_packet udp4 udp6 (take mtu src);;
      iface_loop n mtu udp4 udp6 rest
  end.

(** [&mut t.src_buf[..mtu]] must be in range as soon as something is read. *)
Definition iface_handler (reads : list Read) : MM (Action * list Read) :=
  d <- the_device;;
  let mtu := Z.to_nat (mtu d) in
  udp4 <- unwrap (udp4 d);;
  udp6 <- unwrap (udp6 d);;
  if (MAX_UDP_SIZE <? mtu)%nat then panic else
  iface_loop MAX_ITR mtu udp4 udp6 reads.

Definition limiter_handler : MM Action :=
  d <- the_device;;
  match dev_rate_limiter d with
  | Some r => in_sys (in_limiters (fun heap w =>
      match heap !! r with
      | None => Panic
      | Some l => zoom (fun _ => l) (fun l heap => <[r := l]> heap) reset_count heap w
      end))
  | None => ret tt
  end;;
  ret Continue.

(** The timed function of one peer. *)
Definition peer_timers (udp4 udp6 : Socket) (a : nat) : MM unit :=
  p <- peer_at a;;
  match ep_addr (endpoint p) with
  | None => ret tt
  | Some endpoint_addr =>
      r <- in_sys (with_tunnel a (update_timers dst_buf));;
      match r with
      | Done => ret tt
      | Err ConnectionExpired => in_sys (lock a shutdown_endpoint)
      | Err _ => ret tt
      | WriteToNetwork packet => send_from udp4 udp6 packet endpoint_addr
      | _ => panic
      end
  end.

Definition timers_handler : MM Action :=
  d <- the_device;;
  match udp4 d, udp6 d with
  | Some udp4, Some udp6 =>
      for_each (peer_timers udp4 udp6) (snd <$> map_to_list (peers d));;
      ret Continue
  | _, _ => ret Continue
  end.
End Bodies.
End Handlers.
