(* ===== verification/Api.v ===== *)
(** * The configuration protocol: [device/api.rs]

    The text protocol on the Unix socket: [get=1] prints the configuration,
    [set=1] reads lines of [key=value] and changes the device, peers in sections
    that begin with [public_key].  A request is what its stream holds
    ([Text.Reader]); the answer is text. *)

From Stdlib Require Import Strings.String.
From S2P Require Import Prelude Packet Crypto Session Instant Handshake RateLimiter Timers Tunnel KeyBytes.
From S2P Require Import Stats AllowedIps Text Base64 Peer Device Epoll Handlers.

(** The error numbers of [libc]. *)
Definition EIO : Z := 5.
Definition EINVAL : Z := 22.
Definition EPROTO : Z := 71.
Definition EADDRINUSE : Z := 98.
Definition SIGINT : Z := 2.
Definition SIGTERM : Z := 15.

(** [UnixListener::bind] to the socket's path, after the path was made from the
    interface's name. *)
Class UnixSockets := { bind_listener : nat -> Socket + Error }.

(** The key of a line, compared with a literal. *)
Definition is_key (key : bytes) (name : string) : bool := bool_decide (key = str name).
Arguments is_key key name%_string_scope.

(** The local variables of [api_set_peer]. *)
Record Settings := mkSettings {
  s_remove : bool;
  s_replace_ips : bool;
  s_endpoint : option SocketAddr;
  s_keepalive : option Z;
  s_public_key : bytes;
  s_preshared_key : option bytes;
  s_allowed_ips : list AllowedIP;
}.
Definition new_settings (pub_key : bytes) : Settings := mkSettings false false None None pub_key None [].

Definition set_remove x s := mkSettings x (s_replace_ips s) (s_endpoint s) (s_keepalive s) (s_public_key s)
  (s_preshared_key s) (s_allowed_ips s).
Definition set_replace_ips x s := mkSettings (s_remove s) x (s_endpoint s) (s_keepalive s) (s_public_key s)
  (s_preshared_key s) (s_allowed_ips s).
Definition set_peer_endpoint x s := mkSettings (s_remove s) (s_replace_ips s) x (s_keepalive s) (s_public_key s)
  (s_preshared_key s) (s_allowed_ips s).
Definition set_keepalive x s := mkSettings (s_remove s) (s_replace_ips s) (s_endpoint s) x (s_public_key s)
  (s_preshared_key s) (s_allowed_ips s).
Definition set_public_key x s := mkSettings (s_remove s) (s_replace_ips s) (s_endpoint s) (s_keepalive s) x
  (s_preshared_key s) (s_allowed_ips s).
Definition set_psk x s := mkSettings (s_remove s) (s_replace_ips s) (s_endpoint s) (s_keepalive s) (s_public_key s) x
  (s_allowed_ips s).
Definition set_ips x s := mkSettings (s_remove s) (s_replace_ips s) (s_endpoint s) (s_keepalive s) (s_public_key s)
  (s_preshared_key s) x.

(** A line of output, [writeln!(writer, "key={}", value)]. *)
Definition line (key : string) (value : bytes) : bytes := str key ++ str "=" ++ value ++ newline.
Arguments line key%_string_scope value.
Definition line_opt {A} (key : string) (print : A -> bytes) (o : option A) : bytes :=
  match o with Some x => line key (print x) | None => [] end.
Arguments line_opt {A} key%_string_scope print o.

Definition show_network (n : IpAddr * Z) : bytes := show_ip n.1 ++ str "/" ++ show n.2.

Section Api.
Context `{Features, Crypto, Env, IpNetworkTable, Os, Base64, UnixSockets} {K : Type} `{Epoll K}.
Abbreviation MM := (M Error (Machine (K:=K))).

(** ** [get] *)

(** The lines of a peer that can be read back, and those that tell of its use. *)
Definition settings_text (k : bytes) (p : Peer) : bytes :=
  line "public_key" (encode_hex k) ++
  line_opt "preshared_key" encode_hex (preshared_key p) ++
  line_opt "persistent_keepalive_interval" show (peer_persistent_keepalive p) ++
  line_opt "endpoint" show_socket_addr (ep_addr (endpoint p)) ++
  concat ((fun n => line "allowed_ip" (show_network n)) <$> allowed_networks p).

Definition use_text (time : option Z) (rx tx : Z) : bytes :=
  match time with
  | Some t => line "last_handshake_time_sec" (show (t / 10 ^ 9)) ++
      line "last_handshake_time_nsec" (show (t mod 10 ^ 9))
  | None => []
  end ++ line "rx_bytes" (show rx) ++ line "tx_bytes" (show tx).

Definition peer_text (k : bytes) (a : nat) : MM bytes :=
  p <- peer_at a;;
  time <- in_sys (lock a peer_time_since_last_handshake);;
  '(_, tx, rx, _, _) <- in_sys (lock a (zoom tunnel set_tunnel stats));;
  ret (settings_text k p ++ use_text time rx tx).

Fixpoint peers_text (l : list (bytes * nat)) : MM bytes :=
  match l with
  | [] => ret []
  | (k, a) :: l => text <- peer_text k a;; rest <- peers_text l;; ret (text ++ rest)
  end.

(** The status and what was written; the peers come in the order of the map. *)
Definition api_get : MM (Z * bytes) :=
  d <- the_device;;
  let head := line_opt "own_public_key" (fun k => encode_hex k.2) (key_pair d) ++
    (if listen_port d =? 0 then [] else line "listen_port" (show (listen_port d))) ++
    line_opt "fwmark" show (dev_fwmark d) in
  text <- peers_text (map_to_list (peers d));;
  ret (0, head ++ text).

(** ** [set] *)

(** [val.parse::<KeyBytes>()]; the error is not looked at. *)
Definition parse_key (val : bytes) : MM (option bytes) :=
  r <- attempt (from_str base64_decode val);;
  ret (match r with inl key_bytes => Some key_bytes | inr _ => None end).

(** Both [update_peer] calls of [api_set_peer]. *)
Definition commit (s : Settings) : MM unit :=
  in_sys (update_peer (s_public_key s) (s_remove s) (s_replace_ips s) (s_endpoint s) (s_allowed_ips s)
    (s_keepalive s) (s_preshared_key s)).

(** A line of a peer's section: the section goes on, or the request ends. *)
Definition peer_line (key val : bytes) (s : Settings) : MM (Settings + Z) :=
  let or_invalid {A} (o : option A) (f : A -> Settings) : MM (Settings + Z) :=
    ret (match o with Some x => inl (f x) | None => inr EINVAL end) in
  if is_key key "remove" then or_invalid (parse_bool val) (fun b => set_remove b s)
  else if is_key key "preshared_key" then
    k <- parse_key val;; or_invalid k (fun k => set_psk (Some k) s)
  else if is_key key "endpoint" then or_invalid (parse_socket_addr val) (fun a => set_peer_endpoint (Some a) s)
  else if is_key key "persistent_keepalive_interval" then
    or_invalid (parse_uint 16 val) (fun i => set_keepalive (Some i) s)
  else if is_key key "replace_allowed_ips" then or_invalid (parse_bool val) (fun b => set_replace_ips b s)
  else if is_key key "allowed_ip" then
    or_invalid (allowed_ip_from_str val) (fun i => set_ips (s_allowed_ips s ++ [i]) s)
  else if is_key key "public_key" then
    commit s;;
    k <- parse_key val;;
    or_invalid k (fun k => set_public_key k (set_ips [] s))
  else if is_key key "protocol_version" then
    ret (match parse_uint 32 val with Some 1 => inl s | _ => inr EINVAL end)
  else ret (inr EINVAL).

(** [api_set_peer].  Every line but an empty one takes a byte, so that as many turns as
    there are bytes are enough; the result is the status. *)
Fixpoint api_set_peer (fuel : nat) (s : Settings) (reader : Reader) : MM Z :=
  match read_line reader with
  | (None, _) => ret 0
  | (Some cmd, reader) =>
      let cmd := pop cmd in
      if bool_decide (cmd = []) then commit s;; ret 0 else
      match splitn2 61 cmd with
      | [key; val] =>
          next <- peer_line key val s;;
          match next, fuel with
          | inr errno, _ => ret errno
          | inl _, O => panic
          | inl s, S fuel => api_set_peer fuel s reader
          end
      | _ => ret EPROTO
      end
  end.

(** A line outside of the sections: the next line, the end, or a first section. *)
Inductive Line := NextLine | Return (errno : Z) | NewPeer (pub_key : bytes).

Definition set_line (key val : bytes) : MM Line :=
  if is_key key "private_key" then
    k <- parse_key val;;
    match k with
    | Some k => in_sys (set_key k);; ret NextLine
    | None => ret (Return EINVAL)
    end
  else if is_key key "listen_port" then
    match parse_uint 16 val with
    | Some port =>
        r <- attempt (open_listen_socket port);;
        ret (match r with inl _ => NextLine | inr _ => Return EADDRINUSE end)
    | None => ret (Return EINVAL)
    end
  else if is_key key "fwmark" then
    match parse_uint 32 val with
    | Some mark =>
        r <- attempt (set_fwmark mark);;
        ret (match r with inl _ => NextLine | inr _ => Return EADDRINUSE end)
    | None => ret (Return EINVAL)
    end
  else if is_key key "replace_peers" then
    match parse_bool val with
    | Some true => in_sys clear_peers;; ret NextLine
    | Some false => ret NextLine
    | None => ret (Return EINVAL)
    end
  else if is_key key "public_key" then
    k <- parse_key val;;
    ret (match k with Some k => NewPeer k | None => Return EINVAL end)
  else ret (Return EINVAL).

Fixpoint set_loop (fuel : nat) (reader : Reader) : MM Z :=
  match read_line reader with
  | (None, _) => ret 0
  | (Some cmd, reader) =>
      let cmd := pop cmd in
      if bool_decide (cmd = []) then ret 0 else
      match split 61 cmd with
      | [key; val] =>
          next <- set_line key val;;
          match next, fuel with
          | Return errno, _ => ret errno
          | NewPeer k, _ => api_set_peer (length (input reader)) (new_settings k) reader
          | NextLine, O => panic
          | NextLine, S fuel => set_loop fuel reader
          end
      | _ => ret EPROTO
      end
  end.

(** [api_set]: [try_writeable] runs its first argument, and the second with the
    exclusive lock; it always returns [Some] (see [DevLock]). *)
Definition api_set (reader : Reader) : MM Z :=
  trigger_yield;;
  cancel_yield;;
  set_loop (length (input reader)) reader.

(** ** The handlers *)

(** A request; [None] if its first line cannot be read. *)
Definition api_request (reader : Reader) : MM (option bytes) :=
  match read_line reader with
  | (None, _) => ret None
  | (Some cmd, reader) =>
      let cmd := pop cmd in
      '(status, text) <- (if bool_decide (cmd = str "get=1") then api_get
                          else if bool_decide (cmd = str "set=1") then status <- api_set reader;; ret (status, [])
                          else ret (EIO, []));;
      ret (Some (text ++ str "errno=" ++ show status ++ newline ++ newline))
  end.

(** The listener's closure, on the connection it accepts if any. *)
Definition api_handler (conn : option Reader) : MM Action :=
  match conn with
  | None => ret Continue
  | Some reader =>
      r <- api_request reader;;
      match r with
      | Some answer => emit (Reply answer);; ret Continue
      | None => ret Continue
      end
  end.

Definition api_fd_handler (reader : Reader) : MM Action :=
  r <- api_request reader;;
  match r with
  | Some answer => emit (Reply answer);; ret Continue
  | None => trigger_exit;; ret Exit
  end.

Definition monitor_handler (path_exists : bool) (iface_mtu : option Z) : MM Action :=
  if negb path_exists then trigger_exit;; ret Exit
  else match iface_mtu with
       | Some mtu => on_device (set_mtu mtu);; ret Continue
       | None => ret Continue
       end.

(** ** Registering *)

Definition register_monitor : MM unit := in_queue (new_periodic_event HMonitor 1000000000);; ret tt.
Definition register_api_signal_handlers : MM unit :=
  in_queue (new_signal_event SIGINT HSignal);;
  in_queue (new_signal_event SIGTERM HSignal);;
  ret tt.

Definition register_api_handler : MM unit :=
  bound <- syscall bind_listener;;
  match bound with
  | inr e => fail e
  | inl api_listener =>
      in_queue (new_event api_listener (HApi api_listener));;
      register_monitor;;
      register_api_signal_handlers
  end.

Definition register_api_fd (fd : Socket) : MM unit := in_queue (new_event fd (HApiFd fd));; ret tt.

(** The end of [Device::new]: the handlers of a new device. *)
Definition register_all (iface : Socket) : MM unit :=
  d <- the_device;;
  (if 0 <=? uapi_fd (config d) then register_api_fd (Z.to_nat (uapi_fd (config d))) else register_api_handler);;
  register_iface_handler iface;;
  register_notifiers;;
  register_timers.
End Api.
