(* ===== verification/Ffi.v ===== *)
(** * The C interface and the Java interface over it: [ffi/mod.rs], [jni.rs]

    A caller outside Rust holds tunnels and strings by raw pointers.  [Library] is
    what it was handed: the boxes of tunnels with their limiters and the
    C strings, by address.  A null pointer where the code unwraps is a panic;
    a pointer that is not (or no longer) owned and a slice longer than its
    memory are undefined behaviour, which is the error [Undefined]. *)

From Stdlib Require Import Floats.SpecFloat.
From S2P Require Import Prelude Packet Crypto Session Instant Handshake RateLimiter Timers Tunnel Stats.
From S2P Require Import KeyBytes Text Base64.

(** ** Results *)

Inductive result_type :=
| WIREGUARD_DONE
| WRITE_TO_NETWORK
| WIREGUARD_ERROR
| WRITE_TO_TUNNEL_IPV4
| WRITE_TO_TUNNEL_IPV6.

(** [op as u8] *)
Definition op_code (op : result_type) : Z :=
  match op with
  | WIREGUARD_DONE => 0
  | WRITE_TO_NETWORK => 1
  | WIREGUARD_ERROR => 2
  | WRITE_TO_TUNNEL_IPV4 => 4
  | WRITE_TO_TUNNEL_IPV6 => 6
  end.

Record wireguard_result := mkResult { op : result_type; size : Z }.

(** [e as usize] *)
Definition error_code (e : WireGuardError) : Z :=
  match e with
  | DestinationBufferTooSmall => 0
  | IncorrectPacketLength => 1
  | UnexpectedPacket => 2
  | WrongPacketType => 3
  | WrongIndex => 4
  | WrongKey => 5
  | InvalidTai64nTimestamp => 6
  | WrongTai64nTimestamp => 7
  | InvalidMac => 8
  | InvalidAeadTag => 9
  | InvalidCounter => 10
  | DuplicateCounter => 11
  | InvalidPacket => 12
  | NoCurrentSession => 13
  | LockFailed => 14
  | ConnectionExpired => 15
  | UnderLoad => 16
  | MlKemDecapsulationFailed => 17
  end.

(** [From<TunnResult> for wireguard_result] *)
Definition from (res : TunnResult) : wireguard_result :=
  match res with
  | Done => mkResult WIREGUARD_DONE 0
  | Err e => mkResult WIREGUARD_ERROR (error_code e)
  | WriteToNetwork b => mkResult WRITE_TO_NETWORK (Z.of_nat (length b))
  | WriteToTunnelV4 b _ => mkResult WRITE_TO_TUNNEL_IPV4 (Z.of_nat (length b))
  | WriteToTunnelV6 b _ => mkResult WRITE_TO_TUNNEL_IPV6 (Z.of_nat (length b))
  end.

(** The slice of a result is the head of the caller's buffer. *)
Definition written (res : TunnResult) : bytes :=
  match res with
  | Done | Err _ => []
  | WriteToNetwork b | WriteToTunnelV4 b _ | WriteToTunnelV6 b _ => b
  end.

(** [x as i32] and [x as i64] *)
Definition i32 (z : Z) : Z := (z + 2 ^ 31) mod 2 ^ 32 - 2 ^ 31.
Definition i64 (z : Z) : Z := (z + 2 ^ 63) mod 2 ^ 64 - 2 ^ 63.

Record ffi_stats := mkStats {
  st_time_since_last_handshake : Z;
  st_tx_bytes : Z;
  st_rx_bytes : Z;
  st_estimated_loss : spec_float;
  st_estimated_rtt : Z;
}.

(** ** What the caller holds *)

Inductive Fault := Undefined.

Record Library := mkLibrary {
  tunnels : gmap nat Tunn;
  limiters : gmap nat RateLimiter;
  strings : gmap nat bytes;
  panic_hook : bool;
}.

Abbreviation pointer := (option nat).

Section Ffi.
Context `{Features, Crypto, Env, Base64}.
Abbreviation LM := (M Fault Library).

(** ** Keys *)

Definition x25519_secret_key : LM bytes := stream <- draw;; ret (fill_bytes 32 stream).

Definition x25519_public_key (private_key : bytes) : bytes := x25519_public private_key.

(** [CString::into_raw(CString::new(s).unwrap())]: text with a zero byte has no
    C string. *)
Definition into_raw (s : bytes) : LM pointer :=
  if bool_decide (byte.of_Z 0 ∈ s) then panic else
  self <- get;;
  let a := fresh (dom (strings self)) in
  modify (fun l => mkLibrary (tunnels l) (limiters l) (<[a := s]> (strings l)) (panic_hook l));;
  ret (Some a).

Definition x25519_key_to_base64 (key : bytes) : LM pointer := into_raw (base64_encode key).
Definition x25519_key_to_hex (key : bytes) : LM pointer := into_raw (encode_hex key).

(** [CStr::from_ptr] on a string that the library handed out *)
Definition c_str (p : pointer) : LM bytes :=
  self <- get;;
  match p ≫= fun a => strings self !! a with Some s => ret s | None => fail Undefined end.

Definition x25519_key_to_str_free (p : pointer) : LM unit :=
  c_str p;;
  modify (fun l => mkLibrary (tunnels l) (limiters l) (from_option (fun a => delete a (strings l)) (strings l) p)
    (panic_hook l)).

(** [CStr::to_str] *)
Definition to_str (s : bytes) : option bytes := if is_utf8 s then Some s else None.

Definition check_base64_encoded_x25519_key (key : bytes) : Z :=
  match to_str key with
  | None => 0
  | Some utf8_key =>
      match base64_decode utf8_key with
      | Some key =>
          let zero := foldl (fun zero b => Z.lor zero (byte.unsigned b)) 0 key in
          if (length key =? 32)%nat && negb (zero =? 0) then 1 else 0
      | None => 0
      end
  end.

(** ** Tunnels *)

(** [string.parse::<KeyBytes>().ok()] *)
Definition parse_key (s : bytes) : LM (option bytes) :=
  r <- attempt (from_str base64_decode s);;
  ret (match r with inl key => Some key | inr _ => None end).

(** The argument [preshared_key], which may be null: [None] is a refusal. *)
Definition parse_preshared (preshared_key : option bytes) : LM (option (option bytes)) :=
  match preshared_key with
  | None => ret (Some None)
  | Some c_str =>
      match to_str c_str with
      | Some string => key <- parse_key string;; ret (Some <$> key)
      | None => ret None
      end
  end.

(** [Tunn::new], which has no error result, in a box of its own. *)
Definition box_tunnel (private_key public_key : bytes) (preshared_key : option bytes) (keep_alive : option Z)
  (index : Z) : LM pointer := fun s w =>
  match Tunnel.new private_key public_key preshared_key keep_alive index None (limiters s) w with
  | Ok t lims w =>
      let h := fresh (dom (tunnels s)) in
      Ok (Some h) (mkLibrary (<[h := t]> (tunnels s)) lims (strings s) true) w
  | Fail _ _ _ | Panic => Panic
  end.

Definition new_tunnel (static_private server_static_public : bytes) (preshared_key : option bytes)
  (keep_alive index : Z) : LM pointer :=
  match to_str static_private, to_str server_static_public with
  | None, _ | _, None => ret None
  | Some static_private, Some server_static_public =>
      preshared_key <- parse_preshared preshared_key;;
      match preshared_key with
      | None => ret None
      | Some preshared_key =>
          private_key <- parse_key static_private;;
          match private_key with
          | None => ret None
          | Some private_key =>
              public_key <- parse_key server_static_public;;
              match public_key with
              | None => ret None
              | Some public_key =>
                  let keep_alive := if keep_alive =? 0 then None else Some keep_alive in
                  box_tunnel private_key public_key preshared_key keep_alive index
              end
          end
      end
  end.

(** The box and with it the only reference to its limiter. *)
Definition tunnel_free (tunnel : pointer) : LM unit := fun s w =>
  match tunnel with
  | None => Fail Undefined s w
  | Some h =>
      match tunnels s !! h with
      | None => Fail Undefined s w
      | Some t => Ok tt (mkLibrary (delete h (tunnels s)) (delete (rate_limiter t) (limiters s)) (strings s)
          (panic_hook s)) w
      end
  end.

(** [tunnel.as_ref().unwrap().lock()] *)
Definition check_tunnel (tunnel : pointer) : LM nat :=
  h <- unwrap tunnel;;
  self <- get;;
  if bool_decide (is_Some (tunnels self !! h)) then ret h else fail Undefined.

(** A method of the locked tunnel, which has no error result. *)
Definition on_tunnel {A} (h : nat) (m : M WireGuardError Process A) : LM A := fun s w =>
  match tunnels s !! h with
  | None => Fail Undefined s w
  | Some t =>
      match m (mkProcess t (limiters s)) w with
      | Ok a p w => Ok a (mkLibrary (<[h := tunn p]> (tunnels s)) (heap p) (strings s) (panic_hook s)) w
      | Fail _ _ _ | Panic => Panic
      end
  end.

(** [slice::from_raw_parts(memory, size)] *)
Definition from_raw_parts (memory : bytes) (size : Z) : LM bytes :=
  if size <=? Z.of_nat (length memory) then ret (take (Z.to_nat size) memory) else fail Undefined.

(** The result of a method, and what the caller finds in its buffer. *)
Definition finish (res : TunnResult) : wireguard_result * bytes := (from res, written res).

Definition wireguard_write (tunnel : pointer) (src : bytes) (src_size : Z) (dst : bytes) (dst_size : Z) :
  LM (wireguard_result * bytes) :=
  h <- check_tunnel tunnel;;
  src <- from_raw_parts src src_size;;
  dst <- from_raw_parts dst dst_size;;
  res <- on_tunnel h (in_tunn (encapsulate src dst));;
  ret (finish res).

Definition wireguard_read (tunnel : pointer) (src : bytes) (src_size : Z) (dst : bytes) (dst_size : Z) :
  LM (wireguard_result * bytes) :=
  h <- check_tunnel tunnel;;
  src <- from_raw_parts src src_size;;
  dst <- from_raw_parts dst dst_size;;
  res <- on_tunnel h (decapsulate None src dst);;
  ret (finish res).

Definition wireguard_tick (tunnel : pointer) (dst : bytes) (dst_size : Z) : LM (wireguard_result * bytes) :=
  h <- check_tunnel tunnel;;
  dst <- from_raw_parts dst dst_size;;
  res <- on_tunnel h (update_timers dst);;
  ret (finish res).

Definition wireguard_force_handshake (tunnel : pointer) (dst : bytes) (dst_size : Z) :
  LM (wireguard_result * bytes) :=
  h <- check_tunnel tunnel;;
  dst <- from_raw_parts dst dst_size;;
  res <- on_tunnel h (in_tunn (format_handshake_initiation dst true));;
  ret (finish res).

Definition wireguard_stats (tunnel : pointer) : LM ffi_stats :=
  h <- check_tunnel tunnel;;
  '(time, tx_bytes, rx_bytes, estimated_loss, estimated_rtt) <- on_tunnel h (in_tunn stats);;
  ret (mkStats (from_option (fun t => i64 (t / NANOSECOND)) (-1) time) tx_bytes rx_bytes estimated_loss
    (from_option i32 (-1) estimated_rtt)).
End Ffi.

(** ** Java *)

(** Whether the virtual machine can allocate the array or string of a call. *)
Class Jvm := { allocates : nat -> bool }.

(** An array, string or direct buffer of Java is its bytes (of a string, its
    modified UTF-8); [None] is null, for a buffer also one that is not direct. *)
Abbreviation jobject := (option bytes).

Section Jni.
Context `{Features, Crypto, Env, Base64, Jvm}.
Abbreviation LM := (M Fault Library).

(** [byte_array_from_slice] and [new_string]; null for an error *)
Definition new_object (b : bytes) : LM jobject :=
  done <- syscall allocates;;
  ret (if done : bool then Some b else None).

(** [get_byte_array_region(array, 0, &mut [0; 32])] *)
Definition key_region (array : jobject) : option bytes :=
  b ← array; if (32 <=? length b)%nat then Some (take 32 b) else None.

Definition generate_secret_key : LM jobject := key <- x25519_secret_key;; new_object key.

Definition generate_public_key1 (arg_secret_key : jobject) : LM jobject :=
  match key_region arg_secret_key with
  | None => ret None
  | Some secret_key => new_object (x25519_public_key secret_key)
  end.

Definition convert_x25519_key_to_hex (arg_key : jobject) : LM jobject :=
  match key_region arg_key with
  | None => ret None
  | Some key => p <- x25519_key_to_hex key;; s <- c_str p;; new_object s
  end.

Definition convert_x25519_key_to_base64 (arg_key : jobject) : LM jobject :=
  match key_region arg_key with
  | None => ret None
  | Some key => p <- x25519_key_to_base64 key;; s <- c_str p;; new_object s
  end.

(** [get_string_utf_chars] *)
Definition utf_chars (string : jobject) : LM (option bytes) :=
  match string with None => ret None | Some s => new_object s end.

(** The handle as a [jlong]: [None] is zero. *)
Definition create_new_tunnel (arg_secret_key arg_public_key arg_preshared_key : jobject) (keep_alive index : Z) :
  LM pointer :=
  secret_key <- utf_chars arg_secret_key;;
  match secret_key with
  | None => ret None
  | Some secret_key =>
      public_key <- utf_chars arg_public_key;;
      match public_key with
      | None => ret None
      | Some public_key =>
          preshared_key <- match arg_preshared_key with
            | None => ret (Some None)
            | Some _ => v <- utf_chars arg_preshared_key;; ret (Some <$> v)
            end;;
          match preshared_key with
          | None => ret None
          | Some preshared_key => new_tunnel secret_key public_key preshared_key (u16 keep_alive) (u32 index)
          end
      end
  end.

(** [*op_ptr = output.op as u8; output.size as i32], for an operation buffer of
    some size: the returned size, the operation and what is in [dst]. *)
Definition answer (op_memory : bytes) (r : wireguard_result * bytes) : LM (Z * Z * bytes) :=
  let '(output, b) := r in
  if (length op_memory =? 0)%nat then fail Undefined else ret (i32 (size output), op_code (op output), b).

(** [None]: a buffer has no address, nothing was done and zero is returned. *)
Definition encrypt_raw_packet (tunnel : pointer) (src : jobject) (src_size : Z) (dst : jobject) (dst_size : Z)
  (op : jobject) : LM (option (Z * Z * bytes)) :=
  match dst, op with
  | None, _ | _, None => ret None
  | Some dst_ptr, Some op_ptr =>
      src <- unwrap src;;
      output <- wireguard_write tunnel src (u32 src_size) dst_ptr (u32 dst_size);;
      r <- answer op_ptr output;;
      ret (Some r)
  end.

Definition decrypt_to_raw_packet (tunnel : pointer) (src : jobject) (src_size : Z) (dst : jobject) (dst_size : Z)
  (op : jobject) : LM (option (Z * Z * bytes)) :=
  match dst, op with
  | None, _ | _, None => ret None
  | Some dst_ptr, Some op_ptr =>
      src <- unwrap src;;
      output <- wireguard_read tunnel src (u32 src_size) dst_ptr (u32 dst_size);;
      r <- answer op_ptr output;;
      ret (Some r)
  end.

Definition run_periodic_task (tunnel : pointer) (dst : jobject) (dst_size : Z) (op : jobject) :
  LM (option (Z * Z * bytes)) :=
  match dst, op with
  | None, _ | _, None => ret None
  | Some dst_ptr, Some op_ptr =>
      output <- wireguard_tick tunnel dst_ptr (u32 dst_size);;
      r <- answer op_ptr output;;
      ret (Some r)
  end.
End Jni.
