(* ===== verification/FfiLog.v ===== *)
(** * The log of the C interface: [ffi/mod.rs]

    [set_logging_function] installs a writer that hands every line of the log to a
    function of the host program.  The subscriber of [tracing] is global and is set
    once; its formatting is not part of the model, a line is what it writes. *)

From S2P Require Import Prelude Text Utf8 Tunnel.

Section Log.
(** A function of the host, [log_func]. *)
Context {F : Type}.

(** The subscriber, if there is one, and the strings that the functions were called
    with, without the zero at their ends. *)
Record Log := mkLog { subscriber : option F; called : list (F * bytes) }.
Abbreviation LM := (M unit Log).

(** [CString::new] *)
Definition c_string (s : bytes) : option bytes := if existsb (fun b => code b =? 0) s then None else Some s.

(** [FFIFunctionPointerWriter::write]: the length that was written, or an error. *)
Definition write (log_func : F) (buf : bytes) : LM nat :=
  match c_string (from_utf8_lossy buf) with
  | Some s => modify (fun l => mkLog (subscriber l) (called l ++ [(log_func, s)]));; ret (length buf)
  | None => fail tt
  end.
Definition flush : LM unit := ret tt.

(** [set_logging_function]: [try_init] fails when there is a subscriber. *)
Definition set_logging_function (log_func : F) : LM bool :=
  l <- get;;
  match subscriber l with
  | Some _ => ret false
  | None => modify (fun l => mkLog (Some log_func) (called l));; ret true
  end.

(** A line of the log, which is lost when there is no subscriber or when it cannot be
    written. *)
Definition emit_line (buf : bytes) : LM unit :=
  l <- get;;
  match subscriber l with
  | Some f => attempt (write f buf);; ret tt
  | None => ret tt
  end.

(** What a program does with the log. *)
Inductive Use := Install (f : F) | Line (buf : bytes).
Definition use (u : Use) : LM unit :=
  match u with Install f => set_logging_function f;; ret tt | Line buf => emit_line buf end.

(** The function that is installed first. *)
Fixpoint first_installed (l : list Use) : option F :=
  match l with [] => None | Install f :: _ => Some f | _ :: l => first_installed l end.

(** A line as the host reads it: text, up to the zero at its end. *)
Definition readable_line (s : bytes) : Prop := is_utf8 s = true /\ Forall (fun b => code b <> 0) s.

Definition delivered (o : option F) (l : Log) : Prop :=
  subscriber l = o /\ Forall (fun c => o = Some c.1 /\ readable_line c.2) (called l).

Lemma c_string_ok s s' : c_string s = Some s' -> s' = s /\ Forall (fun b => code b <> 0) s.
Proof.
  unfold c_string. destruct (existsb _ s) eqn:E; [done|]. intros [= <-]. split; [done|]. apply List.Forall_forall. intros b Hb Hz.
  assert (existsb (fun b => code b =? 0) s = true) as E'; [|congruence]. apply existsb_exists. exists b. split; [done|]. by apply Z.eqb_eq.
Qed.

Lemma emit_line_ok buf l w : exists l', emit_line buf l w = Ok tt l' w /\ subscriber l' = subscriber l /\
  (called l' = called l \/ exists f s, subscriber l = Some f /\ readable_line s /\ called l' = called l ++ [(f, s)]).
Proof.
  unfold emit_line. step. destruct (subscriber l) as [f|] eqn:Es; [|eexists; split; [reflexivity|]; naive_solver].
  unfold write. destruct (c_string _) as [s|] eqn:Ec; [|eexists; split; [reflexivity|]; naive_solver].
  apply c_string_ok in Ec as [-> Hz]. eexists. split; [reflexivity|]. cbn. split; [done|]. right.
  exists f, (from_utf8_lossy buf). split; [done|]. split; [|done]. split; [apply lossy_valid|done].
Qed.

(** Every line goes to the function that was installed first, whoever installs
    another one afterwards, and is text without a zero in it; nothing panics. *)
Theorem lines_reach_first_logger us : forall l w o, delivered o l ->
  exists l', for_each use us l w = Ok tt l' w /\ delivered (match o with Some f => Some f | None => first_installed us end) l'.
Proof.
  induction us as [|u us IH]; intros l w o [Hs Hc]; [exists l; split; [done|]; by destruct o|].
  cbn [for_each]. unfold bind at 1. destruct u as [f|buf]; cbn [use].
  - unfold set_logging_function. step. rewrite Hs. destruct o as [g|]; step.
    + destruct (IH l w (Some g)) as (l' & E & Hd); [done|]. by exists l'.
    + assert (Hnil : called l = []) by (destruct (called l) as [|c cs]; [done|]; apply Forall_cons_iff in Hc as [[? _] _]; done).
      destruct (IH (mkLog (Some f) (called l)) w (Some f)) as (l' & E & Hd); [split; [done|cbn; by rewrite Hnil]|]. by exists l'.
  - destruct (emit_line_ok buf l w) as (l1 & -> & Es & Hl). destruct (IH l1 w o) as (l' & E & Hd); [|exists l'; split; [done|]; by destruct o].
    split; [by rewrite Es|]. destruct Hl as [-> |(f & s & Ef & Hr & ->)]; [done|]. apply Forall_app. split; [done|].
    constructor; [|constructor]. split; [cbn; congruence|done].
Qed.
End Log.
