(* ===== verification/FfiProps.v ===== *)
(** * The C interface is safe for a caller that follows its rules

    [linv] says that every tunnel the caller holds keeps the invariant of
    [TunnelSafety] and owns a limiter of its own, and that no limiter is left
    over.  Calls that are [permitted] (a handle that is alive, buffers of the
    documented size, keys in ASCII) return, keep [linv] and touch no other
    tunnel. *)

From S2P Require Import Prelude Packet Crypto Session Instant Handshake HandshakeProps RateLimiter Timers Tunnel.
From S2P Require Import TunnelSafety Stats KeyBytes Text Base64 Ffi.

Section Ffi.
Context `{Features, Crypto, Env, !CryptoLaws, !MonotoneClock, Base64, !Base64Laws}.
Abbreviation LM := (M Fault Library).

(** ** A call stays within its tunnel and its limiter *)

Section Owner.
Variables (a mtu : nat) (hp : gmap nat RateLimiter).

Definition owns (s : Process) : Prop :=
  uses a mtu (tunn s) /\ (forall x, x <> a -> heap s !! x = hp !! x).

Lemma owns_in_tunn {A} (m : M WireGuardError Tunn A) : preserves (uses a mtu) m -> preserves owns (in_tunn m).
Proof.
  intros Hm s w [Hu Hh]. specialize (Hm (tunn s) w Hu). unfold in_tunn, zoom.
  by destruct (m (tunn s) w).
Qed.

Lemma owns_limiter {E A} (m : M E RateLimiter A) : preserves owns (with_limiter m).
Proof.
  intros s w [[Ha Hq] Hh]. unfold with_limiter, zoom. destruct (heap s !! _) as [l|]; [|done].
  assert (Hl : forall l', owns (mkProcess (tunn s) (<[rate_limiter (tunn s) := l']> (heap s)))).
  { intros l'. split; [done|]. intros x Hx. cbn. rewrite Ha, lookup_insert_ne by congruence. by apply Hh. }
  destruct (m l w); [apply Hl..|done].
Qed.

Lemma owns_perform c : adequate mtu c -> preserves owns (perform c).
Proof.
  intros Hc. destruct c as [src dst|addr d dst|dst|dst f]; cbn [perform].
  - apply owns_in_tunn, uses_encapsulate, Hc.
  - pose proof (fun p => owns_in_tunn _ (uses_handle a mtu p dst)).
    pose proof (owns_in_tunn _ (uses_send_queued a mtu dst)).
    pose proof (preserves_attempt owns (E:=WireGuardError) _ (owns_limiter (verify_packet addr d (zeros COOKIE_REPLY_SZ)))).
    unfold decapsulate. keeps; done.
  - pose proof (fun n => owns_in_tunn _ (uses_update a mtu n dst)). pose proof (owns_limiter (E:=WireGuardError) reset_count).
    unfold update_timers. keeps; done.
  - apply owns_in_tunn, uses_initiation.
Qed.
End Owner.

(** ** The invariant *)

Record linv (mtu : nat) (s : Library) (w : World) : Prop := {
  l_tunnel h t : tunnels s !! h = Some t -> exists peer, pinv peer mtu (mkProcess t (limiters s)) w;
  l_distinct h h' t t' : tunnels s !! h = Some t -> tunnels s !! h' = Some t' ->
    rate_limiter t = rate_limiter t' -> h = h';
  l_owned x : is_Some (limiters s !! x) -> exists h t, tunnels s !! h = Some t /\ rate_limiter t = x;
}.

(** What a call leaves of another tunnel. *)
Definition untouched (s s' : Library) (h : nat) : Prop := forall t, tunnels s !! h = Some t ->
  tunnels s' !! h = Some t /\ limiters s' !! rate_limiter t = limiters s !! rate_limiter t.

Lemma pinv_other peer mtu t lims lims' w w' : pinv peer mtu (mkProcess t lims) w -> later w w' ->
  lims' !! rate_limiter t = lims !! rate_limiter t -> pinv peer mtu (mkProcess t lims') w'.
Proof. intros Hp L E. apply (pinv_later _ _ _ _ w') in Hp as (Hi & Ha & Hq); [|done]. split_and!; [done| |done]. cbn in *. by rewrite E. Qed.

Lemma linv_later mtu s w w' : linv mtu s w -> later w w' -> linv mtu s w'.
Proof.
  intros [Ht Hd Ho] L. split; [|done..]. intros h t E. destruct (Ht h t E) as [peer Hp]. exists peer.
  by eapply pinv_later.
Qed.

(** The tables after a call on the tunnel [h]. *)
Lemma linv_update mtu s w w' h t p peer : linv mtu s w -> later w w' -> tunnels s !! h = Some t ->
  pinv peer mtu p w' -> owns (rate_limiter t) mtu (limiters s) p ->
  let s' := mkLibrary (<[h := tunn p]> (tunnels s)) (heap p) (strings s) (panic_hook s) in
  linv mtu s' w' /\ forall h', h' <> h -> untouched s s' h'.
Proof.
  intros [Ht Hd Ho] L E Hp [[Ha _] Hh] s'.
  assert (Hu : forall h', h' <> h -> untouched s s' h').
  { intros h' Hn t' E'. cbn. rewrite lookup_insert_ne by done. split; [done|]. apply Hh. intros Er.
    by apply Hn, (Hd _ _ _ _ E' E). }
  split; [|done]. split; cbn.
  - intros h' t' E'. destruct (decide (h' = h)) as [->|Hn].
    + rewrite lookup_insert_eq in E'. injection E' as <-. exists peer. by destruct p.
    + rewrite lookup_insert_ne in E' by done. destruct (Ht h' t' E') as [peer' Hp']. exists peer'.
      eapply pinv_other; [done|done|]. by apply (Hu h' Hn t').
  - intros h1 h2 t1 t2 [[-> <-]|[N1 E1]]%lookup_insert_Some [[-> <-]|[N2 E2]]%lookup_insert_Some Er; [done|..].
    + rewrite Ha in Er. by apply (Hd _ _ _ _ E E2).
    + rewrite Ha in Er. by apply (Hd _ _ _ _ E1 E).
    + by apply (Hd _ _ _ _ E1 E2).
  - intros x Hx. destruct (decide (x = rate_limiter t)) as [->|Hn].
    + exists h, (tunn p). by rewrite lookup_insert_eq.
    + rewrite Hh in Hx by done. destruct (Ho x Hx) as (h' & t' & E' & <-). exists h', t'. split; [|done].
      rewrite lookup_insert_ne; [done|]. intros ->. congruence.
Qed.

(** A method that is safe on the process of its tunnel. *)
Lemma on_tunnel_ok {A} mtu h t (m : M WireGuardError Process A) s w :
  linv mtu s w -> tunnels s !! h = Some t -> nofail m ->
  (forall peer, pinv peer mtu (mkProcess t (limiters s)) w -> ok (pinv peer mtu) (fun _ => True) w (m (mkProcess t (limiters s)) w)) ->
  preserves (owns (rate_limiter t) mtu (limiters s)) m ->
  exists r s' w', on_tunnel h m s w = Ok r s' w' /\ linv mtu s' w' /\ later w w' /\ strings s' = strings s /\
    forall h', h' <> h -> untouched s s' h'.
Proof.
  intros Hl E Hn Hm Ho. destruct (l_tunnel _ _ _ Hl h t E) as [peer Hp]. specialize (Hm peer Hp).
  specialize (Hn (mkProcess t (limiters s)) w). specialize (Ho (mkProcess t (limiters s)) w).
  unfold on_tunnel. rewrite E. destruct (m _ w) as [r p w'|e p w'|]; [|done..]. destruct Hm as (Hp' & L & _).
  destruct (linv_update mtu s w w' h t p peer Hl L E Hp') as [Hl' Hu].
  { apply Ho. split; [|done]. split; [done|]. apply Hp. }
  eexists _, _, w'. split_and!; [reflexivity|done..].
Qed.

(** ** New tunnels *)

(** Only the low 24 bits of an index count. *)
Lemma index_wraps index : u32 (Z.shiftl index 8) = u32 (Z.shiftl (index mod 2 ^ 24) 8).
Proof.
  rewrite !Z.shiftl_mul_pow2 by lia. unfold u32. change (2 ^ 32) with (2 ^ 24 * 2 ^ 8).
  rewrite !Z.mul_mod_distr_r by lia. by rewrite Zmod_mod.
Qed.
Lemma new_wraps priv pub psk keepalive index limiter hp w :
  Tunnel.new priv pub psk keepalive index limiter hp w =
  Tunnel.new priv pub psk keepalive (index mod 2 ^ 24) limiter hp w.
Proof. unfold Tunnel.new. by rewrite index_wraps. Qed.

(** A tunnel with a limiter of its own. *)
Lemma new_owner priv pub psk keepalive index hp w t hp' w' :
  Tunnel.new priv pub psk keepalive index None hp w = Ok t hp' w' ->
  hp !! rate_limiter t = None /\ persistent_keepalive (tn_timers t) = default 0 keepalive /\
  exists l, hp' = <[rate_limiter t := l]> hp.
Proof.
  unfold Tunnel.new, Handshake.new, Stamp.new, Timers.new, alloc_limiter, RateLimiter.new, rand_bytes. step.
  destruct (_ <? _); step; [done|]. intros [= <- <- _]. cbn [rate_limiter tn_timers persistent_keepalive].
  split_and!; [apply not_elem_of_dom, is_fresh|done|by eexists].
Qed.

Hypothesis epoch : forall n, 0 <= system_time n.

Lemma box_tunnel_eq mtu priv pub psk keepalive index s w : linv mtu s w ->
  exists h t s' w', box_tunnel priv pub psk keepalive index s w = Ok (Some h) s' w' /\ linv mtu s' w' /\ later w w' /\
    tunnels s !! h = None /\ tunnels s' = <[h := t]> (tunnels s) /\ strings s' = strings s /\
    params (handshake t) = noise_params_new priv (x25519_public priv) pub psk /\
    persistent_keepalive (tn_timers t) = default 0 keepalive /\ forall h', untouched s s' h'.
Proof.
  intros Hl. unfold box_tunnel. rewrite new_wraps.
  destruct (tunn_new_eq (index mod 2 ^ 24) mtu priv pub psk keepalive None (limiters s) w)
    as (t & hp' & w' & E & L & Hpar & _ & Hp); [apply Z.mod_pos_bound; lia|apply epoch|done|].
  rewrite E. destruct (new_owner _ _ _ _ _ _ _ _ _ _ E) as (Hf & Hk & l & ->).
  set (h := fresh (dom (tunnels s))). assert (Eh : tunnels s !! h = None) by apply not_elem_of_dom, is_fresh.
  assert (Hr : forall h' t', tunnels s !! h' = Some t' -> rate_limiter t' <> rate_limiter t).
  { intros h' t' E' Er. destruct (l_tunnel _ _ _ Hl h' t' E') as [p (_ & [x Hx] & _)]. cbn in Hx. congruence. }
  exists h, t. eexists _, w'. split; [reflexivity|].
  assert (Hu : forall h', untouched s (mkLibrary (<[h := t]> (tunnels s)) (<[rate_limiter t := l]> (limiters s)) (strings s) true) h').
  { intros h' t' E'. cbn. rewrite !lookup_insert_ne; [done| |intros ->; congruence]. intros Er. by eapply Hr. }
  split_and!; try done. destruct Hl as [Ht Hd Ho]. split; cbn.
  - intros h' t' [[<- <-]|[Hn E']]%lookup_insert_Some; [by eexists|]. destruct (Ht h' t' E') as [peer Hp'].
    exists peer. eapply pinv_other; [done|done|]. by apply (Hu h' t').
  - intros h1 h2 t1 t2 [[<- <-]|[N1 E1]]%lookup_insert_Some [[<- <-]|[N2 E2]]%lookup_insert_Some Er; [done|..].
    + by destruct (Hr _ _ E2).
    + by destruct (Hr _ _ E1).
    + by apply (Hd _ _ _ _ E1 E2).
  - intros x [y Hx]. apply lookup_insert_Some in Hx as [[<- _]|[Hn Hx]]; [exists h, t; by rewrite lookup_insert_eq|].
    destruct (Ho x) as (h' & t' & E' & <-); [by eexists|]. exists h', t'. split; [|done].
    rewrite lookup_insert_ne; [done|]. intros ->. congruence.
Qed.

(** What the parser of keys makes of a text in ASCII. *)
Definition key_spec (str : bytes) : option bytes :=
  if (length str =? 64)%nat then pairs str
  else if (length str =? 43)%nat || (length str =? 44)%nat then
    match base64_decode str with
    | Some k => if (length k =? 32)%nat then Some k else None
    | None => Some (zeros 32)
    end
  else None.
(** A preshared key that is absent, one that is present, or a refusal. *)
Definition psk_spec (str : option bytes) : option (option bytes) :=
  match str with None => Some None | Some str => Some <$> key_spec str end.

Lemma ffi_parse_key_eq str (s : Library) w : Forall ascii str -> parse_key str s w = Ok (key_spec str) s w.
Proof.
  intros Ha. unfold parse_key, attempt, bind. rewrite from_str_spec by done. unfold key_spec.
  destruct (_ =? 64)%nat; [by destruct (pairs str)|]. destruct (_ || _); [|done].
  destruct (base64_decode str); [|done]. by destruct (_ =? _)%nat.
Qed.

Lemma to_str_ascii s : Forall ascii s -> to_str s = Some s.
Proof.
  intros Hs. unfold to_str. assert (is_utf8 s = true) as ->; [|done]. induction Hs as [|b s Hb _ IH]; [done|].
  cbn [is_utf8]. by rewrite (proj2 (Z.ltb_lt _ _)).
Qed.

Lemma parse_preshared_eq str (s : Library) w : from_option (Forall ascii) True str ->
  parse_preshared str s w = Ok (psk_spec str) s w.
Proof.
  destruct str as [str|]; [|done]. cbn. intros Ha. rewrite to_str_ascii by done. unfold bind.
  by rewrite ffi_parse_key_eq.
Qed.

Lemma new_tunnel_eq priv pub psk keep_alive index (s : Library) w :
  Forall ascii priv -> Forall ascii pub -> from_option (Forall ascii) True psk ->
  new_tunnel priv pub psk keep_alive index s w =
  match psk_spec psk, key_spec priv, key_spec pub with
  | Some psk, Some k, Some p =>
      box_tunnel k p psk (if keep_alive =? 0 then None else Some keep_alive) index s w
  | _, _, _ => Ok None s w
  end.
Proof.
  intros Ha Hb Hc. unfold new_tunnel. rewrite !to_str_ascii by done. unfold bind at 1.
  rewrite parse_preshared_eq by done. destruct (psk_spec psk); [|done]. unfold bind.
  rewrite ffi_parse_key_eq by done. destruct (key_spec priv); [|done].
  rewrite ffi_parse_key_eq by done. by destruct (key_spec pub).
Qed.

(** A new tunnel through the C interface, for keys in ASCII: null exactly when
    one of the texts is refused, and then nothing has changed; otherwise a
    handle that was not in use, for a tunnel with the keys that the texts
    denote and the keepalive asked for, zero being none, whatever bits above
    the 24 low ones the index has. *)
Theorem new_tunnel_spec mtu priv pub psk keep_alive index s w : linv mtu s w ->
  Forall ascii priv -> Forall ascii pub -> from_option (Forall ascii) True psk ->
  match psk_spec psk, key_spec priv, key_spec pub with
  | Some shared, Some k, Some p => exists h t s' w',
      new_tunnel priv pub psk keep_alive index s w = Ok (Some h) s' w' /\
      tunnels s !! h = None /\ tunnels s' = <[h := t]> (tunnels s) /\ linv mtu s' w' /\
      params (handshake t) = noise_params_new k (x25519_public k) p shared /\
      persistent_keepalive (tn_timers t) = keep_alive
  | _, _, _ => new_tunnel priv pub psk keep_alive index s w = Ok None s w
  end.
Proof.
  intros Hl Ha Hb Hc. rewrite new_tunnel_eq by done.
  destruct (psk_spec psk) as [shared|]; [|done]. destruct (key_spec priv) as [k|]; [|done].
  destruct (key_spec pub) as [p|]; [|done].
  destruct (box_tunnel_eq mtu k p shared (if keep_alive =? 0 then None else Some keep_alive) index s w Hl)
    as (h & t & s' & w' & E & Hl' & _ & Hh & Ht & _ & Hp & Hk & _).
  exists h, t, s', w'. split_and!; try done. rewrite Hk. by destruct (Z.eqb_spec keep_alive 0) as [->|].
Qed.

(** Text that is not base64: the check refuses it, and yet a tunnel with it as
    the peer's key is made, whose peer has the key of 32 zeros. *)
Theorem unchecked_key_accepted mtu priv pub keep_alive index k s w : linv mtu s w ->
  Forall ascii priv -> Forall ascii pub -> key_spec priv = Some k ->
  length pub = 44%nat -> base64_decode pub = None ->
  check_base64_encoded_x25519_key pub = 0 /\
  exists h t s' w', new_tunnel priv pub None keep_alive index s w = Ok (Some h) s' w' /\
    tunnels s' !! h = Some t /\ peer_static_public (params (handshake t)) = zeros 32.
Proof.
  intros Hl Ha Hb Hk Hpub Hd. split; [unfold check_base64_encoded_x25519_key; by rewrite to_str_ascii, Hd|].
  rewrite new_tunnel_eq by done. cbn [psk_spec]. rewrite Hk. unfold key_spec. rewrite Hpub, Hd. cbn [Nat.eqb orb].
  destruct (box_tunnel_eq mtu k (zeros 32) None (if keep_alive =? 0 then None else Some keep_alive) index s w Hl)
    as (h & t & s' & w' & E & _ & _ & _ & Ht & _ & Hp & _).
  exists h, t, s', w'. split_and!; [done|by rewrite Ht, lookup_insert_eq|by rewrite Hp].
Qed.

(** ** Calls *)

Inductive CCall :=
| CNew (static_private server_static_public : bytes) (preshared_key : option bytes) (keep_alive index : Z)
| CFree (tunnel : pointer)
| CWrite (tunnel : pointer) (src : bytes) (src_size : Z) (dst : bytes) (dst_size : Z)
| CRead (tunnel : pointer) (src : bytes) (src_size : Z) (dst : bytes) (dst_size : Z)
| CTick (tunnel : pointer) (dst : bytes) (dst_size : Z)
| CForce (tunnel : pointer) (dst : bytes) (dst_size : Z)
| CStats (tunnel : pointer)
| CSecret
| CBase64 (key : bytes)
| CHex (key : bytes)
| CStrFree (string : pointer).

Inductive Reply :=
| RPointer (p : pointer)
| RResult (r : wireguard_result * bytes)
| RStats (st : ffi_stats)
| RKey (key : bytes)
| RVoid.

Definition c_call (c : CCall) : LM Reply :=
  match c with
  | CNew a b c d e => p <- new_tunnel a b c d e;; ret (RPointer p)
  | CFree t => tunnel_free t;; ret RVoid
  | CWrite t src n dst m => r <- wireguard_write t src n dst m;; ret (RResult r)
  | CRead t src n dst m => r <- wireguard_read t src n dst m;; ret (RResult r)
  | CTick t dst m => r <- wireguard_tick t dst m;; ret (RResult r)
  | CForce t dst m => r <- wireguard_force_handshake t dst m;; ret (RResult r)
  | CStats t => st <- wireguard_stats t;; ret (RStats st)
  | CSecret => k <- x25519_secret_key;; ret (RKey k)
  | CBase64 k => p <- x25519_key_to_base64 k;; ret (RPointer p)
  | CHex k => p <- x25519_key_to_hex k;; ret (RPointer p)
  | CStrFree p => x25519_key_to_str_free p;; ret RVoid
  end.

(** The tunnel that a call is about. *)
Definition handle_of (c : CCall) : pointer :=
  match c with
  | CFree t | CWrite t _ _ _ _ | CRead t _ _ _ _ | CTick t _ _ | CForce t _ _ | CStats t => t
  | _ => None
  end.

(** Sizes are those of the memory; the buffers are large enough for packets of at
    most [mtu] bytes. *)
Definition sizes_ok (mtu : nat) (c : CCall) : Prop :=
  match c with
  | CWrite _ src n dst m => 0 <= n <= Z.of_nat (length src) /\ m <= Z.of_nat (length dst) /\ n <= Z.of_nat mtu /\ n + 32 <= m
  | CRead _ src n dst m => 0 <= n <= Z.of_nat (length src) /\ m <= Z.of_nat (length dst) /\ n <= m /\ Z.of_nat mtu + 64 <= m
  | CTick _ dst m => 32 <= m <= Z.of_nat (length dst)
  | CForce _ dst m => 0 <= m <= Z.of_nat (length dst)
  | _ => True
  end.

(** The rules for a caller. *)
Definition permitted (mtu : nat) (s : Library) (c : CCall) : Prop :=
  sizes_ok mtu c /\
  match c with
  | CNew priv pub psk _ _ => Forall ascii priv /\ Forall ascii pub /\ from_option (Forall ascii) True psk
  | CSecret | CHex _ | CBase64 _ => True
  | CStrFree p => exists a, p = Some a /\ is_Some (strings s !! a)
  | c => exists h, handle_of c = Some h /\ is_Some (tunnels s !! h)
  end.

(** What every call gives: it returns, keeps the invariant, and leaves the
    tunnels it is not about. *)
Definition serves (mtu : nat) (c : CCall) (s : Library) (w : World) : Prop :=
  exists r s' w', c_call c s w = Ok r s' w' /\ linv mtu s' w' /\ later w w' /\
    forall h, handle_of c <> Some h -> untouched s s' h.

Lemma serves_on_tunnel mtu h (c : Call) s w : linv mtu s w -> is_Some (tunnels s !! h) -> adequate mtu c ->
  exists r s' w', on_tunnel h (perform c) s w = Ok r s' w' /\ linv mtu s' w' /\ later w w' /\
    forall h', h' <> h -> untouched s s' h'.
Proof.
  intros Hl [t Ht] Hc. destruct (on_tunnel_ok mtu h t (perform c) s w Hl Ht) as (r & s' & w' & E & Hl' & L & _ & Hu).
  - apply nofail_perform.
  - intros peer Hp. by apply (ok_weaken _ typed); [apply ok_perform|].
  - by apply owns_perform.
  - by exists r, s', w'.
Qed.

Lemma check_tunnel_eq h (s : Library) w : is_Some (tunnels s !! h) -> check_tunnel (Some h) s w = Ok h s w.
Proof. intros Hh. unfold check_tunnel, bind. step. by rewrite bool_decide_eq_true_2. Qed.

Lemma from_raw_parts_eq memory n (s : Library) w : 0 <= n <= Z.of_nat (length memory) ->
  from_raw_parts memory n s w = Ok (take (Z.to_nat n) memory) s w.
Proof. intros Hn. unfold from_raw_parts. by rewrite (proj2 (Z.leb_le _ _)) by lia. Qed.

Lemma length_taken n (memory : bytes) : 0 <= n <= Z.of_nat (length memory) -> length (take (Z.to_nat n) memory) = Z.to_nat n.
Proof. intros Hn. rewrite length_take. lia. Qed.

(** A call that runs a method of its tunnel and reports the result. *)
Lemma serves_method mtu cc h c s w : linv mtu s w -> is_Some (tunnels s !! h) -> handle_of cc = Some h -> adequate mtu c ->
  (forall r s' w', on_tunnel h (perform c) s w = Ok r s' w' -> c_call cc s w = Ok (RResult (finish r)) s' w') ->
  serves mtu cc s w.
Proof.
  intros Hl Hh Ec Hc Hr. destruct (serves_on_tunnel mtu h c s w Hl Hh Hc) as (r & s' & w' & E & Hl' & L & Hu).
  eexists _, s', w'. split_and!; [by apply Hr|done|done|]. rewrite Ec. intros h' Hn. apply Hu. congruence.
Qed.

Lemma serves_sized mtu cc h s w : linv mtu s w -> is_Some (tunnels s !! h) -> handle_of cc = Some h -> sizes_ok mtu cc ->
  match cc with CWrite _ _ _ _ _ | CRead _ _ _ _ _ | CTick _ _ _ | CForce _ _ _ => True | _ => False end ->
  serves mtu cc s w.
Proof.
  intros Hl Hh Eh Hs Hk. destruct cc as [| |t src n dst m|t src n dst m|t dst m|t dst m| | | | |]; try done;
    cbn [handle_of sizes_ok] in *; subst t.
  - apply (serves_method mtu _ h (Encapsulate (take (Z.to_nat n) src) (take (Z.to_nat m) dst))); [done..| |].
    + cbn. rewrite !length_taken by lia. lia.
    + intros r s' w' E. cbn [perform] in E. cbn [c_call]. unfold wireguard_write, bind.
      rewrite check_tunnel_eq, !from_raw_parts_eq, E by (done || lia). done.
  - apply (serves_method mtu _ h (Decapsulate None (take (Z.to_nat n) src) (take (Z.to_nat m) dst))); [done..| |].
    + cbn. rewrite !length_taken by lia. lia.
    + intros r s' w' E. cbn [perform] in E. cbn [c_call]. unfold wireguard_read, bind.
      rewrite check_tunnel_eq, !from_raw_parts_eq, E by (done || lia). done.
  - apply (serves_method mtu _ h (UpdateTimers (take (Z.to_nat m) dst))); [done..| |].
    + cbn. rewrite length_taken by lia. lia.
    + intros r s' w' E. cbn [perform] in E. cbn [c_call]. unfold wireguard_tick, bind.
      rewrite check_tunnel_eq, !from_raw_parts_eq, E by (done || lia). done.
  - apply (serves_method mtu _ h (InitiateHandshake (take (Z.to_nat m) dst) true)); [done..|].
    intros r s' w' E. cbn [perform] in E. cbn [c_call]. unfold wireguard_force_handshake, bind.
    rewrite check_tunnel_eq, !from_raw_parts_eq, E by (done || lia). done.
Qed.

Lemma serves_free mtu h s w : linv mtu s w -> is_Some (tunnels s !! h) -> serves mtu (CFree (Some h)) s w.
Proof.
  intros [Ht Hd Ho] [t E]. unfold serves. cbn [c_call handle_of]. unfold tunnel_free, bind. rewrite E.
  set (s' := mkLibrary _ _ _ _). assert (Hu : forall h', h' <> h -> untouched s s' h').
  { intros h' Hn t' E'. cbn. rewrite !lookup_delete_ne; [done| |done]. intros Er. by apply Hn, (Hd _ _ _ _ E' E). }
  eexists _, s', w. split_and!; [done| |done|intros h' Hn; apply Hu; congruence]. split; cbn.
  - intros h' t' [Hn E']%lookup_delete_Some. destruct (Ht h' t' E') as [peer Hp]. exists peer.
    eapply pinv_other; [done|done|]. by apply (Hu h' ltac:(done) t').
  - intros h1 h2 t1 t2 [_ E1]%lookup_delete_Some [_ E2]%lookup_delete_Some. by apply Hd.
  - intros x [y [Hn Ex]%lookup_delete_Some]. destruct (Ho x) as (h' & t' & E' & <-); [by eexists|].
    exists h', t'. rewrite lookup_delete_ne; [done|]. intros ->. congruence.
Qed.

Lemma serves_stats mtu h s w : linv mtu s w -> is_Some (tunnels s !! h) -> serves mtu (CStats (Some h)) s w.
Proof.
  intros Hl [t E]. destruct (on_tunnel_ok mtu h t (in_tunn stats) s w Hl E) as (r & s' & w' & Er & Hl' & L & _ & Hu).
  - apply nofail_in_tunn. unfold stats, time_since_last_handshake, dur_sub. nofail.
  - intros peer Hp. pose proof Hp as (Hi & _ & _). cbn [tunn] in Hi. destruct (time_ok peer _ _ Hi) as (time & w1 & Et & L).
    unfold in_tunn, zoom, stats, bind. cbn [tunn get]. rewrite Et. cbn. split_and!; [|done|done].
    by apply (pinv_later _ _ _ w).
  - apply owns_in_tunn. unfold stats, time_since_last_handshake, dur_sub. keeps.
  - destruct r as [[[[time tx] rx] loss] rtt]. eexists _, s', w'. cbn [c_call handle_of]. unfold wireguard_stats, bind.
    rewrite check_tunnel_eq, Er by done. split_and!; [done..|]. intros h' Hn. apply Hu. congruence.
Qed.

(** Calls that touch only the strings. *)
Lemma linv_strings mtu s x b w w' : linv mtu s w -> later w w' ->
  linv mtu (mkLibrary (tunnels s) (limiters s) x b) w'.
Proof. intros Hl L. destruct (linv_later _ _ _ _ Hl L). by split. Qed.

Lemma serves_string mtu cc text s w : linv mtu s w -> byte.of_Z 0 ∉ text -> handle_of cc = None ->
  c_call cc s w = bind (into_raw text) (fun p => ret (RPointer p)) s w -> serves mtu cc s w.
Proof.
  intros Hl Hz Eh Ec. unfold serves. rewrite Ec, Eh. unfold into_raw, bind. rewrite bool_decide_eq_false_2 by done.
  step. eexists _, _, w. split_and!; [done|by eapply linv_strings|done|]. intros h _ t E. done.
Qed.

Lemma no_zero_hex k : byte.of_Z 0 ∉ encode_hex k.
Proof.
  unfold encode_hex. induction k as [|b k IH]; [by apply not_elem_of_nil|]. cbn. intros Hin.
  apply elem_of_cons in Hin as [Hb|[Hb|Hin]%elem_of_cons]; [| |done]; revert Hb; by destruct b.
Qed.
Lemma no_zero_base64 k : byte.of_Z 0 ∉ base64_encode k.
Proof.
  intros Hin%list_elem_of_In. pose proof (base64_alphabet k) as Ha. rewrite List.Forall_forall in Ha.
  apply Ha in Hin. vm_compute in Hin. by destruct Hin.
Qed.

Lemma permitted_serves mtu c s w : linv mtu s w -> permitted mtu s c -> serves mtu c s w.
Proof.
  intros Hl [Hs Hp]. destruct c as [priv pub psk ka idx|p|p src n dst m|p src n dst m|p dst m|p dst m|p| |k|k|p];
    cbn [handle_of] in Hp.
  2-7: destruct Hp as (h & -> & Hh).
  2: by apply serves_free.
  2-5: by apply (serves_sized mtu _ h).
  2: by apply serves_stats.
  - destruct Hp as (Ha & Hb & Hc). unfold serves. cbn [c_call handle_of]. unfold bind. rewrite new_tunnel_eq by done.
    destruct (psk_spec psk) as [x|]; [|eexists _, s, w; split_and!; [done..|by intros]].
    destruct (key_spec priv) as [k|]; [|eexists _, s, w; split_and!; [done..|by intros]].
    destruct (key_spec pub) as [q|]; [|eexists _, s, w; split_and!; [done..|by intros]].
    destruct (box_tunnel_eq mtu k q x (if ka =? 0 then None else Some ka) idx s w Hl)
      as (h & t & s' & w' & -> & Hl' & L & _ & _ & _ & _ & _ & Hu). by eexists _, s', w'.
  - eexists _, s, _. split_and!; [reflexivity| |unfold later; cbn; lia|by intros].
    apply (linv_later _ _ w); [done|unfold later; cbn; lia].
  - by apply (serves_string mtu _ (base64_encode k)); [|apply no_zero_base64|..].
  - by apply (serves_string mtu _ (encode_hex k)); [|apply no_zero_hex|..].
  - destruct Hp as (a & -> & [x Hx]). unfold serves. cbn [c_call handle_of]. unfold x25519_key_to_str_free, c_str, bind. step.
    cbn [mbind option_bind]. rewrite Hx. step. eexists _, _, w. split_and!; [done|by eapply linv_strings|done|]. by intros h _ t E.
Qed.

(** ** Runs *)

(** The replies of a sequence of calls, [None] at a panic or undefined
    behaviour. *)
Fixpoint c_run (cs : list CCall) (s : Library) (w : World) : option (list Reply * Library * World) :=
  match cs with
  | [] => Some ([], s, w)
  | c :: cs =>
      match c_call c s w with
      | Ok r s w => '(rs, s, w) ← c_run cs s w; Some (r :: rs, s, w)
      | Fail _ _ _ | Panic => None
      end
  end.

Definition empty_library : Library := mkLibrary ∅ ∅ ∅ false.

Lemma linv_empty mtu w : linv mtu empty_library w.
Proof.
  split; cbn [tunnels limiters empty_library]; [intros h t E|intros h h' t t' E|intros x [y E]]; by rewrite lookup_empty in E.
Qed.

Lemma c_run_ok mtu cs : forall s w, linv mtu s w -> 
  (forall before c after s' w' rs, cs = before ++ c :: after -> c_run before s w = Some (rs, s', w') -> permitted mtu s' c) ->
  exists rs s' w', c_run cs s w = Some (rs, s', w') /\ length rs = length cs /\ linv mtu s' w'.
Proof.
  induction cs as [|c cs IH]; intros s w Hl Hp; cbn [c_run]; [by exists [], s, w|].
  destruct (permitted_serves mtu c s w Hl) as (r & s1 & w1 & E & Hl1 & _).
  { by apply (Hp [] c cs s w []). }
  rewrite E. destruct (IH s1 w1 Hl1) as (rs & s' & w' & -> & L & Hl').
  { intros before c' after s' w' rs -> R. eapply (Hp (c :: before) c' after s' w' (r :: rs)); [done|].
    cbn [c_run]. by rewrite E, R. }
  exists (r :: rs), s', w'. cbn. by rewrite L.
Qed.


(** Tunnels are independent: a permitted call leaves every tunnel that it is not
    about, and the limiter of that tunnel, exactly as they were; also
    creating and releasing tunnels does. *)
Theorem tunnels_independent mtu c s w : linv mtu s w -> permitted mtu s c ->
  exists r s' w', c_call c s w = Ok r s' w' /\
  forall h t, handle_of c <> Some h -> tunnels s !! h = Some t ->
    tunnels s' !! h = Some t /\ limiters s' !! rate_limiter t = limiters s !! rate_limiter t.
Proof.
  intros Hl Hp. destruct (permitted_serves mtu c s w Hl Hp) as (r & s' & w' & E & _ & _ & Hu).
  exists r, s', w'. split; [done|]. intros h t Hn. by apply Hu.
Qed.

End Ffi.

(** ** The Java interface *)

Section Jni.
Context `{Features, Crypto, Env, Base64, Jvm}.

(** The C string made for a key on its way to Java is never released: every
    conversion leaves one more string behind, and changes nothing else. *)
Theorem java_strings_leak key (s : Library) w : (32 <= length key)%nat ->
  exists r s' w' a, convert_x25519_key_to_hex (Some key) s w = Ok r s' w' /\
    strings s !! a = None /\ strings s' = <[a := encode_hex (take 32 key)]> (strings s) /\
    tunnels s' = tunnels s /\ limiters s' = limiters s.
Proof.
  intros Hk. unfold convert_x25519_key_to_hex, key_region. cbn [mbind option_bind].
  rewrite (proj2 (Nat.leb_le _ _) Hk). unfold x25519_key_to_hex, into_raw, c_str, new_object, bind.
  rewrite bool_decide_eq_false_2 by apply no_zero_hex. step. cbn [mbind option_bind strings].
  rewrite lookup_insert_eq. step. eexists _, _, _, _. split_and!; [reflexivity| |done|done|done].
  apply not_elem_of_dom, is_fresh.
Qed.

(** The size that Java passes is not compared with the array: one byte too many
    reads beyond the copy of the array. *)
Theorem java_size_unchecked h src src_size dst dst_size op (s : Library) w : is_Some (tunnels s !! h) ->
  Z.of_nat (length src) < u32 src_size ->
  encrypt_raw_packet (Some h) (Some src) src_size (Some dst) dst_size (Some op) s w = Fail Undefined s w /\
  decrypt_to_raw_packet (Some h) (Some src) src_size (Some dst) dst_size (Some op) s w = Fail Undefined s w.
Proof.
  intros Hh Hs. unfold encrypt_raw_packet, decrypt_to_raw_packet, wireguard_write, wireguard_read, bind.
  cbn [unwrap ret]. rewrite check_tunnel_eq by done. unfold from_raw_parts. rewrite (proj2 (Z.leb_gt _ _) Hs). done.
Qed.
End Jni.

(** ** A concrete caller *)

Module Example.
Import HandshakeProps.Example Base64.Rfc4648.
#[local] Existing Instances pq_build Toy.crypto Toy.laws env env_clock codec codec_laws.

Definition hex (b : bytes) : bytes := encode_hex (take 32 (b ++ zeros 32)).
Definition open_one : CCall := CNew (hex alice_key) (hex (x25519_public bob_key)) None 25 (2 ^ 24 + 5).
Lemma epoch_ok n : 0 <= system_time n.
Proof. vm_compute. discriminate. Qed.
Lemma hex_ascii b : Forall ascii (hex b).
Proof. apply ascii_encode_hex. Qed.
Lemma open_permitted s : permitted 1500 s open_one.
Proof. split; [exact Logic.I|]. split; [apply hex_ascii|]. split; [apply hex_ascii|exact Logic.I]. Qed.

(** Does the handle [h] exist after the calls? *)
Definition exists_after (cs : list CCall) (h : nat) : bool :=
  match c_run cs empty_library w0 with Some (_, s, _) => bool_decide (is_Some (tunnels s !! h)) | None => false end.
Lemma exists_after_spec cs h rs s w : c_run cs empty_library w0 = Some (rs, s, w) -> exists_after cs h = true ->
  is_Some (tunnels s !! h).
Proof. unfold exists_after. intros ->. apply bool_decide_eq_true_1. Qed.

Definition some_calls : list CCall :=
  [open_one; CTick (Some 0%nat) (zeros 1600) 1600; CWrite (Some 0%nat) (zeros 60) 40 (zeros 1600) 1600; CFree (Some 0%nat)].


Lemma tunnels_independent_witness : exists s w r s' w',
  c_run [open_one; open_one] empty_library w0 = Some ([RPointer (Some 0%nat); RPointer (Some 1%nat)], s, w) /\
  c_call (CTick (Some 0%nat) (zeros 1600) 1600) s w = Ok r s' w' /\ tunnels s' !! 1%nat = tunnels s !! 1%nat.
Proof.
  destruct (c_run_ok epoch_ok 1500 [open_one; open_one] empty_library w0 (linv_empty 1500 w0)) as (rs & s & w & R & _ & Hl).
  { intros before c' after' s' w' rs' E _. destruct before as [|c1 [|c2 [|? ?]]]; simplify_eq/=; apply open_permitted. }
  pose proof (fun h => exists_after_spec _ h _ _ _ R) as Hh.
  destruct (tunnels_independent epoch_ok 1500 (CTick (Some 0%nat) (zeros 1600) 1600) s w Hl) as (r & s' & w' & E & Hu).
  { split; [cbn; lia|]. exists 0%nat. split; [done|]. apply Hh. vm_compute. reflexivity. }
  exists s, w, r, s', w'. split_and!; [|exact E|].
  - rewrite R. f_equal. f_equal. f_equal.
    transitivity (from_option (fun x => x.1.1) [] (c_run [open_one; open_one] empty_library w0)); [by rewrite R|].
    vm_compute. reflexivity.
  - destruct (Hh 1%nat ltac:(vm_compute; reflexivity)) as [t Ht]. rewrite Ht. by apply (Hu 1%nat t).
Defined.

Lemma new_tunnel_spec_witness : exists h t s' w',
  new_tunnel (hex alice_key) (hex bob_key) None 25 5 empty_library w0 = Ok (Some h) s' w' /\
  params (handshake t) = noise_params_new alice_key (x25519_public alice_key) bob_key None /\
  persistent_keepalive (tn_timers t) = 25.
Proof.
  pose proof (new_tunnel_spec epoch_ok 1500 (hex alice_key) (hex bob_key) None 25 5 empty_library w0
    (linv_empty 1500 w0) (hex_ascii _) (hex_ascii _) Logic.I) as Hn.
  assert (Ea : key_spec (hex alice_key) = Some alice_key) by (vm_compute; reflexivity).
  assert (Eb : key_spec (hex bob_key) = Some bob_key) by (vm_compute; reflexivity).
  cbn [psk_spec] in Hn. rewrite Ea, Eb in Hn. destruct Hn as (h & t & s' & w' & E & _ & _ & _ & Hp & Hk).
  exists h, t, s', w'. exact (conj E (conj Hp Hk)).
Defined.

(** Forty-four dots are no base64. *)
Lemma unchecked_key_accepted_witness : exists h t s' w',
  new_tunnel (hex alice_key) (replicate 44 (byte.of_Z 46)) None 0 5 empty_library w0 = Ok (Some h) s' w' /\
  tunnels s' !! h = Some t /\ peer_static_public (params (handshake t)) = zeros 32.
Proof.
  apply (unchecked_key_accepted epoch_ok 1500 (hex alice_key) (replicate 44 (byte.of_Z 46)) 0 5 alice_key
    empty_library w0 (linv_empty 1500 w0) (hex_ascii _)); [|vm_compute; reflexivity..].
  by apply Forall_replicate.
Defined.
End Example.
