(* ===== verification/EventLoop.v ===== *)
(** * The event loop: [DeviceHandle::event_loop] of [device/mod.rs]

    The closures of [Handlers] and [Api] behind one [run_handler], and a turn of the
    loop that a thread runs them from. *)

From S2P Require Import Prelude Packet Crypto Session Instant Handshake RateLimiter Timers Tunnel.
From S2P Require Import AllowedIps Base64 Peer Device Epoll Handlers Api.

Section EventLoop.
Context `{Features, Crypto, Env, IpNetworkTable, Os, Base64} {K : Type} `{Epoll K}.
Abbreviation MM := (M Error (Machine (K:=K))).
Variable dst_buf : bytes.

(** What is waiting when a handler runs: datagrams on its socket, packets of the
    interface, a request on the configuration socket ([None] when there is no
    connection to accept), and what the monitor finds: is the socket's path still
    there, and the interface's [mtu] if it can be read. *)
Record Input := mkInput {
  datagrams : list (bytes * SocketAddr);
  reads : list Read;
  request : option Reader;
  path_exists : bool;
  iface_mtu : option Z;
}.
Definition nothing : Input := mkInput [] [] None true None.
Definition with_datagrams (l : list (bytes * SocketAddr)) : Input := mkInput l [] None true None.
Definition with_reads (l : list Read) : Input := mkInput [] l None true None.

Definition run_handler (h : Handler) (i : Input) : MM Action :=
  match h with
  | HYield => ret Yield
  | HExit => ret Exit
  | HLimiter => limiter_handler
  | HTimers => timers_handler dst_buf
  | HUdp udp => r <- udp_handler dst_buf udp (datagrams i);; ret r.1
  | HConn peer udp peer_addr => r <- conn_handler dst_buf peer udp peer_addr (fst <$> datagrams i);; ret r.1
  | HIface _ => r <- iface_handler dst_buf (reads i);; ret r.1
  | HApi _ => api_handler (request i)
  | HApiFd _ => api_fd_handler (default (mkReader [] true) (request i))
  | HMonitor => monitor_handler (path_exists i) (iface_mtu i)
  | HSignal => ret Exit
  end.

(** One turn of the inner loop of [event_loop]; the guard is released at the end of
    the turn. *)
Definition event_turn (i : Input) : MM Action :=
  r <- in_queue wait;;
  match r with
  | WaitOk guard =>
      h <- in_queue (guard_handler guard);;
      action <- run_handler h i;;
      (match action with Exit => trigger_exit | _ => ret tt end);;
      in_queue (drop_guard guard);;
      ret action
  | WaitEoF guard =>
      d <- the_device;;
      fd <- in_queue (guard_fd guard);;
      if (0 <=? uapi_fd (config d)) && (uapi_fd (config d) =? Z.of_nat fd) then
        trigger_exit;;
        in_queue (drop_guard guard);;
        ret Exit
      else
        in_queue (cancel guard);;
        ret Continue
  | WaitError => ret Continue
  end.
End EventLoop.
