(* ===== verification/DevLock.v ===== *)
(** * The device's lock: [device/dev_lock.rs]

    A read lock that threads hold for long, and that one of them can turn into a
    write lock: it marks its wish under a mutex, runs a function that makes the
    others yield, and writes when they have.  Threads interleave; a thread is at
    one point of [read] or [try_writeable], holds the guard, or is outside.  The
    mutex, its condition variable and the inner [RwLock] are [parking_lot]'s:
    the mutex is exclusive, [wait] releases it until the next [notify_all], and
    the inner lock lets no reader in while a writer writes or waits. *)

From S2P Require Import Prelude.

(** Where a thread is. *)
Inductive Point :=
| Outside                 (* no guard *)
| ReadLock                (* [read]: at [lock.lock()] *)
| ReadTest                (* at [while *wants_write] *)
| ReadWait | ReadWake     (* in [cvar.wait], and woken, at the mutex *)
| ReadInner               (* at [self.inner.read()] *)
| ReadReturn              (* returning, which unlocks the mutex *)
| Reading                 (* with the [LockReadGuard] *)
| UpLock                  (* [try_writeable]: at [lock.lock()] *)
| UpUnlock                (* at [RwLockReadGuard::unlocked], about to let go of the inner lock *)
| UpTest                  (* at [while *wants_write] *)
| UpWait | UpWake
| UpMarked                (* after [*wants_write = true] *)
| UpRelock                (* the mutex is unlocked; taking the inner lock again *)
| Prep                    (* in [prep_func] *)
| WriteLock               (* the inner lock was let go of; at [lock.write()] *)
| Writing                 (* in [mut_func] *)
| WriteRelock             (* it has returned; taking the inner lock again *)
| DoneLock                (* at the last [lock.lock()] *)
| DoneSignal              (* at [*wants_write = false; cvar.notify_all()] *)
| Unwind                  (* [mut_func] panicked; taking the inner lock again *)
| Broken                  (* that thread, gone *)
| Gone.                   (* a thread that panicked with the guard *)

#[global] Instance point_eq_dec : EqDecision Point.
Proof. solve_decision. Defined.

(** [wants_write], and the point of every thread. *)
Record State := mkState { wants : bool; points : list Point }.

Definition holds_mutex (p : Point) : bool :=
  match p with ReadTest | ReadInner | ReadReturn | UpUnlock | UpTest | UpMarked | DoneSignal => true | _ => false end.
Definition holds_read (p : Point) : bool :=
  match p with ReadReturn | Reading | UpLock | UpUnlock | Prep | DoneLock | DoneSignal => true | _ => false end.
Definition holds_write (p : Point) : bool := match p with Writing => true | _ => false end.

(** What a thread may acquire. *)
Definition mutex_free (s : State) : bool := negb (existsb holds_mutex (points s)).
Definition read_free (s : State) : bool :=
  negb (existsb (fun p => holds_write p || bool_decide (p = WriteLock)) (points s)).
Definition write_free (s : State) : bool := negb (existsb (fun p => holds_write p || holds_read p) (points s)).

(** With the guard a thread asks for an upgrade, drops it or panics; a writer returns
    or panics. *)
Inductive Choice := Go | Leave | Fall.

(** The next point of a thread, [None] where it must wait for others. *)
Definition next (s : State) (c : Choice) (p : Point) : option Point :=
  match p with
  | Outside => Some ReadLock
  | ReadLock | ReadWake => if mutex_free s then Some ReadTest else None
  | ReadTest => Some (if wants s then ReadWait else ReadInner)
  | ReadInner => if read_free s then Some ReadReturn else None
  | ReadReturn => Some Reading
  | Reading => Some (match c with Go => UpLock | Leave => Outside | Fall => Gone end)
  | UpLock => if mutex_free s then Some UpUnlock else None
  | UpUnlock => Some UpTest
  | UpTest => Some (if wants s then UpWait else UpMarked)
  | UpWake => if mutex_free s then Some UpTest else None
  | UpMarked => Some UpRelock
  | UpRelock => if read_free s then Some Prep else None
  | Prep => Some WriteLock
  | WriteLock => if write_free s then Some Writing else None
  | Writing => Some (match c with Fall => Unwind | _ => WriteRelock end)
  | WriteRelock => if read_free s then Some DoneLock else None
  | DoneLock => if mutex_free s then Some DoneSignal else None
  | DoneSignal => Some Reading
  | Unwind => if read_free s then Some Broken else None
  | ReadWait | UpWait | Broken | Gone => None
  end.

(** [notify_all] *)
Definition wake (p : Point) : Point := match p with ReadWait => ReadWake | UpWait => UpWake | p => p end.

(** The mark is set by the test that finds it clear, and cleared with the signal. *)
Definition advance (c : Choice) (t : nat) (s : State) : option State :=
  p ← points s !! t;
  p' ← next s c p;
  Some (match p with
        | UpTest => mkState true (<[t := p']> (points s))
        | DoneSignal => mkState false (<[t := p']> (wake <$> points s))
        | _ => mkState (wants s) (<[t := p']> (points s))
        end).

Definition step (s s' : State) : Prop := exists c t, advance c t s = Some s'.

(** [Lock::new], with threads that have not asked for it. *)
Definition fresh_lock (n : nat) : State := mkState false (replicate n Outside).

(** ** The invariant *)

(** The thread that set the mark, from then until it clears it; a thread that found it
    clear and has not left the mutex; a thread in [cvar.wait]. *)
Definition owner (p : Point) : bool :=
  match p with
  | UpMarked | UpRelock | Prep | WriteLock | Writing | WriteRelock | DoneLock | DoneSignal | Unwind | Broken => true
  | _ => false
  end.
Definition entering (p : Point) : bool := match p with ReadInner | ReadReturn => true | _ => false end.
Definition waiting (p : Point) : bool := match p with ReadWait | UpWait => true | _ => false end.

Definition at_point (s : State) (t : nat) (p : Point) : Prop := points s !! t = Some p.

Record inv (s : State) : Prop := {
  i_mutex t t' p p' : at_point s t p -> at_point s t' p' -> holds_mutex p = true -> holds_mutex p' = true -> t = t';
  i_owner t t' p p' : at_point s t p -> at_point s t' p' -> owner p = true -> owner p' = true -> t = t';
  i_marked t p : at_point s t p -> owner p = true -> wants s = true;
  i_mark : wants s = true -> exists t p, at_point s t p /\ owner p = true;
  i_entering t p : at_point s t p -> entering p = true -> wants s = false;
  i_waiting t p : at_point s t p -> waiting p = true -> wants s = true;
  i_write t t' p' : at_point s t Writing -> at_point s t' p' -> holds_read p' = false;
}.

Lemma none_of (f : Point -> bool) s : negb (existsb f (points s)) = true ->
  forall t p, at_point s t p -> f p = false.
Proof.
  intros Hn t p Hp. apply negb_true_iff in Hn. destruct (f p) eqn:E; [|done].
  assert (existsb f (points s) = true); [|congruence]. apply existsb_exists. exists p. split; [|done].
  apply list_elem_of_In. by eapply list_elem_of_lookup_2.
Qed.
Lemma some_of (f : Point -> bool) s : negb (existsb f (points s)) = false -> exists t p, at_point s t p /\ f p = true.
Proof.
  intros Hn. apply negb_false_iff, existsb_exists in Hn as (p & Hin & Hf). apply list_elem_of_In, list_elem_of_lookup in Hin as [t Ht].
  by exists t, p.
Qed.

(** A thread moves, and the mark stays as it is. *)
Lemma inv_move t p q s : inv s -> at_point s t p ->
  (holds_mutex q = true -> holds_mutex p = true \/ mutex_free s = true) -> owner q = owner p ->
  (entering q = true -> wants s = false) -> (waiting q = true -> wants s = true) ->
  (holds_read q = true -> holds_read p = true \/ read_free s = true \/ wants s = false) ->
  (q = Writing -> write_free s = true) ->
  inv (mkState (wants s) (<[t := q]> (points s))).
Proof.
  intros [Im Io Ik Ie In Iw Ix] Hp Hm Ho He Hw Hr Hwr. unfold at_point in *. cbn.
  assert (Hfree : forall t' p', points s !! t' = Some p' -> t <> t' -> holds_mutex q = true -> holds_mutex p' = false).
  { intros t' p' Hp' Hne Hq. destruct (holds_mutex p') eqn:E; [|done]. exfalso. destruct (Hm Hq) as [Hm'|Hf].
    - by apply Hne, (Im t t' p p').
    - by rewrite (none_of holds_mutex s Hf t' p' Hp') in E. }
  split; unfold at_point; cbn.
  - intros a b x y [(<- & <- & _)|[Na Ha]]%list_lookup_insert_Some [(<- & <- & _)|[Nb Hb]]%list_lookup_insert_Some; intros; try done.
    + by rewrite (Hfree b y) in * by done.
    + by rewrite (Hfree a x) in * by done.
    + by eapply Im.
  - intros a b x y [(<- & <- & _)|[Na Ha]]%list_lookup_insert_Some [(<- & <- & _)|[Nb Hb]]%list_lookup_insert_Some Hx Hy; try done.
    + rewrite Ho in Hx. by apply (Io t b p y).
    + rewrite Ho in Hy. by apply (Io a t x p).
    + by eapply Io.
  - intros a x [(<- & <- & _)|[Na Ha]]%list_lookup_insert_Some Hx; [rewrite Ho in Hx|]; by eapply Ik.
  - intros Hs. destruct (Ie Hs) as (a & x & Ha & Hx). destruct (decide (t = a)) as [<-|Hne].
    + exists t, q. rewrite list_lookup_insert_eq by (by eapply lookup_lt_Some). split; [done|]. rewrite Ho. congruence.
    + exists a, x. by rewrite list_lookup_insert_ne.
  - intros a x [(<- & <- & _)|[Na Ha]]%list_lookup_insert_Some Hx; [by apply He|by eapply In].
  - intros a x [(<- & <- & _)|[Na Ha]]%list_lookup_insert_Some Hx; [by apply Hw|by eapply Iw].
  - intros a b y [(<- & Ea & _)|[Na Ha]]%list_lookup_insert_Some [(<- & <- & _)|[Nb Hb]]%list_lookup_insert_Some.
    + by subst q.
    + pose proof (none_of _ s (Hwr Ea) b y Hb) as Hn. by apply orb_false_iff in Hn as [_ ?].
    + destruct (holds_read q) eqn:Eq; [|done]. exfalso. destruct (Hr eq_refl) as [Hrp|[Hf|Hf]].
      * by rewrite (Ix a t p) in Hrp.
      * by pose proof (none_of _ s Hf a Writing Ha) as Hn.
      * by rewrite (Ik a Writing) in Hf.
    + by eapply Ix.
Qed.

Lemma inv_mark t s : inv s -> at_point s t UpTest -> wants s = false -> inv (mkState true (<[t := UpMarked]> (points s))).
Proof.
  intros [Im Io Ik Ie In Iw Ix] Hp Hs. unfold at_point in *.
  assert (Hno : forall a x, points s !! a = Some x -> owner x = false).
  { intros a x Ha. destruct (owner x) eqn:E; [|done]. by rewrite (Ik a x Ha E) in Hs. }
  split; unfold at_point; cbn.
  - intros a b x y [(<- & <- & _)|[Na Ha]]%list_lookup_insert_Some [(<- & <- & _)|[Nb Hb]]%list_lookup_insert_Some Hx Hy; try done.
    + by apply (Im t b UpTest y).
    + by apply (Im a t x UpTest).
    + by eapply Im.
  - intros a b x y [(<- & <- & _)|[Na Ha]]%list_lookup_insert_Some [(<- & <- & _)|[Nb Hb]]%list_lookup_insert_Some Hx Hy; try done.
    + by rewrite (Hno b y Hb) in Hy.
    + by rewrite (Hno a x Ha) in Hx.
    + by rewrite (Hno a x Ha) in Hx.
  - done.
  - intros _. exists t, UpMarked. by rewrite list_lookup_insert_eq by (by eapply lookup_lt_Some).
  - intros a x [(<- & <- & _)|[Na Ha]]%list_lookup_insert_Some Hx; [done|]. exfalso. apply Na.
    apply (Im t a UpTest x Hp Ha eq_refl). by destruct x.
  - done.
  - intros a b y [(<- & ? & _)|[Na Ha]]%list_lookup_insert_Some; [done|]. by pose proof (Hno a Writing Ha).
Qed.

Lemma inv_signal t s : inv s -> at_point s t DoneSignal ->
  inv (mkState false (<[t := Reading]> (wake <$> points s))).
Proof.
  intros [Im Io Ik Ie In Iw Ix] Hp. unfold at_point in *.
  assert (Hback : forall a x, (wake <$> points s) !! a = Some x -> exists y, points s !! a = Some y /\ x = wake y).
  { intros a x. rewrite list_lookup_fmap. destruct (points s !! a) as [y|]; [|done]. intros [= <-]. by exists y. }
  assert (Hno : forall a x, a <> t -> (wake <$> points s) !! a = Some x -> owner x = false).
  { intros a x Hne (y & Ha & ->)%Hback. destruct (owner (wake y)) eqn:E; [|done]. exfalso. apply Hne.
    apply (Io a t y DoneSignal Ha Hp); [by destruct y|done]. }
  assert (Hmx : forall y, holds_mutex (wake y) = holds_mutex y) by (by intros []).
  split; unfold at_point; cbn.
  - intros a b x y [(<- & <- & _)|[Na Ha]]%list_lookup_insert_Some [(<- & <- & _)|[Nb Hb]]%list_lookup_insert_Some Hx Hy; try done.
    apply Hback in Ha as (x' & Ha & ->). apply Hback in Hb as (y' & Hb & ->). rewrite Hmx in *. by eapply Im.
  - intros a b x y [(<- & <- & _)|[Na Ha]]%list_lookup_insert_Some [(<- & <- & _)|[Nb Hb]]%list_lookup_insert_Some Hx Hy; try done.
    by rewrite (Hno a x (not_eq_sym Na) Ha) in Hx.
  - intros a x [(<- & <- & _)|[Na Ha]]%list_lookup_insert_Some Hx; [done|]. by rewrite (Hno a x (not_eq_sym Na) Ha) in Hx.
  - done.
  - done.
  - intros a x [(<- & <- & _)|[Na Ha]]%list_lookup_insert_Some Hx; [done|]. apply Hback in Ha as (x' & _ & ->). by destruct x'.
  - intros a b y [(<- & ? & _)|[Na Ha]]%list_lookup_insert_Some; [done|]. by pose proof (Hno a Writing (not_eq_sym Na) Ha).
Qed.

Lemma inv_step s s' : step s s' -> inv s -> inv s'.
Proof.
  intros (c & t & E) Hi. unfold advance in E. destruct (points s !! t) as [p|] eqn:Hp; [|done]. cbn [mbind option_bind] in E.
  destruct (next s c p) as [q|] eqn:Hn; [|done]. cbn [mbind option_bind] in E. injection E as <-.
  destruct (decide (p = DoneSignal)) as [->|Nd]; [by injection Hn as <-; apply inv_signal|].
  destruct (decide (p = UpTest)) as [->|Nu].
  { injection Hn as <-. destruct (wants s) eqn:Hs; [|by apply inv_mark]. rewrite <- Hs. by apply (inv_move t UpTest). }
  replace (match p with UpTest => _ | DoneSignal => _ | _ => _ end) with (mkState (wants s) (<[t := q]> (points s)))
    by (destruct p; done).
  apply (inv_move t p); try done.
  all: destruct p; cbn [next] in Hn; try done; repeat case_match; simplify_eq; try done; auto.
  all: try (destruct (i_entering s Hi t ReadInner Hp eq_refl); by auto).
Qed.

Lemma fresh_inv n : inv (fresh_lock n).
Proof.
  assert (Ho : forall t p, at_point (fresh_lock n) t p -> p = Outside).
  { intros t p Hp. unfold at_point in Hp. cbn in Hp. by apply lookup_replicate in Hp as [-> _]. }
  split; try done; intros *; repeat (intros ->%Ho || intro); try done.
Qed.
Lemma reachable_inv n s : rtc step (fresh_lock n) s -> inv s.
Proof.
  intros Hr. assert (Hi : forall x, inv x -> rtc step x s -> inv s).
  { clear Hr. intros x Hx Hr. induction Hr as [|x y z Hs _ IH]; [done|]. by apply IH, (inv_step x). }
  exact (Hi _ (fresh_inv n) Hr).
Qed.

(** ** What the lock promises *)

Lemma no_new_reader s s' t p p' : inv s -> step s s' -> wants s = true -> at_point s t p -> at_point s' t p' ->
  holds_read p = false -> holds_read p' = true -> owner p = true.
Proof.
  intros Hi (c & u & E) Hw Hp Hp' Hn Hh. unfold advance in E. destruct (points s !! u) as [q|] eqn:Hq; [|done]. cbn [mbind option_bind] in E.
  destruct (next s c q) as [q'|] eqn:Hq'; [|done]. cbn [mbind option_bind] in E. injection E as <-. unfold at_point in *.
  destruct (decide (u = t)) as [->|Hne].
  - assert (q = p) as -> by congruence. assert (p' = q') as ->.
    { destruct p; cbn [points] in Hp'; rewrite list_lookup_insert_eq in Hp'; try congruence; rewrite ?length_fmap; by eapply lookup_lt_Some. }
    destruct p; cbn [next] in Hq'; try done; repeat case_match; simplify_eq; try done.
    by rewrite (i_entering s Hi t ReadInner Hq eq_refl) in Hw.
  - exfalso. assert (p' = p \/ p' = wake p) as [-> | ->]; [|congruence|by destruct p].
    destruct q; cbn [points] in Hp'; rewrite list_lookup_insert_ne in Hp' by done; rewrite ?list_lookup_fmap in Hp';
      rewrite Hp in Hp'; injection Hp' as <-; auto.
Qed.

(** C31. A writer is alone: however the threads interleave, while one runs [mut_func] no
    other thread holds the lock for reading or writing; and from the moment it
    has set its mark no thread that did not hold the lock comes to hold it, but
    the writer itself. *)
Theorem writer_is_alone n s : rtc step (fresh_lock n) s ->
  (forall t t' p, at_point s t Writing -> at_point s t' p -> t' <> t -> holds_read p = false /\ holds_write p = false) /\
  (forall s' t p p', step s s' -> wants s = true -> at_point s t p -> at_point s' t p' ->
     holds_read p = false -> holds_read p' = true -> owner p = true).
Proof.
  intros Hr. pose proof (reachable_inv n s Hr) as Hi. split.
  - intros t t' p Ht Hp Hne. split; [by eapply i_write|]. destruct p; try done. exfalso. by apply Hne, (i_owner _ Hi t' t Writing Writing).
  - intros s' t p p'. by apply no_new_reader.
Qed.

(** The threads that are neither outside nor reading, and still run. *)
Definition busy (p : Point) : bool := match p with Outside | Reading | Broken | Gone => false | _ => true end.

Lemma mutex_holder_moves s t p : inv s -> at_point s t p -> holds_mutex p = true -> exists s', advance Go t s = Some s'.
Proof.
  intros Hi Hp Hm. unfold advance. unfold at_point in Hp. rewrite Hp. cbn [mbind option_bind]. destruct p; try done; cbn [next]; eauto.
  destruct (read_free s) eqn:Hr; [eauto|]. exfalso. apply some_of in Hr as (u & q & Hu & Hq).
  assert (Ho : owner q = true) by (destruct q; done). pose proof (i_marked s Hi u q Hu Ho).
  by rewrite (i_entering s Hi t ReadInner Hp eq_refl) in *.
Qed.

(** The thread with the mark moves, or waits for a thread that reads. *)
Lemma owner_moves s t p : inv s -> mutex_free s = true -> at_point s t p -> owner p = true -> busy p = true ->
  (exists u s', advance Go u s = Some s') \/ exists u, at_point s u Reading.
Proof.
  intros Hi Hf Hp Ho Hb.
  assert (Hread : p <> Writing -> p <> WriteLock -> read_free s = true).
  { intros N1 N2. destruct (read_free s) eqn:Hr; [done|]. exfalso. apply some_of in Hr as (u & q & Hu & Hq).
    assert (owner q = true) by (by destruct q). assert (u = t) as -> by (by eapply i_owner).
    unfold at_point in *. assert (q = p) as -> by congruence. by destruct p. }
  destruct (decide (p = WriteLock)) as [->|Nw].
  - destruct (write_free s) eqn:Hw; [left; exists t; unfold advance; rewrite Hp; cbn [mbind option_bind next]; rewrite Hw; eauto|].
    apply some_of in Hw as (u & q & Hu & Hq). destruct (decide (q = Reading)) as [->|Nr]; [right; by exists u|].
    destruct (decide (q = UpLock)) as [->|Nu].
    { left. exists u. unfold advance. rewrite Hu. cbn [mbind option_bind next]. rewrite Hf. eauto. }
    exfalso. assert (Hq' : holds_mutex q = true \/ owner q = true) by (destruct q; auto). destruct Hq' as [Hq'|Hq'].
    + by rewrite (none_of _ s Hf u q Hu) in Hq'.
    + assert (u = t) as -> by (by eapply i_owner). unfold at_point in *. assert (q = WriteLock) as -> by congruence. done.
  - left. exists t. unfold advance. unfold at_point in Hp. rewrite Hp. cbn [mbind option_bind].
    destruct p; try done; cbn [next]; rewrite ?Hf, ?Hread by done; cbn; eauto.
Qed.


(** ** A writer that panics *)

(** Threads never appear or disappear. *)
Lemma step_points s s' t : step s s' -> is_Some (points s !! t) <-> is_Some (points s' !! t).
Proof.
  intros (c & u & E). unfold advance in E. destruct (points s !! u) as [q|]; [|done]. cbn [mbind option_bind] in E.
  destruct (next s c q) as [q'|]; [|done]. cbn [mbind option_bind] in E. injection E as <-. rewrite !lookup_lt_is_Some.
  destruct q; cbn [points]; by rewrite length_insert, ?length_fmap.
Qed.
Lemma broken_stays s s' t : inv s -> step s s' -> at_point s t Broken -> at_point s' t Broken /\ wants s' = true.
Proof.
  intros Hi Hs Ht. pose proof (i_marked s Hi t Broken Ht eq_refl) as Hw. assert (Hb : at_point s' t Broken).
  { destruct Hs as (c & u & E). unfold advance in E. destruct (points s !! u) as [q|] eqn:Hq; [|done]. cbn [mbind option_bind] in E.
    destruct (next s c q) as [q'|] eqn:Hn; [|done]. cbn [mbind option_bind] in E. injection E as <-. unfold at_point in *.
    assert (u <> t) by (intros ->; assert (q = Broken) as -> by congruence; done).
    destruct q; cbn [points]; rewrite list_lookup_insert_ne by done; rewrite ?list_lookup_fmap; by rewrite Ht. }
  split; [done|]. exact (i_marked s' (inv_step s s' Hs Hi) t Broken Hb eq_refl).
Qed.

(** A writer that panics locks everyone out (a bug): when [mut_func] panics its
    thread is gone, but the mark it set is never cleared: whatever the other
    threads do from then on, none that does not hold the lock will ever hold it
    again, and each that asks for it waits forever. *)
Theorem panic_locks_out n s s' t : rtc step (fresh_lock n) s -> at_point s t Broken -> rtc step s s' ->
  wants s' = true /\ forall u p p', at_point s u p -> at_point s' u p' -> holds_read p = false -> holds_read p' = false.
Proof.
  intros Hr Ht Hrs. pose proof (reachable_inv n s Hr) as Hi. clear Hr. revert Hi Ht.
  induction Hrs as [s|s s1 s' Hs _ IH]; intros Hi Ht.
  - split; [by eapply i_marked|]. intros u p p' Hp Hp'. unfold at_point in *. congruence.
  - destruct (broken_stays s s1 t Hi Hs Ht) as [Ht1 _]. pose proof (inv_step s s1 Hs Hi) as Hi1.
    destruct (IH Hi1 Ht1) as [Hw Hk]. split; [done|]. intros u p p' Hp Hp' Hn.
    destruct (proj1 (step_points s s1 u Hs) ltac:(by eexists)) as [q Hq]. apply (Hk u q p' Hq Hp').
    destruct (holds_read q) eqn:E; [|done]. exfalso.
    pose proof (no_new_reader s s1 u p q Hi Hs (i_marked s Hi t Broken Ht eq_refl) Hp Hq Hn E) as Ho.
    assert (u = t) as -> by (by eapply (i_owner s Hi u t p Broken)). unfold at_point in *.
    assert (p = Broken) as -> by congruence. assert (q = Broken) as -> by congruence. done.
Qed.

(** ** Two threads *)

Module Example.
(** The steps of a schedule. *)
Fixpoint runs (l : list (Choice * nat)) (s : State) : option State :=
  match l with [] => Some s | (c, t) :: l => s' ← advance c t s; runs l s' end.
Lemma runs_step l : forall s s', runs l s = Some s' -> rtc step s s'.
Proof.
  induction l as [|[c t] l IH]; intros s s'; cbn; [by intros [= <-]|]. destruct (advance c t s) as [s1|] eqn:E; [|done].
  intros Hr. apply rtc_l with s1; [by exists c, t|by apply IH].
Qed.
Definition got (o : option State) : State := match o with Some s => s | None => fresh_lock 0 end.

(** Both read; the first asks for an upgrade, the second yields, the first writes. *)
Definition both_read : list (Choice * nat) :=
  (Go, 0%nat) :: replicate 4 (Go, 0%nat) ++ (Go, 1%nat) :: replicate 4 (Go, 1%nat).
Definition upgrade : list (Choice * nat) := replicate 6 (Go, 0%nat) ++ [(Leave, 1%nat)].
Definition to_writing : list (Choice * nat) := both_read ++ upgrade ++ [(Go, 0%nat); (Go, 0%nat)].
Definition writing : State := mkState true [Writing; Outside].
Lemma writing_reached : rtc step (fresh_lock 2) writing.
Proof. apply (runs_step to_writing). reflexivity. Qed.

Lemma writer_is_alone_witness : at_point writing 1 Outside /\ holds_read Outside = false /\ holds_write Outside = false.
Proof.
  split; [reflexivity|]. apply (proj1 (writer_is_alone 2 writing writing_reached) 0%nat 1%nat Outside); [reflexivity|reflexivity|discriminate].
Defined.

(** The second thread reads, the first waits for it. *)
Definition blocked : State := mkState true [WriteLock; Reading].
Lemma blocked_reached : rtc step (fresh_lock 2) blocked.
Proof. apply (runs_step (both_read ++ replicate 7 (Go, 0%nat))). reflexivity. Qed.

(** The writer panics, and the second thread asks for the lock again. *)
Definition broken : State := mkState true [Broken; Outside].
Definition stuck : State := mkState true [Broken; ReadWait].
Lemma broken_reached : rtc step (fresh_lock 2) broken.
Proof. apply (runs_step (to_writing ++ [(Fall, 0%nat); (Go, 0%nat)])). reflexivity. Qed.
Lemma stuck_reached : rtc step broken stuck.
Proof. apply (runs_step (replicate 3 (Go, 1%nat))). reflexivity. Qed.
Lemma panic_locks_out_witness : wants stuck = true.
Proof. exact (proj1 (panic_locks_out 2 broken stuck 0 broken_reached eq_refl stuck_reached)). Defined.
End Example.
