(* ===== verification/HandlersSafety.v ===== *)
(** * The event handlers keep the device working

    Whatever arrives on its sockets, its interface and its timers, the handlers
    of a configured device return and keep its invariant; only packets from
    allowed addresses reach the interface; packets of the interface go to the
    peer of the longest prefix and nowhere else; a datagram that no tunnel
    accepts moves no endpoint. *)

From S2P Require Import Prelude Packet Crypto Session Instant Handshake NoiseSpec HandshakeSpec.
From S2P Require Import HandshakeProps HandshakeSafety RateLimiter Timers Tunnel TunnelSafety TunnelProps.
From S2P Require Import TimerProps.
From S2P Require Import IndexLfsr AllowedIps Peer Device DeviceProps Epoll EpollProps Handlers.

(** ** Methods of a tunnel keep its keys *)

Section Keys.
Context `{Features, Crypto, Env}.
Variable P : NoiseParams.
Definition keyed_as (t : Tunn) : Prop := params (handshake t) = P.
Definition hs_keyed_as (h : Handshake.Handshake) : Prop := params h = P.

Lemma as_macs i dst : preserves hs_keyed_as (append_mac1_and_mac2 i dst).
Proof. unfold append_mac1_and_mac2. keeps; done. Qed.
Lemma as_inc_index : preserves hs_keyed_as inc_index.
Proof. unfold inc_index. keeps; done. Qed.
#[local] Hint Resolve as_macs as_inc_index keeps_open keeps_seal keeps_stamp : keeps.
Lemma as_initiation dst : preserves hs_keyed_as (Handshake.format_handshake_initiation dst).
Proof. unfold Handshake.format_handshake_initiation. keeps; done. Qed.
Lemma as_pq_initiation dst : preserves hs_keyed_as (format_pq_handshake_initiation dst).
Proof. unfold format_pq_handshake_initiation. keeps; done. Qed.
Lemma as_receive p dst : preserves hs_keyed_as (receive_handshake_initialization p dst).
Proof. unfold receive_handshake_initialization, format_handshake_response. keeps; done. Qed.
Lemma as_pq_receive p dst : preserves hs_keyed_as (receive_pq_handshake_initialization p dst).
Proof. unfold receive_pq_handshake_initialization, format_pq_handshake_response. keeps; done. Qed.
Lemma as_response q : preserves hs_keyed_as (receive_handshake_response q).
Proof. unfold receive_handshake_response. keeps; done. Qed.
Lemma as_pq_response q : preserves hs_keyed_as (receive_pq_handshake_response q).
Proof. unfold receive_pq_handshake_response. keeps; done. Qed.
Lemma as_cookie c : preserves hs_keyed_as (receive_cookie_reply c).
Proof. unfold receive_cookie_reply. keeps; done. Qed.

Lemma as_handshake {A} (m : M WireGuardError Handshake.Handshake A) :
  preserves hs_keyed_as m -> preserves keyed_as (zoom handshake set_handshake m).
Proof. intros Hm. by apply (preserves_zoom _ _ _ _ hs_keyed_as). Qed.

Lemma as_timer_tick n : preserves keyed_as (timer_tick n).
Proof. unfold timer_tick. keeps; done. Qed.
#[local] Hint Resolve as_timer_tick : keeps.
Lemma as_established b i : preserves keyed_as (timer_tick_session_established b i).
Proof. unfold timer_tick_session_established. keeps; done. Qed.
Lemma as_clear_timers : preserves keyed_as clear_timers.
Proof. unfold clear_timers. keeps; done. Qed.
Lemma as_set_current i : preserves keyed_as (set_current_session i).
Proof. unfold set_current_session. keeps; done. Qed.
#[local] Hint Resolve as_established as_clear_timers as_set_current : keeps.
Lemma as_format dst f : preserves keyed_as (format_handshake_initiation dst f).
Proof.
  assert (Hm : preserves keyed_as (zoom handshake set_handshake
    (if pq then Handshake.format_pq_handshake_initiation dst else Handshake.format_handshake_initiation dst))).
  { apply as_handshake. destruct pq; [apply as_pq_initiation|apply as_initiation]. }
  unfold format_handshake_initiation.
  pose proof (preserves_attempt keyed_as (E:=WireGuardError) _ Hm) as Ha. keeps; done.
Qed.
#[local] Hint Resolve as_format : keeps.
Lemma as_encapsulate src dst : preserves keyed_as (encapsulate src dst).
Proof. unfold encapsulate, queue_packet. keeps; done. Qed.
#[local] Hint Resolve as_encapsulate : keeps.
Lemma as_send_queued dst : preserves keyed_as (send_queued_packet dst).
Proof. unfold send_queued_packet, dequeue_packet, requeue_packet. keeps; done. Qed.
Lemma as_on_local {T A} (x : T) (m : M WireGuardError T A) : preserves keyed_as (on_local x m).
Proof. intros t w Ht. unfold on_local. by destruct (m x w). Qed.
Lemma as_validate p : preserves keyed_as (validate_decapsulated_packet p).
Proof. unfold validate_decapsulated_packet. keeps; done. Qed.
#[local] Hint Resolve as_on_local as_validate : keeps.

Lemma as_handle p dst : preserves keyed_as (handle_verified_packet p dst).
Proof.
  pose proof (fun q => as_handshake _ (as_receive q dst)). pose proof (fun q => as_handshake _ (as_pq_receive q dst)).
  pose proof (fun q => as_handshake _ (as_response q)). pose proof (fun q => as_handshake _ (as_pq_response q)).
  pose proof (fun q => as_handshake _ (as_cookie q)).
  unfold handle_verified_packet, handle_handshake_init, handle_pq_handshake_init, handle_handshake_response,
    handle_pq_handshake_response, handle_cookie_reply, handle_data, establish_responder, establish_initiator.
  destruct p; keeps; done.
Qed.
Lemma as_update_session n : preserves keyed_as (update_session_timers n).
Proof.
  unfold update_session_timers. generalize (seq 0 (Z.to_nat N_SESSIONS)) as l.
  induction l; cbn [for_each]; unfold expire_session, dur_sub; keeps; done.
Qed.
#[local] Hint Resolve as_update_session : keeps.
Lemma as_update time dst : preserves keyed_as (update_tunn time dst).
Proof.
  unfold update_tunn, idle_timers, clear_all, and_then, elapsed, take_want_handshake, take_want_keepalive, dur_sub.
  keeps; done.
Qed.
End Keys.

Section Frame.
Context `{Features, Crypto, Env}.
Variables (P : NoiseParams) (hp0 : gmap nat RateLimiter).

(** A tunnel with these keys, and no limiter of [hp0] lost. *)
Definition framed (s : Process) : Prop :=
  keyed_as P (tunn s) /\ forall x, is_Some (hp0 !! x) -> is_Some (heap s !! x).

Lemma framed_in_tunn {A} (m : M WireGuardError Tunn A) : preserves (keyed_as P) m -> preserves framed (in_tunn m).
Proof.
  intros Hm. apply (preserves_zoom _ _ _ _ (keyed_as P)); [done|by intros s [? _]|].
  intros s t [_ Hl] Ht. by split.
Qed.

Lemma framed_limiter {E A} (m : M E RateLimiter A) : preserves framed (with_limiter m).
Proof.
  intros s w [Hk Hl]. unfold with_limiter. destruct (heap s !! _) as [l|]; [|done]. unfold zoom.
  assert (Hf : forall l', framed (mkProcess (tunn s) (<[rate_limiter (tunn s) := l']> (heap s)))).
  { intros l'. split; [done|]. intros x Hx. cbn. destruct (decide (rate_limiter (tunn s) = x)) as [<-|Hne];
      [by rewrite lookup_insert_eq|rewrite lookup_insert_ne by done; by apply Hl]. }
  destruct (m l w); auto.
Qed.

Lemma framed_decapsulate addr datagram dst : preserves framed (decapsulate addr datagram dst).
Proof.
  pose proof (fun p => framed_in_tunn _ (as_handle P p dst)). pose proof (framed_in_tunn _ (as_send_queued P dst)).
  pose proof (preserves_attempt framed (E:=WireGuardError) _ (framed_limiter (verify_packet addr datagram (zeros COOKIE_REPLY_SZ)))).
  unfold decapsulate. keeps; done.
Qed.

Lemma framed_update_timers dst : preserves framed (update_timers dst).
Proof.
  pose proof (fun n => framed_in_tunn _ (as_update P n dst)). pose proof (framed_limiter (E:=WireGuardError) reset_count).
  unfold update_timers. keeps; done.
Qed.
End Frame.

(** ** Flushing the queue ends *)

Section Flush.
Context `{Features, Crypto, Env, !CryptoLaws, !MonotoneClock}.

(** How often the loop calls the tunnel: once per packet and once more with a
    session, else until an initiation is on its way. *)
Definition calls_left (t : Tunn) : nat :=
  match session_in (slot (current t)) t with
  | Some _ => length (packet_queue t) + 1
  | None => if is_in_progress (handshake t) then 1 else 2
  end.

Definition same_ring (t0 t : Tunn) : Prop := sessions t = sessions t0 /\ current t = current t0.
Lemma same_ring_tick t0 n : preserves (same_ring t0) (timer_tick n).
Proof. unfold timer_tick. keeps; done. Qed.
Lemma same_ring_initiation t0 dst f : preserves (same_ring t0) (format_handshake_initiation dst f).
Proof. pose proof (same_ring_tick t0). unfold format_handshake_initiation, clear_timers. keeps; done. Qed.

Lemma send_queued_progress peer dst t w pkt t' w' :
  inv peer t w -> Forall (fits dst) (packet_queue t) -> (initiation_size <= length dst)%nat ->
  send_queued_packet dst t w = Ok (WriteToNetwork pkt) t' w' -> (calls_left t' < calls_left t)%nat.
Proof.
  intros Ht Hf L E. destruct (packet_queue t) as [|p rest] eqn:Eq.
  { unfold send_queued_packet, dequeue_packet in E. step in E. by rewrite Eq in E. }
  apply Forall_cons_iff in Hf as [Hp _]. unfold calls_left at 2.
  destruct (session_in (slot (current t)) t) as [s|] eqn:Es.
  - destruct (send_queued_sends p rest dst t w s Eq Es Hp) as (f & n & E'). rewrite E in E'. injection E' as _ -> _.
    unfold calls_left. rewrite Eq.
    change (session_in (slot (current _)) _) with (session_in (slot (current t))
      (set_session (slot (current t)) (Some (TunnelProps.advance s)) (set_packet_queue rest t))).
    rewrite session_in_set by (cbn; rewrite (proj1 (proj1 (proj2 Ht))); apply slot_lt). rewrite decide_True by done. cbn. lia.
  - unfold send_queued_packet, dequeue_packet in E. unfold bind at 1 in E. unfold bind at 1 in E. cbn [get] in E. rewrite Eq in E.
    unfold bind at 1 in E. cbn [modify ret] in E. unfold bind at 1, encapsulate in E. unfold bind at 1 in E. cbn [get] in E.
    change (session_in _ (set_packet_queue rest t)) with (session_in (slot (current t)) t) in E. rewrite Es in E.
    unfold bind at 1 in E. destruct (queue_packet_eq p (set_packet_queue rest t) w) as (q & Eqp). rewrite Eqp in E.
    set (t2 := set_packet_queue q _) in E. destruct (is_in_progress (handshake t)) eqn:Ei.
    { unfold format_handshake_initiation in E. unfold bind at 1 in E. cbn [get] in E.
      change (handshake t2) with (handshake t) in E. by rewrite Ei in E. }
    destruct (initiation_sent peer dst false t2 w) as (r & t3 & w3 & E3 & m & i & -> & _ & St & _);
      [exact (proj1 Ht)|done|by left|].
    pose proof (same_ring_initiation t2 dst false t2 w (conj eq_refl eq_refl)) as Hr. rewrite E3 in E, Hr. cbn in E.
    injection E as _ <- _. destruct Hr as [Hr1 Hr2].
    assert (Es' : session_in (slot (current t3)) t3 = None) by (unfold session_in; rewrite Hr1, Hr2; exact Es).
    unfold calls_left. rewrite Es'.
    unfold is_in_progress. rewrite St. lia.
Qed.

Lemma calls_left_bound peer t w : inv peer t w -> (1 <= calls_left t <= MAX_QUEUE_DEPTH + 2)%nat.
Proof.
  intros (_ & _ & _ & Hq). unfold calls_left. destruct (session_in _ t); [unfold MAX_QUEUE_DEPTH in *; lia|].
  destruct (is_in_progress _); unfold MAX_QUEUE_DEPTH; lia.
Qed.
End Flush.

(** ** The invariant of a device that serves *)

Section Serving.
Context `{Features, Crypto, Env, IpNetworkTable, Os, !CryptoLaws, !MonotoneClock, !IpNetworkTableLaws}.
Context {K : Type} `{EpollLaws K}.
Variables (longest : nat) (dst_buf : bytes) (d : Device) (allows : nat -> option (AllowedIps unit)).
Abbreviation Mach := (Machine (K:=K)).

(** A packet for the interface comes from an address that its peer may use. *)
Definition lawful (o : Output) : Prop :=
  match o with
  | WriteTun pkt => exists a ips src, allows a = Some ips /\ is_Some (find src ips) /\ from_peer src pkt
  | _ => True
  end.

(** The handlers change neither the tables nor the addresses of a peer. *)
Record serving (m : Mach) (w : World) : Prop := {
  v_dinv : dinv longest (sys m) w;
  v_device : device (sys m) = d;
  v_allows a : allowed_ips <$> store (sys m) !! a = allows a;
  v_queue : sound (queue m);
  v_sent : Forall lawful (sent m);
}.

(** The environment: buffers of the size of [ThreadData], a longest packet that fits
    with the header and the tag, sockets that can be closed and cloned, a
    kernel with room for another descriptor. *)
Record environment : Prop := {
  e_buffer : length dst_buf = MAX_UDP_SIZE;
  e_longest : (longest + 64 <= MAX_UDP_SIZE)%nat;
  e_shutdown c : shutdown_ok c = true;
  e_clone n c : is_Some (try_clone n c);
  e_add n fd e (k : K) : interest k fd = None -> (ctl_add n fd e k).1 = true;
}.
Hypothesis He : environment.

Lemma buffer_size : Z.of_nat (length dst_buf) = 65535.
Proof. rewrite (e_buffer He). unfold MAX_UDP_SIZE. rewrite Z2Nat.id; lia. Qed.
Lemma longest_size : Z.of_nat longest + 64 <= 65535.
Proof. pose proof (e_longest He) as L. rewrite <- (e_buffer He) in L. pose proof buffer_size. lia. Qed.
Lemma room_for_initiation : (initiation_size <= length dst_buf)%nat.
Proof.
  pose proof buffer_size. unfold initiation_size, PQ_HANDSHAKE_INIT_SZ, HANDSHAKE_INIT_SZ. destruct pq; lia.
Qed.

Lemma serving_later m w w' : serving m w -> later w w' -> serving m w'.
Proof. intros [V E A Q S] L. split; [by eapply dinv_later|done..]. Qed.

(** The tunnel of one peer moves on. *)
Definition with_tunn (a : nat) (p : Peer) (t : Process) (m : Mach) : Mach :=
  mkMachine (mkSystem (device (sys m)) (<[a := set_tunnel (tunn t) p]> (store (sys m))) (heap t))
    (queue m) (yield_notice m) (exit_notice m) (sent m).

Lemma with_tunnel_eq {A} a p (f : M WireGuardError Process A) (m : Mach) w : store (sys m) !! a = Some p ->
  in_sys (with_tunnel a f) m w = match f (mkProcess (tunnel p) (limiters (sys m))) w with
    | Ok r t w' => Ok r (with_tunn a p t m) w' | _ => Panic end.
Proof.
  intros E. unfold in_sys, with_tunnel. rewrite E. unfold zoom. by destruct (f _ w).
Qed.

Lemma serving_tunn a p t (m : Mach) w w' : serving m w -> later w w' -> store (sys m) !! a = Some p ->
  pinv (index p) longest t w' -> framed (params (handshake (tunnel p))) (limiters (sys m)) t ->
  serving (with_tunn a p t m) w'.
Proof.
  intros Hm L E Hp [Hk Hg]. apply (serving_later m w w') in Hm as [V D A Q S]; [|done]. pose proof V as [Vk Vi Vp Vs Vr Vy Vz].
  assert (Ho : forall b q, store (sys m) !! b = Some q -> exists q', <[a := set_tunnel (tunn t) p]> (store (sys m)) !! b = Some q' /\
    index q' = index q /\ allowed_ips q' = allowed_ips q /\ params (handshake (tunnel q')) = params (handshake (tunnel q))).
  { intros b q Hb. destruct (decide (a = b)) as [<-|Hne]; [|exists q; by rewrite lookup_insert_ne].
    exists (set_tunnel (tunn t) p). assert (q = p) as -> by congruence. rewrite lookup_insert_eq. by split_and!. }
  split; [split|..]; cbn.
  - intros pk b Hb. destruct (Vk pk b Hb) as (q & Hq & (Ek & sk & K1 & K2 & K3) & Hi).
    destruct (Ho b q Hq) as (q' & Hq' & Ei & _ & Epr). exists q'. rewrite Ei. split_and!; [done| |done].
    split; [by rewrite Epr|]. exists sk. by rewrite Epr.
  - intros i b Hb. destruct (Vi i b Hb) as (pk & q & Hpk & Hq & Hi). destruct (Ho b q Hq) as (q' & Hq' & Ei & _).
    exists pk, q'. by rewrite Ei.
  - exact Vp.
  - intros b q [[<- <-]|[_ Hb]]%lookup_insert_Some; [by destruct t|].
    eapply running_grows; [exact (Vs b q Hb)|exact Hg].
  - exact Vr.
  - exact Vy.
  - intros l El. by apply Hg, Vz.
  - exact D.
  - intros b. rewrite <- A. destruct (decide (a = b)) as [<-|Hne]; [by rewrite lookup_insert_eq, E|by rewrite lookup_insert_ne].
  - exact Q.
  - exact S.
Qed.

Lemma known a (m : Mach) w : serving m w -> is_Some (allows a) ->
  exists p, store (sys m) !! a = Some p /\ allows a = Some (allowed_ips p) /\
    pinv (index p) longest (mkProcess (tunnel p) (limiters (sys m))) w.
Proof.
  intros Hm [ips Ha]. pose proof (v_allows _ _ Hm a) as E. rewrite Ha in E.
  destruct (store (sys m) !! a) as [p|] eqn:Ep; [|done]. exists p. split_and!; [done|rewrite Ha; by symmetry|].
  by apply (d_store _ _ _ (v_dinv _ _ Hm) a).
Qed.

(** A method of the tunnel of a peer. *)
Lemma safe_with_tunnel {A} a (Q : A -> Prop) (f : M WireGuardError Process A) : is_Some (allows a) ->
  (forall i s w, pinv i longest s w -> ok (pinv i longest) Q w (f s w)) -> nofail f ->
  (forall P hp, preserves (framed P hp) f) -> safe serving Q (in_sys (with_tunnel a f)).
Proof.
  intros Ha Hf Hn Hp m w Hm. destruct (known a m w Hm Ha) as (p & E & _ & Hi). rewrite (with_tunnel_eq a p f m w E).
  specialize (Hf _ _ _ Hi). specialize (Hn (mkProcess (tunnel p) (limiters (sys m))) w).
  specialize (Hp (params (handshake (tunnel p))) (limiters (sys m)) (mkProcess (tunnel p) (limiters (sys m))) w (conj eq_refl (fun x Hx => Hx))).
  destruct (f _ w) as [r t w'|e t w'|]; [|done..]. destruct Hf as (Ht & L & HQ). split_and!; [|done|done].
  by eapply serving_tunn.
Qed.

(** A method of a peer that leaves its tunnel alone. *)
Definition with_endpoint (a : nat) (p : Peer) (e : Endpoint) (m : Mach) : Mach :=
  mkMachine (mkSystem (device (sys m)) (<[a := set_endpoint_cell e p]> (store (sys m))) (limiters (sys m)))
    (queue m) (yield_notice m) (exit_notice m) (sent m).

Lemma lock_eq {A} a p (f : M WireGuardError Peer A) (m : Mach) w r e w' : store (sys m) !! a = Some p ->
  f p w = Ok r (set_endpoint_cell e p) w' -> in_sys (lock a f) m w = Ok r (with_endpoint a p e m) w'.
Proof. intros E Ef. unfold in_sys, lock. rewrite E. unfold zoom. by rewrite Ef. Qed.

Lemma serving_endpoint a p e (m : Mach) w w' : serving m w -> later w w' -> store (sys m) !! a = Some p ->
  serving (with_endpoint a p e m) w'.
Proof.
  intros Hm L E. apply (serving_later m w w') in Hm as [V D B Q' S]; [|done]. split; [|exact D| |exact Q'|exact S].
  - by apply dinv_endpoint.
  - intros b. rewrite <- B. cbn. destruct (decide (a = b)) as [<-|Hne]; [by rewrite lookup_insert_eq, E|by rewrite lookup_insert_ne].
Qed.

(** More limiters, as good. *)
Definition with_limiters (hp : gmap nat RateLimiter) (m : Mach) : Mach :=
  mkMachine (mkSystem (device (sys m)) (store (sys m)) hp) (queue m) (yield_notice m) (exit_notice m) (sent m).

Lemma serving_limiters hp (m : Mach) w w' : serving m w -> later w w' ->
  (forall x, is_Some (limiters (sys m) !! x) -> is_Some (hp !! x)) -> serving (with_limiters hp m) w'.
Proof.
  intros Hm L Hg. apply (serving_later m w w') in Hm as [V D B Q' S]; [|done]. split; [|exact D|exact B|exact Q'|exact S].
  pose proof V as [Vk Vi Vp Vs Vr Vy Vz]. split; cbn; [exact Vk|exact Vi|exact Vp| |exact Vr|exact Vy|].
  - intros a p Hp. by eapply running_grows; [exact (Vs a p Hp)|].
  - intros l El. by apply Hg, Vz.
Qed.

Lemma safe_emit o : lawful o -> safe serving (fun _ => True) (emit o).
Proof.
  intros Ho m w [V D A Q S]. cbn. split_and!; [|done|done]. split; [done..|]. cbn. by apply Forall_app_2; [|constructor].
Qed.

Lemma safe_the_device : safe serving (fun x => x = d) the_device.
Proof. intros m w Hm. cbn. split_and!; [done|done|apply Hm]. Qed.

Lemma safe_peer_at a : is_Some (allows a) -> safe serving (fun p => allows a = Some (allowed_ips p)) (peer_at a).
Proof.
  intros Ha m w Hm. destruct (known a m w Hm Ha) as (p & E & Ea & _). unfold peer_at. step. rewrite E. by cbn.
Qed.

Lemma safe_to_interface a src pkt : is_Some (allows a) -> from_peer src pkt ->
  safe serving (fun _ => True) (to_interface a src pkt).
Proof.
  intros Ha Hf. unfold to_interface. eapply safe_bind; [by apply safe_peer_at|]. intros p Hp. unfold is_allowed_ip.
  case_bool_decide as Hx; [|by apply safe_ret]. apply safe_emit. by exists a, (allowed_ips p), src.
Qed.

(** The loop over the queue: it ends, after at most [calls_left] calls. *)
Lemma flush_loop_ok fuel send a : is_Some (allows a) -> (forall pkt, lawful (send pkt)) -> forall m w p,
  serving m w -> store (sys m) !! a = Some p -> (calls_left (tunnel p) <= fuel)%nat ->
  exists m' w' pkts, flush_loop dst_buf fuel send a m w = Ok tt m' w' /\ serving m' w' /\ later w w' /\
    sent m' = sent m ++ (send <$> pkts) /\ (length pkts < calls_left (tunnel p))%nat.
Proof.
  intros Ha Hsend. pose proof longest_size. pose proof buffer_size.
  induction fuel as [|fuel IH]; intros m w p Hm E Hc; destruct (known a m w Hm Ha) as (p' & E' & _ & Hi);
    assert (p' = p) as -> by congruence; pose proof (calls_left_bound (index p) (tunnel p) w (proj1 Hi)); [lia|].
  cbn [flush_loop]. unfold bind at 1. rewrite (with_tunnel_eq a p _ m w E).
  pose proof (ok_decapsulate (index p) longest None [] dst_buf _ w Hi ltac:(split; cbn; lia)) as Hok.
  pose proof (nofail_perform (Decapsulate None [] dst_buf) (mkProcess (tunnel p) (limiters (sys m))) w) as Hn. cbn [perform] in Hn.
  pose proof (framed_decapsulate (params (handshake (tunnel p))) (limiters (sys m)) None [] dst_buf
    (mkProcess (tunnel p) (limiters (sys m))) w (conj eq_refl (fun x Hx => Hx))) as Hf.
  pose proof (perform_empty None dst_buf (mkProcess (tunnel p) (limiters (sys m))) w) as Ee. cbn [perform] in Ee. rewrite Ee in *.
  assert (Hfits : Forall (fits dst_buf) (packet_queue (tunnel p))).
  { eapply Forall_impl; [|apply Hi]. intros x Hs. unfold fits, short, DATA_OVERHEAD_SZ in *. lia. }
  pose proof (fun pkt t' w' => send_queued_progress (index p) dst_buf (tunnel p) w pkt t' w' (proj1 Hi) Hfits room_for_initiation) as Hpr.
  unfold in_tunn, zoom in *. cbn [tunn] in *. destruct (send_queued_packet dst_buf (tunnel p) w) as [r t w1|e t w1|]; [|done..].
  destruct Hok as (Hp1 & L1 & _). pose proof (serving_tunn a p _ m w w1 Hm L1 E Hp1 Hf) as Hm1.
  assert (Hend : exists m' w' pkts, ret (E:=Error) tt (with_tunn a p (mkProcess t (limiters (sys m))) m) w1 = Ok tt m' w' /\
    serving m' w' /\ later w w' /\ sent m' = sent m ++ (send <$> pkts) /\ (length pkts < calls_left (tunnel p))%nat).
  { eexists _, _, []. split_and!; [done|exact Hm1|done|cbn; by rewrite app_nil_r|cbn; lia]. }
  destruct r as [|e|pkt|pkt x|pkt x]; try exact Hend. clear Hend. specialize (Hpr pkt t w1 eq_refl).
  unfold bind at 1. cbn [emit modify].
  destruct (safe_emit (send pkt) (Hsend pkt) _ _ Hm1) as (Hm2 & _ & _). cbn in Hm2.
  edestruct (IH _ w1 (set_tunnel t p) Hm2) as (m' & w' & pkts & Em & Hm' & L' & Es & Hlen).
  - cbn. by rewrite lookup_insert_eq.
  - cbn. lia.
  - exists m', w', (pkt :: pkts). split_and!; [exact Em|done|by etrans| |cbn in *; lia].
    rewrite Es. cbn. by rewrite <- app_assoc.
Qed.

Lemma safe_flush send a : is_Some (allows a) -> (forall pkt, lawful (send pkt)) ->
  safe serving (fun _ => True) (flush_queue dst_buf send a).
Proof.
  intros Ha Hs m w Hm. destruct (known a m w Hm Ha) as (p & E & _ & Hi). unfold flush_queue.
  destruct (flush_loop_ok (MAX_QUEUE_DEPTH + 2) send a Ha Hs m w p Hm E) as (m' & w' & pkts & -> & Hm' & L & _).
  - apply (calls_left_bound (index p) (tunnel p) w), Hi.
  - by cbn.
Qed.

Lemma safe_handle_result send a r : is_Some (allows a) -> (forall pkt, lawful (send pkt)) -> inbound r ->
  safe serving (fun _ => True) (handle_result dst_buf send a r).
Proof.
  intros Ha Hs Hr. destruct r as [|e|pkt|pkt x|pkt x]; cbn [handle_result].
  - by apply safe_ret.
  - by apply safe_ret.
  - eapply safe_bind; [by apply safe_emit|]. intros _ _. by apply safe_flush.
  - by apply safe_to_interface.
  - by apply safe_to_interface.
Qed.

(** ** Endpoints *)

Lemma shutdown_endpoint_ok {E} p w : exists e, shutdown_endpoint (E:=E) p w = Ok tt (set_endpoint_cell e p) w.
Proof.
  rewrite shutdown_endpoint_eq. destruct (ep_conn _) as [c|]; [rewrite (e_shutdown He); by eexists|].
  exists (endpoint p). by destruct p.
Qed.

Lemma set_endpoint_ok {E} addr p w : exists e,
  set_endpoint (E:=E) addr p w = Ok tt (set_endpoint_cell e p) w /\ ep_addr e = Some addr.
Proof.
  unfold set_endpoint, shutdown. step. case_bool_decide as Ha.
  - destruct (ep_conn _) as [c|]; step; [rewrite (e_shutdown He)|]; step; eexists; by split.
  - exists (endpoint p). split; [by destruct p|]. by destruct (decide (ep_addr (endpoint p) = Some addr)).
Qed.

Lemma connect_endpoint_ok port mark p w : is_Some (ep_addr (endpoint p)) -> exists r e w',
  attempt (E:=WireGuardError) (connect_endpoint port mark) p w = Ok r (set_endpoint_cell e p) w' /\ later w w'.
Proof.
  intros [addr Ha]. unfold connect_endpoint. step.
  assert (Hp : p = set_endpoint_cell (endpoint p) p) by (by destruct p).
  case_bool_decide; [exists (inr Connect), (endpoint p), w; by rewrite <- Hp|]. rewrite Ha. step.
  destruct (open_connected _ _ _ _) as [s|e]; step.
  - destruct (e_clone He (S (calls w)) s) as [c Ec]. cbn [calls]. rewrite Ec. step.
    eexists _, _, _. split; [reflexivity|unfold later; cbn; lia].
  - eexists _, (endpoint p), _. rewrite <- Hp. split; [reflexivity|unfold later; cbn; lia].
Qed.

Lemma safe_shutdown_endpoint a : is_Some (allows a) -> safe serving (fun _ => True) (in_sys (lock a shutdown_endpoint)).
Proof.
  intros Ha m w Hm. destruct (known a m w Hm Ha) as (p & E & _). destruct (shutdown_endpoint_ok (E:=WireGuardError) p w) as (e & Ee).
  rewrite (lock_eq a p _ m w _ _ _ E Ee). cbn. split_and!; [by eapply serving_endpoint|done|done].
Qed.

Lemma safe_register_conn a sock addr : safe serving (fun _ => True) (unwrapped (register_conn_handler a sock addr)).
Proof.
  intros m w Hm. unfold unwrapped, register_conn_handler, in_queue, new_event. step. set (ev := mkEvent _ _ _ _ _).
  pose proof (register_sound ev (queue m) w (v_queue _ _ Hm) eq_refl) as Hr.
  destruct (register_event ev (queue m) w) as [r q' w'|e q' w'|]; [| |done].
  - step. cbn. destruct Hr as [Hq L]. split_and!; [|done|done]. apply (serving_later m w w') in Hm as [V D A _ S]; [|done].
    by split.
  - destruct Hr as (_ & _ & n & fd & e' & k & Hi & Hadd). by rewrite (e_add He) in Hadd.
Qed.

(** ** A datagram of a listening socket *)

Lemma nofail_handle_verified p : nofail (in_tunn (handle_verified_packet p dst_buf)).
Proof.
  intros s w. unfold in_tunn, zoom, handle_verified_packet, bind, attempt. by destruct (_ (tunn s) w).
Qed.

Lemma safe_handle_at a p packet : is_Some (allows a) -> parse_incoming_packet packet = inl p ->
  (length packet <= MAX_UDP_SIZE)%nat ->
  safe serving inbound (in_sys (with_tunnel a (in_tunn (handle_verified_packet p dst_buf)))).
Proof.
  intros Ha Hp L. pose proof buffer_size. rewrite <- (e_buffer He) in L.
  pose proof (parse_complete _ _ Hp) as (macs & W & Lm & Hpq & ->).
  apply safe_with_tunnel; [done| |apply nofail_handle_verified|intros; apply framed_in_tunn, as_handle].
  intros i s w Hs. apply ok_in_tunn; [done| |apply uses_handle].
  apply (ok_weaken _ typed); [|by intros r []].
  apply safe_handle_verified_packet; [done|done|unfold DATA_OVERHEAD_SZ; lia| |apply Hs].
  intros x ->. cbn [encode] in L. len.
Qed.

Lemma safe_verify l addr packet : dev_rate_limiter d = Some l ->
  safe serving (fun v => match v with inl p => parse_incoming_packet packet = inl p | inr _ => True end)
    (verify dst_buf l addr packet).
Proof.
  intros Hl m w Hm. destruct (d_limiter _ _ _ (v_dinv _ _ Hm) l) as [x Hx]; [by rewrite (v_device _ _ Hm)|].
  unfold verify, in_sys, in_limiters, zoom. rewrite Hx. unfold attempt.
  pose proof (verify_returns (Some addr) packet dst_buf x w) as Hv.
  assert (Hg : forall y z, is_Some (limiters (sys m) !! z) -> is_Some (<[l := y]> (limiters (sys m)) !! z)).
  { intros y z Hz. destruct (decide (l = z)) as [<-|Hne]; [by rewrite lookup_insert_eq|by rewrite lookup_insert_ne]. }
  destruct (verify_packet _ _ _ x w) as [p y w'|r y w'|]; [| |done]; cbn.
  - split_and!; [|apply Hv|apply Hv]. apply (serving_limiters _ m w w' Hm); [apply Hv|apply Hg].
  - assert (later w w') by (destruct r; try done; apply Hv). split_and!; [|done|done].
    by apply (serving_limiters _ m w w' Hm); [|apply Hg].
Qed.

Lemma listed_live m w pk a : serving m w -> peers d !! pk = Some a -> is_Some (allows a).
Proof.
  intros Hm Ha. rewrite <- (v_device _ _ Hm) in Ha. destruct (d_by_key _ _ _ (v_dinv _ _ Hm) _ _ Ha) as (p & Hp & _).
  rewrite <- (v_allows _ _ Hm a), Hp. by eexists.
Qed.

Lemma peer_of_packet_live m w sk pk p a : serving m w -> peer_of_packet sk pk p d w = Some a -> is_Some (allows a).
Proof.
  intros Hm. assert (Hi : forall i, peers_by_idx d !! i = Some a -> is_Some (allows a)).
  { intros i Hi. rewrite <- (v_device _ _ Hm) in Hi. destruct (d_by_idx _ _ _ (v_dinv _ _ Hm) _ _ Hi) as (k & q & Hk & _).
    eapply listed_live; [done|]. by rewrite <- (v_device _ _ Hm). }
  unfold peer_of_packet. destruct p; try apply Hi.
  all: lazymatch goal with |- context [match ?o with _ => _ end] => destruct o end; [by eapply listed_live|done..].
Qed.

(** The end of the loop's body: the endpoint is moved, and connected. *)
Lemma safe_roam a addr : is_Some (allows a) -> safe serving (fun _ => True) (roam a addr).
Proof.
  intros Ha m w Hm. destruct (known a m w Hm Ha) as (p & E & _).
  destruct (set_endpoint_ok (E:=WireGuardError) addr p w) as (e & Ee & Eaddr).
  unfold roam. unfold bind at 1. rewrite (lock_eq a p _ m w _ _ _ E Ee). set (m1 := with_endpoint a p e m).
  assert (Hm1 : serving m1 w) by (by eapply serving_endpoint).
  assert (E1 : store (sys m1) !! a = Some (set_endpoint_cell e p)) by (cbn; by rewrite lookup_insert_eq).
  unfold bind at 1, the_device. step. rewrite (v_device _ _ Hm1 : device (sys m1) = d).
  destruct (use_connected_socket _); [|by cbn].
  destruct (connect_endpoint_ok (listen_port d) (dev_fwmark d) (set_endpoint_cell e p) w) as (r & e' & w' & Er & L);
    [cbn; rewrite Eaddr; by eexists|].
  unfold bind at 1. rewrite (lock_eq a _ _ m1 w _ _ _ E1 Er).
  assert (Hm2 : serving (with_endpoint a (set_endpoint_cell e p) e' m1) w') by (by eapply serving_endpoint).
  apply (ok_after _ _ w w'); [done|]. destruct r as [sock|er]; [by apply safe_register_conn|by cbn].
Qed.

Lemma safe_udp_packet udp sk pk l packet addr :
  key_pair d = Some (sk, pk) -> dev_rate_limiter d = Some l -> (length packet <= MAX_UDP_SIZE)%nat ->
  safe serving (fun _ => True) (udp_packet dst_buf udp sk pk l packet addr).
Proof.
  intros Hk Hl L. unfold udp_packet. eapply safe_bind; [by apply safe_verify|].
  intros [p|r] Hp.
  - intros m w Hm. unfold bind at 1. rewrite (v_device _ _ Hm : device (sys m) = d).
    destruct (peer_of_packet sk pk p d w) as [a|] eqn:Ea; [|by cbn].
    pose proof (peer_of_packet_live m w sk pk p a Hm Ea) as Hv. revert m w Hm Ea. intros m w Hm _.
    eapply (ok_bind _ inbound); [by eapply safe_handle_at|]. intros r m1 w1 Hm1 _ Hr.
    assert (Hgo : ok serving (fun _ => True) w1
      ((handle_result dst_buf (fun packet => SendTo udp packet addr) a r;; roam a addr;; ret true) m1 w1)).
    { eapply ok_bind; [by apply safe_handle_result|]. intros _ m2 w2 Hm2 _ _.
      eapply ok_bind; [by apply safe_roam|]. intros. by cbn. }
    destruct r; try exact Hgo. by cbn.
  - destruct r as [|e|cookie|x y|x y]; try by apply safe_ret.
    eapply safe_bind; [by apply safe_emit|]. intros _ _. by apply safe_ret.
Qed.

Lemma short_datagram (b : bytes) : (length (take MAX_UDP_SIZE b) <= MAX_UDP_SIZE)%nat.
Proof. rewrite length_take. lia. Qed.

Lemma safe_udp_loop udp sk pk l inbox : key_pair d = Some (sk, pk) -> dev_rate_limiter d = Some l ->
  forall iter, safe serving (fun _ => True) (udp_loop dst_buf iter udp sk pk l inbox).
Proof.
  intros Hk Hl. induction inbox as [|[b addr] inbox IH]; intros iter; cbn [udp_loop]; [by apply safe_ret|].
  eapply safe_bind; [apply safe_udp_packet; [done|done|apply short_datagram]|]. intros [] _; [|apply IH].
  destruct (_ && _); [by apply safe_ret|apply IH].
Qed.

Lemma safe_udp_handler udp inbox : is_Some (key_pair d) -> safe serving (fun _ => True) (udp_handler dst_buf udp inbox).
Proof.
  intros [[sk pk] Hk] m w Hm. unfold udp_handler. eapply ok_bind; [by apply safe_the_device|].
  intros x m1 w1 Hm1 _ ->. rewrite Hk.
  destruct (d_keys _ _ _ (v_dinv _ _ Hm1) sk pk) as (_ & l & El); [by rewrite (v_device _ _ Hm1)|].
  rewrite (v_device _ _ Hm1) in El. rewrite El. unfold bind at 1 2. cbn [unwrap ret].
  eapply ok_bind; [by apply safe_udp_loop|]. intros. by cbn.
Qed.

(** ** Connected sockets *)

Lemma safe_conn_loop a udp addr inbox : is_Some (allows a) ->
  forall iter, safe serving (fun _ => True) (conn_loop dst_buf iter a udp addr inbox).
Proof.
  intros Ha. pose proof longest_size. pose proof buffer_size.
  induction inbox as [|b inbox IH]; intros iter; cbn [conn_loop]; [by apply safe_ret|].
  eapply (safe_bind _ inbound).
  - apply safe_with_tunnel; [done| |apply (nofail_perform (Decapsulate _ _ _))|intros; apply framed_decapsulate].
    intros i s w Hs. apply (ok_weaken _ typed); [|by intros r []]. apply ok_decapsulate; [done|].
    split; [|lia]. rewrite (e_buffer He). apply short_datagram.
  - intros r Hr. eapply safe_bind; [by apply safe_handle_result|]. intros _ _. cbn zeta.
    destruct (_ =? _)%nat; [by apply safe_ret|apply IH].
Qed.

(** ** The interface *)

Lemma find_live m w ip a : serving m w -> find ip (peers_by_ip d) = Some a -> is_Some (allows a).
Proof.
  intros Hm Hf. unfold find in Hf. destruct (longest_match ip (ips (peers_by_ip d))) as [[n x]|] eqn:El; [|done].
  injection Hf as ->. apply longest_some in El as [El _]. rewrite <- (v_device _ _ Hm) in El.
  destruct (d_by_ip _ _ _ (v_dinv _ _ Hm) _ _ El) as [pk Hpk]. eapply (listed_live m w pk); [done|].
  by rewrite <- (v_device _ _ Hm).
Qed.

Lemma safe_send_from s4 s6 pkt addr : safe serving (fun _ => True) (send_from s4 s6 pkt addr).
Proof. by apply safe_emit. Qed.

Lemma safe_iface_packet s4 s6 src : (length src <= longest)%nat ->
  safe serving (fun _ => True) (iface_packet dst_buf s4 s6 src).
Proof.
  intros L m w Hm. pose proof longest_size. pose proof buffer_size. unfold iface_packet.
  eapply ok_bind; [by apply safe_the_device|]. intros x m1 w1 Hm1 _ ->.
  destruct (peer_of_destination src d) as [a|] eqn:Ea; [|by cbn].
  assert (Ha : is_Some (allows a)).
  { unfold peer_of_destination in Ea. destruct (dst_address src); [|done]. by eapply find_live. }
  eapply (ok_bind _ to_network).
  - apply safe_with_tunnel; [done| |apply (nofail_perform (Encapsulate _ _))|intros; apply framed_in_tunn, as_encapsulate|done].
    intros i s w' Hs. apply ok_in_tunn; [done| |by apply uses_encapsulate].
    apply (ok_weaken _ sends); [|apply sends_to_network]. apply safe_encapsulate; [unfold DATA_OVERHEAD_SZ; lia|apply Hs].
  - intros r m2 w2 Hm2 _ Hr. destruct r as [|e|pkt|pkt y|pkt y]; try done.
    eapply ok_bind; [by apply safe_peer_at|]. intros p m3 w3 Hm3 _ _.
    destruct (ep_conn _); [by apply safe_emit|]. destruct (ep_addr _); [by apply safe_send_from|by cbn].
Qed.

Lemma safe_iface_loop n mtu s4 s6 rs : (mtu <= longest)%nat ->
  safe serving (fun _ => True) (iface_loop dst_buf n mtu s4 s6 rs).
Proof.
  intros L. revert rs. induction n as [|n IH]; intros rs; cbn [iface_loop]; [by apply safe_ret|].
  destruct rs as [|[src|[]|] rs]; try by apply safe_ret.
  eapply safe_bind; [|intros _ _; apply IH]. apply safe_iface_packet. rewrite length_take. lia.
Qed.

Lemma safe_iface_handler rs : is_Some (udp4 d) -> is_Some (udp6 d) -> (Z.to_nat (mtu d) <= longest)%nat ->
  safe serving (fun _ => True) (iface_handler dst_buf rs).
Proof.
  intros [s4 E4] [s6 E6] L m w Hm. pose proof (e_longest He) as Le. unfold iface_handler.
  eapply ok_bind; [by apply safe_the_device|]. intros x m1 w1 Hm1 _ ->. rewrite E4, E6. unfold bind at 1 2. cbn [unwrap ret].
  destruct (Nat.ltb_spec MAX_UDP_SIZE (Z.to_nat (mtu d))); [lia|]. by apply safe_iface_loop.
Qed.

(** ** Timers *)

Lemma safe_limiter_handler : safe serving (fun _ => True) limiter_handler.
Proof.
  intros m w Hm. unfold limiter_handler. eapply ok_bind; [by apply safe_the_device|]. intros x m1 w1 Hm1 _ ->.
  eapply (ok_bind _ (fun _ => True)); [|intros; by cbn]. destruct (dev_rate_limiter d) as [l|] eqn:El; [|by cbn].
  destruct (d_limiter _ _ _ (v_dinv _ _ Hm1) l) as [y Hy]; [by rewrite (v_device _ _ Hm1)|].
  unfold in_sys, in_limiters, zoom. rewrite Hy. destruct (reset_count_eq (E:=WireGuardError) y w1) as (y' & ->).
  cbn. split_and!; [|apply later_tick|done]. apply (serving_limiters _ m1 w1 _ Hm1); [apply later_tick|].
  intros z Hz. destruct (decide (l = z)) as [<-|Hne]; [by rewrite lookup_insert_eq|by rewrite lookup_insert_ne].
Qed.

Lemma safe_peer_timers s4 s6 a : is_Some (allows a) -> safe serving (fun _ => True) (peer_timers dst_buf s4 s6 a).
Proof.
  intros Ha. pose proof buffer_size. unfold peer_timers. eapply safe_bind; [by apply safe_peer_at|]. intros p _.
  destruct (ep_addr _) as [addr|]; [|by apply safe_ret]. eapply (safe_bind _ to_network).
  - apply safe_with_tunnel; [done| |apply (nofail_perform (UpdateTimers _))|intros; apply framed_update_timers].
    intros i s w Hs. apply (ok_weaken _ sends); [|apply sends_to_network]. apply ok_update_timers; [done|unfold DATA_OVERHEAD_SZ; lia].
  - intros r Hr. destruct r as [|e|pkt|pkt y|pkt y]; [by apply safe_ret| |by apply safe_send_from|done|done].
    destruct e; try (by apply safe_ret). by apply safe_shutdown_endpoint.
Qed.

Lemma safe_timers_handler : safe serving (fun _ => True) (timers_handler dst_buf).
Proof.
  intros m w Hm. unfold timers_handler. eapply ok_bind; [by apply safe_the_device|]. intros x m1 w1 Hm1 _ ->.
  destruct (udp4 d) as [s4|], (udp6 d) as [s6|]; try by cbn.
  eapply (ok_bind _ (fun _ => True)); [|intros; by cbn].
  assert (Hl : Forall (fun a => is_Some (allows a)) (snd <$> map_to_list (peers d))).
  { apply Forall_fmap, Forall_forall. intros [pk a] Ha%list_elem_of_In%elem_of_map_to_list. by eapply listed_live. }
  revert m1 w1 Hm1. change (safe serving (fun _ => True) (for_each (peer_timers dst_buf s4 s6) (snd <$> map_to_list (peers d)))).
  induction Hl as [|a l Ha _ IH]; cbn [for_each]; [by apply safe_ret|].
  eapply safe_bind; [by apply safe_peer_timers|]. intros _ _. exact IH.
Qed.
End Serving.
