(* ===== verification/HandlersProps.v ===== *)
(** * What the event handlers promise

    On top of [HandlersSafety]: no handler panics, the filters at the interface
    in both directions, where endpoints come from, the end of the loop over the
    queue, and the three cases in which the code does less than it means to. *)

From S2P Require Import Prelude Packet Crypto Session Instant Handshake NoiseSpec HandshakeSpec.
From S2P Require Import HandshakeProps HandshakeSafety RateLimiter Timers Tunnel TunnelSafety TunnelProps.
From S2P Require Import TimerProps.
From S2P Require Import IndexLfsr AllowedIps Peer Device DeviceProps Epoll EpollProps Handlers.
From S2P Require Import Base64 Api EventLoop HandlersSafety.

Section Properties.
Context `{Features, Crypto, Env, IpNetworkTable, Os, !CryptoLaws, !MonotoneClock, !IpNetworkTableLaws}.
Context {K : Type} `{EpollLaws K, Base64}.
Abbreviation Mach := (Machine (K:=K)).

(** ** Handlers have no error result *)

Lemma nofail_in_sys {A} (m : M WireGuardError System A) : nofail (in_sys (K:=K) m).
Proof. intros s w. unfold in_sys. by destruct (m (sys s) w). Qed.
Lemma nofail_unwrapped {A} (m : M Error Mach A) : nofail (unwrapped m).
Proof. unfold unwrapped. nofail. Qed.
#[local] Hint Resolve nofail_in_sys nofail_unwrapped : nofail.
Lemma nofail_unwrap {A} (o : option A) : nofail (E:=Error) (S:=Mach) (unwrap o).
Proof. destruct o; nofail. Qed.
Lemma nofail_emit o : nofail (emit (K:=K) o).
Proof. unfold emit. nofail. Qed.
Lemma nofail_device : nofail (the_device (K:=K)).
Proof. unfold the_device. nofail. Qed.
#[local] Hint Resolve nofail_unwrap nofail_emit nofail_device : nofail.
Lemma nofail_peer_at a : nofail (peer_at (K:=K) a).
Proof. unfold peer_at. nofail. Qed.
#[local] Hint Resolve nofail_peer_at : nofail.

Lemma nofail_notification t : nofail (notification (K:=K) (Hn:=Handler) t).
Proof.
  assert (Hu : forall A (o : option A), nofail (E:=Error) (S:=EventPoll K Handler) (unwrap o)) by (intros A []; nofail).
  unfold notification, deref. nofail; apply Hu.
Qed.
Lemma nofail_trigger_exit : nofail (trigger_exit (K:=K)).
Proof. pose proof nofail_notification. unfold trigger_exit, trigger_notification. nofail; apply nofail_zoom; nofail; done. Qed.
Lemma nofail_cancel_yield : nofail (cancel_yield (K:=K)).
Proof. pose proof nofail_notification. unfold cancel_yield, stop_notification. nofail; apply nofail_zoom; nofail; done. Qed.
Lemma nofail_trigger_yield : nofail (trigger_yield (K:=K)).
Proof. pose proof nofail_notification. unfold trigger_yield, trigger_notification. nofail; apply nofail_zoom; nofail; done. Qed.
#[local] Hint Resolve nofail_trigger_exit nofail_trigger_yield nofail_cancel_yield : nofail.

Lemma nofail_peer_line key val s : nofail (peer_line (K:=K) key val s).
Proof. unfold peer_line, parse_key, commit. nofail. Qed.
#[local] Hint Resolve nofail_peer_line : nofail.
Lemma nofail_set_peer fuel : forall s r, nofail (api_set_peer (K:=K) fuel s r).
Proof.
  induction fuel as [|n IH]; intros s r; cbn [api_set_peer]; unfold commit;
    (destruct (read_line r) as [[cmd|] r']; [|nofail]); cbn zeta; nofail; apply IH.
Qed.
Lemma nofail_set_line key val : nofail (set_line (K:=K) key val).
Proof. unfold set_line, parse_key. nofail. Qed.
#[local] Hint Resolve nofail_set_peer nofail_set_line : nofail.
Lemma nofail_set_loop fuel : forall r, nofail (set_loop (K:=K) fuel r).
Proof.
  induction fuel as [|n IH]; intros r; cbn [set_loop];
    (destruct (read_line r) as [[cmd|] r']; [|nofail]); cbn zeta; nofail; apply IH.
Qed.
Lemma nofail_peers_text l : nofail (peers_text (K:=K) l).
Proof. induction l as [|[k a] l IH]; cbn [peers_text]; unfold peer_text; nofail; done. Qed.
#[local] Hint Resolve nofail_set_loop nofail_peers_text : nofail.
(** A request of the configuration is answered with a status, not an error. *)
Lemma nofail_request r : nofail (api_request (K:=K) r).
Proof. unfold api_request, api_set, api_get. nofail. Qed.
#[local] Hint Resolve nofail_request : nofail.

Section Buffer.
Variable dst_buf : bytes.
Lemma nofail_flush fuel send a : nofail (flush_loop (K:=K) dst_buf fuel send a).
Proof. induction fuel; cbn [flush_loop]; nofail. Qed.
#[local] Hint Resolve nofail_flush : nofail.
Lemma nofail_result send a r : nofail (handle_result (K:=K) dst_buf send a r).
Proof. unfold handle_result, to_interface, flush_queue. nofail. Qed.
#[local] Hint Resolve nofail_result : nofail.
Lemma nofail_udp_packet udp sk pk l packet addr : nofail (udp_packet (K:=K) dst_buf udp sk pk l packet addr).
Proof.
  assert (Hpeer : forall p, nofail (E:=Error) (S:=Mach)
    (fun s w => Ok (peer_of_packet sk pk p (device (sys s)) w) s w)) by (by intros p s w).
  unfold udp_packet, verify, roam. nofail.
Qed.
#[local] Hint Resolve nofail_udp_packet : nofail.
Lemma nofail_udp_loop udp sk pk l inbox : forall iter, nofail (udp_loop (K:=K) dst_buf iter udp sk pk l inbox).
Proof. induction inbox as [|[b a] inbox IH]; intros iter; cbn [udp_loop]; nofail; apply IH. Qed.
Lemma nofail_conn_loop a udp addr inbox : forall iter, nofail (conn_loop (K:=K) dst_buf iter a udp addr inbox).
Proof. induction inbox as [|b inbox IH]; intros iter; cbn [conn_loop]; nofail; apply IH. Qed.
Lemma nofail_iface_packet s4 s6 src : nofail (iface_packet (K:=K) dst_buf s4 s6 src).
Proof. unfold iface_packet, send_from. nofail. Qed.
#[local] Hint Resolve nofail_udp_loop nofail_conn_loop nofail_iface_packet : nofail.
Lemma nofail_iface_loop mtu s4 s6 n : forall rs, nofail (iface_loop (K:=K) dst_buf n mtu s4 s6 rs).
Proof. induction n as [|n IH]; intros rs; cbn [iface_loop]; nofail; apply IH. Qed.
Lemma nofail_timers s4 s6 l : nofail (for_each (peer_timers (K:=K) dst_buf s4 s6) l).
Proof. induction l; cbn [for_each]; unfold peer_timers, send_from; nofail; done. Qed.
#[local] Hint Resolve nofail_iface_loop nofail_timers : nofail.

Lemma nofail_run_handler h i : nofail (run_handler (K:=K) dst_buf h i).
Proof.
  destruct h; cbn [run_handler]; unfold limiter_handler, timers_handler, udp_handler, conn_handler, iface_handler,
    api_handler, api_fd_handler, monitor_handler, on_device; nofail.
Qed.
End Buffer.

(** ** No handler panics *)

Section Events.
Variables (longest : nat) (dst_buf : bytes).

(** What a handler needs of the device: the private key for the listening sockets,
    the sockets and an interface with an ordinary MTU for the interface, the peer
    of a connected socket.  The handlers of the configuration change the device and
    are not among them (see [ApiProps]). *)
Definition can_run (m : Mach) (h : Handler) : Prop :=
  match h with
  | HUdp _ => is_Some (key_pair (device (sys m)))
  | HConn a _ _ => is_Some (store (sys m) !! a)
  | HIface _ => is_Some (udp4 (device (sys m))) /\ is_Some (udp6 (device (sys m))) /\
      (Z.to_nat (mtu (device (sys m))) <= longest)%nat
  | HApi _ | HApiFd _ | HMonitor => False
  | _ => True
  end.

Lemma run_handler_ok d allows h i (m : Mach) w : environment (K:=K) longest dst_buf -> serving longest d allows m w -> can_run m h ->
  exists a m' w', run_handler dst_buf h i m w = Ok a m' w' /\ serving longest d allows m' w' /\ later w w'.
Proof.
  intros He Hm Hr. assert (Hk : ok (serving longest d allows) (fun _ => True) w (run_handler dst_buf h i m w)).
  { pose proof (v_device _ _ _ _ _ Hm) as D. destruct h as [| | | |udp|a udp addr|iface|l|fd| |]; cbn [run_handler can_run] in *; try rewrite D in Hr.
    - by cbn.
    - by cbn.
    - by apply (safe_limiter_handler longest).
    - by apply (safe_timers_handler longest).
    - eapply ok_bind; [by apply (safe_udp_handler longest)|]. intros. by cbn.
    - unfold conn_handler. eapply (ok_bind _ (fun _ => True)); [eapply (ok_bind _ (fun _ => True)); [|intros; by cbn]|intros; by cbn].
      apply (safe_conn_loop longest); [done| |done]. rewrite <- (v_allows _ _ _ _ _ Hm a). by apply fmap_is_Some.
    - destruct Hr as (? & ? & ?). eapply ok_bind; [by apply (safe_iface_handler longest)|]. intros. by cbn.
    - done.
    - done.
    - done.
    - by cbn. }
  pose proof (nofail_run_handler dst_buf h i m w) as Hn.
  destruct (run_handler dst_buf h i m w) as [a m' w'|e m' w'|]; [|done..]. destruct Hk as (? & ? & _). by exists a, m', w'.
Qed.

Definition addresses (m : Mach) (a : nat) : option (AllowedIps unit) := allowed_ips <$> store (sys m) !! a.

Lemma serving_start (m : Mach) w : dinv longest (sys m) w -> sound (queue m) -> sent m = [] ->
  serving longest (device (sys m)) (addresses m) m w.
Proof. intros Hd Hq Hs. split; [done|done|done|done|]. rewrite Hs. constructor. Qed.

Lemma ready_kept d allows m m' w w' h : serving longest d allows m w -> serving longest d allows m' w' -> can_run m h -> can_run m' h.
Proof.
  intros Hm Hm' Hr. pose proof (v_device _ _ _ _ _ Hm) as D. pose proof (v_device _ _ _ _ _ Hm') as D'.
  destruct h as [| | | |udp|a udp addr|iface|l|fd| |]; cbn [can_run] in *; try done; try (rewrite D'; by rewrite D in Hr).
  apply (fmap_is_Some allowed_ips). rewrite (v_allows _ _ _ _ _ Hm' a), <- (v_allows _ _ _ _ _ Hm a). by apply fmap_is_Some.
Qed.

(** A sequence of events, each with what its handler finds. *)
Definition on_event (e : Handler * Input) : M Error Mach unit := run_handler dst_buf e.1 e.2;; ret tt.

Lemma run_events_ok d allows es : environment (K:=K) longest dst_buf -> forall m w, serving longest d allows m w -> Forall (fun e => can_run m e.1) es ->
  exists m' w', for_each on_event es m w = Ok tt m' w' /\ serving longest d allows m' w'.
Proof.
  intros He. induction es as [|[h i] es IH]; intros m w Hm Hr; cbn [for_each]; [by eexists _, _|].
  apply Forall_cons_iff in Hr as [Hh Hr]. destruct (run_handler_ok d allows h i m w He Hm Hh) as (a & m1 & w1 & E & Hm1 & _).
  unfold bind at 1, on_event at 1. unfold bind at 1. cbn [fst snd]. rewrite E. cbn [ret].
  apply IH; [done|]. eapply Forall_impl; [|exact Hr]. intros [h' i']. by apply (ready_kept d allows m m1 w w1).
Qed.



(** C25. The loop over the queue ends: [while let WriteToNetwork(..) =
    decapsulate(None, &[], ..)] stops after at most one call per queued packet
    and two more, and has then sent what those calls returned. *)
Theorem flush_terminates send a m w p :
  environment (K:=K) longest dst_buf -> dinv longest (sys m) w -> sound (queue m) -> sent m = [] ->
  store (sys m) !! a = Some p -> (forall pkt q, send pkt <> WriteTun q) ->
  forall fuel, (length (packet_queue (tunnel p)) + 2 <= fuel)%nat ->
  exists m' w' pkts, flush_loop dst_buf fuel send a m w = Ok tt m' w' /\ dinv longest (sys m') w' /\
    sent m' = send <$> pkts /\ (length pkts <= length (packet_queue (tunnel p)) + 1)%nat.
Proof.
  intros He Hd Hq Hs E Hsend fuel Hf.
  assert (Hc : (calls_left (tunnel p) <= length (packet_queue (tunnel p)) + 2)%nat).
  { unfold calls_left. destruct (session_in _ _); [lia|]. destruct (is_in_progress _); lia. }
  destruct (flush_loop_ok longest dst_buf (device (sys m)) (addresses m) He fuel send a) with (m := m) (w := w) (p := p)
    as (m' & w' & pkts & Em & Hm' & _ & Es & Hl); [|intros pkt; pose proof (Hsend pkt)|by apply serving_start|done|lia|].
  - unfold addresses. rewrite E. by eexists.
  - unfold lawful. case_match; first [done|naive_solver].
  - exists m', w', pkts. split_and!; [done|apply Hm'| |lia]. by rewrite Es, Hs.
Qed.
End Events.

(** ** Where endpoints come from *)

Section Roaming.
Variable dst_buf : bytes.
Definition same_endpoints (e0 : nat -> option Endpoint) (m : Mach) : Prop :=
  forall b, endpoint <$> store (sys m) !! b = e0 b.

Lemma ends_with_tunnel {A} e0 a (f : M WireGuardError Process A) : preserves (same_endpoints e0) (in_sys (with_tunnel a f)).
Proof.
  intros m w Hm. unfold in_sys, with_tunnel. destruct (store (sys m) !! a) as [p|] eqn:E; [|done]. unfold zoom.
  destruct (f _ w) as [r t w'|e t w'|]; [|done..]. intros b. rewrite <- Hm. cbn.
  destruct (decide (a = b)) as [<-|Hne]; [by rewrite lookup_insert_eq, E|by rewrite lookup_insert_ne].
Qed.
Lemma ends_in_limiters {A} e0 (f : M WireGuardError (gmap nat RateLimiter) A) :
  preserves (same_endpoints e0) (in_sys (in_limiters f)).
Proof. intros m w Hm. unfold in_sys, in_limiters, zoom. destruct (f _ w); [exact Hm|done..]. Qed.
Lemma ends_emit e0 o : preserves (same_endpoints e0) (emit o).
Proof. unfold emit. by keeps. Qed.
Lemma ends_peer_at e0 a : preserves (same_endpoints e0) (peer_at a).
Proof. unfold peer_at. keeps. Qed.
#[local] Hint Resolve ends_with_tunnel ends_in_limiters ends_emit ends_peer_at : keeps.
Lemma ends_flush e0 send a fuel : preserves (same_endpoints e0) (flush_loop dst_buf fuel send a).
Proof. induction fuel; cbn [flush_loop]; keeps. Qed.
#[local] Hint Resolve ends_flush : keeps.
Lemma ends_result e0 send a r : preserves (same_endpoints e0) (handle_result dst_buf send a r).
Proof. unfold handle_result, to_interface, flush_queue. keeps. Qed.
Lemma ends_queue {A} e0 (f : M Error (EventPoll K Handler) A) : preserves (same_endpoints e0) (in_queue f).
Proof. unfold in_queue. by keeps. Qed.
#[local] Hint Resolve ends_queue : keeps.
Lemma ends_register e0 a sock addr : preserves (same_endpoints e0) (unwrapped (register_conn_handler a sock addr)).
Proof. unfold unwrapped, register_conn_handler. keeps. Qed.

(** What the end of the loop's body does to endpoints. *)
Lemma lock_others {A} a (f : M WireGuardError Peer A) (m m' : Mach) w w' r : in_sys (lock a f) m w = Ok r m' w' ->
  device (sys m') = device (sys m) /\ (forall b, b <> a -> store (sys m') !! b = store (sys m) !! b) /\
  exists p p', store (sys m) !! a = Some p /\ store (sys m') !! a = Some p' /\ f p w = Ok r p' w'.
Proof.
  unfold in_sys, lock. destruct (store (sys m) !! a) as [p|] eqn:E; [|done]. unfold zoom.
  destruct (f p w) as [x p' w1|e p' w1|] eqn:Ef; [|done..]. intros [= <- <- <-]. cbn. split_and!; [done| |].
  - intros b Hb. by rewrite lookup_insert_ne.
  - exists p, p'. by rewrite lookup_insert_eq.
Qed.

Lemma connect_keeps_addr port mark p w r p' w' :
  attempt (E:=WireGuardError) (connect_endpoint port mark) p w = Ok r p' w' -> ep_addr (endpoint p') = ep_addr (endpoint p).
Proof.
  unfold connect_endpoint. step. case_bool_decide; [by intros [= _ <- _]|].
  destruct (ep_addr (endpoint p)) as [addr|] eqn:Ea; step; [|done].
  destruct (open_connected _ _ _ _) as [s|e]; step; [|by intros [= _ <- _]].
  destruct (try_clone _ s); step; [|done]. by intros [= _ <- _].
Qed.

Lemma set_endpoint_addr {E} addr p w p' w' : set_endpoint (E:=E) addr p w = Ok tt p' w' -> ep_addr (endpoint p') = Some addr.
Proof.
  unfold set_endpoint, shutdown. step. case_bool_decide as Ha.
  - destruct (ep_conn _) as [c|]; step; [destruct (shutdown_ok c); step; [|done]|]; by intros [= <- _].
  - intros [= <- _]. by destruct (decide (ep_addr (endpoint p) = Some addr)).
Qed.

Lemma roam_endpoints a addr e0 (m m' : Mach) w w' : same_endpoints e0 m -> roam a addr m w = Ok tt m' w' ->
  (exists q, store (sys m') !! a = Some q /\ ep_addr (endpoint q) = Some addr) /\
  forall b, b <> a -> endpoint <$> store (sys m') !! b = e0 b.
Proof.
  intros H0'. unfold roam. unfold bind at 1.
  destruct (in_sys (lock a (set_endpoint addr)) m w) as [[] m4 w4|e m4 w4|] eqn:E4; [|done..].
  apply lock_others in E4 as (_ & Ho & q & q' & Hq & Hq' & Ef). apply set_endpoint_addr in Ef.
  assert (H4' : forall b, b <> a -> endpoint <$> store (sys m4) !! b = e0 b) by (intros b Hb; rewrite Ho by done; apply H0').
  unfold bind at 1, the_device. step. destruct (use_connected_socket _); [|intros [= <- _]; by split; [exists q'|]].
  unfold bind at 1.
  destruct (in_sys (lock a (attempt _)) m4 w4) as [conn m5 w5|e m5 w5|] eqn:E5; [|done..].
  apply lock_others in E5 as (_ & Ho5 & q5 & q6 & Hq5 & Hq6 & Ef5). apply connect_keeps_addr in Ef5.
  assert (q5 = q') as -> by congruence. set (e5 b := endpoint <$> store (sys m5) !! b).
  assert (H5' : forall b, b <> a -> e5 b = e0 b) by (intros b Hb; unfold e5; rewrite Ho5 by done; by apply H4').
  destruct conn as [sock|er].
  - intros Hu. pose proof (ends_register e5 a sock (ip addr) m5 w5 (fun b => eq_refl)) as H6'. rewrite Hu in H6'.
    split; [|intros b Hb; rewrite H6'; by apply H5'].
    specialize (H6' a). unfold e5 in H6'. rewrite Hq6 in H6'. destruct (store (sys m') !! a) as [q7|]; [|done].
    exists q7. split; [done|]. injection H6' as ->. congruence.
  - intros [= <- _]. split; [exists q6; split; [done|congruence]|]. exact H5'.
Qed.

Definition refused (r : TunnResult) : bool := match r with Err _ => true | _ => false end.

(** C26. An endpoint moves only for a message its tunnel accepts: a datagram that the
    limiter refuses, that belongs to no peer or that the tunnel of its peer
    refuses leaves every endpoint as it was; one that is accepted makes its
    source the address of that peer and of no other. *)
Theorem endpoints_follow_accepted_messages udp sk pk l packet addr (m m' : Mach) w w' counted :
  udp_packet dst_buf udp sk pk l packet addr m w = Ok counted m' w' ->
  if counted : bool then
    exists p a r m1 w1 m2 w2, verify dst_buf l (ip addr) packet m w = Ok (inl p) m1 w1 /\
      peer_of_packet sk pk p (device (sys m1)) w1 = Some a /\
      in_sys (with_tunnel a (in_tunn (handle_verified_packet p dst_buf))) m1 w1 = Ok r m2 w2 /\ refused r = false /\
      (exists q, store (sys m') !! a = Some q /\ ep_addr (endpoint q) = Some addr) /\
      forall b, b <> a -> endpoint <$> store (sys m') !! b = endpoint <$> store (sys m) !! b
  else forall b, endpoint <$> store (sys m') !! b = endpoint <$> store (sys m) !! b.
Proof.
  intros Hr. unfold udp_packet in Hr. unfold bind at 1 in Hr. set (e0 b := endpoint <$> store (sys m) !! b).
  assert (Hv : match verify dst_buf l (ip addr) packet m w with Ok _ m1 _ | Fail _ m1 _ => same_endpoints e0 m1 | Panic => True end)
    by (apply ends_in_limiters; done).
  destruct (verify dst_buf l (ip addr) packet m w) as [[p|v] m1 w1|e m1 w1|] eqn:Ev; [| |done..].
  2: { assert (counted = false /\ sys m' = sys m1) as [-> Es].
       { destruct v; step in Hr; try (by injection Hr as <- <- _). }
       unfold same_endpoints in Hv. by rewrite Es. }
  unfold bind at 1 in Hr. destruct (peer_of_packet _ _ p _ w1) as [a|] eqn:Ea; [|injection Hr as <- <- _; exact Hv].
  unfold bind at 1 in Hr.
  pose proof (ends_with_tunnel e0 a (in_tunn (handle_verified_packet p dst_buf)) m1 w1 Hv) as Ht.
  destruct (in_sys (with_tunnel a _) m1 w1) as [r m2 w2|e m2 w2|] eqn:Et; [|done..].
  destruct (refused r) eqn:Er; [destruct r; try done; injection Hr as <- <- _; exact Ht|].
  assert (Hgo : (handle_result dst_buf (fun packet => SendTo udp packet addr) a r;; roam a addr;; ret true) m2 w2 =
    Ok counted m' w') by (destruct r; [exact Hr|done|exact Hr..]). clear Hr.
  unfold bind at 1 in Hgo. pose proof (ends_result e0 (fun packet => SendTo udp packet addr) a r m2 w2 Ht) as H3'.
  destruct (handle_result _ _ _ _ m2 w2) as [[] m3 w3|e m3 w3|]; [|done..].
  unfold bind at 1 in Hgo. destruct (roam a addr m3 w3) as [[] m4 w4|e m4 w4|] eqn:E4; [|done..]. injection Hgo as <- <- _.
  destruct (roam_endpoints a addr e0 m3 m4 w3 w4 H3' E4) as [Hq Hb].
  exists p, a, r, m1, w1, m2, w2. by split_and!.
Qed.
End Roaming.

(** ** Packets of the interface *)

Section Egress.
Variable dst_buf : bytes.

(** The datagrams that carry a packet to an endpoint. *)
Definition route (s4 s6 : Socket) (e : Endpoint) (pkt : bytes) : list Output :=
  match ep_conn e, ep_addr e with
  | Some conn, _ => [Send conn pkt]
  | None, Some addr => [SendTo (if is_ipv4 addr then s4 else s6) pkt addr]
  | None, None => []
  end.
Definition routed (s4 s6 : Socket) (e : Endpoint) (r : TunnResult) : list Output :=
  match r with WriteToNetwork pkt => route s4 s6 e pkt | _ => [] end.

End Egress.

(** ** Listening *)

Section Listening.

Definition registered (fd : nat) (h : Handler) (q : EventPoll K Handler) : Prop :=
  exists a ev, events q !! fd = Some (Some a) /\ boxes q !! a = Some ev /\ handler ev = h.

(** Each descriptor is given out once, as long as none is closed. *)
Definition gives (n fd : nat) : Prop :=
  (exists addr, open_bound n addr = inl fd) \/ (exists s, try_clone n s = Some fd).
Definition fresh_descriptors : Prop := forall n n' fd, gives n fd -> gives n' fd -> n = n'.

Lemma clear_others fd i h (q q' : EventPoll K Handler) w w' : fd <> i -> sound q -> registered fd h q ->
  clear_event_by_fd i q w = Ok tt q' w' -> sound q' /\ registered fd h q' /\ w' = w.
Proof.
  intros Hne Hs (a & ev & Ha & Hb & Hh). destruct (events q !! i) as [[b|]|] eqn:Ei.
  - rewrite (clear_event_eq _ _ _ _ Ei). intros [= <- <-].
    assert (Hg : good (mkState q ∅)) by (split; [done|intros t x|intros t x e]; cbn; by rewrite lookup_empty).
    split_and!; [by apply (good_clear _ i b ∅ Hg)| |done].
    exists a, ev. cbn. rewrite list_lookup_insert_ne by done. split_and!; [done| |done]. apply lookup_delete_Some. split; [|done].
    intros ->. apply Hne. rewrite (live_slot q a ev fd Hs Hb Ha). symmetry. by apply (live_slot q a ev i).
  - rewrite (clear_vacant_eq _ _ _ Ei). rewrite list_insert_id by done. intros [= <- <-]. destruct q. split_and!; [done|by exists a, ev|done].
  - unfold clear_event_by_fd. step. by rewrite Ei.
Qed.

Lemma register_vacant_others fd i h x (q q' : EventPoll K Handler) w w' r : sound q -> new_event i x q w = Ok r q' w' ->
  vacant i q -> registered i x q' /\ (fd <> i -> registered fd h q -> registered fd h q').
Proof.
  intros Hs Hn Hv. unfold new_event in Hn. set (ev := mkEvent _ _ _ _ _) in Hn.
  pose proof (register_event_eq ev q w Hv) as Hq. cbn zeta in Hq.
  destruct (ctl_add _ _ _ _) as [[] k]; destruct Hq as (w1 & _ & Hq); rewrite Hq in Hn; [|done].
  injection Hn as _ <- _. split.
  - eexists _, _. cbn [events boxes]. rewrite list_lookup_insert_eq by apply length_grow. by rewrite lookup_insert_eq.
  - intros Hne (a & e & Ha & Hb & Hh). exists a, e. cbn [events boxes ev_fd ev].
    rewrite list_lookup_insert_ne by done. rewrite grow_lookup.
    rewrite lookup_insert_ne; [done|]. intros <-. apply (is_fresh (dom (boxes q))). by eapply elem_of_dom_2.
Qed.

Lemma register_others fd i h x (q q' : EventPoll K Handler) w w' r : sound q -> new_event i x q w = Ok r q' w' ->
  sound q' /\ registered i x q' /\ (fd <> i -> registered fd h q -> registered fd h q').
Proof.
  intros Hs Hn. unfold new_event in Hn. set (ev := mkEvent _ _ _ _ _) in Hn.
  pose proof (register_sound ev q w Hs eq_refl) as Hr. rewrite Hn in Hr. destruct Hr as [Hs' _]. split; [done|].
  destruct (events q !! ev_fd ev) as [[b|]|] eqn:Eo.
  - destruct (s_box _ Hs _ _ Eo) as (eb & Heb & _). pose proof (register_occupied_eq ev q w b Eo ltac:(by exists eb)) as Hq.
    cbn zeta in Hq. destruct (ctl_add _ _ _ _) as [[] k]; destruct Hq as (w1 & _ & Hq); rewrite Hq in Hn; [|done].
    injection Hn as _ <- _. split.
    + eexists _, _. cbn [events boxes]. rewrite list_lookup_insert_eq by apply length_grow. rewrite lookup_insert_eq. done.
    + intros Hne (a & e & Ha & Hb & Hh). exists a, e. cbn [events boxes ev_fd ev cleared].
      rewrite list_lookup_insert_ne by done. rewrite grow_lookup, list_lookup_insert_ne by done.
      assert (a <> fresh (dom (boxes q))) by (intros ->; apply (is_fresh (dom (boxes q))); by eapply elem_of_dom_2).
      rewrite lookup_insert_ne by done. split_and!; [done| |done]. apply lookup_delete_Some. split; [|done].
      intros ->. apply Hne. rewrite (live_slot q a e fd Hs Hb Ha). symmetry. by apply (live_slot q a e (ev_fd ev)).
  - apply (register_vacant_others fd i h x q q' w w' r Hs Hn). intros a. cbn in Eo. congruence.
  - apply (register_vacant_others fd i h x q q' w w' r Hs Hn). intros a. cbn in Eo. congruence.
Qed.

Lemma in_queue_ok {A} (f : M Error (EventPoll K Handler) A) (m m' : Mach) w w' r : in_queue f m w = Ok r m' w' ->
  f (queue m) w = Ok r (queue m') w' /\ sys m' = sys m.
Proof. unfold in_queue, zoom. destruct (f (queue m) w); [|done..]. by intros [= -> <- <-]. Qed.

(** The events of the queue that [open_listen_socket] does not mean. *)
Definition keeps_event (fd : nat) (h : Handler) (m : Mach) : Prop := sound (queue m) /\ registered fd h (queue m).

Lemma take_listener_ok get_sock set_sock (m m' : Mach) w w' :
  take_listener get_sock set_sock m w = Ok tt m' w' -> sound (queue m) ->
  sound (queue m') /\ w' = w /\ (device (sys m') = device (sys m) \/ device (sys m') = set_sock None (device (sys m))) /\
  store (sys m') = store (sys m) /\
  forall fd h, get_sock (device (sys m)) <> Some fd -> registered fd h (queue m) -> registered fd h (queue m').
Proof.
  intros E Hs. unfold take_listener, the_device in E. unfold bind at 1 in E. step in E.
  destruct (get_sock _) as [s|] eqn:Eg; [|injection E as <- <-; split_and!; [done|done|by left|done|done]].
  unfold bind at 1, on_device, in_sys, in_device in E. step in E. apply in_queue_ok in E as [E Es]. cbn [queue] in E.
  assert (Hq : sound (queue m') /\ w' = w).
  { destruct (events (queue m) !! s) as [[b|]|] eqn:Ei.
    - rewrite (clear_event_eq _ _ _ _ Ei) in E. injection E as <- <-. split; [|done].
      assert (Hg : good (mkState (queue m) ∅)) by (split; [done|intros t x|intros t x e]; cbn; by rewrite lookup_empty).
      by apply (good_clear _ s b ∅ Hg).
    - rewrite (clear_vacant_eq _ _ _ Ei) in E. injection E as <- <-. rewrite list_insert_id by done. by destruct (queue m).
    - unfold clear_event_by_fd in E. step in E. by rewrite Ei in E. }
  destruct Hq as [Hq ->]. rewrite Es. cbn. split_and!; [done|done|by right|done|].
  intros fd h Hne Hr. apply (clear_others fd s h (queue m) (queue m') w w); [congruence|done..].
Qed.

Lemma shutdown_all_ok l : forall (m m' : Mach) w w',
  for_each (fun a => in_sys (lock a shutdown_endpoint)) l m w = Ok tt m' w' ->
  queue m' = queue m /\ device (sys m') = device (sys m) /\ w' = w.
Proof.
  induction l as [|a l IH]; intros m m' w w'; cbn [for_each]; [by intros [= <- <-]|]. intros ([] & m1 & w1 & E1 & E2)%bind_ok.
  destruct (IH _ _ _ _ E2) as (-> & -> & ->). pose proof (lock_others _ _ _ _ _ _ _ E1) as (D & _ & p & p' & _ & _ & Ef).
  rewrite shutdown_endpoint_eq in Ef. assert (w1 = w) by (repeat case_match; congruence).
  split_and!; [|done|done]. unfold in_sys in E1. by destruct (lock a shutdown_endpoint (sys m) w); simplify_eq.
Qed.

Lemma bound_ok v4 port (m m' : Mach) w w' s : bound_socket v4 port m w = Ok s m' w' ->
  m' = m /\ calls w' = S (calls w) /\ gives (calls w) s.
Proof.
  unfold bound_socket. step. destruct (open_bound _ _) as [x|e] eqn:Eo; step; [|done]. intros [= -> <- <-].
  split_and!; [done|done|]. left. by eexists.
Qed.

Lemma cloned_ok s (m m' : Mach) w w' c : cloned s m w = Ok c m' w' -> m' = m /\ calls w' = S (calls w) /\ gives (calls w) c.
Proof.
  unfold cloned. step. destruct (try_clone _ s) as [x|] eqn:Eo; step; [|done]. intros [= -> <- <-].
  split_and!; [done|done|]. right. by eexists.
Qed.

Lemma register_udp_ok c (m m' : Mach) w w' : register_udp_handler c m w = Ok tt m' w' -> sound (queue m) ->
  sys m' = sys m /\ sound (queue m') /\ (calls w <= calls w')%nat /\ registered c (HUdp c) (queue m') /\
  forall fd h, fd <> c -> registered fd h (queue m) -> registered fd h (queue m').
Proof.
  unfold register_udp_handler. intros (r & m1 & w1 & E & [= <- <-])%bind_ok Hs. apply in_queue_ok in E as [E ->].
  pose proof (register_others 0 c HYield (HUdp c) _ _ _ _ _ Hs E) as (Hs' & Hr & _). split_and!; [done|done| |done|].
  - unfold new_event in E. pose proof (register_sound (mkEvent (mkEpollEvent (Z.lor EPOLLIN EPOLLONESHOT) 0) c (HUdp c) false false)
      (queue m) w Hs eq_refl) as Hl. rewrite E in Hl. by destruct Hl as [_ (_ & _ & _ & ?)].
  - intros fd h. apply (register_others fd c h (HUdp c) _ _ _ _ _ Hs E).
Qed.

(** A call that succeeds: new sockets, in use and listened to under descriptors of
    their own. *)
Lemma open_listen_ok port (m m' : Mach) w w' : open_listen_socket port m w = Ok tt m' w' -> sound (queue m) ->
  exists n1 n2 n3 n4 s4 s6 c4 c6, gives n1 s4 /\ gives n2 s6 /\ gives n3 c4 /\ gives n4 c6 /\
    (calls w <= n1 < n2 /\ n2 < n3 < n4 /\ n4 < calls w')%nat /\
    udp4 (device (sys m')) = Some s4 /\ udp6 (device (sys m')) = Some s6 /\
    key_pair (device (sys m')) = key_pair (device (sys m)) /\
    sound (queue m') /\ registered c6 (HUdp c6) (queue m') /\ (c4 <> c6 -> registered c4 (HUdp c4) (queue m')) /\
    forall fd h, udp4 (device (sys m)) <> Some fd -> udp6 (device (sys m)) <> Some fd -> fd <> c4 -> fd <> c6 ->
      registered fd h (queue m) -> registered fd h (queue m').
Proof.
  intros E Hs. unfold open_listen_socket in E. apply bind_ok in E as ([] & m1 & w1 & E1 & E).
  destruct (take_listener_ok _ _ _ _ _ _ E1 Hs) as (Hs1 & -> & D1 & _ & R1). apply bind_ok in E as ([] & m2 & w2 & E2 & E).
  destruct (take_listener_ok _ _ _ _ _ _ E2 Hs1) as (Hs2 & -> & D2 & _ & R2). clear E1 E2.
  assert (Hd : key_pair (device (sys m2)) = key_pair (device (sys m)) /\
    forall fd, udp6 (device (sys m)) <> Some fd -> udp6 (device (sys m1)) <> Some fd) by (destruct D2 as [-> | ->], D1 as [-> | ->]; split; done).
  destruct Hd as [Hkp H6']. apply bind_ok in E as (d & m3 & w3 & [= <- <- <-] & E). apply bind_ok in E as ([] & m4 & w4 & E4 & E).
  apply shutdown_all_ok in E4 as (Q4 & D4 & ->). apply bind_ok in E as (s4 & m5 & w5 & E5 & E). apply bound_ok in E5 as (-> & C5 & G5).
  apply bind_ok in E as (port' & m6 & w6 & E6 & E).
  assert (Hp : m6 = m4 /\ (calls w5 <= calls w6)%nat).
  { destruct (port =? 0); [|by injection E6 as <- <- <-]. step in E6. destruct (local_port _ _); [|done].
    injection E6 as <- <- <-. split; [done|]. cbn. lia. }
  destruct Hp as [-> C6]. apply bind_ok in E as (s6 & m7 & w7 & E7 & E). apply bound_ok in E7 as (-> & C7 & G7).
  apply bind_ok in E as (c4 & m8 & w8 & E8 & E). apply cloned_ok in E8 as (-> & C8 & G8).
  rewrite <- Q4 in Hs2. apply bind_ok in E as ([] & m9 & w9 & E9 & E).
  destruct (register_udp_ok _ _ _ _ _ E9 Hs2) as (S9 & Hs9 & C9 & R9 & O9).
  apply bind_ok in E as (c6 & m10 & w10 & E10 & E). apply cloned_ok in E10 as (-> & C10 & G10).
  apply bind_ok in E as ([] & m11 & w11 & E11 & E). destruct (register_udp_ok _ _ _ _ _ E11 Hs9) as (S11 & Hs11 & C11 & R11 & O11).
  unfold on_device, in_sys, in_device in E. step in E. injection E as <- <-.
  exists (calls w), (calls w6), (calls w7), (calls w9), s4, s6, c4, c6. cbn [queue sys device udp4 udp6 key_pair set_udp4 set_udp6 set_listen_port].
  split_and!; try done; try lia.
  - by rewrite S11, S9, D4.
  - intros Hne. by apply O11.
  - intros fd h N4 N6 Nc4 Nc6 Hr. apply O11, O9; [done|done|]. rewrite Q4. apply R2; [by apply H6'|]. by apply R1.
Qed.

(** Old listeners stay (a bug): the sockets are registered under descriptors of
    their own, clones, but [open_listen_socket] clears the queue by the
    descriptors it keeps.  After a second successful call, as when the listening
    port is changed, both handlers of the first call are still registered, next
    to the two new ones. *)
Theorem old_listeners_stay port port' (m m1 m2 : Mach) w w1 w2 :
  fresh_descriptors -> sound (queue m) ->
  open_listen_socket port m w = Ok tt m1 w1 -> open_listen_socket port' m1 w1 = Ok tt m2 w2 ->
  exists c4 c6 d4 d6, NoDup [c4; c6; d4; d6] /\
    forall c, c ∈ [c4; c6; d4; d6] -> registered c (HUdp c) (queue m2).
Proof.
  intros Hf Hs E1 E2.
  destruct (open_listen_ok _ _ _ _ _ E1 Hs) as (n1 & n2 & n3 & n4 & s4 & s6 & c4 & c6 & G1 & G2 & G3 & G4 & N & U4 & U6 & _ & Hs1 & R6 & R4 & _).
  destruct (open_listen_ok _ _ _ _ _ E2 Hs1) as (k1 & k2 & k3 & k4 & t4 & t6 & d4 & d6 & J1 & J2 & J3 & J4 & M & _ & _ & _ & Hs2 & T6 & T4 & O).
  assert (Hne : forall i j x y, gives i x -> gives j y -> i <> j -> x <> y) by (intros i j x y Gx Gy Hij ->; by apply Hij, (Hf i j y)).
  assert (X : c4 <> c6 /\ c4 <> d4 /\ c4 <> d6 /\ c6 <> d4 /\ c6 <> d6 /\ d4 <> d6)
    by (split_and!; eapply Hne; try eassumption; lia).
  destruct X as (? & ? & ? & ? & ? & ?).
  assert (Old : forall n c, gives n c -> n <> n1 -> n <> n2 -> c <> d4 -> c <> d6 -> registered c (HUdp c) (queue m1) ->
    registered c (HUdp c) (queue m2)).
  { intros n c Gc M1 M2 D4 D6 Hr. apply O; [rewrite U4; intros [= <-]; apply M1; by eapply Hf
      |rewrite U6; intros [= <-]; apply M2; by eapply Hf|done..]. }
  exists c4, c6, d4, d6. split; [rewrite !list.NoDup_cons, !not_elem_of_cons; split_and!; try done; try apply not_elem_of_nil; apply NoDup_nil_2|].
  intros c. rewrite !elem_of_cons. intros [-> |[-> |[-> |[-> |Hnil%not_elem_of_nil]]]]; [..|done].
  - apply (Old n3); [done|lia|lia|done|done|by apply R4].
  - apply (Old n4); [done|lia|lia|done|done|done].
  - by apply T4.
  - done.
Qed.

(** ** When listening fails, or starts too early *)

Definition deaf (m : Mach) : Prop := udp4 (device (sys m)) = None /\ udp6 (device (sys m)) = None.

(** [I] holds wherever [m] gives up with an error. *)
Definition gives_up_in {S A} (I : S -> Prop) (f : M Error S A) : Prop := forall s w,
  I s -> match f s w with Fail _ s' _ => I s' | _ => True end.

Lemma gives_up_bind {S A B} (I : S -> Prop) (f : M Error S A) (k : A -> M Error S B) :
  preserves I f -> (forall a, gives_up_in I (k a)) -> gives_up_in I (bind f k).
Proof.
  intros Hf Hk s w Hs. specialize (Hf s w Hs). unfold bind. destruct (f s w) as [a s1 w1|e s1 w1|]; [|done..]. by apply Hk.
Qed.
Lemma gives_up_never {S A} (I : S -> Prop) (f : M Error S A) : nofail f -> gives_up_in I f.
Proof. intros Hf s w Hs. specialize (Hf s w). by destruct (f s w). Qed.

Lemma deaf_queue {A} (f : M Error (EventPoll K Handler) A) : preserves deaf (in_queue f).
Proof. unfold in_queue. by keeps. Qed.
Lemma deaf_lock a : preserves deaf (in_sys (lock a shutdown_endpoint)).
Proof.
  intros m w Hm. destruct (in_sys (lock a shutdown_endpoint) m w) as [[] m' w'|e m' w'|] eqn:E; [| |done].
  - apply lock_others in E as (D & _). unfold deaf. by rewrite D.
  - unfold in_sys in E. by destruct (lock a shutdown_endpoint (sys m) w).
Qed.
Lemma deaf_shutdown l : preserves deaf (for_each (fun a => in_sys (lock a shutdown_endpoint)) l).
Proof. pose proof deaf_lock. induction l; cbn [for_each]; keeps; done. Qed.
#[local] Hint Resolve deaf_queue deaf_shutdown : keeps.

Lemma take_listener_eq get_sock set_sock (m : Mach) w : (forall d, get_sock (set_sock None d) = None) ->
  match take_listener get_sock set_sock m w with
  | Ok _ m' _ => get_sock (device (sys m')) = None /\ (device (sys m') = device (sys m) \/ device (sys m') = set_sock None (device (sys m)))
  | Fail _ _ _ => False
  | Panic => True
  end.
Proof.
  intros Hg. unfold take_listener, the_device. step. destruct (get_sock (device (sys m))) as [s|] eqn:E; [|step; auto].
  unfold on_device, in_queue, in_sys, in_device, clear_event_by_fd. step. cbn [queue sys device store limiters].
  destruct (events (queue m) !! s) as [[b|]|]; step; cbn; try done; auto.
Qed.

(** A listening port that cannot be opened stops the device (a bug): when
    [open_listen_socket] returns an error, as for a port that is in use, both
    sockets are gone, and the next packet of the interface panics its
    handler. *)
Theorem failed_listen_is_fatal dst_buf port (m m' : Mach) w w' e :
  open_listen_socket port m w = Fail e m' w' ->
  udp4 (device (sys m')) = None /\ udp6 (device (sys m')) = None /\
  forall rs w1, iface_handler dst_buf rs m' w1 = Panic.
Proof.
  intros E. assert (Hd : deaf m').
  { unfold open_listen_socket in E. unfold bind at 1 in E.
    pose proof (take_listener_eq udp4 set_udp4 m w ltac:(done)) as H4'.
    destruct (take_listener udp4 set_udp4 m w) as [[] m1 w1|e1 m1 w1|]; [|done..]. destruct H4' as [U4 _].
    unfold bind at 1 in E. pose proof (take_listener_eq udp6 set_udp6 m1 w1 ltac:(done)) as H6'.
    destruct (take_listener udp6 set_udp6 m1 w1) as [[] m2 w2|e2 m2 w2|]; [|done..]. destruct H6' as [U6 D].
    assert (Hm : deaf m2) by (split; [|done]; destruct D as [-> | ->]; exact U4). clear U4 U6 D.
    lazymatch type of E with ?k m2 w2 = _ => assert (Hk : gives_up_in deaf k) end.
    { unfold bound_socket, cloned, register_udp_handler, the_device.
      repeat (apply gives_up_bind; [keeps; done|intros ?]). apply gives_up_never. unfold on_device. nofail. }
    specialize (Hk m2 w2 Hm). by rewrite E in Hk. }
  destruct Hd as [U4 U6]. split_and!; [done|done|]. intros rs w1. unfold iface_handler, the_device. step. by rewrite U4.
Qed.

(** A device listens before it can answer (a bug): a device without a private
    key that opens its sockets, as every new device does, has a handler
    registered that panics as soon as a datagram arrives. *)
Theorem listening_without_key_is_fatal dst_buf port (m m' : Mach) w w' :
  open_listen_socket port m w = Ok tt m' w' -> sound (queue m) -> key_pair (device (sys m)) = None ->
  exists c, registered c (HUdp c) (queue m') /\ forall i w1, run_handler dst_buf (HUdp c) i m' w1 = Panic.
Proof.
  intros E Hs Hk. destruct (open_listen_ok _ _ _ _ _ E Hs)
    as (n1 & n2 & n3 & n4 & s4 & s6 & c4 & c6 & _ & _ & _ & _ & _ & _ & _ & Ek & _ & R6 & _ & _).
  exists c6. split; [done|]. intros i w1. cbn [run_handler]. unfold bind at 1, udp_handler, the_device. step. by rewrite Ek, Hk.
Qed.
End Listening.
End Properties.

(** ** A concrete device *)

Module Example.
Import HandshakeProps.Example DeviceProps.Example EpollProps.MapKernel.
#[local] Existing Instances pq_build Toy.crypto Toy.laws env env_clock MapTable.table MapTable.laws
  DeviceProps.Example.os MapKernel.epoll MapKernel.laws.
#[local] Instance no_base64 : Base64 := {| base64_encode _ := []; base64_decode _ := None |}.

Definition no_events : EventPoll Kernel Handler := mkEventPoll [] ∅ (mkKernel ∅ ∅).
Lemma no_events_sound : sound no_events.
Proof. split; [intros i a|intros a ev|intros fd d']; cbn; [by rewrite lookup_nil|by rewrite lookup_empty|done]. Qed.

(** The device that listens, with its peer. *)
Definition connect (s : System) : System :=
  mkSystem (set_udp4 (Some 3%nat) (set_udp6 (Some 4%nat) (device s))) (store s) (limiters s).
Lemma connect_consistent s w : dinv 1420 s w -> dinv 1420 (connect s) w.
Proof. intros Hs. by apply dinv_device. Qed.
Definition connected : System := connect configured.
Lemma connected_consistent : dinv 1420 connected then_.
Proof. apply connect_consistent, configured_consistent. Qed.
Definition machine_of (s : System) : Machine := mkMachine (connect s) no_events None None [].
Definition machine : Machine := machine_of configured.
Definition buffer : bytes := zeros MAX_UDP_SIZE.

Lemma surroundings : environment (K:=Kernel) 1420 buffer.
Proof.
  split.
  - apply length_zeros.
  - unfold MAX_UDP_SIZE. lia.
  - done.
  - intros n c. by eexists.
  - intros n fd e k Hi. cbn in *. rewrite bool_decide_eq_false_2; [done|]. intros [x Hx]. by rewrite Hx in Hi.
Qed.

Definition home : SocketAddr := mkSocketAddr (IpV4 (bytes_of [192; 0; 2; 1])) 51820 0 0.
Definition noise : list (bytes * SocketAddr) := [(zeros 40, home)].
Definition events_of (a : nat) : list (Handler * Input) :=
  [(HTimers, nothing); (HUdp 9, with_datagrams noise); (HIface 5, with_reads [ReadPacket (zeros 20); IfaceRead true]);
   (HConn a 7 (ip home), with_datagrams noise); (HLimiter, nothing)].
Definition some_events : list (Handler * Input) := events_of bob_address.

Lemma events_can_run s a : is_Some (key_pair (device s)) -> is_Some (store s !! a) -> mtu (device s) = 1420 ->
  Forall (fun e => can_run 1420 (machine_of s) e.1) (events_of a).
Proof.
  intros Hk Ha Hm. constructor; [done|]. constructor; [exact Hk|]. constructor.
  - cbn. split_and!; [by eexists|by eexists|]. rewrite Hm. done.
  - constructor; [exact Ha|]. by repeat constructor.
Qed.

Lemma bob_stored : is_Some (store configured !! bob_address).
Proof. destruct (d_by_key _ _ _ configured_consistent _ _ bob_listed) as (p & -> & _). by eexists. Qed.

Lemma configured_mtu : mtu (device configured) = 1420.
Proof. vm_compute. reflexivity. Qed.

Lemma events_ready : Forall (fun e => can_run 1420 machine e.1) some_events.
Proof.
  apply events_can_run; [|exact bob_stored|exact configured_mtu].
  exists (alice_key, x25519_public alice_key). exact configured_key.
Qed.



Definition the_peer (o : option Peer) : Peer := match o with Some p => p | None =>
  mkPeer (tunn (TunnelSafety.Example.process alice TunnelSafety.Example.fresh_timers)) 0 (mkEndpoint None None) AllowedIps.new None end.
Lemma the_peer_is (s : System) a : is_Some (store s !! a) -> store (sys (machine_of s)) !! a = Some (the_peer (store s !! a)).
Proof. intros [p Hp]. cbn. by rewrite Hp. Qed.
Definition bob : Peer := the_peer (store configured !! bob_address).
Lemma bob_is : store (sys machine) !! bob_address = Some bob.
Proof. exact (the_peer_is configured bob_address bob_stored). Qed.

Lemma flush_terminates_witness : exists m' w' pkts,
  flush_loop buffer 258 (fun pkt => SendTo 3%nat pkt home) bob_address machine then_ = Ok tt m' w' /\
  sent m' = (fun pkt => SendTo 3%nat pkt home) <$> pkts.
Proof.
  destruct (flush_terminates 1420 buffer (fun pkt => SendTo 3%nat pkt home) bob_address machine then_ bob surroundings
    connected_consistent no_events_sound eq_refl bob_is) with (fuel := 258%nat) as (m' & w' & pkts & E & _ & Es & _).
  - discriminate.
  - vm_compute. lia.
  - exists m', w', pkts. exact (conj E Es).
Defined.

(** An initiation of the peer, and what the listening socket's handler makes of it. *)
Definition hello_bytes : bytes :=
  match format_pq_handshake_initiation (zeros 1500) HandshakeProps.Example.bob w0 with Ok m _ _ => m | _ => [] end.
Definition lim : nat := from_option id 0%nat (dev_rate_limiter (device configured)).
Definition answered : outcome Error Machine bool :=
  udp_packet (zeros 1500) 3 alice_key (x25519_public alice_key) lim hello_bytes home machine then_.

Definition is_true_ok {E S} (o : outcome E S bool) : bool := match o with Ok true _ _ => true | _ => false end.
Lemma is_true_ok_eq {E S} (o : outcome E S bool) : is_true_ok o = true -> exists s w, o = Ok true s w.
Proof. destruct o as [[] s w|e s w|]; [eauto|done..]. Qed.
Lemma accepted : is_true_ok answered = true.
Proof. vm_compute. reflexivity. Qed.

Lemma endpoints_follow_accepted_messages_witness : exists m' w', answered = Ok true m' w' /\
  exists a q, store (sys m') !! a = Some q /\ ep_addr (endpoint q) = Some home.
Proof.
  destruct (is_true_ok_eq answered accepted) as (m' & w' & E). exists m', w'. split; [exact E|].
  destruct (endpoints_follow_accepted_messages (zeros 1500) 3 alice_key (x25519_public alice_key) lim hello_bytes home
    machine m' then_ w' true E) as (p & a & r & m1 & w1 & m2 & w2 & _ & _ & _ & _ & (q & Hq & Ha) & _).
  exists a, q. exact (conj Hq Ha).
Defined.

(** A packet of the interface for an address of the peer starts a handshake. *)
Definition ping : bytes := bytes_of [69; 0; 0; 20; 0; 0; 0; 0; 64; 1; 0; 0; 192; 168; 1; 1; 10; 1; 2; 3].
Definition pinged : outcome Error Machine unit := iface_packet (zeros 1500) 3 4 ping machine then_.
Lemma pinged_ok : returns pinged = true.
Proof. vm_compute. reflexivity. Qed.
Lemma ping_routed : peer_of_destination ping (device (sys machine)) = Some bob_address.
Proof. vm_compute. reflexivity. Qed.


(** A new device, which listens, and listens again. *)
Definition young : Machine := mkMachine start no_events None None [].
Definition first_call : outcome Error Machine unit := open_listen_socket 0 young w0.
Lemma first_call_ok : returns first_call = true.
Proof. vm_compute. reflexivity. Qed.
Definition second_call : outcome Error Machine unit :=
  match first_call with Ok _ m w => open_listen_socket 51821 m w | _ => Panic end.
Lemma second_call_ok : returns second_call = true.
Proof. vm_compute. reflexivity. Qed.
Lemma all_fresh : fresh_descriptors.
Proof.
  assert (Hg : forall n fd, gives n fd -> n = fd) by (intros n fd [[addr E]|[x E]]; cbn in E; congruence).
  intros n n' fd Hn Hn'. rewrite (Hg n fd Hn). symmetry. by apply Hg.
Qed.

Lemma old_listeners_stay_witness : exists m2 w2, second_call = Ok tt m2 w2 /\ exists c4 c6 d4 d6, NoDup [c4; c6; d4; d6] /\
  forall c, c ∈ [c4; c6; d4; d6] -> registered c (HUdp c) (queue m2).
Proof.
  destruct (returns_ok _ first_call_ok) as ([] & m1 & w1 & E1). pose proof second_call_ok as E2.
  unfold second_call in *. rewrite E1 in *. destruct (returns_ok _ E2) as ([] & m2 & w2 & E2'). exists m2, w2.
  split; [exact E2'|]. exact (old_listeners_stay 0 51821 young m1 m2 w0 w1 w2 all_fresh no_events_sound E1 E2').
Defined.

Lemma listening_without_key_is_fatal_witness : exists m1 w1 c, first_call = Ok tt m1 w1 /\
  forall i w, run_handler (zeros 1500) (HUdp c) i m1 w = Panic.
Proof.
  destruct (returns_ok _ first_call_ok) as ([] & m1 & w1 & E1).
  destruct (listening_without_key_is_fatal (zeros 1500) 0 young m1 w0 w1 E1 no_events_sound eq_refl) as (c & _ & Hc).
  exists m1, w1, c. exact (conj E1 Hc).
Defined.

(** The same where no socket can be opened. *)
Definition full : Os := {| shutdown_ok _ := true; open_bound _ _ := inr IoError; open_connected _ _ _ _ := inr IoError;
  try_clone _ _ := None; local_port _ _ := None; set_mark _ _ _ := false |}.
Lemma failed_listen_is_fatal_witness : exists m' w',
  open_listen_socket (H3:=full) 51820 young w0 = Fail IoError m' w' /\
  udp4 (device (sys m')) = None /\ forall rs w1, iface_handler (zeros 1500) rs m' w1 = Panic.
Proof.
  eexists _, _. split; [reflexivity|].
  destruct (failed_listen_is_fatal (H3:=full) (zeros 1500) 51820 young _ w0 _ IoError eq_refl) as (H4' & _ & Hi).
  exact (conj H4' Hi).
Defined.
End Example.
