(* ===== verification/Startup.v ===== *)
(** * From the command line to a running device: [DeviceHandle::new], [Device::new],
    [DeviceHandle::event_loop], [boringtun-cli/src/main.rs]

    A device is put together from the queue, the interface and the handlers, and
    closed again when a part fails; the threads open a queue of the interface each;
    the daemon gives up its privileges and tells the process that started it.
    The state of a start is the table of descriptors of [Tun]. *)

From S2P Require Import Prelude Packet Crypto Session Instant Handshake RateLimiter Timers Tunnel KeyBytes IndexLfsr.
From S2P Require Import Stats AllowedIps Text Base64 Peer Device Epoll Handlers Api Privileges Tun.
Import Linux.

(** What [clap] returns: the texts of the options and which flags are there. *)
Record Matches := mkMatches {
  m_interface_name : bytes;
  m_foreground : bool;
  m_threads : bytes;
  m_uapi_fd : bytes;
  m_tun_fd : bytes;
  m_disable_drop_privileges : bool;
  m_disable_connected_udp : bool;
  m_disable_multi_queue : bool;
}.

(** [s.parse::<isize>()] *)
Definition parse_isize (s : bytes) : option Z :=
  match s with
  | b :: rest =>
      if is_char 45 b then
        if bool_decide (rest = []) then None else Z.opp <$> checked_digits (2 ^ 63) 0 rest
      else parse_uint 63 s
  | [] => None
  end.

(** The values of the options in [main]: [None] is [e.exit()], a message of usage. *)
Definition arguments (m : Matches) : option (bytes * DeviceConfig) :=
  uapi ← parse_i32 (m_uapi_fd m);
  tun_fd ← parse_isize (m_tun_fd m);
  n_threads ← parse_uint 64 (m_threads m);
  let tun_name := if 0 <=? tun_fd then m_tun_fd m else m_interface_name m in
  Some (tun_name, mkDeviceConfig n_threads (negb (m_disable_connected_udp m)) (negb (m_disable_multi_queue m)) uapi).

(** [check_tun_name], which [clap] calls on the interface's name *)
Definition check_tun_name (macos : bool) (v : bytes) : bool :=
  if macos then bool_decide (is_Some (Darwin.parse_utun_name v)) else true.

Section Startup.
Context `{Features, Crypto, Env, IpNetworkTable, Os, Base64, UnixSockets} {K : Type} `{Epoll K}.
Context {O : Type} `{TunDevice O}.
Abbreviation Mach := (Machine (K:=K)).
Abbreviation OM := (M Error O).
(** For the seed of the indices, [IndexLfsr.random_index]. *)
Variable fuel : nat.

(** A part that is built in a state of its own; when it fails, [undo] closes what was
    built before. *)
Definition build {S A} (undo : O -> O) (m : M Error S A) (s : S) : OM (A * S) := fun o w =>
  match m s w with
  | Ok a s' w' => Ok (a, s') o w'
  | Fail e _ w' => Fail e (undo o) w'
  | Panic => Panic
  end.

(** The interface is dropped with the error of [m]. *)
Definition dropping {A} (t : TunSocket) (m : OM A) : OM A := fun o w =>
  match m o w with
  | Fail e o' w' => Fail e (close (fd t) o') w'
  | r => r
  end.

(** [TunSocket::new(name)?.set_non_blocking()?] *)
Definition open_iface (name : bytes) : OM TunSocket :=
  t <- Linux.new name;;
  set_non_blocking (fd t);;
  ret t.

(** [Device::new] on Linux *)
Definition device_new (name : bytes) (config : DeviceConfig) : OM (Mach * TunSocket) :=
  '(poll, _) <- build id Epoll.new tt;;
  t <- open_iface name;;
  mtu <- dropping t (Linux.mtu t);;
  next_index <- IndexLfsr.default fuel;;
  let device := mkMachine (mkSystem (new_device config mtu next_index) ∅ ∅) poll None None [] in
  '(_, device) <- build (close (fd t)) (register_all (Z.to_nat (fd t))) device;;
  ret (device, t).

(** [DeviceHandle::new], up to the threads *)
Definition handle_new (name : bytes) (config : DeviceConfig) : OM (Mach * TunSocket) :=
  '(wg_interface, t) <- device_new name config;;
  '(_, wg_interface) <- build (close (fd t)) (open_listen_socket 0) wg_interface;;
  ret (wg_interface, t).

(** [format!("{}/{}.sock", SOCK_DIR, name)], and the paths that a device has to remove. *)
Definition SOCK_DIR : bytes := bytes_of [47; 118; 97; 114; 47; 114; 117; 110; 47; 119; 105; 114; 101; 103; 117; 97; 114; 100; 47].
Definition sock_path (name : bytes) : bytes := SOCK_DIR ++ bytes_of [47] ++ name ++ bytes_of [46; 115; 111; 99; 107].
Definition cleanup_paths (name : bytes) (config : DeviceConfig) : list bytes :=
  if 0 <=? uapi_fd config then [] else [sock_path name].

(** [DeviceHandle::clean]: a path that cannot be removed is passed over. *)
Definition clean (paths : list bytes) (files : gset bytes) : gset bytes := files ∖ list_to_set paths.

(** The end of [Device::new] on macOS: the interface's name, which the system chose for
    [utun], is written to the file that [WG_TUN_NAME_FILE] names; [std::fs::write] is
    unwrapped.  The state is the files with what is in them, and the paths to clean
    up. *)
Record Names := mkNames { n_files : gmap bytes bytes; n_cleanup : list bytes }.
Definition write_name_file (can_write : bytes -> bool) (name_file : option bytes) (name iface_name : bytes) : M Error Names unit :=
  match name_file with
  | Some name_file =>
      if bool_decide (name = bytes_of [117; 116; 117; 110]) then
        (if can_write name_file then modify (fun s => mkNames (<[name_file := iface_name]> (n_files s)) (n_cleanup s)) else panic);;
        modify (fun s => mkNames (n_files s) (n_cleanup s ++ [name_file]))
      else ret tt
  | None => ret tt
  end.

(** [Drop for DeviceHandle] *)
Definition drop_handle (name : bytes) (files : gset bytes) : M Error Mach (gset bytes) :=
  trigger_exit;;
  d <- the_device;;
  ret (clean (cleanup_paths name (config d)) files).

(** ** Threads *)

(** The device that the threads share, and their process's descriptors. *)
Record Host := mkHost { machine : Mach; os : O }.
Definition in_machine {A} (m : M Error Mach A) : M Error Host A := zoom machine (fun x h => mkHost x (os h)) m.
Definition in_os {A} (m : OM A) : M Error Host A := zoom os (fun x h => mkHost (machine h) x) m.
Definition unwrap_result {S A} (m : M Error S A) : M Error S A :=
  r <- attempt m;; match r with inl a => ret a | inr _ => panic end.

(** The interface of the [i]-th thread, at the beginning of [event_loop]. *)
Definition worker_iface (i : nat) (iface : TunSocket) : M Error Host TunSocket :=
  d <- in_machine the_device;;
  if (i =? 0)%nat || negb (use_multi_queue (config d)) then ret iface else
  iface_local <- unwrap_result (in_os (open_iface (name iface)));;
  attempt (in_machine (register_iface_handler (Z.to_nat (fd iface_local))));;
  ret iface_local.

(** ** The daemon *)

Context {C : Type} `{Credentials C}.

(** The daemon's descriptors and identities, and what it sent to its parent. *)
Record Daemon := mkDaemon { d_os : O; d_ids : C; d_sent : list Z }.
Inductive Status := Serving (device : Mach) (iface : TunSocket) | Exited (code : Z).
Abbreviation DM := (M Error Daemon).

Definition daemon_os {A} (m : OM A) : DM A := zoom d_os (fun x d => mkDaemon x (d_ids d) (d_sent d)) m.
Definition daemon_ids {A} (m : M Error C A) : DM A := zoom d_ids (fun x d => mkDaemon (d_os d) x (d_sent d)) m.

(** [sock1.send(&[b]).unwrap()]; the parent holds the other end. *)
Definition notify (b : Z) : DM unit := modify (fun d => mkDaemon (d_os d) (d_ids d) (d_sent d ++ [b])).

(** [main] after the fork, with the arguments; [device_handle.wait()] is where the
    threads serve. *)
Definition main_child (m : Matches) (tun_name : bytes) (config : DeviceConfig) : DM Status :=
  r <- attempt (daemon_os (handle_new tun_name config));;
  match r with
  | inr _ => notify 0;; ret (Exited 1)
  | inl (device, t) =>
      dropped <- (if m_disable_drop_privileges m then ret (inl tt) else attempt (daemon_ids (drop_privileges false)));;
      match dropped with
      | inr _ => notify 0;; ret (Exited 1)
      | inl _ => notify 1;; ret (Serving device t)
      end
  end.

(** The [exit_action] of the process that started the daemon: its exit code, or
    [None] while it waits for a message. *)
Definition exit_action (received : list Z) : option Z :=
  match received with
  | b :: _ => if b =? 1 then Some 0 else Some 1
  | [] => None
  end.
End Startup.
