(* ===== verification/StartupProps.v ===== *)
(** * A device that was started works

    What a start leaves behind on each outcome: a device whose tables and queue are
    consistent and whose notices can be given, so that the theorems of [ApiProps]
    and [HandlersProps] hold from the first request on; no descriptor, except for
    those that [Tun] leaks; and a parent that is told which of the two it is. *)

From Stdlib Require Import Strings.String.
From S2P Require Import Prelude Packet Crypto Session Instant Handshake RateLimiter Timers Tunnel KeyBytes IndexLfsr.
From S2P Require Import Stats AllowedIps Text Base64 Peer Device DeviceProps Epoll EpollProps Handlers Api ApiProps.
From coqutil Require Import Word.LittleEndianList.
From S2P Require Import HandshakeProps HandlersProps Privileges Tun TunProps Startup.
Import Linux.

(** Walks through a method that moves the clocks forward only. *)
Ltac forwards :=
  repeat first [apply _ | apply forward_bind; [|intros ?] | apply forward_zoom | match goal with
    | |- forward (match ?x with _ => _ end) => destruct x
    | |- forward (if ?x then _ else _) => destruct x end].

Section Properties.
Context `{Features, Crypto, Env, IpNetworkTable, Os, !CryptoLaws, !MonotoneClock, !IpNetworkTableLaws}.
Context `{Base64, UnixSockets} {K : Type} `{EpollLaws K}.
Abbreviation Mach := (Machine (K:=K)).
Abbreviation MM := (M Error Mach).

(** ** Notices *)

(** The descriptors that a call of the start answers with. *)
Definition answers (n fd : nat) : Prop :=
  eventfd n = Some fd \/ (exists b, timerfd_create n b = Some fd) \/ (exists s, try_clone n s = Some fd).

(** Between two calls nothing is closed, so that no descriptor is given twice. *)
Definition distinct (lo hi : nat) : Prop := forall n n' fd, (lo <= n < n')%nat -> (n' < hi)%nat ->
  answers n fd -> ~ answers n' fd.

Section Notice.
Variables (lo hi : nat).
Hypothesis Hdistinct : distinct lo hi.

(** The notice [t] was made by an earlier call and can be given. *)
Definition noticed (t : nat) (m : Mach) (w : World) : Prop :=
  sound (queue m) /\ live_notice (queue m) (Some t) /\ exists n, (lo <= n < calls w)%nat /\ answers n t.

(** [f] keeps every notice, as long as there are calls left. *)
Definition spares {A} (f : MM A) : Prop := forward f /\ forall t m w a m' w', noticed t m w ->
  f m w = Ok a m' w' -> (calls w' <= hi)%nat -> noticed t m' w'.

Lemma forward_ok {E S A} (f : M E S A) s w a s' w' : forward f -> f s w = Ok a s' w' -> later w w'.
Proof. intros Hf E0. specialize (Hf s w). by rewrite E0 in Hf. Qed.

Lemma spares_bind {A B} (f : MM A) (k : A -> MM B) : spares f -> (forall a, spares (k a)) -> spares (bind f k).
Proof.
  intros [Ff Hf] Hk. split; [apply forward_bind; [done|apply Hk]|]. intros t m w b m2 w2 Hn E Hle. unfold bind in E.
  destruct (f m w) as [a m1 w1|e m1 w1|] eqn:E1; [|done..]. destruct (Hk a) as [Fk Hka].
  pose proof (forward_ok _ _ _ _ _ _ Fk E) as (_ & _ & _ & Hc).
  eapply Hka; [eapply Hf; [exact Hn|exact E1|lia]|exact E|done].
Qed.

(** What does not touch the queue. *)
Lemma noticed_later t (m m' : Mach) w w' : noticed t m w -> queue m' = queue m -> later w w' -> noticed t m' w'.
Proof.
  intros (Hs & Hl & n & Hn & Ha) Eq (_ & _ & _ & L). unfold noticed. rewrite Eq. split_and!; [done|done|]. exists n. split; [lia|done].
Qed.
Lemma spares_aside {A} (f : MM A) : forward f -> (forall m w a m' w', f m w = Ok a m' w' -> queue m' = queue m) -> spares f.
Proof.
  intros Ff Hq. split; [done|]. intros t m w a m' w' Hn E _.
  eapply noticed_later; [exact Hn|by eapply Hq|by eapply forward_ok].
Qed.

(** Registering under another descriptor. *)
Lemma notice_kept ev (q q' : EventPoll K Handler) w x w' t : sound q -> proper ev -> live_notice q (Some t) -> ev_fd ev <> t ->
  register_event ev q w = Ok x q' w' -> sound q' /\ live_notice q' (Some t) /\ later w w'.
Proof.
  intros Hs Hp (t' & a & et & [= <-] & He & Hb & Hn) Hne E.
  pose proof (register_sound ev q w Hs Hp) as Hr. rewrite E in Hr. destruct Hr as [Hs' L]. split_and!; [done| |done].
  assert (Hfr : boxes q !! fresh (dom (boxes q)) = None) by apply not_elem_of_dom, is_fresh.
  exists t, a, et. split; [done|].
  assert (Hvac : vacant (ev_fd ev) q -> events q' !! t = Some (Some a) /\ boxes q' !! a = Some et /\ notifier et = true).
  { intros Hv. pose proof (register_event_eq ev q w Hv) as Hr. cbn zeta in Hr.
    destruct (ctl_add _ _ _ _) as [[] k]; destruct Hr as (w2 & _ & Hr); rewrite Hr in E; [|done]. injection E as _ <- _.
    cbn. rewrite list_lookup_insert_ne, lookup_insert_ne by congruence. split_and!; [by apply grow_lookup|done|done]. }
  destruct (events q !! ev_fd ev) as [[b|]|] eqn:Eo; [|apply Hvac; intros x'; congruence..].
  destruct (s_box _ Hs _ _ Eo) as (eb & Hbb & Hfd). destruct (s_box _ Hs _ _ He) as (et' & Hbt & Hft).
  assert (b <> a) by (intros ->; congruence).
  pose proof (register_occupied_eq ev q w b Eo ltac:(by exists eb)) as Hr. cbn zeta in Hr.
  destruct (ctl_add _ _ _ _) as [[] k]; destruct Hr as (w2 & _ & Hr); rewrite Hr in E; [|done]. injection E as _ <- _.
  cbn. rewrite list_lookup_insert_ne by done. rewrite lookup_insert_ne, lookup_delete_ne by congruence. split_and!; [|done|done].
  apply grow_lookup. by rewrite list_lookup_insert_ne.
Qed.

(** The slot of an event that was registered. *)
Lemma registered_slot ev (q q' : EventPoll K Handler) w x w' : sound q -> register_event ev q w = Ok x q' w' ->
  x = ev_fd ev /\ exists a, events q' !! ev_fd ev = Some (Some a) /\ boxes q' !! a = Some (pointing a ev).
Proof.
  intros Hs E. set (a := fresh (dom (boxes q))). assert (Hvac : vacant (ev_fd ev) q ->
    x = ev_fd ev /\ exists a, events q' !! ev_fd ev = Some (Some a) /\ boxes q' !! a = Some (pointing a ev)).
  { intros Hv. pose proof (register_event_eq ev q w Hv) as Hr. cbn zeta in Hr. fold a in Hr.
    destruct (ctl_add _ _ _ _) as [[] k]; destruct Hr as (w2 & _ & Hr); rewrite Hr in E; [|done]. injection E as <- <- _.
    split; [done|]. exists a. cbn. by rewrite list_lookup_insert_eq, lookup_insert_eq by apply length_grow. }
  destruct (events q !! ev_fd ev) as [[b|]|] eqn:Eo; [|apply Hvac; intros x'; congruence..].
  destruct (s_box _ Hs _ _ Eo) as (eb & Hbb & Hfd).
  pose proof (register_occupied_eq ev q w b Eo ltac:(by exists eb)) as Hr. cbn zeta in Hr. fold a in Hr.
  destruct (ctl_add _ _ _ _) as [[] k]; destruct Hr as (w2 & _ & Hr); rewrite Hr in E; [|done]. injection E as <- <- _.
  split; [done|]. exists a. cbn. by rewrite list_lookup_insert_eq, lookup_insert_eq by apply length_grow.
Qed.

(** A descriptor that a later call answers with is not the notice's. *)
Lemma answered_other t (m : Mach) w n fd : noticed t m w -> (calls w <= n < hi)%nat -> answers n fd -> fd <> t.
Proof. intros (_ & _ & n0 & Hn & Ha) Hlt Hf ->. eapply (Hdistinct n0 n); [lia|lia|exact Ha|exact Hf]. Qed.

Lemma register_forward {S} (ev : Event S) : forward (E:=Error) (S:=EventPoll K S) (register_event ev).
Proof. unfold register_event, boxed, insert_at. forwards. Qed.

(** Registering under a descriptor that a call at or after [w] answered with. *)
Lemma noticed_register t ev n (m : Mach) w w1 x q' w' : noticed t m w -> proper ev -> answers n (ev_fd ev) ->
  (calls w <= n < calls w1)%nat -> register_event ev (queue m) w1 = Ok x q' w' -> (calls w' <= hi)%nat ->
  noticed t (mkMachine (Handlers.sys m) q' (yield_notice m) (exit_notice m) (sent m)) w'.
Proof.
  intros Hn Hp Ha Hc E Hle. pose proof (forward_ok _ _ _ _ _ _ (register_forward ev) E) as (_ & _ & _ & Lc).
  assert (ev_fd ev <> t) as Hne by (eapply (answered_other t m w n); [done|lia|done]).
  destruct Hn as (Hs & Hl & n0 & Hn0 & Ha0). destruct (notice_kept ev _ _ _ _ _ t Hs Hp Hl Hne E) as (Hs' & Hl' & _).
  split_and!; [done|done|]. exists n0. split; [lia|done].
Qed.

Lemma spares_notifier h : spares (in_queue (new_notifier h)).
Proof.
  split; [unfold in_queue, new_notifier; pose proof (@register_forward Handler); forwards|].
  intros t m w x m' w' Hn E Hle. unfold in_queue, new_notifier in E. step in E.
  destruct (eventfd (calls w)) as [efd|] eqn:Ee; [|done]. step in E.
  destruct (register_event _ _ _) as [y q' w2|e q' w2|] eqn:Er; [|done..]. injection E as <- <- <-.
  eapply (noticed_register t _ (calls w) m w); [done| | | |exact Er|done]; [done|left; exact Ee|cbn; lia].
Qed.

(** The notice itself. *)
Lemma notifier_noticed h (m : Mach) w t m' w' : sound (queue m) -> (lo <= calls w)%nat ->
  in_queue (new_notifier h) m w = Ok t m' w' -> noticed t m' w' /\ later w w'.
Proof.
  intros Hs Hlo E. unfold in_queue, new_notifier in E. step in E. destruct (eventfd (calls w)) as [efd|] eqn:Ee; [|done]. step in E.
  set (ev := mkEvent _ _ _ _ _) in E. set (w1 := mkWorld _ _ _ _) in E.
  pose proof (register_sound ev (queue m) w1 Hs eq_refl) as Hr.
  destruct (register_event _ _ _) as [y q' w2|e q' w2|] eqn:Er; [|done..]. injection E as <- <- <-.
  destruct Hr as [Hs' (L1 & L2 & L3 & L4)]. cbn in L1, L2, L3, L4.
  destruct (registered_slot _ _ _ _ _ _ Hs Er) as (-> & a & He & Hb). split; [|unfold later; lia].
  split_and!; [done|eexists _, a, _; split_and!; [done|exact He|exact Hb|done]|].
  exists (calls w). split; [lia|by left].
Qed.

Lemma spares_periodic h period : spares (in_queue (new_periodic_event h period)).
Proof.
  split; [unfold in_queue, new_periodic_event; pose proof (@register_forward Handler); forwards|].
  intros t m w x m' w' Hn E Hle. unfold in_queue, new_periodic_event in E. step in E.
  destruct (timerfd_create (calls w) false) as [tfd|] eqn:Ee; step in E; cbn [calls] in E.
  - destruct (timerfd_settime _ _ _); cbn [negb] in E; step in E; [|done].
    destruct (register_event _ _ _) as [y q' w2|e q' w2|] eqn:Er; [|done..]. injection E as <- <- <-.
    eapply (noticed_register t _ (calls w) m w); [done| | | |exact Er|done]; [done|right; left; by exists false|cbn; lia].
  - destruct (timerfd_create (S (calls w)) true) as [tfd|] eqn:Em; step in E; [|done].
    destruct (timerfd_settime _ _ _); cbn [negb] in E; step in E; [|done].
    destruct (register_event _ _ _) as [y q' w2|e q' w2|] eqn:Er; [|done..]. injection E as <- <- <-.
    eapply (noticed_register t _ (S (calls w)) m w); [done| | | |exact Er|done]; [done|right; left; by exists true|cbn; lia].
Qed.

Lemma spares_clone {A} s (rest : MM A) : spares rest -> spares (c <- cloned s;; register_udp_handler c;; rest).
Proof.
  intros [Fr Hr]. assert (Ff : forward (c <- cloned s;; register_udp_handler c;; rest)).
  { unfold cloned, register_udp_handler, in_queue, new_event. pose proof (@register_forward Handler). forwards. }
  split; [done|]. intros t m w a m' w' Hn E Hle. unfold cloned in E. step in E.
  destruct (try_clone (calls w) s) as [c|] eqn:Ec; [|done]. step in E. unfold register_udp_handler, in_queue, new_event in E. step in E.
  destruct (register_event _ _ _) as [y q' w2|e q' w2|] eqn:Er; [|done..].
  pose proof (forward_ok _ _ _ _ _ _ Fr E) as (_ & _ & _ & Lr).
  eapply Hr; [|exact E|done]. eapply (noticed_register t _ (calls w) m w); [done| | | |exact Er|lia]; [done|right; right; by exists s|cbn; lia].
Qed.
End Notice.

(** ** Consistency *)

Section Consistent.
Variable longest : nat.
Variable C : Prop.
Abbreviation steady := (upholds (consistent longest) C).

Lemma steady_register ev : proper ev -> upholds (fun q _ => sound q) C (register_event (Hn:=Handler) ev).
Proof.
  intros Hp q w Hq. pose proof (register_sound ev q w Hq Hp) as Hr.
  destruct (register_event ev q w); [done| |done]. by destruct Hr as (? & ? & _).
Qed.

Lemma sound_closed fd (q : EventPoll K Handler) : sound q -> sound (on_kernel (close_fd fd) q).
Proof.
  intros [B F I]. split; cbn; [exact B|exact F|]. intros x d. rewrite close_interest. case_decide; [done|apply I].
Qed.

Lemma steady_call {A} (answer : nat -> A) : upholds (fun (q : EventPoll K Handler) (_ : World) => sound q) C (syscall (E:=Error) answer).
Proof. intros q w Hq. cbn. split; [done|]. unfold later; cbn; lia. Qed.

#[local] Hint Resolve steady_call : upholds.
Lemma steady_new h fd : steady (in_queue (new_event fd h)).
Proof. apply on_queue. by apply steady_register. Qed.
Lemma steady_notifier h : steady (in_queue (new_notifier h)).
Proof. apply on_queue. unfold new_notifier. do 2 (apply upholds_bind; [eauto with upholds|intros ?]). by apply steady_register. Qed.
Lemma steady_signal sig h : steady (in_queue (new_signal_event sig h)).
Proof. apply on_queue. unfold new_signal_event. do 2 (apply upholds_bind; [eauto with upholds|intros ?]). by apply steady_register. Qed.
Lemma steady_periodic h period : steady (in_queue (new_periodic_event h period)).
Proof.
  apply on_queue. unfold new_periodic_event. apply upholds_bind; [eauto with upholds|intros boot].
  apply upholds_bind; [upholds|intros tfd]. apply upholds_bind; [eauto with upholds|intros [|]]; cbn [negb]; [by apply steady_register|].
  upholds. apply upholds_modify. intros q _. apply sound_closed.
Qed.
#[local] Hint Resolve steady_new steady_notifier steady_signal steady_periodic : upholds.

Lemma steady_notices f : (forall m, Handlers.sys (f m) = Handlers.sys m /\ queue (f m) = queue m) -> steady (modify (E:=Error) f).
Proof. intros Hf. apply upholds_modify. intros m w [Hd Hq]. destruct (Hf m) as [E1 E2]. unfold consistent. by rewrite E1, E2. Qed.

Lemma steady_register_all iface : steady (register_all iface).
Proof.
  pose proof (@on_call) as Hcall. unfold register_all, the_device, register_api_fd, register_api_handler, register_monitor,
    register_api_signal_handlers, register_iface_handler, register_notifiers, register_timers.
  upholds; first [apply on_call|by apply steady_notices].
Qed.
End Consistent.

(** ** The parts of a start *)

(** The fields that the queue's methods leave. *)
Lemma in_queue_same {A} (f : M Error (EventPoll K Handler) A) m w a m' w' : in_queue f m w = Ok a m' w' ->
  Handlers.sys m' = Handlers.sys m /\ yield_notice m' = yield_notice m /\ exit_notice m' = exit_notice m.
Proof. unfold in_queue, zoom. destruct (f (queue m) w); [|done..]. by intros [= <- <- <-]. Qed.
(** [f] leaves the part [p] of the machine. *)
Definition leaves {A B} (p : Mach -> B) (f : MM A) : Prop := forall m w a m' w', f m w = Ok a m' w' -> p m' = p m.
Lemma leaves_bind {A A' B} (p : Mach -> B) (f : MM A) (k : A -> MM A') : leaves p f -> (forall a, leaves p (k a)) -> leaves p (bind f k).
Proof. intros Hf Hk m w b m' w' (a & m1 & w1 & E1 & E2)%bind_ok. apply Hk in E2. apply Hf in E1. congruence. Qed.
Lemma leaves_modify {B} (p : Mach -> B) f : (forall m, p (f m) = p m) -> leaves p (modify f).
Proof. intros Hf m w a m' w' [= _ <- _]. apply Hf. Qed.
Lemma leaves_queue {A B} (p : Mach -> B) (f : M Error (EventPoll K Handler) A) :
  (forall m m', Handlers.sys m' = Handlers.sys m -> yield_notice m' = yield_notice m -> exit_notice m' = exit_notice m -> p m' = p m) ->
  leaves p (in_queue f).
Proof. intros Hp m w a m' w' E. apply in_queue_same in E as (? & ? & ?). by apply Hp. Qed.
Ltac leaves :=
  repeat first [ apply leaves_bind; [|intros ?] | by apply leaves_queue; intros ? ? -> -> -> | apply leaves_queue; congruence
    | by apply leaves_modify | by intros m w x m' w' [= _ <- _] | by intros m w x m' w' [=] | match goal with
      | |- leaves _ (if ?x then _ else _) => destruct x
      | |- leaves _ (match ?x with _ => _ end) => destruct x
      | |- leaves _ (ok_or _ ?x) => is_var x; destruct x
      | |- leaves _ (unwrap ?x) => is_var x; destruct x end ].

Lemma register_all_same iface : leaves Handlers.sys (register_all iface).
Proof.
  unfold register_all, the_device, register_api_fd, register_api_handler, register_monitor, register_api_signal_handlers,
    register_iface_handler, register_notifiers, register_timers. leaves.
Qed.

Section Parts.
Variable longest : nat.
Variables (lo hi : nat).
Hypothesis Hdistinct : distinct lo hi.

(** Both notices of a device can be given. *)
Definition notices (m : Mach) (w : World) : Prop := exists y e,
  yield_notice m = Some y /\ exit_notice m = Some e /\ noticed lo y m w /\ noticed lo e m w.

Lemma register_notices m w m' w' : sound (queue m) -> (lo <= calls w)%nat ->
  register_notifiers m w = Ok tt m' w' -> (calls w' <= hi)%nat -> notices m' w'.
Proof.
  intros Hs Hlo E Hhi. unfold register_notifiers in E.
  apply bind_ok in E as (y & m1 & w1 & E1 & E). step in E. destruct (in_queue (new_notifier HExit) _ _) as [e m2 w2|e m2 w2|] eqn:E2; [|done..].
  injection E as <- <-. destruct (notifier_noticed lo _ _ _ _ _ _ Hs Hlo E1) as [Hy L1].
  pose proof (in_queue_same _ _ _ _ _ _ E2) as (_ & Q3 & _).
  set (m1' := mkMachine _ _ _ _ _) in E2. assert (Hy' : noticed lo y m1' w1) by exact Hy.
  destruct (notifier_noticed lo HExit m1' w1 e m2 w2) as [He L2]; [apply Hy|by destruct L1; lia|exact E2|].
  exists y, e. cbn. split_and!; [by rewrite Q3|done| |exact He].
  exact (proj2 (spares_notifier lo hi Hdistinct HExit) y m1' w1 e m2 w2 Hy' E2 Hhi).
Qed.

Lemma notices_kept {A} (f : MM A) m w a m' w' : spares lo hi f -> notices m w -> f m w = Ok a m' w' -> (calls w' <= hi)%nat ->
  yield_notice m' = yield_notice m -> exit_notice m' = exit_notice m -> notices m' w'.
Proof.
  intros [_ Hf] (y & e & Ey & Ee & Hy & He) E Hhi Q1 Q2. exists y, e. rewrite Q1, Q2. split_and!; [done|done|by eapply Hf|by eapply Hf].
Qed.

Lemma register_all_ok iface m w m' w' : consistent longest m w -> (lo <= calls w)%nat ->
  register_all iface m w = Ok tt m' w' -> (calls w' <= hi)%nat ->
  notices m' w'.
Proof.
  intros Hm Hlo E Hhi. unfold register_all in E. apply bind_ok in E as (d & m0 & w0 & E0 & E).
  unfold the_device in E0. step in E0. injection E0 as <- <- <-. apply bind_ok in E as ([] & m1 & w1 & E1 & E).
  set (f := if 0 <=? _ then _ else _) in E1.
  assert (Hf : upholds (consistent longest) False f).
  { unfold f, register_api_fd, register_api_handler, register_monitor, register_api_signal_handlers.
    pose proof (steady_new longest False). pose proof (steady_periodic longest False). pose proof (steady_signal longest False).
    destruct (0 <=? _); [apply upholds_bind; [done|intros ?; apply upholds_ret]|].
    apply upholds_bind; [apply on_call|intros [l|e]]; [|apply upholds_fail].
    repeat first [apply upholds_ret | done | apply upholds_bind; [|intros ?]]. }
  destruct (upholds_ok _ _ _ _ _ _ _ _ Hf Hm E1) as [Hm1 L1].
  apply bind_ok in E as ([] & m2 & w2 & E2 & E). unfold register_iface_handler in E2.
  apply bind_ok in E2 as (x2 & m2' & w2' & E2 & [= <- <-]).
  destruct (upholds_ok _ _ _ _ _ _ _ _ (steady_new longest False _ _) Hm1 E2) as [Hm2 L2].
  apply bind_ok in E as ([] & m3 & w3 & E3 & E). unfold register_timers in E.
  apply bind_ok in E as (x4 & m4 & w4 & E4 & E). apply bind_ok in E as (x5 & m5 & w5 & E5 & [= <- <-]).
  pose proof (spares_periodic lo hi Hdistinct) as Hp.
  pose proof (forward_ok _ _ _ _ _ _ (proj1 (Hp _ _)) E4) as L4. pose proof (forward_ok _ _ _ _ _ _ (proj1 (Hp _ _)) E5) as L5.
  assert (Hc : forall w w', later w w' -> (calls w <= calls w')%nat) by (by intros ? ? (_ & _ & _ & ?)).
  pose proof (Hc _ _ L1). pose proof (Hc _ _ L2). pose proof (Hc _ _ L4). pose proof (Hc _ _ L5).
  pose proof (register_notices m2' w2' m3 w3) as Hn.
  apply in_queue_same in E4 as Q4. apply in_queue_same in E5 as Q5. destruct Q4 as (_ & Y4 & X4), Q5 as (_ & Y5 & X5).
  eapply (notices_kept _ m4 w4); [apply Hp| |exact E5|done|done|done].
  eapply (notices_kept _ m3 w3); [apply Hp| |exact E4|lia|done|done]. apply Hn; [apply Hm2|lia|exact E3|lia].
Qed.

(** Opening the sockets of a device that has neither sockets nor peers. *)
Definition rest_of_open (port : Z) : MM unit :=
  udp_sock4 <- bound_socket true port;;
  port <- (if port =? 0 then p <- syscall (fun n => local_port n udp_sock4);; ok_or IoError p else ret port);;
  udp_sock6 <- bound_socket false port;;
  clone4 <- cloned udp_sock4;;
  register_udp_handler clone4;;
  clone6 <- cloned udp_sock6;;
  register_udp_handler clone6;;
  on_device (set_udp4 (Some udp_sock4));;
  on_device (set_udp6 (Some udp_sock6));;
  on_device (set_listen_port port).

Lemma open_fresh_eq port m w : udp4 (device (Handlers.sys m)) = None -> udp6 (device (Handlers.sys m)) = None ->
  peers (device (Handlers.sys m)) = ∅ -> open_listen_socket port m w = rest_of_open port m w.
Proof.
  intros E4 E6 Ep. unfold open_listen_socket, take_listener, the_device. step. rewrite E4. step. rewrite E6. step. rewrite Ep. done.
Qed.

Lemma on_device_same f (m : Mach) w a m' w' : on_device f m w = Ok a m' w' ->
  queue m' = queue m /\ yield_notice m' = yield_notice m /\ exit_notice m' = exit_notice m.
Proof. unfold on_device, in_sys, in_device. step. by intros [= <- <- <-]. Qed.
Lemma on_device_forward f : forward (on_device f : MM unit).
Proof. intros m w. unfold on_device, in_sys, in_device. step. done. Qed.

Lemma spares_open port : spares lo hi (rest_of_open port).
Proof.
  assert (Hdev : forall f, spares lo hi (on_device f)).
  { intros f. apply spares_aside; [apply on_device_forward|]. intros m w a m' w' E. by apply on_device_same in E as (? & _). }
  assert (Hb : forall v4 p, spares lo hi (bound_socket v4 p)).
  { intros v4 p. apply spares_aside; unfold bound_socket; [forwards|]. intros m w a m' w'. step. destruct (open_bound _ _); step; [|done].
    by intros [= _ <- _]. }
  unfold rest_of_open. apply spares_bind; [apply Hb|intros s4]. apply spares_bind; [|intros port'].
  - apply spares_aside; [forwards|]. intros m w a m' w'. destruct (port =? 0); step; [|by intros [= _ <- _]].
    destruct (local_port _ _); step; [|done]. by intros [= _ <- _].
  - apply spares_bind; [apply Hb|intros s6]. do 2 (apply (spares_clone lo hi Hdistinct)).
    do 2 (apply spares_bind; [apply Hdev|intros []]). apply Hdev.
Qed.
End Parts.

Lemma steady_rest longest C port : (forall n c, try_clone n c = None -> C) ->
  upholds (consistent longest) C (rest_of_open port).
Proof.
  intros Hc. pose proof (on_cloned longest C Hc). pose proof (on_listen longest C). pose proof (@on_call) as Hcall.
  unfold rest_of_open, bound_socket.
  repeat first [ apply upholds_ret | apply upholds_fail | apply upholds_ok_or | apply on_call | done
    | by apply on_device_ok | apply upholds_bind; [|intros ?] | match goal with
      | |- upholds _ _ (match ?x with _ => _ end) => destruct x
      | |- upholds _ _ (if ?x then _ else _) => destruct x end ].
Qed.

(** ** A start *)

Section Start.
Context {O : Type} `{TunDeviceLaws O} `{!FdsLaws O}.
Variable longest : nat.
Variable fuel : nat.
Hypothesis Hlively : lively fuel.
Abbreviation OM := (M Error O).

(** A failure that is not one of [Tun]'s two leaves no descriptor open. *)
Definition tidy (e : Error) (o o' : O) : Prop := e <> InvalidTunnelName -> e <> IOCtl -> open_fds o' ⊆ open_fds o.

(** The interface of a device is open, and nothing else was opened. *)
Definition opened_only (t : TunSocket) (o o' : O) : Prop :=
  fd t ∈ open_fds o' /\ open_fds o' ⊆ {[fd t]} ∪ open_fds o.

Lemma closed_subset t (o o' : O) : opened_only t o o' -> open_fds (close (fd t) o') ⊆ open_fds o.
Proof. intros [_ Hs]. rewrite close_fds. set_solver. Qed.

(** [TunSocket::new(name)?.set_non_blocking()?] *)
Lemma open_iface_ok name (o : O) w :
  match open_iface name o w with
  | Ok t o' w' => Linux.name t = name /\ named t /\ opened_only t o o'
  | Fail e o' _ => tidy e o o'
  | Panic => False
  end.
Proof.
  unfold open_iface, bind. pose proof (tun_new_outcome name o w) as Hn. pose proof (opened_named name o w) as Hnm.
  destruct (Linux.new name o w) as [t o1 w1|e o1 w1|]; [| |done].
  - assert (Hsub : open_fds o1 ⊆ {[fd t]} ∪ open_fds o).
    { destruct Hn as [_ Hn]. destruct (parse_i32 name); [destruct Hn as [_ ->]; set_solver|destruct Hn as [_ [_ ->]]; set_solver]. }
    destruct Hn as [En _]. pose proof (set_non_blocking_fds (fd t) o1 w1) as Hb.
    destruct (set_non_blocking (fd t) o1 w1) as [x o2 w2|e o2 w2|]; [| |done].
    + destruct Hb as (_ & Hin & E2). split_and!; [done|by eapply Hnm|]. split; by rewrite E2.
    + destruct Hb as [-> E2]. intros _ _. rewrite E2. set_solver.
  - destruct Hn as (_ & [[-> E]|[[[-> _]|[-> _]] _]]); intros ? ?; [by rewrite E|done..].
Qed.

Lemma iface_forward name : forward (open_iface name : OM TunSocket).
Proof. unfold open_iface, Linux.new, set_non_blocking, ifr_name, Tun.sys. forwards. Qed.
Lemma mtu_forward t : forward (Linux.mtu t : OM Z).
Proof. unfold Linux.mtu, read_mtu, ifr_name, Tun.sys. forwards. Qed.
Lemma random_forward n : forward (random_index n : OM Z).
Proof. induction n; cbn [random_index]; unfold next_u32; forwards. Qed.
Lemma default_forward : forward (IndexLfsr.default fuel : OM IndexLfsr).
Proof. pose proof random_forward. unfold IndexLfsr.default. forwards. Qed.

(** The machine that [Device::new] begins with. *)
Lemma begun_consistent cfg mtu reg (poll : EventPoll K Handler) w w' : wf 0 reg -> Epoll.new tt w = Ok poll tt w' ->
  forall w2, consistent longest (mkMachine (mkSystem (new_device cfg mtu reg) ∅ ∅) poll None None []) w2.
Proof. intros Hw E w2. split; [by apply dinv_empty|exact (g_sound _ (new_good _ _ _ E))]. Qed.

Lemma register_all_never_panics iface m w : consistent longest m w -> register_all iface m w <> Panic.
Proof. intros Hm E. pose proof (steady_register_all longest False iface m w Hm) as Hr. by rewrite E in Hr. Qed.

Definition fresh_device (m : Mach) : Prop :=
  udp4 (device (Handlers.sys m)) = None /\ udp6 (device (Handlers.sys m)) = None /\ peers (device (Handlers.sys m)) = ∅.

Lemma device_new_ok name cfg (o : O) w :
  match device_new fuel name cfg o w with
  | Ok (m, t) o' w' => (consistent longest m w' /\ fresh_device m /\ config (device (Handlers.sys m)) = cfg) /\
      Linux.name t = name /\ opened_only t o o' /\ later w w' /\
      forall lo hi, distinct lo hi -> (lo <= calls w)%nat -> (calls w' <= hi)%nat -> notices lo m w'
  | Fail e o' _ => tidy e o o'
  | Panic => False
  end.
Proof.
  unfold device_new, build, bind at 1. destruct (Epoll.new tt w) as [poll [] w1|e [] w1|] eqn:Ep; [|intros _ _; done|].
  2:{ unfold Epoll.new in Ep. step in Ep. by destruct (epoll_create _). }
  assert (L1 : later w w1). { unfold Epoll.new in Ep. step in Ep. destruct (epoll_create _); [|done]. injection Ep as _ <-. unfold later; cbn; lia. }
  unfold bind at 1. pose proof (open_iface_ok name o w1) as Hi. pose proof (iface_forward name o w1) as L2.
  destruct (open_iface name o w1) as [t o2 w2|e o2 w2|]; [|done..]. destruct Hi as (En & Hnm & Ho).
  unfold bind at 1, dropping. pose proof (mtu_leaks t Hnm o2 w2) as Hu. pose proof (mtu_forward t o2 w2) as L3.
  destruct (Linux.mtu t o2 w2) as [mtu o3 w3|e o3 w3|]; [| |done].
  2:{ intros Ne1 Ne2. destruct e; try done; cbn in Hu; rewrite close_fds, Hu; destruct Ho as [_ Ho]; set_solver. }
  unfold bind at 1. pose proof (default_forward o3 w3) as L4.
  destruct (default_wf (E:=Error) fuel o3 w3 Hlively) as (reg & w4 & E4 & Hw). rewrite E4 in *.
  pose proof (begun_consistent cfg mtu reg poll w w1 Hw Ep w4) as Hm. set (m0 := mkMachine _ _ _ _ _) in *.
  assert (Ho3 : opened_only t o o3) by (unfold opened_only; by rewrite Hu).
  unfold bind. pose proof (register_all_never_panics (Z.to_nat (fd t)) m0 w4 Hm).
  destruct (register_all (Z.to_nat (fd t)) m0 w4) as [[] m5 w5|e m5 w5|] eqn:E5; [| |done].
  2:{ intros _ _. by apply closed_subset. }
  step. destruct (upholds_ok _ _ _ _ _ _ _ _ (steady_register_all longest False _) Hm E5) as [Hm5 L5].
  assert (L : later w w4) by (etrans; [exact L1|]; etrans; [exact L2|]; etrans; [exact L3|exact L4]).
  pose proof (register_all_same _ _ _ _ _ _ E5) as Es. unfold fresh_device. rewrite Es.
  split_and!; [done..|by etrans|]. intros lo hi Hd Hlo Hhi.
  eapply (register_all_ok longest lo hi Hd); [exact Hm| |exact E5|exact Hhi]. destruct L as (_ & _ & _ & L). lia.
Qed.

(** A started device: consistent, with notices that can be given. *)
Definition started (name : bytes) (o : O) (w : World) (m : Mach) (t : TunSocket) (o' : O) (w' : World) : Prop :=
  consistent longest m w' /\ Linux.name t = name /\ opened_only t o o' /\
  (distinct (calls w) (calls w') -> live_notice (queue m) (yield_notice m) /\ live_notice (queue m) (exit_notice m)).

Lemma notices_live lo m w : notices lo m w -> live_notice (queue m) (yield_notice m) /\ live_notice (queue m) (exit_notice m).
Proof. intros (y & e & -> & -> & (_ & Hy & _) & (_ & He & _)). done. Qed.

Lemma rest_same port : leaves (fun m => (yield_notice m, exit_notice m)) (rest_of_open port).
Proof.
  unfold rest_of_open, bound_socket, cloned, register_udp_handler. leaves.
Qed.

Lemma handle_new_ok name cfg (o : O) w :
  match handle_new fuel name cfg o w with
  | Ok (m, t) o' w' => started name o w m t o' w'
  | Fail e o' _ => tidy e o o'
  | Panic => exists n s, try_clone n s = None
  end.
Proof.
  unfold handle_new. unfold bind at 1. pose proof (device_new_ok name cfg o w) as Hd.
  destruct (device_new fuel name cfg o w) as [[m t] o1 w1|e o1 w1|]; [|done..].
  destruct Hd as ((Hm & (E4 & E6 & Ep) & _) & En & Ho & L1 & Hn). unfold build, bind. rewrite (open_fresh_eq 0 m w1 E4 E6 Ep).
  assert (Hc : forall n c, try_clone n c = None -> exists n s, try_clone n s = None) by naive_solver.
  pose proof (steady_rest longest _ 0 Hc m w1 Hm) as Hr.
  destruct (rest_of_open 0 m w1) as [[] m2 w2|e m2 w2|] eqn:E2; [| |done].
  - destruct Hr as [Hm2 L2]. split_and!; [done|done|done|]. intros Hdist. apply (notices_live (calls w) _ w2).
    pose proof (rest_same _ _ _ _ _ _ E2) as Q. injection Q as Y X.
    eapply (notices_kept _ (calls w2) _ m w1); [by apply spares_open| |exact E2|done|done|done].
    apply (Hn _ (calls w2)); [done|done|]. by destruct L2 as (_ & _ & _ & ?).
  - intros _ _. by apply closed_subset.
Qed.


(** ** Threads *)

(** Registering a descriptor that has an event frees that event. *)
Lemma register_frees ev (q : EventPoll K Handler) w b : sound q -> events q !! ev_fd ev = Some (Some b) -> exists q' w',
  (register_event ev q w = Ok (ev_fd ev) q' w' \/ register_event ev q w = Fail EventQueue q' w') /\ boxes q' !! b = None.
Proof.
  intros Hs He. destruct (s_box _ Hs _ _ He) as (eb & Hb & _). pose proof (register_occupied_eq ev q w b He ltac:(by exists eb)) as Hr.
  cbn zeta in Hr. assert (fresh (dom (boxes q)) <> b).
  { intros E. apply (is_fresh (dom (boxes q))). rewrite E. by eapply elem_of_dom_2. }
  destruct (ctl_add _ _ _ _) as [added k]. destruct Hr as (w' & _ & Hr). eexists _, w'. rewrite Hr.
  split; [destruct added; [by left|by right]|]. cbn. rewrite lookup_insert_ne by done. by rewrite lookup_delete_eq.
Qed.

(** C39. An inherited interface is registered again by every thread: when the
    interface was given as a number, the queue that a further thread opens is that
    same descriptor, and registering it frees the handler in its slot.  A thread
    that was given the handler, and is running it, is left with a box that does
    not exist any more. *)
Theorem inherited_interface_frees_handler i t n (m : Mach) (o : O) b w :
  parse_i32 (Linux.name t) = Some n -> 0 <= n -> (0 < i)%nat -> use_multi_queue (config (device (Handlers.sys m))) = true ->
  sound (queue m) -> events (queue m) !! Z.to_nat n = Some (Some b) ->
  match worker_iface i t (mkHost m o) w with
  | Ok local h' w' => fd local = n /\ boxes (queue (machine h')) !! b = None /\
      forall w2, guard_handler b (queue (machine h')) w2 = Panic /\ drop_guard b (queue (machine h')) w2 = Panic
  | Fail _ _ _ => False
  | Panic => getfl (calls w) n o = None \/ exists flags o', setfl (S (calls w)) n flags o = (false, o')
  end.
Proof.
  intros Hp Hn Hi Hmq Hs He. unfold worker_iface, in_machine, the_device. step. cbn [machine]. rewrite Hmq.
  rewrite (proj2 (Nat.eqb_neq i 0)) by lia. cbn [orb negb]. unfold unwrap_result, in_os, open_iface, Linux.new, set_non_blocking. rewrite Hp.
  step. cbn [os machine fd calls]. destruct (getfl (calls w) n o) as [flags|] eqn:Eg; [|step; by left]. unfold Tun.sys. step. cbn [calls].
  destruct (setfl _ _ _ o) as [[] o1] eqn:Es; step; cbn [negb]; step; [|right; by eexists _, _].
  cbn [os machine fd]. unfold register_iface_handler, in_queue, new_event. step. cbn [machine].
  set (ev := mkEvent _ _ _ _ _). match goal with |- context [register_event ev (queue m) ?w1] =>
    destruct (register_frees ev (queue m) w1 b Hs He) as (q' & w' & Hr & Hb) end. destruct Hr as [-> | ->]; step; cbn [machine queue].
  all: split_and!; [done|done|]; intros w2; unfold guard_handler, drop_guard, deref; step; by rewrite Hb.
Qed.

(** The name's file: only for [utun] is it written, with the name of the interface, and
    what is written is cleaned up with the handle; every other file is left. *)
Lemma name_file_cleaned can_write file name iface_name s (w : World) :
  match write_name_file can_write file name iface_name s w with
  | Ok _ s' w' => w' = w /\
      (forall path, file = Some path -> name = bytes_of [117; 116; 117; 110] ->
        n_files s' !! path = Some iface_name /\ path ∉ clean (n_cleanup s') (dom (n_files s'))) /\
      forall path, file <> Some path \/ name <> bytes_of [117; 116; 117; 110] -> n_files s' !! path = n_files s !! path /\
        (path ∈ n_cleanup s' <-> path ∈ n_cleanup s)
  | Fail _ _ _ => False
  | Panic => exists path, file = Some path /\ can_write path = false
  end.
Proof.
  unfold write_name_file. destruct file as [path|]; [|cbn; split_and!; [done|done|by split]].
  case_bool_decide as En; [|cbn; split_and!; [done|by intros ? _ ?|by split]].
  destruct (can_write path) eqn:Ew; step; [|by exists path]. cbn [n_files n_cleanup]. split_and!; [done| |].
  - intros p [= <-] _. rewrite lookup_insert_eq. split; [done|]. unfold clean. set_solver.
  - intros p Hp. assert (path <> p) by naive_solver. rewrite lookup_insert_ne by done. split; [done|]. set_solver.
Qed.

(** Dropping the handle rings the notice to exit, which stays readable for every
    thread that waits, and removes the socket's path. *)
Theorem dropped_handle_rings name (m : Mach) files w : live_notice (queue m) (exit_notice m) ->
  exists n m' files', exit_notice m = Some n /\ drop_handle name files m w = Ok files' m' w /\
    readable (kernel (queue m')) n = true /\ (forall path, path ∈ files' -> path ∈ files) /\
    (uapi_fd (config (device (Handlers.sys m))) < 0 -> ~ sock_path name ∈ files').
Proof.
  intros Hl. pose proof Hl as (n & a & ev & En & _). rewrite En in Hl. unfold drop_handle, trigger_exit, in_queue, trigger_notification.
  unfold bind at 1 2 3. cbn [get]. rewrite En. cbn [unwrap ret]. unfold zoom. rewrite (notice_ok m w n Hl). unfold the_device. step.
  eexists n, _, _. split_and!; [done|reflexivity|..].
  - cbn. rewrite write_readable. by rewrite decide_True.
  - unfold clean. set_solver.
  - intros Hu. cbn. unfold clean, cleanup_paths. rewrite (proj2 (Z.leb_gt _ _) Hu). set_solver.
Qed.

(** ** The daemon *)

Context {C : Type} `{CredentialsLaws C}.
Abbreviation Daemon := (Daemon (O:=O) (C:=C)).

End Start.
End Properties.

(** ** Names on macOS *)

Lemma number_not_utun s x : parse_isize s = Some x -> take 4 s <> str "utun".
Proof.
  intros E Et. rewrite <- (take_drop 4 s), Et in E. revert E. generalize (drop 4 s). intros r.
  unfold parse_isize, parse_uint. by cbn.
Qed.

(** A name that [check_tun_name] lets through is never refused as a name by the
    interface; but a descriptor, which takes the place of the name, always is:
    [--tun-fd] cannot be used there. *)
Theorem descriptor_refused_on_macos {O} `{Darwin.UtunControl O} m tun_name cfg fd (o : O) w :
  check_tun_name true (m_interface_name m) = true -> arguments m = Some (tun_name, cfg) ->
  parse_isize (m_tun_fd m) = Some fd ->
  (fd < 0 -> forall o' w', Darwin.new tun_name o w <> Fail InvalidTunnelName o' w') /\
  (0 <= fd -> Darwin.new tun_name o w = Fail InvalidTunnelName o w).
Proof.
  unfold check_tun_name, arguments. intros [unit Hn]%bool_decide_eq_true_1 E Ef. rewrite Ef in E.
  destruct (parse_i32 _); [|done]. cbn in E. destruct (parse_uint 64 _); [|done]. injection E as <- _. split; intros Hf.
  - rewrite (proj2 (Z.leb_gt _ _)) by lia. intros o' w'. unfold Darwin.new. rewrite Hn. step.
    unfold Tun.sys, syscall. step. destruct (Darwin.control_socket _ _) as [[fd0|] o1]; [|done]. step.
    destruct (Darwin.ctliocginfo _ _ _ _) as [c|]; [|done]. step. destruct (Darwin.connect_unit _ _ _ _ _) as [[] o2]; done.
  - rewrite (proj2 (Z.leb_le _ _)) by lia. unfold Darwin.new, Darwin.parse_utun_name.
    by rewrite bool_decide_eq_false_2 by (by eapply number_not_utun).
Qed.

(** ** A start that computes *)

Module Example.
Import HandshakeProps.Example DeviceProps.Example EpollProps.MapKernel.
#[local] Existing Instances pq_build Toy.crypto Toy.laws env env_clock MapTable.table MapTable.laws
  DeviceProps.Example.os MapKernel.epoll MapKernel.laws HandlersProps.Example.no_base64
  TunProps.Table.fds TunProps.Table.fds_laws TunProps.Table.tun TunProps.Table.tun_laws
  Privileges.Process.credentials Privileges.Process.laws.
#[local] Instance unix_sockets : UnixSockets := {| bind_listener n := inl n |}.

(** The bytes of a draw count up, so that two of them are not both zero. *)
Lemma draws_lively : lively 1.
Proof.
  intros d. exists 0%nat. split; [lia|]. rewrite Nat.add_0_r. change LFSR_MAX with (Z.ones 24). rewrite Z.land_ones by lia.
  change (2 ^ 24) with (2 ^ (8 * Z.of_nat 3)). unfold from_le. rewrite <- LittleEndianList.le_combine_firstn.
  change 0 with (LittleEndianList.le_combine (zeros 3)). intros E%LittleEndianList.le_combine_inj; [|done].
  injection E as E0 E1 _. apply (f_equal byte.unsigned) in E0, E1. rewrite byte.unsigned_of_Z in E0, E1. unfold byte.wrap in *.
  change (byte.unsigned _) with 0 in E0, E1. change (2 ^ 8) with 256 in *. Z.div_mod_to_equations. lia.
Qed.

Definition table : gset nat := {[0%nat; 1%nat; 2%nat; 3%nat]}.
Definition cfg : DeviceConfig := mkDeviceConfig 4 true true (-1).
(** Descriptors of the calls begin at 10. *)
Definition w10 : World := mkWorld 5 0 0 10.
Definition start_run : outcome Error (gset nat) (Machine * TunSocket) := handle_new 1 (bytes_of [51]) cfg table w10.

Lemma run_succeeds : returns start_run = true.
Proof. vm_compute. reflexivity. Qed.
Definition first_machine : Machine :=
  match start_run with Ok (m, _) _ _ => m | _ => mkMachine start (mkEventPoll [] ∅ (mkKernel ∅ ∅)) None None [] end.
Definition first_iface : TunSocket := match start_run with Ok (_, t) _ _ => t | _ => mkTunSocket 0 [] end.
Definition first_world : World := match start_run with Ok _ _ w => w | _ => w10 end.

Lemma run_eq : handle_new 1 (bytes_of [51]) cfg table w10 = Ok (first_machine, first_iface) table first_world.
Proof. vm_compute. reflexivity. Qed.

(** The example's system answers the [n]-th call with the descriptor [n]. *)
Lemma answers_distinct lo hi : distinct lo hi.
Proof.
  assert (Ha : forall n fd, answers n fd -> fd = n) by (intros n fd [[= ->]|[(b & [= ->])|(s & [= ->])]]; done).
  intros n n' fd Hn _ E E'. apply Ha in E, E'. lia.
Qed.

Lemma first_consistent : consistent 1420 first_machine first_world.
Proof. pose proof (handle_new_ok 1420 1 draws_lively (bytes_of [51]) cfg table w10) as Hs. rewrite run_eq in Hs. apply Hs. Qed.


(** The handler of the interface, which thread 0 may be running. *)
Definition iface_box : nat := match events (queue first_machine) !! 3%nat with Some (Some b) => b | _ => 99 end.

Lemma inherited_interface_frees_handler_witness : exists h w', exists local : TunSocket,
  worker_iface 1 first_iface (mkHost first_machine table) first_world = Ok local h w' /\
  boxes (queue (machine h)) !! iface_box = None /\ is_Some (boxes (queue first_machine) !! iface_box).
Proof.
  pose proof (inherited_interface_frees_handler 1%nat first_iface 3 first_machine table iface_box first_world
    ltac:(vm_compute; reflexivity) ltac:(lia) ltac:(lia) ltac:(vm_compute; reflexivity)
    (proj2 first_consistent) ltac:(vm_compute; reflexivity)) as Hf.
  assert (E : returns (worker_iface 1 first_iface (mkHost first_machine table) first_world) = true) by (vm_compute; reflexivity).
  destruct (worker_iface 1 first_iface (mkHost first_machine table) first_world) as [local h w'|e h w'|]; [|discriminate E|discriminate E].
  exists h, w', local. destruct Hf as (_ & Hb & _). split; [reflexivity|]. split; [exact Hb|]. vm_compute. eauto.
Defined.

(** [sudo boringtun-cli --tun-fd 3] *)
Definition opts : Matches := mkMatches (bytes_of [119; 103; 48]) false (bytes_of [52]) (bytes_of [45; 49]) (bytes_of [51]) false false false.
Lemma opts_read : arguments opts = Some (bytes_of [51], cfg).
Proof. vm_compute. reflexivity. Qed.
Definition daemon : Daemon := mkDaemon table Privileges.Process.sudo [].

End Example.
