(* ===== verification/Threads.v ===== *)
(** * The threads of a device: [DeviceHandle] of [device/mod.rs]

    Threads that share a device, begin with an interface of their own and take turns
    of the event loop.  A thread ends when a handler says so, and rings the exit
    notice first; the notice is never silenced again, so that every other thread
    that comes to wait is given it, and [DeviceHandle::wait], which joins them all,
    returns.  [bell] is the invariant of the queue, [alarm] that of the device; a
    start makes it ([started_alarm]) and every handler and request keeps it
    ([alarm_handler]).  A turn is one step. *)

From S2P Require Import Prelude Packet Crypto Session Instant Handshake RateLimiter Timers Tunnel IndexLfsr KeyBytes.
From S2P Require Import Stats AllowedIps Text Base64 Peer Device DeviceProps HandshakeProps HandlersProps Epoll EpollProps.
From S2P Require Import Tun TunProps Startup StartupProps.
From S2P Require Import Handlers Api EventLoop.

(** What [epoll_ctl(2)], [epoll_wait(2)] and [eventfd(2)] say of descriptors that can be
    read: they stay so until they are read themselves; changing an entry makes it
    eligible again. *)
Class ReadableLaws (K : Type) `{Epoll K} : Prop := {
  add_readable n fd e k x : readable k x = true -> readable (ctl_add n fd e k).2 x = true;
  del_readable fd k x : readable k x = true -> readable (ctl_del fd k) x = true;
  mod_readable fd e k x : readable k x = true -> readable (ctl_mod fd e k) x = true;
  wait_readable n k x : readable k x = true -> readable (epoll_wait n k).2 x = true;
  close_readable fd k x : x <> fd -> readable k x = true -> readable (close_fd fd k) x = true;
  drain_readable fd k x : x <> fd -> readable k x = true -> readable (read_until_empty fd k) x = true;
  mod_armed_again fd e k : is_Some (interest k fd) -> armed (ctl_mod fd e k) fd = true;
}.

(** ** The notice in the queue *)

Section Bell.
Context {K : Type} `{EpollLaws K, !ReadableLaws K}.
Abbreviation Queue := (EventPoll K Handler).
Variable e : nat.

(** Every box is in the slot of its descriptor. *)
Definition housed (q : Queue) : Prop := forall a ev, boxes q !! a = Some ev -> events q !! ev_fd ev = Some (Some a).

(** The exit notice has the descriptor [e]: a level-triggered entry that the kernel
    may report to every thread; [rung] once it can be read. *)
Definition bell (rung : bool) (q : Queue) : Prop := sound q /\ housed q /\ exists a ev,
  events q !! e = Some (Some a) /\ boxes q !! a = Some ev /\ ev_event ev = mkEpollEvent EPOLLIN a /\
  ev_fd ev = e /\ notifier ev = true /\ needs_read ev = false /\ handler ev = HExit /\
  interest (kernel q) e = Some (ev_event ev) /\ armed (kernel q) e = true /\
  (rung = true -> readable (kernel q) e = true).

Lemma sound_kernel k (q : Queue) : sound q -> (forall x, interest k x = interest (kernel q) x) ->
  sound (mkEventPoll (events q) (boxes q) k).
Proof. intros [B F I] Hk. split; cbn; [done|done|]. intros fd d. rewrite Hk. apply I. Qed.

(** A kernel that has the entry and lets it be read as before. *)
Lemma bell_kernel rung k (q : Queue) : bell rung q -> sound (mkEventPoll (events q) (boxes q) k) ->
  interest k e = interest (kernel q) e -> armed k e = true -> (readable (kernel q) e = true -> readable k e = true) ->
  bell rung (mkEventPoll (events q) (boxes q) k).
Proof.
  intros (Hs & Hh & a & ev & He & Hb & Hev & Hfd & Hn & Hr & Hd & Hi & Ha & Hr') Hs' Ei Ea Er.
  split_and!; [done|done|]. exists a, ev. cbn. rewrite Ei. split_and!; auto.
Qed.

Lemma sound_cleared fd a (q : Queue) : sound q -> events q !! fd = Some (Some a) -> sound (cleared fd a q).
Proof.
  intros Hs He. assert (Hg : good (mkState q ∅)) by (split; [done|intros t x|intros t x ev]; cbn; by rewrite lookup_empty).
  by apply (good_clear _ fd a ∅ Hg).
Qed.

Lemma housed_cleared fd a (q : Queue) : housed q -> events q !! fd = Some (Some a) -> housed (cleared fd a q).
Proof.
  intros Hh Hx b eb Hbe. cbn in Hbe. apply lookup_delete_Some in Hbe as [Hb1 Hb2]. cbn. rewrite list_lookup_insert_ne; [by apply Hh|].
  intros E. apply Hb1. pose proof (Hh b eb Hb2) as Hx'. rewrite <- E in Hx'. congruence.
Qed.

Lemma bell_cleared rung fd a (q : Queue) : fd <> e -> events q !! fd = Some (Some a) -> bell rung q -> bell rung (cleared fd a q).
Proof.
  intros Hne Hx (Hs & Hh & a0 & ev & He & Hb & Hev & Hfd & Hn & Hr & Hd & Hi & Ha & Hr').
  split_and!; [by apply sound_cleared|by apply housed_cleared|]. exists a0, ev. cbn.
  rewrite list_lookup_insert_ne, del_interest, del_armed, decide_False by done.
  assert (a <> a0) by (intros ->; destruct (s_box _ Hs _ _ Hx) as (ev' & E & <-); congruence).
  rewrite lookup_delete_ne by done. split_and!; try done. intros Hru. apply del_readable. auto.
Qed.

(** The queue after [register_event], with the box [a]. *)
Definition added (ev : Event Handler) (a : nat) (k : K) (q : Queue) : Queue :=
  mkEventPoll (<[ev_fd ev := Some a]> (grow (ev_fd ev) (events q))) (<[a := pointing a ev]> (boxes q)) k.

Lemma housed_added ev a k (q : Queue) : vacant (ev_fd ev) q -> housed q -> housed (added ev a k q).
Proof.
  intros Hv Hh b eb Hbe. cbn in Hbe. apply lookup_insert_Some in Hbe as [[<- <-]|[Hne' Hb2]]; cbn [events ev_fd pointing added].
  - by rewrite list_lookup_insert_eq by apply length_grow.
  - pose proof (Hh b eb Hb2) as Hx. rewrite list_lookup_insert_ne; [by apply grow_lookup|]. intros E. apply (Hv b). by rewrite E.
Qed.

Lemma bell_added rung ev n a ok k (q : Queue) : ev_fd ev <> e -> proper ev -> vacant (ev_fd ev) q -> boxes q !! a = None -> bell rung q ->
  ctl_add n (ev_fd ev) (ev_event (pointing a ev)) (kernel q) = (ok, k) -> bell rung (added ev a k q).
Proof.
  intros Hne Hp Hv Hf (Hs & Hh & a0 & e0 & He & Hb & Hev & Hfd & Hn & Hr & Hd & Hi & Ha & Hr') Ek.
  assert (Hk : interest k e = interest (kernel q) e /\ armed k e = armed (kernel q) e).
  { destruct ok; [|by apply (add_failed _ _ _ _ _ Ek)]. rewrite (add_interest _ _ _ _ _ Ek), (add_armed _ _ _ _ _ Ek).
    by rewrite !decide_False by done. }
  split_and!; [by eapply sound_register|by apply housed_added|]. exists a0, e0. cbn. destruct Hk as [-> ->].
  rewrite list_lookup_insert_ne, grow_lookup by done. rewrite lookup_insert_ne by congruence. split_and!; try done. intros Hru.
  pose proof (add_readable n (ev_fd ev) (ev_event (pointing a ev)) (kernel q) e (Hr' Hru)) as Hx. by rewrite Ek in Hx.
Qed.

(** Registering adds to a queue in which the slot is vacant: the one that there was, or
    that without what was in the slot. *)
Lemma register_adds ev (q : Queue) w : sound q -> exists q0 a ok k w',
  (q0 = q \/ exists b, events q !! ev_fd ev = Some (Some b) /\ q0 = cleared (ev_fd ev) b q) /\
  vacant (ev_fd ev) q0 /\ boxes q0 !! a = None /\
  ctl_add (calls w) (ev_fd ev) (ev_event (pointing a ev)) (kernel q0) = (ok, k) /\
  register_event ev q w = if ok : bool then Ok (ev_fd ev) (added ev a k q0) w' else Fail EventQueue (added ev a k q0) w'.
Proof.
  intros Hs. set (a := fresh (dom (boxes q))). assert (Hf : boxes q !! a = None) by apply not_elem_of_dom, is_fresh.
  destruct (events q !! ev_fd ev) as [[b|]|] eqn:Eo.
  2,3: assert (Hv : vacant (ev_fd ev) q) by (intros x; congruence); pose proof (register_event_eq ev q w Hv) as Hr; cbn zeta in Hr;
    destruct (ctl_add _ _ _ _) as [ok k] eqn:Ek; destruct Hr as (w' & _ & Hr); exists q, a, ok, k, w'; by split_and!; [left|..].
  destruct (s_box _ Hs _ _ Eo) as (eb & Hb & _). pose proof (register_occupied_eq ev q w b Eo ltac:(by exists eb)) as Hr.
  cbn zeta in Hr. destruct (ctl_add _ _ _ _) as [ok k] eqn:Ek. destruct Hr as (w' & _ & Hr).
  exists (cleared (ev_fd ev) b q), a, ok, k, w'. split_and!; [right; by exists b| | |exact Ek|exact Hr].
  - intros x. cbn. rewrite list_lookup_insert_eq by (by eapply lookup_lt_Some). done.
  - cbn. apply lookup_delete_None. by right.
Qed.

Lemma bell_register rung ev : ev_fd ev <> e -> proper ev -> preserves (bell rung) (register_event (K:=K) ev).
Proof.
  intros Hne Hp q w Hq. destruct (register_adds ev q w (proj1 Hq)) as (q0 & a & ok & k & w' & Hq0 & Hv & Hf & Ek & ->).
  assert (bell rung q0) by (destruct Hq0 as [->|(b & Eb & ->)]; [done|by apply bell_cleared]).
  destruct ok; by eapply bell_added.
Qed.

(** Queues that the start goes through before there is a notice. *)
Definition orderly (q : Queue) : Prop := sound q /\ housed q.

Lemma register_orderly ev : proper ev -> preserves orderly (register_event (K:=K) ev).
Proof.
  intros Hp q w [Hs Hh]. destruct (register_adds ev q w Hs) as (q0 & a & ok & k & w' & Hq0 & Hv & Hf & Ek & ->).
  assert (sound q0 /\ housed q0) as [Hs0 Hh0].
  { destruct Hq0 as [->|(b & Eb & ->)]; [done|split; [by apply sound_cleared|by apply housed_cleared]]. }
  assert (orderly (added ev a k q0)) by (split; [by eapply sound_register|by apply housed_added]). by destruct ok.
Qed.

(** A notice that was made: the kernel may report it to every thread. *)
Lemma notifier_bell (q : Queue) w q' w' : orderly q -> new_notifier HExit q w = Ok e q' w' -> bell false q'.
Proof.
  intros [Hs Hh] E. unfold new_notifier in E. step in E. destruct (eventfd (calls w)) as [efd|]; [|done]. step in E.
  set (w1 := mkWorld _ _ _ _) in E. set (ev := mkEvent _ _ _ _ _) in E.
  pose proof (register_orderly ev eq_refl q w1 (conj Hs Hh)) as Ho. rewrite E in Ho.
  destruct (register_adds ev q w1 Hs) as (q0 & a & ok & k & w2 & Hq0 & Hv & Hf & Ek & Er). rewrite Er in E.
  destruct ok; [|done]. injection E as Ee <- _. destruct Ho as [Ho1 Ho2]. split_and!; [done|done|]. exists a, (pointing a ev). cbn [events boxes kernel added].
  cbn in Ee. cbn [ev_fd ev] in *. rewrite Ee in *.
  rewrite list_lookup_insert_eq, lookup_insert_eq, (add_interest _ _ _ _ _ Ek), (add_armed _ _ _ _ _ Ek), !decide_True by (done || apply length_grow).
  by split_and!.
Qed.

Lemma bell_clear rung fd : fd <> e -> preserves (bell rung) (clear_event_by_fd (K:=K) (Hn:=Handler) fd).
Proof.
  intros Hne q w Hq. destruct (events q !! fd) as [[a|]|] eqn:Ef.
  - rewrite (clear_event_eq _ _ _ _ Ef). by apply bell_cleared.
  - rewrite (clear_vacant_eq _ _ _ Ef), list_insert_id by done. by destruct q.
  - unfold clear_event_by_fd. step. by rewrite Ef.
Qed.

(** Reading from and writing to other descriptors, and ringing. *)
Lemma bell_io rung f (q : Queue) : (forall x, interest (f (kernel q)) x = interest (kernel q) x) ->
  armed (f (kernel q)) e = armed (kernel q) e -> (readable (kernel q) e = true -> readable (f (kernel q)) e = true) ->
  bell rung q -> bell rung (on_kernel f q).
Proof.
  intros Hi Ha Hr Hq. pose proof Hq as (Hs & _ & a & ev & Hq'). apply bell_kernel; [done|by apply sound_kernel|done| |done].
  rewrite Ha. tauto.
Qed.

Lemma bell_notice rung t f : (forall k x, interest (f k) x = interest k x) -> (forall k, armed (f k) e = armed k e) ->
  (forall k, readable k e = true -> readable (f k) e = true) ->
  preserves (bell rung) (notification (K:=K) (Hn:=Handler) t;; modify (on_kernel f)).
Proof.
  intros Hi Ha Hr. apply preserves_bind; [unfold notification, deref; keeps|].
  intros []. apply preserves_modify. intros q Hq. apply bell_io; [apply Hi|apply Ha|apply Hr|done].
Qed.

Lemma bell_trigger rung t : preserves (bell rung) (trigger_notification (K:=K) (Hn:=Handler) t).
Proof.
  apply bell_notice; intros k; [intros x; apply io_interest|apply io_armed|]. rewrite write_readable. by case_decide.
Qed.
Lemma bell_stop rung t : t <> e -> preserves (bell rung) (stop_notification (K:=K) (Hn:=Handler) t).
Proof.
  intros Hne. apply bell_notice; intros k; [intros x; apply io_interest|apply io_armed|]. rewrite read_readable. by rewrite decide_False.
Qed.

Lemma notice_rings rung (q : Queue) w : bell rung q ->
  trigger_notification e q w = Ok tt (on_kernel (write_all e) q) w /\ bell true (on_kernel (write_all e) q).
Proof.
  intros (Hs & Hh & a & ev & He & Hb & Hev & Hfd & Hn & Hr & Hd & Hi & Ha & Hr'). split.
  - unfold trigger_notification, notification, deref. step. rewrite He. step. rewrite Hb. step. by rewrite Hn.
  - split_and!; [apply sound_kernel; [done|intros x; apply io_interest]|done|]. exists a, ev. cbn.
    rewrite (proj1 (io_interest _ _ _)), (proj1 (io_armed _ _ _)), write_readable, decide_True by done. by split_and!.
Qed.

(** Letting go of an event: its entry is the same as before, and eligible. *)
Lemma bell_drop rung guard : preserves (bell rung) (drop_guard (K:=K) (Hn:=Handler) guard).
Proof.
  intros q w Hq. destruct (boxes q !! guard) as [ev|] eqn:Eg.
  2:{ unfold drop_guard, deref. step. by rewrite Eg. }
  rewrite (drop_guard_eq _ _ _ _ Eg). pose proof Hq as (Hs & Hh & a & ev0 & He & Hb & Hev & Hfd & Hn & Hr & Hd & Hi & Ha & Hr').
  set (k := if needs_read ev then read_until_empty (ev_fd ev) (kernel q) else kernel q).
  assert (Ki : forall x, interest k x = interest (kernel q) x) by (intros x; unfold k; destruct (needs_read ev); [apply io_interest|done]).
  assert (Ka : forall x, armed k x = armed (kernel q) x) by (intros x; unfold k; destruct (needs_read ev); [apply io_armed|done]).
  assert (Hsame : ev_fd ev = e -> ev = ev0) by (intros E; pose proof (Hh _ _ Eg) as Hg; rewrite E in Hg; congruence).
  apply (bell_kernel rung (ctl_mod (ev_fd ev) (ev_event ev) k) q Hq).
  - destruct Hs as [B F I]. split; cbn; [done|done|]. intros x d. rewrite mod_interest, !Ki. case_decide as Hc; [|apply I].
    destruct Hc as [-> _]. intros [= <-]. exists guard, ev. split_and!; [by apply Hh|done|done].
  - rewrite mod_interest, !Ki. case_decide as Hc; [|done]. destruct Hc as [E _]. rewrite Hi. by rewrite (Hsame (eq_sym E)).
  - destruct (decide (e = ev_fd ev)) as [E|Hne].
    + rewrite E. apply mod_armed_again. rewrite Ki, <- E, Hi. by eexists.
    + by rewrite mod_armed, Ka.
  - intros Hk. apply mod_readable. unfold k. destruct (needs_read ev) eqn:En; [|done].
    apply drain_readable; [|done]. intros E. rewrite (Hsame (eq_sym E)) in En. congruence.
Qed.
End Bell.

(** ** The notice in the device *)

(** A first part whose result is known. *)
Lemma preserves_bind_known {E S A B} (I : S -> Prop) (Q : A -> Prop) (m : M E S A) (k : A -> M E S B) :
  preserves I m -> (forall s w a s' w', m s w = Ok a s' w' -> Q a) -> (forall a, Q a -> preserves I (k a)) ->
  preserves I (bind m k).
Proof.
  intros Hm HQ Hk s w Hs. unfold bind. specialize (Hm s w Hs). destruct (m s w) as [a s' w'|x s' w'|] eqn:E0; [|done..].
  by apply Hk; [eapply HQ|].
Qed.
Lemma preserves_for_each {E S A} (I : S -> Prop) (f : A -> M E S unit) l :
  (forall x, preserves I (f x)) -> preserves I (for_each f l).
Proof. intros Hf. induction l; cbn [for_each]; keeps; auto. Qed.

Section Alarm.
Context `{Features, Crypto, Env, IpNetworkTable, Os, Base64, UnixSockets} {K : Type} `{EpollLaws K, !ReadableLaws K}.
Abbreviation Mach := (Machine (K:=K)).
Abbreviation MM := (M Error Mach).
Variable e : nat.

(** The notice's descriptor is open as long as there are threads: no call that opens a
    socket or a timer answers with it. *)
Definition reserved : Prop := forall n, (forall a, open_bound n a <> inl e) /\
  (forall b a mark, open_connected n b a mark <> inl e) /\ (forall s, try_clone n s <> Some e) /\
  (forall b, timerfd_create n b <> Some e).
Hypothesis Hreserved : reserved.

Definition listening (d : Device) : Prop := udp4 d <> Some e /\ udp6 d <> Some e.
Definition listeners (s : System) : Prop := listening (device s).

(** The device's exit notice is [e], and nothing else of the device is. *)
Definition alarm (rung : bool) (m : Mach) : Prop :=
  exit_notice m = Some e /\ yield_notice m <> Some e /\ listeners (sys m) /\ bell e rung (queue m).

Lemma listeners_device {A} (m : M WireGuardError Device A) : preserves listening m -> preserves listeners (in_device m).
Proof. intros Hm. by eapply preserves_zoom; [exact Hm|..]. Qed.
Lemma listening_modify f : (forall d, listening d -> listening (f d)) -> preserves listeners (in_device (modify f)).
Proof. intros Hf. by apply listeners_device, preserves_modify. Qed.
Lemma listeners_limiters {A} (m : M WireGuardError _ A) : preserves listeners (in_limiters m).
Proof. apply preserves_zoom_any. by intros s l. Qed.
Lemma listeners_lock {A} a (m : M WireGuardError Peer A) : preserves listeners (lock a m).
Proof. intros s w Hs. unfold lock, zoom. destruct (store s !! a) as [p|]; [|done]. by destruct (m p w). Qed.
Lemma listeners_tunnel {A} a (m : M WireGuardError Process A) : preserves listeners (with_tunnel a m).
Proof. intros s w Hs. unfold with_tunnel, zoom. destruct (store s !! a) as [p|]; [|done]. by destruct (m _ w). Qed.
#[local] Hint Resolve listeners_limiters listeners_lock listeners_tunnel : keeps.
Lemma listeners_by_ip {A} (m : M WireGuardError (AllowedIps nat) A) : preserves listeners (in_device (zoom peers_by_ip set_peers_by_ip m)).
Proof. apply listeners_device, preserves_zoom_any. by intros d t. Qed.
Lemma listeners_index : preserves listeners fresh_index.
Proof. apply listeners_device, preserves_zoom_any. by intros d t. Qed.
#[local] Hint Resolve listeners_by_ip listeners_index : keeps.
#[local] Hint Extern 1 (preserves listeners (in_device (modify _))) => (by apply listening_modify) : keeps.

(** A method that leaves the state of its caller as it is. *)
Lemma aside {E S A} (I : S -> Prop) (m : M E S A) : (forall s w, match m s w with Ok _ s' _ | Fail _ s' _ => s' = s | Panic => True end) ->
  preserves I m.
Proof. intros Hm s w Hs. specialize (Hm s w). by destruct (m s w); subst. Qed.

Lemma listeners_remove pk : preserves listeners (remove_peer pk).
Proof. unfold remove_peer. keeps. Qed.
#[local] Hint Resolve listeners_remove : keeps.
Lemma listeners_alloc p : preserves listeners (alloc p).
Proof. unfold alloc. keeps. Qed.
#[local] Hint Resolve listeners_alloc : keeps.
Lemma listeners_update pk remove replace ep ips ka psk : preserves listeners (update_peer pk remove replace ep ips ka psk).
Proof.
  assert (Hn : forall t i, preserves listeners (Peer.new (E:=WireGuardError) t i ep ips psk)).
  { intros t i. apply aside. intros s w. unfold Peer.new, from_iter, bind. by destruct (insert_all _ _ w). }
  unfold update_peer. keeps.
Qed.
Lemma listeners_clear : preserves listeners clear_peers.
Proof. unfold clear_peers. keeps. Qed.
Lemma listeners_set_key k : preserves listeners (set_key k).
Proof.
  unfold set_key, RateLimiter.new, rekey_peer. keeps. apply preserves_for_each. keeps.
Qed.
#[local] Hint Resolve listeners_update listeners_clear listeners_set_key : keeps.

(** ** What the device's methods do to the notice *)

Section Rung.
Variable rung : bool.

Lemma alarm_queue {A} (m : M Error (EventPoll K Handler) A) : preserves (bell e rung) m -> preserves (alarm rung) (in_queue m).
Proof. intros Hm. eapply preserves_zoom; [exact Hm|by intros s (_ & _ & _ & ?)|]. by intros s q (? & ? & ? & _) Hq. Qed.
Lemma alarm_sys {A} (m : M WireGuardError System A) : preserves listeners m -> preserves (alarm rung) (in_sys m).
Proof.
  intros Hm s w (He & Hy & Hl & Hb). unfold in_sys. specialize (Hm (sys s) w Hl). by destruct (m (sys s) w).
Qed.
Lemma alarm_emit o : preserves (alarm rung) (emit o).
Proof. apply preserves_modify. by intros m. Qed.
Lemma alarm_device : preserves (alarm rung) the_device.
Proof. unfold the_device. keeps. Qed.
Lemma alarm_peer a : preserves (alarm rung) (peer_at a).
Proof. unfold peer_at. keeps. Qed.
Lemma alarm_unwrapped {A} (m : MM A) : preserves (alarm rung) m -> preserves (alarm rung) (unwrapped m).
Proof. intros Hm. unfold unwrapped. keeps. Qed.
#[local] Hint Resolve alarm_emit alarm_device alarm_peer : keeps.
#[local] Hint Extern 1 (preserves (alarm _) (in_sys _)) => (apply alarm_sys; keeps) : keeps.

Lemma alarm_on_device f : (forall d, listening d -> listening (f d)) -> preserves (alarm rung) (on_device f).
Proof. intros Hf. by apply alarm_sys, listening_modify. Qed.

Lemma alarm_new fd h : fd <> e -> preserves (alarm rung) (in_queue (new_event fd h)).
Proof. intros Hne. apply alarm_queue. by apply bell_register. Qed.

Lemma alarm_trigger t : preserves (alarm rung) (in_queue (trigger_notification t)).
Proof. apply alarm_queue, bell_trigger. Qed.
#[local] Hint Resolve alarm_trigger : keeps.
Lemma alarm_trigger_exit : preserves (alarm rung) trigger_exit.
Proof. unfold trigger_exit. keeps. Qed.
Lemma alarm_trigger_yield : preserves (alarm rung) trigger_yield.
Proof. unfold trigger_yield. keeps. Qed.
Lemma alarm_cancel_yield : preserves (alarm rung) cancel_yield.
Proof.
  intros m w Hm. unfold cancel_yield. step. destruct (yield_notice m) as [y|] eqn:Ey; [|done]. step.
  assert (y <> e) by (destruct Hm as (_ & Hy & _); congruence). by apply (alarm_queue _ (bell_stop e rung y ltac:(done))).
Qed.
#[local] Hint Resolve alarm_trigger_exit alarm_trigger_yield alarm_cancel_yield : keeps.

(** ** Sockets *)

Lemma alarm_take get_sock set_sock : (forall d, listening d -> get_sock d <> Some e) ->
  (forall d, listening d -> listening (set_sock None d)) -> preserves (alarm rung) (take_listener get_sock set_sock).
Proof.
  intros Hget Hset m w Hm. unfold take_listener, the_device. step. destruct (get_sock (device (sys m))) as [s|] eqn:Es; [|done].
  assert (s <> e) by (intros ->; by apply (Hget (device (sys m))); [apply Hm|]).
  apply (preserves_bind (alarm rung)); [by apply alarm_on_device|intros []|done]. by apply alarm_queue, bell_clear.
Qed.

Lemma bound_not v4 port s w a s' w' : bound_socket (K:=K) v4 port s w = Ok a s' w' -> a <> e.
Proof.
  unfold bound_socket. step. destruct (open_bound _ _) as [x|] eqn:Eo; step; [|done]. intros [= <- _ _] ->.
  by apply (proj1 (Hreserved (calls w)) (unspecified v4 port)).
Qed.
Lemma cloned_not c s w a s' w' : cloned (K:=K) c s w = Ok a s' w' -> a <> e.
Proof.
  unfold cloned. step. destruct (try_clone _ _) as [x|] eqn:Eo; step; [|done]. intros [= <- _ _] ->.
  by apply (proj1 (proj2 (proj2 (Hreserved (calls w)))) c).
Qed.

Lemma alarm_listen port : preserves (alarm rung) (open_listen_socket port).
Proof.
  assert (Hb : forall v4 p, preserves (alarm rung) (bound_socket v4 p)) by (intros v4 p; unfold bound_socket; keeps).
  assert (Hc : forall s, preserves (alarm rung) (cloned s)) by (intros s; unfold cloned; keeps).
  assert (Hu : forall s, s <> e -> preserves (alarm rung) (register_udp_handler s)).
  { intros s Hs. unfold register_udp_handler. apply preserves_bind; [by apply alarm_new|intros ?; keeps]. }
  unfold open_listen_socket. apply preserves_bind; [by apply alarm_take; unfold listening; cbn; naive_solver|intros []].
  apply preserves_bind; [by apply alarm_take; unfold listening; cbn; naive_solver|intros []].
  apply preserves_bind; [keeps|intros d]. apply preserves_bind; [apply preserves_for_each; intros a; keeps|intros []].
  eapply preserves_bind_known; [apply Hb|apply bound_not|intros s4 H4']. apply preserves_bind; [keeps|intros port'].
  eapply preserves_bind_known; [apply Hb|apply bound_not|intros s6 H6'].
  eapply preserves_bind_known; [apply Hc|apply cloned_not|intros c4 Hc4]. apply preserves_bind; [by apply Hu|intros []].
  eapply preserves_bind_known; [apply Hc|apply cloned_not|intros c6 Hc6]. apply preserves_bind; [by apply Hu|intros []].
  do 2 (apply preserves_bind; [apply alarm_on_device; unfold listening; cbn; naive_solver|intros []]).
  by apply alarm_on_device.
Qed.
#[local] Hint Resolve alarm_listen : keeps.

(** ** Requests *)

Lemma alarm_mark mark s : preserves (alarm rung) (mark_socket mark s).
Proof. unfold mark_socket. keeps. Qed.
#[local] Hint Resolve alarm_mark : keeps.
Lemma alarm_fwmark mark : preserves (alarm rung) (set_fwmark mark).
Proof.
  unfold set_fwmark. apply preserves_bind; [by apply alarm_on_device|intros []]. keeps. apply preserves_for_each. intros p. keeps.
Qed.
#[local] Hint Resolve alarm_fwmark : keeps.
Lemma alarm_parse_key val : preserves (alarm rung) (parse_key val).
Proof.
  assert (Hx : forall s l x, preserves (E:=KeyError) (alarm rung) (hex_loop s l x)).
  { intros s l. induction l as [|i l IH]; intros x; cbn [hex_loop]; unfold hex_byte; keeps; apply IH. }
  unfold parse_key, from_str. keeps.
Qed.
#[local] Hint Resolve alarm_parse_key : keeps.
Lemma alarm_peer_line key val s : preserves (alarm rung) (peer_line key val s).
Proof. unfold peer_line, commit. keeps. Qed.
#[local] Hint Resolve alarm_peer_line : keeps.
Lemma alarm_set_peer fuel : forall s r, preserves (alarm rung) (api_set_peer fuel s r).
Proof.
  induction fuel as [|n IH]; intros s r; cbn [api_set_peer]; unfold commit;
    (destruct (read_line r) as [[cmd|] r']; [|keeps]); cbn zeta; keeps; apply IH.
Qed.
Lemma alarm_set_line key val : preserves (alarm rung) (set_line key val).
Proof. unfold set_line. keeps. Qed.
#[local] Hint Resolve alarm_set_peer alarm_set_line : keeps.
Lemma alarm_set_loop fuel : forall r, preserves (alarm rung) (set_loop fuel r).
Proof.
  induction fuel as [|n IH]; intros r; cbn [set_loop];
    (destruct (read_line r) as [[cmd|] r']; [|keeps]); cbn zeta; keeps; apply IH.
Qed.
Lemma alarm_peers_text l : preserves (alarm rung) (peers_text l).
Proof. induction l as [|[k a] l IH]; cbn [peers_text]; unfold peer_text; keeps; done. Qed.
#[local] Hint Resolve alarm_set_loop alarm_peers_text : keeps.
Lemma alarm_request r : preserves (alarm rung) (api_request r).
Proof. unfold api_request, api_set, api_get. keeps. Qed.
#[local] Hint Resolve alarm_request : keeps.

(** ** Handlers *)

Section Buffer.
Variable dst_buf : bytes.

Lemma alarm_flush fuel send a : preserves (alarm rung) (flush_loop dst_buf fuel send a).
Proof. induction fuel; cbn [flush_loop]; keeps. Qed.
#[local] Hint Resolve alarm_flush : keeps.
Lemma alarm_result send a r : preserves (alarm rung) (handle_result dst_buf send a r).
Proof. unfold handle_result, to_interface, flush_queue. keeps. Qed.
#[local] Hint Resolve alarm_result : keeps.

Lemma connected_not peer port mark (m m' : Mach) w w' s :
  in_sys (lock peer (attempt (connect_endpoint port mark))) m w = Ok (inl s) m' w' -> s <> e.
Proof.
  unfold in_sys, lock, zoom, attempt. destruct (store _ !! peer) as [p|]; [|done].
  unfold connect_endpoint. step. case_bool_decide; step; [done|]. destruct (ep_addr _) as [addr|]; step; [|done].
  destruct (open_connected _ _ _ _) as [c|] eqn:Eo; step; [|done]. destruct (try_clone _ _); step; [|done].
  intros [= <- _ _] ->. by apply (proj1 (proj2 (Hreserved (calls w))) (unspecified (is_ipv4 addr) port) addr mark).
Qed.
Lemma alarm_roam peer addr : preserves (alarm rung) (roam peer addr).
Proof.
  unfold roam. apply preserves_bind; [keeps|intros []]. apply preserves_bind; [keeps|intros d].
  destruct (use_connected_socket (config d)); [|keeps].
  eapply (preserves_bind_known _ (fun c => match c with inl s => s <> e | inr _ => True end)); [keeps| |].
  - intros m w [s|x] m' w' E0; [by eapply connected_not|done].
  - intros [s|x] Hs; [|keeps]. apply alarm_unwrapped. unfold register_conn_handler.
    apply preserves_bind; [by apply alarm_new|intros ?; keeps].
Qed.
#[local] Hint Resolve alarm_roam : keeps.
Lemma alarm_udp_packet udp sk pk l packet addr : preserves (alarm rung) (udp_packet dst_buf udp sk pk l packet addr).
Proof.
  assert (Hp : forall p, preserves (E:=Error) (alarm rung) (fun s w => Ok (peer_of_packet sk pk p (device (sys s)) w) s w)) by (by intros p s w).
  unfold udp_packet, verify. keeps.
Qed.
#[local] Hint Resolve alarm_udp_packet : keeps.
Lemma alarm_udp_loop udp sk pk l inbox : forall iter, preserves (alarm rung) (udp_loop dst_buf iter udp sk pk l inbox).
Proof. induction inbox as [|[b a] inbox IH]; intros iter; cbn [udp_loop]; keeps; apply IH. Qed.
Lemma alarm_conn_loop a udp addr inbox : forall iter, preserves (alarm rung) (conn_loop dst_buf iter a udp addr inbox).
Proof. induction inbox as [|b inbox IH]; intros iter; cbn [conn_loop]; keeps; apply IH. Qed.
Lemma alarm_iface_packet s4 s6 src : preserves (alarm rung) (iface_packet dst_buf s4 s6 src).
Proof. unfold iface_packet, send_from. keeps. Qed.
#[local] Hint Resolve alarm_udp_loop alarm_conn_loop alarm_iface_packet : keeps.
Lemma alarm_iface_loop mtu s4 s6 n : forall rs, preserves (alarm rung) (iface_loop dst_buf n mtu s4 s6 rs).
Proof. induction n as [|n IH]; intros rs; cbn [iface_loop]; keeps; apply IH. Qed.
Lemma alarm_timers s4 s6 l : preserves (alarm rung) (for_each (peer_timers dst_buf s4 s6) l).
Proof. apply preserves_for_each. intros a. unfold peer_timers, send_from. keeps. Qed.
#[local] Hint Resolve alarm_iface_loop alarm_timers : keeps.

(** Whatever its input, no handler silences the notice or takes it out of the queue. *)
Lemma alarm_handler h i : preserves (alarm rung) (run_handler dst_buf h i).
Proof.
  assert (Hm : forall x, preserves (alarm rung) (on_device (set_mtu x))) by (intros x; by apply alarm_on_device).
  destruct h; cbn [run_handler]; unfold limiter_handler, timers_handler, udp_handler, conn_handler, iface_handler,
    api_handler, api_fd_handler, monitor_handler; keeps.
Qed.
End Buffer.
End Rung.

(** ** Turns *)

(** The kernel gives the notice to the thread that waits; and there is never a hang-up
    on an event descriptor. *)
Definition reports (m : Mach) (w : World) : Prop := exists ev k d,
  epoll_wait (calls w) (kernel (queue m)) = (PollEvent ev, k) /\ interest (kernel (queue m)) e = Some d /\ ee_u64 ev = ee_u64 d.
Definition never_hangs : Prop := forall n k k' ev d, epoll_wait n k = (PollEvent ev, k') ->
  interest k e = Some d -> ee_u64 ev = ee_u64 d -> Z.land (ee_events ev) EPOLLHUP = 0.
Hypothesis Hhangs : never_hangs.

Lemma bell_wait rung (q : EventPoll K Handler) w : bell e rung q ->
  match wait q w with
  | Ok r q' w' => bell e rung q' /\ boxes q' = boxes q /\ forall g ev, r = WaitEoF g -> boxes q !! g = Some ev -> ev_fd ev <> e
  | _ => False
  end.
Proof.
  intros Hq. pose proof Hq as (Hs & Hh & a & e0 & He & Hb & Hev & Hfd & _ & _ & _ & Hi & Ha & _).
  assert (Hk : forall k, (forall x, interest k x = interest (kernel q) x) -> armed k e = true ->
    (readable (kernel q) e = true -> readable k e = true) -> bell e rung (on_kernel (fun _ => k) q)).
  { intros k Ki Ka Kr. apply bell_kernel; [done|by apply sound_kernel|done|done|done]. }
  unfold wait. step. pose proof (wait_readable (calls w) (kernel q) e) as Kr.
  pose proof (wait_other (calls w) (kernel q)) as Ko. destruct (epoll_wait (calls w) (kernel q)) as [[|ev|] k] eqn:Ew; step; cbn [fst snd] in *.
  1,3: specialize (Ko k eq_refl ltac:(done)); split_and!; [|done|done]; apply Hk; [apply Ko| |done]; by rewrite (proj2 (Ko e)).
  destruct (wait_event _ _ _ _ Ew) as (fd & d & Id & Ad & Ep & Kx).
  assert (Hb' : bell e rung (on_kernel (fun _ => k) q)).
  { apply Hk; [apply Kx| |done]. rewrite (proj2 (Kx e)), decide_False; [done|]. intros [<- Ho]. rewrite Hi, Hev in Id.
    injection Id as <-. done. }
  destruct (Z.eqb_spec (Z.land (ee_events ev) EPOLLHUP) 0) as [|Hup]; cbn; (split_and!; [done|done|]); [done|].
  intros g eb [= <-] Hg E. destruct (s_interest _ Hs _ _ Id) as (b & ed & Hfe & Hbd & ->).
  destruct (s_flags _ Hs _ _ Hbd) as [Eb _]. rewrite Ep, Eb in Hg. assert (eb = ed) as -> by congruence.
  destruct (s_box _ Hs _ _ Hfe) as (ed' & Hbd' & Efd). assert (ed' = ed) as -> by congruence.
  apply Hup. apply (Hhangs _ _ _ _ (ev_event ed) Ew); [|done]. by rewrite <- E, Efd.
Qed.

(** [trigger_exit] rings, and cannot fail. *)
Lemma trigger_exit_rings rung m w : alarm rung m -> exists m',
  trigger_exit m w = Ok tt m' w /\ alarm true m' /\ boxes (queue m') = boxes (queue m).
Proof.
  intros (Ex & Hy & Hl & Hb). destruct (notice_rings e rung (queue m) w Hb) as [E Hb'].
  unfold trigger_exit. step. rewrite Ex. step. unfold in_queue, zoom. rewrite E. by eexists.
Qed.

Variable dst_buf : bytes.

Definition is_exit (a : Action) : bool := match a with Exit => true | _ => false end.

(** The second half of a turn: what is done with the handler's action. *)
Lemma alarm_finish rung action guard :
  forall m w, alarm rung m -> match ((match action with Exit => trigger_exit | _ => ret tt end);; in_queue (drop_guard guard);; ret action) m w with
  | Ok a m' _ => a = action /\ alarm (rung || is_exit action) m' | Fail _ m' _ => alarm rung m' | Panic => True end.
Proof.
  intros m w Hm. assert (Hd : forall r m w, alarm r m -> match (in_queue (drop_guard guard);; ret action) m w with
    | Ok a m' _ => a = action /\ alarm r m' | Fail _ _ _ => False | Panic => True end).
  { clear m w Hm. intros r m w Hm. pose proof (alarm_queue r _ (bell_drop e r guard) m w Hm) as Hp. unfold bind.
    destruct (in_queue (drop_guard guard) m w) as [[] m' w'|x m' w'|] eqn:E; [done| |done].
    unfold in_queue, zoom, drop_guard, deref in E. step in E. destruct (boxes _ !! guard) as [ev|]; step in E; [|done].
    by destruct (needs_read ev); step in E. }
  unfold bind at 1. destruct action; [| |destruct (trigger_exit_rings rung m w Hm) as (m' & -> & Hm' & _)].
  1,2: cbn [ret is_exit]; rewrite orb_false_r; specialize (Hd rung m w Hm); by destruct (bind _ _ m w).
  cbn [is_exit]. rewrite orb_true_r. specialize (Hd true m' w Hm'). by destruct (bind _ _ m' w).
Qed.

(** Looking at the event of a guard. *)
Lemma read_guard {A} (f : Event Handler -> A) g (m : Mach) w : in_queue (ev <- deref g;; ret (f ev)) m w =
  match boxes (queue m) !! g with Some ev => Ok (f ev) m w | None => Panic end.
Proof.
  destruct m as [s q y x o]. unfold in_queue, zoom, deref, bind. cbn [get queue]. destruct (boxes q !! g); reflexivity.
Qed.

(** A turn keeps the notice, and one that ends its thread has rung it. *)
Lemma turn_alarm rung i m w : alarm rung m -> match event_turn dst_buf i m w with
  | Ok a m' _ => alarm (rung || is_exit a) m' | Fail _ m' _ => alarm rung m' | Panic => True end.
Proof.
  intros Hm. unfold event_turn. unfold bind at 1. pose proof Hm as (Ex & Hy & Hl & Hb).
  pose proof (bell_wait rung (queue m) w Hb) as Hw. unfold in_queue at 1, zoom. destruct (wait (queue m) w) as [r q w1|x q w1|]; [|done..].
  destruct Hw as (Hq & Eb & Hup). set (m1 := mkMachine _ _ _ _ _). assert (Hm1 : alarm rung m1) by by split_and!.
  destruct r as [g|g|]; [| |cbn [ret is_exit]; by rewrite orb_false_r].
  - unfold bind at 1, guard_handler. rewrite read_guard. change (queue m1) with q. destruct (boxes q !! g) as [ev|]; [|done].
    unfold bind at 1. pose proof (alarm_handler rung dst_buf (handler ev) i m1 w1 Hm1) as Hh.
    destruct (run_handler dst_buf (handler ev) i m1 w1) as [a m2 w2|x m2 w2|]; [|done..].
    pose proof (alarm_finish rung a g m2 w2 Hh) as Hf. destruct (bind _ _ m2 w2) as [b m3 w3|x m3 w3|]; [|done..]. by destruct Hf as [-> ?].
  - unfold the_device. step. unfold bind at 1, guard_fd. rewrite read_guard. change (queue m1) with q.
    destruct (boxes q !! g) as [ev|] eqn:Eg; [|done]. destruct (_ && _).
    + pose proof (alarm_finish rung Exit g m1 w1 Hm1) as Hf. cbv iota in Hf. unfold bind at 1 in Hf. unfold bind at 1. destruct (trigger_exit m1 w1) as [[] m2 w2|x m2 w2|]; [|done..].
      unfold bind in Hf. destruct (in_queue (drop_guard g) m2 w2) as [[] m3 w3|x m3 w3|]; [by destruct Hf|done..].
    + rewrite Eb in Eg. pose proof (bell_clear e rung (ev_fd ev) (Hup g ev eq_refl Eg) q w1 Hq) as Hc. rewrite <- Eb in Eg.
      assert (Ec : cancel g q w1 = clear_event_by_fd (ev_fd ev) q w1) by (unfold cancel, bind; by rewrite (deref_eq _ _ _ _ Eg)).
      unfold bind, in_queue, zoom. change (queue m1) with q. rewrite Ec.
      destruct (clear_event_by_fd (ev_fd ev) q w1); cbn [ret is_exit]; rewrite ?orb_false_r; [by split_and!..|done].
Qed.

(** A thread that is given the notice ends, whatever else there is. *)
Lemma turn_reported rung i m w : alarm rung m -> reports m w -> exists m' w', event_turn dst_buf i m w = Ok Exit m' w'.
Proof.
  intros Hm (ev & k & d & Ew & Id & Ep). pose proof (Hhangs _ _ _ _ _ Ew Id Ep) as Hup.
  pose proof (bell_wait rung (queue m) w ltac:(apply Hm)) as Hw. pose proof Hm as (Ex & Hy & Hl & Hs & Hh & a & e0 & He & Hb & Hev & Hfd & _ & _ & Hd & Hi & _).
  assert (Ewait : wait (queue m) w = Ok (WaitOk a) (on_kernel (fun _ => k) (queue m)) (mkWorld (ticks w) (wall w) (draws w) (S (calls w)))).
  { unfold wait. step. rewrite Ew. step. rewrite Hup. cbn. rewrite Hi, Hev in Id. injection Id as <-. by rewrite Ep. }
  rewrite Ewait in Hw. destruct Hw as (Hq & _). set (w1 := mkWorld _ _ _ _) in *. set (q := on_kernel _ _) in *.
  unfold event_turn. unfold bind at 1. unfold in_queue at 1, zoom. rewrite Ewait. set (m1 := mkMachine _ _ _ _ _).
  assert (Hm1 : alarm rung m1) by by split_and!. unfold bind at 1, guard_handler. rewrite read_guard. change (boxes (queue m1)) with (boxes (queue m)).
  rewrite Hb, Hd. unfold bind at 1. cbn [run_handler ret]. unfold bind at 1. destruct (trigger_exit_rings rung m1 w1 Hm1) as (m2 & -> & _ & Eb).
  unfold bind, in_queue, zoom. rewrite (drop_guard_eq a _ _ e0) by (by rewrite Eb). by eexists _, _.
Qed.

(** ** A start *)

Context {O : Type} `{Linux.TunDevice O}.

(** The interfaces that are opened are not the notice. *)
Definition iface_elsewhere (name : bytes) : Prop := forall (o : O) w t o' w',
  open_iface name o w = Ok t o' w' -> Z.to_nat (Linux.fd t) <> e.

(** The machine before it has notices. *)
Definition laid_out (m : Mach) : Prop := orderly (queue m) /\ listeners (Handlers.sys m).

Lemma laid_queue {A} (m : M Error (EventPoll K Handler) A) : preserves orderly m -> preserves laid_out (in_queue m).
Proof. intros Hm. eapply preserves_zoom; [exact Hm|by intros s [? _]|by intros s q [_ ?] Hq]. Qed.
Lemma laid_event fd h : preserves laid_out (in_queue (new_event fd h)).
Proof. by apply laid_queue, register_orderly. Qed.
Lemma laid_notifier h : preserves laid_out (in_queue (new_notifier h)).
Proof. apply laid_queue. unfold new_notifier. apply preserves_bind; [keeps|intros o]. apply preserves_bind; [keeps|intros efd]. by apply register_orderly. Qed.
Lemma laid_signal sig h : preserves laid_out (in_queue (new_signal_event sig h)).
Proof. apply laid_queue. unfold new_signal_event. apply preserves_bind; [keeps|intros o]. apply preserves_bind; [keeps|intros efd]. by apply register_orderly. Qed.
Lemma laid_periodic h period : preserves laid_out (in_queue (new_periodic_event h period)).
Proof.
  apply laid_queue. unfold new_periodic_event. apply preserves_bind; [keeps|intros boot]. apply preserves_bind; [keeps|intros tfd].
  apply preserves_bind; [keeps|intros [|]]; cbn [negb]; [by apply register_orderly|]. apply preserves_bind; [|intros ?; keeps].
  apply preserves_modify. intros q [Hs Hh]. split; [by apply sound_closed|done].
Qed.
#[local] Hint Resolve laid_event laid_notifier laid_signal laid_periodic : keeps.

Lemma laid_api d : preserves laid_out (if 0 <=? uapi_fd (config d) then register_api_fd (Z.to_nat (uapi_fd (config d))) else register_api_handler).
Proof. unfold register_api_fd, register_api_handler, register_monitor, register_api_signal_handlers. keeps. Qed.

Lemma notifiers_alarm m w m' w' : laid_out m -> register_notifiers m w = Ok tt m' w' -> exit_notice m' = Some e ->
  yield_notice m' <> Some e -> alarm false m'.
Proof.
  intros Hm E He Hy. unfold register_notifiers in E. apply bind_ok in E as (y & m1 & w1 & E1 & E). step in E.
  pose proof (laid_notifier HYield m w Hm) as Hm1. rewrite E1 in Hm1. destruct (in_queue (new_notifier HExit) _ _) as [x m2 w2|x m2 w2|] eqn:E2; [|done..].
  injection E as <- <-. injection He as ->. pose proof Hm1 as [Hq Hl]. unfold in_queue, zoom in E2. cbn [queue] in E2.
  destruct (new_notifier HExit (queue m1) w1) as [z q w3|z q w3|] eqn:E3; [|done..]. injection E2 as -> <- <-.
  refine (conj eq_refl (conj Hy (conj Hl _))). by eapply (notifier_bell e (queue m1)).
Qed.

Lemma alarm_periodic rung h period : preserves (alarm rung) (in_queue (new_periodic_event h period)).
Proof.
  apply alarm_queue. intros q w Hq. unfold new_periodic_event. step. cbn [calls].
  assert (Ht : forall n b tfd, timerfd_create n b = Some tfd -> tfd <> e).
  { intros n b tfd Et ->. by apply (proj2 (proj2 (proj2 (Hreserved n))) b). }
  assert (Hset : forall tfd w, tfd <> e -> match (set <- syscall (fun n => timerfd_settime n tfd period);;
    if negb set then modify (on_kernel (close_fd tfd));; fail Timer
    else register_event (mkEvent (mkEpollEvent (Z.lor EPOLLIN EPOLLONESHOT) 0) tfd h false true)) q w with
    | Ok _ q' _ | Fail _ q' _ => bell e rung q' | Panic => True end).
  { intros tfd w' Hne. step. destruct (timerfd_settime _ _ _); cbn [negb]; [by apply bell_register|]. step.
    pose proof Hq as (Hs & _ & a & ev & _ & _ & _ & _ & _ & _ & _ & Hi & Ha & _).
    apply (bell_kernel e rung (close_fd tfd (kernel q)) q Hq); [by apply (sound_closed tfd)|by rewrite close_interest, decide_False| |]. 
    - by rewrite close_armed.
    - by apply close_readable. }
  destruct (timerfd_create (calls w) false) as [tfd|] eqn:Et; step; [by apply Hset, (Ht _ _ _ Et)|]. cbn [calls].
  destruct (timerfd_create (S (calls w)) true) as [tfd|] eqn:Et'; step; [by apply Hset, (Ht _ _ _ Et')|done].
Qed.
Lemma all_alarm iface m w m' w' : laid_out m -> register_all iface m w = Ok tt m' w' -> exit_notice m' = Some e ->
  yield_notice m' <> Some e -> alarm false m'.
Proof.
  intros Hm E He Hy. unfold register_all, the_device in E. step in E. apply bind_ok in E as ([] & m1 & w1 & E1 & E).
  pose proof (laid_api (device (Handlers.sys m)) m w Hm) as Hm1. rewrite E1 in Hm1.
  apply bind_ok in E as ([] & m2 & w2 & E2 & E). assert (Hm2 : laid_out m2).
  { pose proof (preserves_bind laid_out _ _ (laid_event iface (HIface iface)) (fun _ => preserves_ret laid_out tt) m1 w1 Hm1) as Hi.
    unfold register_iface_handler in E2. by rewrite E2 in Hi. }
  apply bind_ok in E as ([] & m3 & w3 & E3 & E). unfold register_timers in E. apply bind_ok in E as (x4 & m4 & w4 & E4 & E).
  apply bind_ok in E as (x5 & m5 & w5 & E5 & [= <- <-]).
  pose proof (in_queue_same _ _ _ _ _ _ E4) as (_ & Y4 & X4). pose proof (in_queue_same _ _ _ _ _ _ E5) as (_ & Y5 & X5).
  pose proof (notifiers_alarm m2 w2 m3 w3 Hm2 E3 ltac:(congruence) ltac:(congruence)) as H3'.
  pose proof (alarm_periodic false HLimiter 1000000000 m3 w3 H3') as H4'. rewrite E4 in H4'.
  pose proof (alarm_periodic false HTimers 250000000 m4 w4 H4') as H5'. by rewrite E5 in H5'.
Qed.

(** A device that was started has a notice. *)
Lemma started_alarm fuel name cfg (o : O) w m t o' w' : handle_new fuel name cfg o w = Ok (m, t) o' w' ->
  exit_notice m = Some e -> yield_notice m <> Some e -> alarm false m.
Proof.
  intros E He Hy. unfold handle_new in E. apply bind_ok in E as ([m1 t1] & o1 & w1 & E1 & E).
  apply bind_ok in E as ([[] m2] & o2 & w2 & E2 & [= <- <- <- <-]). unfold build in E2.
  destruct (open_listen_socket 0 m1 w1) as [[] m3 w3|x m3 w3|] eqn:Eo; [|done..]. injection E2 as <- <- <-.
  unfold device_new in E1. apply bind_ok in E1 as ([poll []] & o3 & w3' & E3 & E1). apply bind_ok in E1 as (t3 & o4 & w4 & E4 & E1).
  apply bind_ok in E1 as (mtu & o5 & w5 & E5 & E1). apply bind_ok in E1 as (idx & o6 & w6 & E6 & E1). cbn zeta in E1.
  apply bind_ok in E1 as ([[] m7] & o7 & w7 & E7 & [= <- <- <- <-]). unfold build in E7. set (m0 := mkMachine _ _ _ _ _) in E7.
  destruct (register_all _ m0 w6) as [[] m8 w8|x m8 w8|] eqn:E8; [|done..]. injection E7 as <- <- <-.
  assert (Hm0 : laid_out m0).
  { unfold build in E3. destruct (Epoll.new tt w) as [q [] wq|x [] wq|] eqn:Ep; [|done..]. injection E3 as <- _ _.
    split; [|done]. split; [exact (g_sound _ (new_good _ _ _ Ep))|]. unfold Epoll.new in Ep. step in Ep.
    destruct (epoll_create _); [|done]. by injection Ep as <- _. }
  pose proof (register_all_same _ _ _ _ _ _ E8) as Es. rewrite (open_fresh_eq 0 m8 w8) in Eo by (by rewrite Es).
  pose proof (rest_same _ _ _ _ _ _ Eo) as Q. injection Q as Qy Qe. rewrite <- (open_fresh_eq 0 m8 w8) in Eo by (by rewrite Es).
  pose proof (all_alarm _ m0 w6 m8 w8 Hm0 E8 ltac:(congruence) ltac:(congruence)) as H8'.
  pose proof (alarm_listen false 0 m8 w8 H8') as H9'. by rewrite Eo in H9'.
Qed.

(** ** The pool *)

(** The device's interface, which was opened by [handle_new]. *)
Variable iface : Linux.TunSocket.
Hypothesis Helsewhere : iface_elsewhere (Linux.name iface).

(** The threads that have not ended, and those that went past the beginning of
    [event_loop].  [DeviceHandle::wait] joins all threads: it returns when none is
    left. *)
Record Pool := mkPool { host : Host (K:=K) (O:=O); unjoined : gset nat; begun : gset nat }.
Abbreviation device_of p := (machine (host p)).

(** [thread::spawn] in [DeviceHandle::new], and [DeviceHandle::wait] *)
Definition spawn (n_threads : nat) (h : Host) : Pool := mkPool h (set_seq 0 n_threads) ∅.
Definition wait_returns (p : Pool) : bool := bool_decide (unjoined p = ∅).

(** [event_loop] before the loop: [None] when the thread is not one that can begin, or
    panics. *)
Definition thread_begin (t : nat) (p : Pool) (w : World) : option (Pool * World) :=
  if decide (t ∈ unjoined p /\ t ∉ begun p) then
    match worker_iface t iface (host p) w with
    | Ok _ h w => Some (mkPool h (unjoined p) ({[t]} ∪ begun p), w)
    | Fail _ _ _ | Panic => None
    end
  else None.

(** A turn of the thread [t]: [Exit] ends it; after [Yield] it goes on with a new
    lock. *)
Definition thread_turn (t : nat) (i : Input) (p : Pool) (w : World) : option (Pool * World) :=
  if decide (t ∈ unjoined p /\ t ∈ begun p) then
    match event_turn dst_buf i (device_of p) w with
    | Ok Exit m w => Some (mkPool (mkHost m (os (host p))) (unjoined p ∖ {[t]}) (begun p), w)
    | Ok _ m w => Some (mkPool (mkHost m (os (host p))) (unjoined p) (begun p), w)
    | Fail _ _ _ | Panic => None
    end
  else None.

Inductive Move := Begin (t : nat) | Turn (t : nat) (i : Input).
Definition move (x : Move) (p : Pool) (w : World) : option (Pool * World) :=
  match x with Begin t => thread_begin t p w | Turn t i => thread_turn t i p w end.

Fixpoint run_pool (moves : list Move) (p : Pool) (w : World) : option (Pool * World) :=
  match moves with
  | [] => Some (p, w)
  | x :: moves => '(p, w) ← move x p w; run_pool moves p w
  end.

(** One of the moves is a turn that is given the notice. *)
Fixpoint reported (moves : list Move) (p : Pool) (w : World) : Prop :=
  match moves with
  | [] => False
  | x :: moves => (match x with Turn _ _ => reports (device_of p) w | Begin _ => False end) \/
      match move x p w with Some (p, w) => reported moves p w | None => False end
  end.

(** [epoll_wait(2)] goes round the descriptors that are ready, and the scheduler round
    the threads: of [bound] moves in a row one is a turn that is given the notice. *)
Definition fair (bound : nat) (moves : list Move) (p : Pool) (w : World) : Prop :=
  forall before some after p1 w1, moves = before ++ some ++ after -> length some = bound ->
    run_pool before p w = Some (p1, w1) -> reported some p1 w1.

Lemma run_app l1 l2 p w : run_pool (l1 ++ l2) p w = '(p1, w1) ← run_pool l1 p w; run_pool l2 p1 w1.
Proof.
  revert p w. induction l1 as [|x l1 IH]; intros p w; [done|]. cbn [run_pool app]. destruct (move x p w) as [[p1 w1]|]; [|done].
  apply IH.
Qed.

Lemma begin_alarm rung t h w : alarm rung (machine h) -> match worker_iface t iface h w with
  | Ok _ h' _ => alarm rung (machine h') | _ => True end.
Proof.
  intros Hh. unfold worker_iface, in_machine, the_device. step. destruct (_ || _); [done|]. unfold unwrap_result, in_os. step. cbn [os machine].
  destruct (open_iface (Linux.name iface) (os h) w) as [l o' w'|x o' w'|] eqn:Eo; step; [|done|done].
  pose proof (Helsewhere _ _ _ _ _ Eo) as Hl. unfold register_iface_handler.
  pose proof (preserves_bind (alarm rung) _ _ (alarm_new rung _ (HIface (Z.to_nat (Linux.fd l))) Hl) (fun _ => preserves_ret (alarm rung) tt) (machine h) w' Hh) as Hr.
  cbn [machine]. by destruct (bind _ _ (machine h) w').
Qed.

Lemma move_alarm rung x p w p' w' : alarm rung (device_of p) -> move x p w = Some (p', w') ->
  exists rung', alarm rung' (device_of p') /\ (rung = true -> rung' = true) /\
    (unjoined p' = unjoined p \/ rung' = true /\ unjoined p' ⊆ unjoined p).
Proof.
  intros Hp E. destruct x as [t|t i]; cbn [move] in E.
  - unfold thread_begin in E. case_decide as Ht; [|done]. pose proof (begin_alarm rung t (host p) w Hp) as Hb.
    destruct (worker_iface _ _ _ _) as [l h w1|y h w1|]; [|done..]. injection E as <- <-. exists rung. split_and!; [done|done|by left].
  - unfold thread_turn in E. case_decide as Ht; [|done]. pose proof (turn_alarm rung i (device_of p) w Hp) as Ha.
    destruct (event_turn dst_buf i (device_of p) w) as [a m w1|y m w1|]; [|done..]. exists (rung || is_exit a).
    destruct a; injection E as <- <-; (split; [exact Ha|]); (split; [by intros ->|]); [by left..|right].
    split; [apply orb_true_r|]. cbn. set_solver.
Qed.

(** Threads do not come back. *)
Lemma run_pool_alarm moves : forall rung p w p' w', alarm rung (device_of p) -> run_pool moves p w = Some (p', w') ->
  exists rung', alarm rung' (device_of p') /\ (rung = true -> rung' = true) /\ unjoined p' ⊆ unjoined p /\
    (unjoined p' <> unjoined p -> rung' = true).
Proof.
  induction moves as [|x moves IH]; intros rung p w p' w' Hp; cbn [run_pool].
  { intros [= <- <-]. by exists rung. }
  destruct (move x p w) as [[p1 w1]|] eqn:E1; [|done]. cbn. intros E.
  destruct (move_alarm _ _ _ _ _ _ Hp E1) as (r1 & Hp1 & Hr1 & Hrun). destruct (IH _ _ _ _ _ Hp1 E) as (r2 & Hp2 & Hr2 & Hsub & Hne).
  exists r2. split_and!; [done|auto| |].
  - destruct Hrun as [<-|(_ & Hs)]; [done|]. set_solver.
  - destruct Hrun as [<-|(-> & _)]; auto.
Qed.

Lemma reported_ends moves : forall rung p w p' w', alarm rung (device_of p) -> reported moves p w ->
  run_pool moves p w = Some (p', w') -> (size (unjoined p') < size (unjoined p))%nat.
Proof.
  induction moves as [|x moves IH]; intros rung p w p' w' Hp; cbn [run_pool reported]; [done|].
  destruct (move x p w) as [[p1 w1]|] eqn:E1; [|by intros [Hf|[]]]. cbn. intros Hrep E.
  destruct (move_alarm _ _ _ _ _ _ Hp E1) as (r1 & Hp1 & _ & Hrun). destruct (run_pool_alarm _ _ _ _ _ _ Hp1 E) as (_ & _ & _ & Hsub & _).
  assert (Hle1 : (size (unjoined p1) <= size (unjoined p))%nat) by (apply subseteq_size; destruct Hrun as [->|(_ & ?)]; set_solver).
  destruct Hrep as [Hrep|Hrep]; [|pose proof (IH _ _ _ _ _ Hp1 Hrep E); lia]. destruct x as [t|t i]; [done|].
  destruct (turn_reported rung i (device_of p) w Hp Hrep) as (m' & w2 & Et). cbn [move] in E1. unfold thread_turn in E1. case_decide as Ht; [|done].
  rewrite Et in E1. injection E1 as <- <-. cbn in Hsub. pose proof (subseteq_size _ _ Hsub) as Hle. cbn in *.
  rewrite size_difference in Hle by set_solver. rewrite size_singleton in Hle. assert (size (unjoined p) <> 0)%nat; [|lia].
  intros Hz%size_empty_inv. set_solver.
Qed.

Lemma fair_rest bound l1 l2 p w p1 w1 : fair bound (l1 ++ l2) p w -> run_pool l1 p w = Some (p1, w1) -> fair bound l2 p1 w1.
Proof.
  intros Hf E before some after p2 w2 -> Hl E2. apply (Hf (l1 ++ before) some after p2 w2); [by rewrite <- app_assoc|done|].
  rewrite run_app, E. done.
Qed.

(** Of every [bound] moves that follow the ring, one ends a thread. *)
Lemma threads_end bound n : forall moves p w p' w', (0 < bound)%nat -> alarm true (device_of p) -> fair bound moves p w ->
  run_pool moves p w = Some (p', w') -> (n * bound <= length moves)%nat -> (n + size (unjoined p') <= size (unjoined p))%nat.
Proof.
  induction n as [|n IH]; intros moves p w p' w' Hb Hp Hf E Hl.
  { destruct (run_pool_alarm _ _ _ _ _ _ Hp E) as (_ & _ & _ & Hsub & _). by apply subseteq_size in Hsub. }
  rewrite <- (take_drop bound moves) in E, Hf. rewrite run_app in E.
  destruct (run_pool (take bound moves) p w) as [[p1 w1]|] eqn:E1; [|done]. cbn in E.
  destruct (run_pool_alarm _ _ _ _ _ _ Hp E1) as (r1 & Hp1 & Hr1 & _). rewrite Hr1 in Hp1 by done.
  assert (Hrep : reported (take bound moves) p w) by (apply (Hf [] _ (drop bound moves) p w); [done|rewrite length_take; lia|done]).
  pose proof (reported_ends _ _ _ _ _ _ Hp Hrep E1). pose proof (fair_rest _ _ _ _ _ _ _ Hf E1) as Hf'.
  pose proof (IH (drop bound moves) p1 w1 p' w' Hb Hp1 Hf' E ltac:(rewrite length_drop; lia)). lia.
Qed.

(** C17. One thread that ends takes all of them with it: of a device that was started,
    whatever events its threads were given and however they began and took turns, as
    soon as one thread has ended the exit notice can be read, and no handler,
    request or release of an event makes it unreadable again.  If the kernel goes
    round the descriptors that are ready and the scheduler round the threads, so
    that one of any [bound] moves is a turn that is given the notice, then after
    [bound] moves for each thread that was left all of them have ended, and
    [DeviceHandle::wait] returns. *)
Theorem exit_reaches_every_thread fuel name cfg (o : O) w0 m o' w n bound before after p1 w1 p2 w2 :
  handle_new fuel name cfg o w0 = Ok (m, iface) o' w ->
  exit_notice m = Some e -> yield_notice m <> Some e -> (0 < bound)%nat ->
  run_pool before (spawn n (mkHost m o')) w = Some (p1, w1) -> unjoined p1 <> set_seq 0 n ->
  run_pool after p1 w1 = Some (p2, w2) -> fair bound after p1 w1 ->
  readable (kernel (queue (machine (host p1)))) e = true /\ readable (kernel (queue (machine (host p2)))) e = true /\
  (length after < bound * (size (unjoined p1) + 1))%nat /\
  ((bound * size (unjoined p1) <= length after)%nat -> wait_returns p2 = true).
Proof.
  intros E0 He Hy Hb E1 Hne E2 Hf. pose proof (started_alarm _ _ _ _ _ _ _ _ _ E0 He Hy) as Hp.
  destruct (run_pool_alarm _ _ _ _ _ _ (Hp : alarm false (device_of (spawn n (mkHost m o')))) E1) as (r1 & Hp1 & _ & _ & Hr1). rewrite (Hr1 Hne) in Hp1.
  destruct (run_pool_alarm _ _ _ _ _ _ Hp1 E2) as (r2 & Hp2 & Hr2 & _). rewrite Hr2 in Hp2 by done.
  assert (Hread : forall m, alarm true m -> readable (kernel (queue m)) e = true).
  { intros m' (_ & _ & _ & _ & _ & a & ev & _ & _ & _ & _ & _ & _ & _ & _ & _ & Hr). by apply Hr. }
  pose proof (fun n => threads_end bound n after p1 w1 p2 w2 Hb Hp1 Hf E2) as Hn. split_and!; [by apply Hread|by apply Hread| |].
  - destruct (decide (length after < bound * (size (unjoined p1) + 1))%nat) as [|Hlt]; [done|].
    pose proof (Hn (size (unjoined p1) + 1)%nat ltac:(lia)). lia.
  - intros Hl. pose proof (Hn (size (unjoined p1)) ltac:(lia)). apply bool_decide_eq_true_2. apply leibniz_equiv, size_empty_iff. lia.
Qed.
End Alarm.

(** Three threads that share a device, and a signal. *)
Module Example.
Import HandshakeProps.Example EpollProps.MapKernel.
#[local] Existing Instances pq_build Toy.crypto Toy.laws env env_clock MapTable.table MapTable.laws
  HandlersProps.Example.no_base64 TunProps.Table.fds TunProps.Table.fds_laws TunProps.Table.tun TunProps.Table.tun_laws.
#[local] Instance unix_sockets : UnixSockets := {| bind_listener n := inl (2 * n + 1)%nat |}.
#[local] Instance os : Os := {|
  shutdown_ok _ := true; open_bound n _ := inl (2 * n + 1)%nat; open_connected n _ _ _ := inl (2 * n + 1)%nat;
  try_clone n _ := Some (2 * n + 1)%nat; local_port _ _ := Some 51820; set_mark _ _ _ := true |}.

(** The kernel of [EpollProps], with even numbers for notices; the signal's descriptor
    is ready from call [arrival] on. *)
Definition arrival : nat := 47.
Definition signal_fd : nat := 37.
Definition arrive (n : nat) (k : Kernel) : Kernel :=
  if (n =? arrival)%nat then mkKernel (entries k) (<[signal_fd := true]> (ready k)) else k.
Definition poll (n : nat) (k : Kernel) : Polled * Kernel :=
  match poll_first (arrive n k) with
  | (PollEvent ev, k) => (PollEvent (mkEpollEvent EPOLLIN (ee_u64 ev)), k)
  | r => r
  end.

#[local] Instance epoll : Epoll Kernel := {|
  interest := interest (Epoll:=MapKernel.epoll);
  armed := armed (Epoll:=MapKernel.epoll);
  readable := is_ready;
  epoll_create := epoll_create (Epoll:=MapKernel.epoll);
  ctl_add := ctl_add (Epoll:=MapKernel.epoll);
  ctl_del := ctl_del (Epoll:=MapKernel.epoll);
  ctl_mod := ctl_mod (Epoll:=MapKernel.epoll);
  epoll_wait n k := poll n k;
  timerfd_create n _ := Some (2 * n + 1)%nat;
  timerfd_settime _ _ _ := true;
  eventfd n := Some (2 * n)%nat;
  signalfd n _ := Some (2 * n + 1)%nat;
  close_fd := close_fd (Epoll:=MapKernel.epoll);
  write_all := write_all (Epoll:=MapKernel.epoll);
  read_once := read_once (Epoll:=MapKernel.epoll);
  read_until_empty := read_until_empty (Epoll:=MapKernel.epoll);
|}.

Lemma arrive_entries n k : entries (arrive n k) = entries k.
Proof. unfold arrive. by destruct (_ =? _)%nat. Qed.
Lemma arrive_ready n k x : is_ready k x = true -> is_ready (arrive n k) x = true.
Proof.
  unfold arrive, is_ready. destruct (_ =? _)%nat; [|done]. cbn -[signal_fd]. intros E.
  destruct (decide (x = signal_fd)) as [->|Hne]; [by rewrite lookup_insert_eq|by rewrite lookup_insert_ne].
Qed.

#[local] Instance laws : EpollLaws Kernel.
Proof.
  pose proof MapKernel.laws as [L1 L2 L3 L4 L5 L6 L7 L8 Lev Lother L11 L12 L13 L14 L15 L16].
  split; [exact L1|exact L2|exact L3|exact L4|exact L5|exact L6|exact L7|exact L8| | |exact L11|exact L12|exact L13|exact L14|exact L15|exact L16].
  - intros n k k' ev E. cbn in E. unfold poll in E. destruct (poll_first (arrive n k)) as [[|d|] k1] eqn:Ep; try done.
    injection E as <- <-. destruct (Lev n (arrive n k) k1 d Ep) as (fd & d' & Hi & Ha & Hu & Hx). cbn in Hi, Ha, Hx. rewrite arrive_entries in Hi, Ha.
    exists fd, d'. split_and!; [done|done|done|]. intros x. specialize (Hx x). by rewrite arrive_entries in Hx.
  - intros n k k' E Hn x. cbn in E, Hn. unfold poll in E, Hn. destruct (poll_first (arrive n k)) as [r k1] eqn:Ep.
    assert (Hr : forall ev, r <> PollEvent ev) by (intros ev ->; by destruct (Hn (mkEpollEvent EPOLLIN (ee_u64 ev)))).
    pose proof (Lother n (arrive n k) k1) as Lo. cbn in Lo. rewrite Ep in Lo. specialize (Lo eq_refl Hr x). rewrite arrive_entries in Lo.
    destruct r as [|ev|]; [|by destruct (Hr ev)|]; cbn in E; by subst.
Qed.

#[local] Instance readable_laws : ReadableLaws Kernel.
Proof.
  split.
  - intros n fd ev k x. cbn. by case_bool_decide.
  - done.
  - intros fd ev k x. cbn. by case_bool_decide.
  - intros n k x E. apply (arrive_ready n) in E. change (is_ready (poll n k).2 x = true). unfold poll, poll_first.
    destruct (reportable _) as [|[fd [ev on]] l]; [done|]. by destruct (oneshot ev).
  - done.
  - intros fd k x Hne. cbn. unfold is_ready. cbn. by rewrite lookup_insert_ne.
  - intros fd ev k Hs. cbn in *. rewrite bool_decide_true by (by apply fmap_is_Some in Hs). cbn. by rewrite lookup_insert_eq.
Qed.

Lemma hangs_never e : never_hangs (K:=Kernel) e.
Proof.
  intros n k k' ev d E _ _. cbn in E. unfold poll in E. destruct (poll_first _) as [[|d'|] k1]; try done. by injection E as <- _.
Qed.

Definition table : gset nat := {[0%nat; 1%nat; 2%nat; 3%nat]}.
Definition cfg : DeviceConfig := mkDeviceConfig 3 true true (-1).
Definition w10 : World := mkWorld 5 0 0 10.
Definition start_run : outcome Error (gset nat) (Machine (K:=Kernel) * Linux.TunSocket) := handle_new 1 (bytes_of [51]) cfg table w10.
Definition first_machine : Machine (K:=Kernel) :=
  match start_run with Ok (m, _) _ _ => m | _ => mkMachine DeviceProps.Example.start (mkEventPoll [] ∅ (mkKernel ∅ ∅)) None None [] end.
Definition first_iface : Linux.TunSocket := match start_run with Ok (_, t) _ _ => t | _ => Linux.mkTunSocket 0 [] end.
Definition first_world : World := match start_run with Ok _ _ w => w | _ => w10 end.
Definition bell_fd : nat := from_option id 0%nat (exit_notice first_machine).
Definition buf : bytes := zeros 2048.

(** The threads begin; thread 1 finds nothing and thread 0 the signal. *)
Definition before : list Move := [Begin 2; Begin 0; Begin 1; Turn 1 nothing; Turn 0 nothing].
Definition after : list Move := [Turn 1 nothing; Turn 2 nothing].
Definition p0 : Pool := spawn 3 (mkHost first_machine table).
Definition run1 : option (Pool * World) := run_pool buf first_iface before p0 first_world.
Definition p1 : Pool := from_option fst p0 run1.
Definition w1 : World := from_option snd w10 run1.
Definition run2 : option (Pool * World) := run_pool buf first_iface after p1 w1.
Definition p2 : Pool := from_option fst p0 run2.
Definition w2 : World := from_option snd w10 run2.

Lemma some_pair {A B} (r : option (A * B)) a b : bool_decide (is_Some r) = true -> r = Some (from_option fst a r, from_option snd b r).
Proof. by destruct r as [[]|]. Qed.
Lemma start_pair (r : outcome Error (gset nat) (Machine (K:=Kernel) * Linux.TunSocket)) m0 t0 w0 :
  match r with Ok _ o _ => bool_decide (o = table) | _ => false end = true ->
  r = Ok (match r with Ok (m, _) _ _ => m | _ => m0 end, match r with Ok (_, t) _ _ => t | _ => t0 end) table
    (match r with Ok _ _ w => w | _ => w0 end).
Proof. destruct r as [[m t] o w|x o w|]; [|done..]. by intros ->%bool_decide_eq_true. Qed.

Lemma start_eq : handle_new 1 (bytes_of [51]) cfg table w10 = Ok (first_machine, first_iface) table first_world.
Proof. apply start_pair. vm_compute. reflexivity. Qed.
Lemma run1_eq : run_pool buf first_iface before p0 first_world = Some (p1, w1).
Proof. apply some_pair. vm_compute. reflexivity. Qed.
Lemma run2_eq : run_pool buf first_iface after p1 w1 = Some (p2, w2).
Proof. apply some_pair. vm_compute. reflexivity. Qed.
Lemma one_ended : unjoined p1 = {[1%nat; 2%nat]}.
Proof. vm_compute. reflexivity. Qed.

(** Notices have even numbers, other descriptors odd ones; the interface is 3. *)
Lemma bell_is : bell_fd = 50%nat.
Proof. vm_compute. reflexivity. Qed.
Lemma bell_reserved : reserved (K:=Kernel) bell_fd.
Proof.
  rewrite bell_is. assert (Hodd : forall n, (2 * n + 1)%nat <> 50%nat) by lia.
  intros n. cbn -[Nat.mul Nat.add]. split_and!; intros; intros [= E]; by apply (Hodd n).
Qed.
Lemma name_is : Linux.name first_iface = bytes_of [51].
Proof. vm_compute. reflexivity. Qed.
Lemma three_elsewhere : iface_elsewhere (O:=gset nat) bell_fd (Linux.name first_iface).
Proof.
  rewrite name_is, bell_is. intros o w t o' w' E. unfold open_iface, Linux.new in E.
  assert (Hp : parse_i32 (bytes_of [51]) = Some 3) by (vm_compute; reflexivity).
  rewrite Hp in E. step in E. destruct (set_non_blocking _ _ _); [|done..]. by injection E as <- _ _.
Qed.

(** Both of the turns that follow are given the notice. *)
Lemma fair_two e iface t1 i1 t2 i2 (p p' : Pool (K:=Kernel) (O:=gset nat)) w w' : reports e (machine (host p)) w ->
  run_pool buf iface [Turn t1 i1] p w = Some (p', w') -> reports e (machine (host p')) w' ->
  fair e buf iface 1 [Turn t1 i1; Turn t2 i2] p w.
Proof.
  intros Hr E2 Hr' b s a p3 w3 E Hs E1. destruct s as [|x [|]]; [done| |done]. destruct b as [|y [|z b]]; cbn [app] in E.
  - injection E as <- _. injection E1 as <- <-. by left.
  - injection E as <- <- _. rewrite E2 in E1. injection E1 as <- <-. by left.
  - injection E as _ _ E. by destruct b.
Qed.

Definition run1' : option (Pool * World) := run_pool buf first_iface [Turn 1 nothing] p1 w1.
Definition p1' : Pool := from_option fst p0 run1'.
Definition w1' : World := from_option snd w10 run1'.
Lemma run1'_eq : run_pool buf first_iface [Turn 1 nothing] p1 w1 = Some (p1', w1').
Proof. apply some_pair. vm_compute. reflexivity. Qed.

(** Evaluates whether the notice is what the kernel reports. *)
Definition is_reported (e : nat) (m : Machine (K:=Kernel)) (w : World) : bool :=
  match epoll_wait (calls w) (kernel (queue m)), interest (kernel (queue m)) e with
  | (PollEvent ev, _), Some d => bool_decide (ee_u64 ev = ee_u64 d)
  | _, _ => false
  end.
Lemma is_reported_reports e m w : is_reported e m w = true -> reports e m w.
Proof.
  unfold is_reported, reports. destruct (epoll_wait _ _) as [[|ev|] k]; try done. destruct (interest _ e) as [d|]; [|done].
  intros E%bool_decide_eq_true. by exists ev, k, d.
Qed.

Lemma kernel_fair : fair bell_fd buf first_iface 1 after p1 w1.
Proof.
  apply (fair_two bell_fd first_iface 1 nothing 2 nothing p1 p1' w1 w1'); [|exact run1'_eq|]; apply is_reported_reports; vm_compute; reflexivity.
Qed.

Lemma exit_reaches_every_thread_witness : readable (kernel (queue (machine (host p1)))) bell_fd = true /\ wait_returns p2 = true.
Proof.
  destruct (exit_reaches_every_thread bell_fd bell_reserved (hangs_never bell_fd) buf first_iface three_elsewhere
    1 (bytes_of [51]) cfg table w10 first_machine table first_world 3 1 before after p1 w1 p2 w2 start_eq
    ltac:(vm_compute; reflexivity) ltac:(vm_compute; discriminate) ltac:(lia) run1_eq ltac:(rewrite one_ended; vm_compute; discriminate)
    run2_eq kernel_fair) as (Hr & _ & _ & Hw).
  split; [exact Hr|]. apply Hw. rewrite one_ended. vm_compute. lia.
Defined.
End Example.
