(* ===== verification/SockDir.v ===== *)
(** * The directory of the configuration socket: [device/api.rs], [device/mod.rs]

    The socket lies in a directory that root creates; the process that removes it in
    the end is not root any more.  [create_sock_dir] gives the directory to the user
    that [drop_privileges] becomes.  Here the directory is a state of its own, so
    that who may remove what can be told. *)

From S2P Require Import Prelude Tunnel Peer Privileges Startup.

(** The directory: who owns it, whether its owner may write to it, and the paths in it. *)
Record Dir := mkDir { owner : Z; d_group : Z; owner_writes : bool; paths : gset bytes }.

(** [SOCK_DIR] in a file system, and the calls on it; the first argument is the
    identity of the process that makes the call.  [create_dir], [chown] and
    [remove_file] are called without looking at their results. *)
Class Directory (F : Type) := {
  dir : F -> option Dir;
  create_dir : Ids -> F -> F;
  chown : Ids -> Z -> Z -> F -> F;
  remove_file : Ids -> bytes -> F -> F;
  bind_path : nat -> Ids -> bytes -> F -> bool * F;
}.

Definition set_owner (u g : Z) (d : Dir) : Dir := mkDir u g (owner_writes d) (paths d).
Definition set_paths (f : gset bytes -> gset bytes) (d : Dir) : Dir := mkDir (owner d) (d_group d) (owner_writes d) (f (paths d)).

(** What POSIX says of them: root may give a directory away, and root and an owner
    who may write to the directory remove what is in it. *)
Class DirectoryLaws (F : Type) `{Directory F} : Prop := {
  create_dir_old i f d : dir f = Some d -> dir (create_dir i f) = Some d;
  create_dir_new i f d : dir f = None -> dir (create_dir i f) = Some d -> d = mkDir (euid i) (egid i) true ∅;
  chown_root i u g f : euid i = 0 -> dir (chown i u g f) = set_owner u g <$> dir f;
  remove_permitted i p f d : dir f = Some d -> euid i = 0 \/ euid i = owner d /\ owner_writes d = true ->
    dir (remove_file i p f) = Some (set_paths (fun s => s ∖ {[p]}) d);
  remove_without i p f : dir f = None -> dir (remove_file i p f) = None;
  bind_done n i p f : (bind_path n i p f).1 = true -> exists d, dir f = Some d /\ dir (bind_path n i p f).2 = Some (set_paths (fun s => {[p]} ∪ s) d);
}.

Section SockDir.
Context {C F : Type} `{Credentials C, Directory F}.

(** A process: its identities, and the file system. *)
Record Proc := mkProc { cred : C; fs : F }.
Abbreviation PM := (M Error Proc).
Definition with_cred {A} (m : M Error C A) : PM A := zoom cred (fun c p => mkProc c (fs p)) m.
Definition on_dir (f : Ids -> F -> F) : PM unit := modify (fun p => mkProc (cred p) (f (ids (cred p)) (fs p))).

Definition create_sock_dir (macos : bool) : PM unit :=
  on_dir create_dir;;
  r <- attempt (with_cred (get_saved_ids macos));;
  match r with
  | inl (saved_uid, saved_gid) => on_dir (fun i => chown i saved_uid saved_gid)
  | inr _ => ret tt
  end.

(** [UnixListener::bind] *)
Definition unix_bind (path : bytes) : PM unit := fun p w =>
  let '(done, f) := bind_path (calls w) (ids (cred p)) path (fs p) in
  let p := mkProc (cred p) f in
  let w := mkWorld (ticks w) (wall w) (draws w) (S (calls w)) in
  if done then Ok tt p w else Fail ApiSocket p w.

(** The part of [register_api_handler] that concerns files: the paths to clean up. *)
Definition api_socket (macos : bool) (name : bytes) : PM (list bytes) :=
  let path := sock_path name in
  create_sock_dir macos;;
  on_dir (fun i => remove_file i path);;
  unix_bind path;;
  ret [path].

(** [DeviceHandle::clean] as the process that has become a user. *)
Definition clean (cleanup_paths : list bytes) : PM unit := for_each (fun path => on_dir (fun i => remove_file i path)) cleanup_paths.

(** From the start of a daemon to its end, as far as the socket's file is concerned. *)
Definition lifetime (macos disable_drop_privileges : bool) (name : bytes) : PM unit :=
  cleanup_paths <- api_socket macos name;;
  (if disable_drop_privileges then ret tt else with_cred (drop_privileges macos));;
  clean cleanup_paths.

(** ** Who removes the socket *)

Context `{!CredentialsLaws C, !DirectoryLaws F}.

(** The login does not depend on when it is asked for. *)
Lemma saved_ids_timeless macos c w w' r : get_saved_ids macos c w = Ok r c w -> get_saved_ids macos c w' = Ok r c w'.
Proof.
  unfold get_saved_ids. step. destruct macos; [destruct (env_user c)|destruct (getlogin c)]; step; try done;
    [destruct (user_from_name c _) as [[]|]|destruct (getpwnam c _)]; step; try done; by intros [= ->].
Qed.

(** The directory after [create_sock_dir] by root: it is given to the login, if there
    is one, and nothing in it changes. *)
Lemma create_sock_dir_eq macos p w : euid (ids (cred p)) = 0 -> exists f,
  create_sock_dir macos p w = Ok tt (mkProc (cred p) f) w /\
  dir f = (match get_saved_ids macos (cred p) w with Ok (u, g) _ _ => fmap (set_owner u g) | _ => id end)
    (dir (create_dir (ids (cred p)) (fs p))).
Proof.
  intros He. unfold create_sock_dir, on_dir, with_cred, attempt, zoom, Prelude.bind, modify. cbn [cred fs].
  pose proof (saved_ids_pure macos (cred p) w) as Hp. destruct (get_saved_ids macos (cred p) w) as [[u g] c w1|e c w1|]; [| |done];
    destruct Hp as [-> ->]; eexists; (split; [reflexivity|]); [by apply chown_root|done].
Qed.

(** What was in the directory before, if it was there. *)
Definition contents (f : F) : gset bytes := from_option paths ∅ (dir f).
Definition usable (f : F) : Prop := forall d, dir f = Some d -> owner_writes d = true.

Lemma created i f d : usable f -> dir (create_dir i f) = Some d -> paths d = contents f /\ owner_writes d = true.
Proof.
  unfold contents. intros Hu E. destruct (dir f) as [d0|] eqn:E0.
  - rewrite (create_dir_old i f d0 E0) in E. injection E as <-. by split; [|apply Hu].
  - by rewrite (create_dir_new i f d E0 E).
Qed.

(** The socket that a start leaves: in a directory that the login owns, if there is one. *)
Lemma api_socket_ok macos name p w l p' w' : euid (ids (cred p)) = 0 -> usable (fs p) ->
  api_socket macos name p w = Ok l p' w' ->
  l = [sock_path name] /\ cred p' = cred p /\ exists d, dir (fs p') = Some d /\ owner_writes d = true /\
    paths d = {[sock_path name]} ∪ contents (fs p) /\
    forall u g, get_saved_ids macos (cred p) w = Ok (u, g) (cred p) w -> owner d = u.
Proof.
  intros He Hu E. unfold api_socket in E. destruct (create_sock_dir_eq macos p w He) as (f & Ec & Ed).
  apply bind_ok in E as ([] & p1 & w1 & E1 & E). rewrite Ec in E1. injection E1 as <- <-.
  apply bind_ok in E as ([] & p2 & w2 & [= <- <-] & E). apply bind_ok in E as ([] & p3 & w3 & E3 & [= <- <- <-]).
  unfold unix_bind in E3. cbn [cred fs] in E3. destruct (bind_path _ _ _ _) as [done f3] eqn:Eb. destruct done; [|done]. injection E3 as <- <-.
  split_and!; [done|done|]. cbn [fs]. destruct (bind_done (calls w) (ids (cred p)) (sock_path name) (remove_file (ids (cred p)) (sock_path name) f))
    as (d2 & E2 & E3); [by rewrite Eb|]. rewrite Eb in E3. cbn [snd] in E3.
  destruct (dir f) as [d1|] eqn:E1; [|by rewrite (remove_without _ _ _ E1) in E2].
  rewrite (remove_permitted _ _ _ _ E1 (or_introl He)) in E2. injection E2 as <-.
  assert (Hd0 : exists d0, dir (create_dir (ids (cred p)) (fs p)) = Some d0 /\ paths d1 = paths d0 /\ owner_writes d1 = owner_writes d0 /\
    forall u g, get_saved_ids macos (cred p) w = Ok (u, g) (cred p) w -> owner d1 = u).
  { symmetry in Ed. pose proof (saved_ids_pure macos (cred p) w) as Hp. destruct (get_saved_ids macos (cred p) w) as [[u g] c w1|e c w1|]; [| |done].
    - destruct Hp as [-> ->]. apply fmap_Some in Ed as (d0 & E0 & ->). exists d0. split_and!; [done..|]. by intros ? ? [= -> ->].
    - exists d1. by split_and!. }
  destruct Hd0 as (d0 & E0 & P0 & W0 & O0). destruct (created _ _ _ Hu E0) as [Pc Wc]. exists (set_paths (fun s => {[sock_path name]} ∪ s) (set_paths (fun s => s ∖ {[sock_path name]}) d1)).
  split_and!; [done|cbn; congruence| |done]. cbn. rewrite P0, Pc. apply leibniz_equiv. intros x. destruct (decide (x = sock_path name)); set_solver.
Qed.

(** The socket does not outlive the daemon: a process that root started, that has
    become a user or stays root, and that comes to its end removes the
    socket it made, and leaves everything else in the directory as it was. *)
Theorem socket_does_not_outlive macos disabled name p w p' w' :
  euid (ids (cred p)) = 0 -> usable (fs p) -> lifetime macos disabled name p w = Ok tt p' w' ->
  contents (fs p') = contents (fs p) ∖ {[sock_path name]} /\ (disabled = false -> unprivileged (ids (cred p'))).
Proof.
  intros He Hu E. unfold lifetime in E. apply bind_ok in E as (l & p1 & w1 & E1 & E).
  destruct (api_socket_ok _ _ _ _ _ _ _ He Hu E1) as (-> & Ec & d & Ed & Wd & Pd & Od).
  apply bind_ok in E as ([] & p2 & w2 & E2 & E). cbn -[dir] in E. injection E as <- <-. cbn [fs cred].
  assert (Hp2 : fs p2 = fs p1 /\ (euid (ids (cred p2)) = 0 \/ euid (ids (cred p2)) = owner d) /\
    (disabled = false -> unprivileged (ids (cred p2)))).
  { destruct disabled; [injection E2 as <- <-; rewrite Ec; by split_and!; [|left|]|]. unfold with_cred, zoom in E2.
    destruct (drop_privileges macos (cred p1) w1) as [[] c w3|e c w3|] eqn:E3; [|done..]. injection E2 as <- <-. cbn [fs cred].
    split_and!; [done| |intros _; by eapply dropped_unprivileged]. right. rewrite Ec in E3.
    apply dropped_is_login in E3 as (u & g & Es & _ & ->); [|done]. cbn. symmetry. apply (Od u g).
    by eapply saved_ids_timeless. }
  destruct Hp2 as (-> & Hi & Hun). split; [|done]. unfold contents at 1.
  rewrite (remove_permitted _ _ _ _ Ed) by tauto. cbn. rewrite Pd. set_solver.
Qed.

(** A daemon that cannot give up root exits with its socket in place: [exit] does
    not run [DeviceHandle::clean]. *)
Theorem failed_drop_leaves_socket macos name p w l p1 w1 e c w2 :
  euid (ids (cred p)) = 0 -> usable (fs p) -> api_socket macos name p w = Ok l p1 w1 ->
  drop_privileges macos (cred p1) w1 = Fail e c w2 ->
  exists p', lifetime macos false name p w = Fail e p' w2 /\ sock_path name ∈ contents (fs p').
Proof.
  intros He Hu E1 E2. exists (mkProc c (fs p1)). unfold lifetime, Prelude.bind, with_cred, zoom. rewrite E1, E2. split; [done|].
  destruct (api_socket_ok _ _ _ _ _ _ _ He Hu E1) as (_ & _ & d & Ed & _ & Pd & _). unfold contents. cbn. rewrite Ed. cbn. set_solver.
Qed.
End SockDir.

(** ** A directory *)

Module Example.
Import Privileges.Process.
#[local] Existing Instances credentials laws.

(** Those who may change the directory: root and an owner with the right to write. *)
Definition may (i : Ids) (d : Dir) : bool := (euid i =? 0) || (euid i =? owner d) && owner_writes d.
#[local] Instance directory : Directory (option Dir) := {|
  dir f := f;
  create_dir i f := match f with Some d => Some d | None => Some (mkDir (euid i) (egid i) true ∅) end;
  chown i u g f := if euid i =? 0 then set_owner u g <$> f else f;
  remove_file i p f := d ← f; Some (if may i d then set_paths (fun s => s ∖ {[p]}) d else d);
  bind_path _ i p f := match f with
    | Some d => if may i d then (true, Some (set_paths (fun s => {[p]} ∪ s) d)) else (false, f)
    | None => (false, f)
    end;
|}.
#[local] Instance directory_laws : DirectoryLaws (option Dir).
Proof.
  split; cbn.
  - by intros i f d ->.
  - intros i f d -> [= <-]. done.
  - intros i u g f He. by rewrite (proj2 (Z.eqb_eq _ _) He).
  - intros i p f d -> Hi. cbn. unfold may. destruct Hi as [He|[He Hw]].
    + by rewrite (proj2 (Z.eqb_eq _ _) He).
    + by rewrite (proj2 (Z.eqb_eq _ _) He), Hw, orb_true_r.
  - by intros i p f ->.
  - intros n i p [d|]; [|done]. destruct (may i d); [|done]. intros _. by exists d.
Qed.

(** [sudo] of [Process], with no directory and with one that has a socket of its own. *)
Definition wg0 : bytes := bytes_of [119; 103; 48].
Definition wg1 : bytes := bytes_of [119; 103; 49].
Definition before : Proc := mkProc sudo (Some (mkDir 0 0 true {[sock_path wg0; sock_path wg1]})).

Lemma socket_removed : exists p w, lifetime false false wg0 before w0 = Ok tt p w /\ sock_path wg1 ∈ contents (fs p) /\
  sock_path wg0 ∉ contents (fs p).
Proof.
  destruct (lifetime false false wg0 before w0) as [[] p w|e p w|] eqn:E; [|by vm_compute in E..].
  exists p, w. split; [done|]. destruct (socket_does_not_outlive false false wg0 before w0 p w) as [Hc _]; [done|by intros d [= <-]|done|].
  rewrite Hc. cbn. assert (sock_path wg0 <> sock_path wg1) by (vm_compute; discriminate). set_solver.
Qed.

(** A login that is root's: the process exits, and the socket stays. *)
Definition root_login : Proc (F:=option Dir) := mkProc (mkProcess (proc_ids sudo) (login sudo) (0, 0)) None.
Lemma socket_left : match lifetime false false wg0 root_login w0 with
  | Fail DropPrivileges p _ => bool_decide (sock_path wg0 ∈ contents (fs p)) | _ => false end = true.
Proof. vm_compute. reflexivity. Qed.
End Example.
