(* ===== verification/PskTool.v ===== *)
(** * Preshared keys out of band: [pq-psk-tool/src/main.rs]

    The tool runs ML-KEM-768 between two peers that exchange files: [Keygen]
    writes a key pair, [Encaps] answers a public key with a ciphertext and a
    preshared key, [Decaps] recovers the same preshared key.  A file system is
    a map from paths to contents.  The tool ends with a message when something
    is wrong; the message is the error of the run, and the files are as they
    were left. *)

From Stdlib Require Import Strings.String.
From S2P Require Import Prelude Crypto KeyBytes Text Base64.

(** ** What the tool calls *)

(** [DecapsulationKey768::to_seed] and [from_seed] of the crate [ml-kem]. *)
Class MlKemSeed := {
  to_seed : bytes -> option bytes;
  from_seed : bytes -> bytes;
}.

(** Whether the [n]-th call of [fs::write] succeeds. *)
Class Disk := { writable : nat -> bool }.

Class MlKemSeedLaws `{Crypto, MlKemSeed} : Prop := {
  mlkem_to_seed e : exists s, to_seed (mlkem_generate e).1 = Some s /\ length s = 64%nat /\
    from_seed s = (mlkem_generate e).1;
}.

(** ** [str::trim] *)

(** The characters of the property [White_Space], encoded. *)
Definition white_space : list bytes :=
  bytes_of <$> [[9]; [10]; [11]; [12]; [13]; [32]; [194; 133]; [194; 160]; [225; 154; 128];
    [226; 128; 128]; [226; 128; 129]; [226; 128; 130]; [226; 128; 131]; [226; 128; 132]; [226; 128; 133];
    [226; 128; 134]; [226; 128; 135]; [226; 128; 136]; [226; 128; 137]; [226; 128; 138]; [226; 128; 168];
    [226; 128; 169]; [226; 128; 175]; [226; 129; 159]; [227; 128; 128]].

(** The rest of [s] behind the first of the strings that it starts with. *)
Fixpoint strip_one (cs : list bytes) (s : bytes) : option bytes :=
  match cs with
  | [] => None
  | c :: cs => if bool_decide (take (length c) s = c) then Some (drop (length c) s) else strip_one cs s
  end.
Fixpoint strip (fuel : nat) (cs : list bytes) (s : bytes) : bytes :=
  match fuel with
  | O => s
  | S fuel => match strip_one cs s with Some s => strip fuel cs s | None => s end
  end.
Definition trim_start (s : bytes) : bytes := strip (length s) white_space s.
Definition trim_end (s : bytes) : bytes :=
  rev (strip (length s) (rev (A:=byte) <$> white_space) (rev s)).
Definition trim (s : bytes) : bytes := trim_end (trim_start s).

(** ** The tool *)

Abbreviation path := (list byte).
Abbreviation Files := (gmap path bytes).

(** The messages of [panic!] and [expect]. *)
Inductive Message :=
| FailedToRead (p : path)
| FailedToDecode (p : path)
| FailedToWrite (p : path)
| NoSeed
| WrongKeySize (n : nat)
| InvalidKey
| WrongSeedSize (n : nat)
| WrongCiphertextSize (n : nat)
| DecapsulationFailed.

Inductive Command :=
| Keygen (ek_out dk_out : path)
| Encaps (ek_file ct_out psk_out : path)
| Decaps (dk_file ct_file psk_out : path).

Section Tool.
Context `{Crypto, Env, Base64, MlKemSeed, Disk}.
Abbreviation FM := (M Message Files).

(** [fs::read_to_string]: no such file, or not UTF-8. *)
Definition read_to_string (p : path) : FM bytes :=
  files <- get;;
  contents <- ok_or (FailedToRead p) (files !! p);;
  if is_utf8 contents then ret contents else fail (FailedToRead p).

Definition read_base64_file (p : path) : FM bytes :=
  contents <- read_to_string p;;
  let trimmed := trim contents in
  ok_or (FailedToDecode p) (base64_decode trimmed).

(** [fs::write] *)
Definition write (p : path) (contents : bytes) : FM unit :=
  done <- syscall writable;;
  if done : bool then modify <[p := contents]> else fail (FailedToWrite p).

Definition write_base64_file (p : path) (data : bytes) : FM unit := write p (base64_encode data).
Definition write_psk_base64 (p : path) (secret : bytes) : FM unit := write p (base64_encode secret).

(** [try_into] of a slice to an array of [n] bytes *)
Definition sized (n : nat) (wrong : nat -> Message) (b : bytes) : FM bytes :=
  if (length b =? n)%nat then ret b else fail (wrong (length b)).

Definition keygen (ek_out dk_out : path) : FM unit :=
  entropy <- draw;;
  let '(dk, ek) := mlkem_generate entropy in
  write_base64_file ek_out ek;;
  dk_seed <- ok_or NoSeed (to_seed dk);;
  write_base64_file dk_out dk_seed.

Definition encaps (ek_file ct_out psk_out : path) : FM unit :=
  ek_bytes <- read_base64_file ek_file;;
  ek <- sized 1184 WrongKeySize ek_bytes;;
  (if mlkem_ek_valid ek then ret tt else fail InvalidKey);;
  entropy <- draw;;
  let '(ct, shared_secret) := mlkem_encapsulate ek entropy in
  write_base64_file ct_out ct;;
  write_psk_base64 psk_out shared_secret.

Definition decaps (dk_file ct_file psk_out : path) : FM unit :=
  dk_bytes <- read_base64_file dk_file;;
  ct_bytes <- read_base64_file ct_file;;
  seed <- sized 64 WrongSeedSize dk_bytes;;
  let dk := from_seed seed in
  ct <- sized 1088 WrongCiphertextSize ct_bytes;;
  shared_secret <- ok_or DecapsulationFailed (mlkem_try_decapsulate dk ct);;
  write_psk_base64 psk_out shared_secret.

(** [main] after the command line was parsed. *)
Definition main (c : Command) : FM unit :=
  match c with
  | Keygen ek_out dk_out => keygen ek_out dk_out
  | Encaps ek_file ct_out psk_out => encaps ek_file ct_out psk_out
  | Decaps dk_file ct_file psk_out => decaps dk_file ct_file psk_out
  end.

(** ** Trimming *)

(** A list of separators: each is taken off the front of any text, and nothing
    is taken off a text that starts with a visible character. *)
Definition separators (cs : list bytes) : Prop :=
  Forall (fun c => c <> [] /\ (forall t, strip_one cs (c ++ t) = Some t)) cs /\
  (forall b t, 32 < code b < 127 -> strip_one cs (b :: t) = None).

Definition invisible (c : bytes) : bool :=
  match c with [] => false | a :: _ => negb ((32 <? code a) && (code a <? 127)) end.

Lemma strip_other cs b t : forallb invisible cs = true -> 32 < code b < 127 -> strip_one cs (b :: t) = None.
Proof.
  intros Hc Hb. induction cs as [|c cs IH]; [done|]. cbn [strip_one forallb] in *.
  apply andb_prop in Hc as [Ha Hc]. rewrite bool_decide_eq_false_2; [by apply IH|].
  destruct c as [|a c]; [done|]. cbn. intros [= <- _]. unfold invisible in Ha. lia.
Qed.

Lemma white_separators : separators white_space.
Proof.
  split; [|intros; by apply strip_other].
  unfold white_space. cbn [fmap list_fmap]. repeat (apply Forall_nil_2 || apply Forall_cons_2); (split; [discriminate|intros t; reflexivity]).
Qed.
Lemma white_separators_rev : separators (rev (A:=byte) <$> white_space).
Proof.
  split; [|intros; by apply strip_other].
  unfold white_space. cbn [fmap list_fmap]. repeat (apply Forall_nil_2 || apply Forall_cons_2); (split; [discriminate|intros t; reflexivity]).
Qed.

Lemma strip_separated cs l b t : separators cs -> Forall (.∈ cs) l -> 32 < code b < 127 ->
  forall fuel, (length l <= fuel)%nat -> strip fuel cs (concat l ++ b :: t) = b :: t.
Proof.
  intros [Hc Hn] Hl Hb. induction Hl as [|c l Hcl _ IH]; intros fuel Hf; cbn [concat].
  - destruct fuel; [done|]. cbn [strip app]. by rewrite Hn.
  - destruct fuel as [|fuel]; [cbn in Hf; lia|]. cbn [strip]. rewrite <- app_assoc.
    rewrite List.Forall_forall in Hc. apply list_elem_of_In in Hcl. rewrite (proj2 (Hc c Hcl)). apply IH. cbn in Hf. lia.
Qed.

(** A text with blanks around it. *)
Definition padded (x s : bytes) : Prop := exists l r,
  Forall (.∈ white_space) l /\ Forall (.∈ white_space) r /\ s = concat l ++ x ++ concat r.
Definition visible (x : bytes) : Prop := x <> [] /\ Forall (fun c => 32 < code c < 127) x.

Lemma length_concat_white (cs : list bytes) l : Forall (fun c => c <> []) cs -> Forall (.∈ cs) l ->
  (length l <= length (concat l))%nat.
Proof.
  intros Hc. rewrite List.Forall_forall in Hc. induction 1 as [|c l Hl _ IH]; [done|]. cbn. rewrite length_app.
  apply list_elem_of_In, Hc in Hl. destruct c; [done|cbn; lia].
Qed.

Lemma rev_concat (l : list bytes) : rev (concat l) = concat (rev (A:=byte) <$> rev l).
Proof.
  induction l as [|c l IH]; [done|]. cbn [concat rev]. rewrite rev_app_distr, IH, fmap_app, concat_app. cbn.
  by rewrite app_nil_r.
Qed.

Lemma trim_padded x s : visible x -> padded x s -> trim s = x.
Proof.
  intros [Hx Hv] (l & r & Hl & Hr & ->). unfold trim.
  assert (Hn : Forall (fun c => c <> []) white_space) by (eapply Forall_impl; [|exact (proj1 white_separators)]; intros c Hc; apply Hc).
  assert (E : trim_start (concat l ++ x ++ concat r) = x ++ concat r).
  { destruct x as [|b x]; [done|]. unfold trim_start. apply Forall_cons_1 in Hv as [Hb _]. cbn [app].
    apply strip_separated; [apply white_separators|done|done|].
    rewrite length_app. pose proof (length_concat_white _ _ Hn Hl). lia. }
  rewrite E. clear E. unfold trim_end. rewrite rev_app_distr.
  destruct (rev x) as [|b y] eqn:Ex; [by apply (f_equal (@rev byte)) in Ex; rewrite rev_involutive in Ex|].
  assert (Hb : 32 < code b < 127).
  { rewrite List.Forall_forall in Hv. apply Hv. rewrite in_rev, Ex. by left. }
  rewrite rev_concat, strip_separated; [by rewrite <- Ex, rev_involutive|apply white_separators_rev| |done|].
  - apply Forall_fmap, Forall_rev. eapply Forall_impl; [|exact Hr]. intros c Hc.
    apply list_elem_of_fmap. by exists c.
  - rewrite length_fmap, length_rev, length_app. pose proof (length_concat_white _ _ Hn Hr). lia.
Qed.

Lemma utf8_white l t : Forall (.∈ white_space) l -> is_utf8 (concat l ++ t) = is_utf8 t.
Proof.
  assert (Hw : Forall (fun c => forall t, is_utf8 (c ++ t) = is_utf8 t) white_space).
  { unfold white_space. cbn [fmap list_fmap]. repeat (apply Forall_nil_2 || apply Forall_cons_2); intros ?; reflexivity. }
  rewrite List.Forall_forall in Hw. induction 1 as [|c l Hc _ IH]; [done|]. cbn [concat].
  rewrite <- app_assoc, Hw; [done|by apply list_elem_of_In].
Qed.

Lemma utf8_padded x s : visible x -> padded x s -> is_utf8 s = true.
Proof.
  intros [_ Hv] (l & r & Hl & Hr & ->). rewrite utf8_white by done. induction Hv as [|b x Hb _ IH].
  - rewrite <- (app_nil_r (concat r)). by rewrite app_nil_l, utf8_white.
  - cbn [app is_utf8]. by rewrite (proj2 (Z.ltb_lt _ _)) by lia.
Qed.

(** ** Failures *)

Definition outputs (c : Command) : list path :=
  match c with
  | Keygen ek_out dk_out => [ek_out; dk_out]
  | Encaps _ ct_out psk_out => [ct_out; psk_out]
  | Decaps _ _ psk_out => [psk_out]
  end.

(** Files that differ at most at the paths [ps]. *)
Definition same_but (ps : list path) (files files' : Files) : Prop :=
  forall p, p ∉ ps -> files' !! p = files !! p.

Section Failing.
Variables (ps : list path) (files : Files).
Let I (f : Files) (w : World) : Prop := same_but ps files f.

Lemma upholds_read p : upholds I False (read_base64_file p).
Proof. unfold read_base64_file, read_to_string. upholds. Qed.
Lemma upholds_write p contents : p ∈ ps -> upholds I False (write p contents).
Proof.
  intros Hp f w Hf. unfold write, bind. step. destruct (writable _); step; (split; [|unfold later; cbn; lia]); [|done].
  intros q Hq. rewrite lookup_insert_ne by (by intros ->). by apply Hf.
Qed.
Lemma upholds_draw : upholds I False (draw (E:=Message)).
Proof. intros f w Hf. step. split; [done|unfold later; cbn; lia]. Qed.
Lemma upholds_sized n wrong b : upholds I False (sized n wrong b).
Proof. unfold sized. upholds. Qed.
End Failing.
#[local] Hint Resolve upholds_read upholds_draw upholds_sized : upholds.
#[local] Hint Extern 1 (upholds _ _ (write _ _)) => apply upholds_write; set_solver : upholds.

(** The two readings of [Decaps] change nothing. *)
Lemma read_pure p files w :
  match read_base64_file p files w with
  | Ok _ f w' | Fail _ f w' => f = files /\ w' = w
  | Panic => False
  end.
Proof.
  unfold read_base64_file, read_to_string, bind. step. destruct (files !! p) as [s|]; step; [|done].
  destruct (is_utf8 s); step; [|done]. by destruct (base64_decode (trim s)).
Qed.

(** Failures leave what was there: whatever the files hold and whether the disk
    takes the output or not, a run ends in success or with one of the messages,
    and no file but its outputs has changed; a failed [Decaps] changes no file at
    all, and a successful one writes the secret of a seed of 64 bytes and a
    ciphertext of 1088 bytes. *)
Theorem only_outputs_change c files w :
  match main c files w with
  | Ok _ files' _ => same_but (outputs c) files files' /\
      (forall dk ct psk, c = Decaps dk ct psk -> exists seed data secret,
        read_base64_file dk files w = Ok seed files w /\ read_base64_file ct files w = Ok data files w /\
        length seed = 64%nat /\ length data = 1088%nat /\
        mlkem_try_decapsulate (from_seed seed) data = Some secret /\ files' = <[psk := base64_encode secret]> files)
  | Fail _ files' _ => same_but (outputs c) files files' /\ (forall dk ct psk, c = Decaps dk ct psk -> files' = files)
  | Panic => False
  end.
Proof.
  assert (Hu : upholds (fun f _ => same_but (outputs c) files f) False (main c)).
  { destruct c; cbn [main outputs]; unfold keygen, encaps, decaps, write_base64_file, write_psk_base64.
    all: upholds. }
  specialize (Hu files w (fun _ _ => eq_refl)). destruct c as [ek dk|ek ct psk|dk ct psk]; cbn [main] in *.
  { destruct (keygen ek dk files w); [| |done]; (split; [apply Hu|by intros]). }
  { destruct (encaps ek ct psk files w); [| |done]; (split; [apply Hu|by intros]). }
  unfold decaps, write_psk_base64, bind in *. pose proof (read_pure dk files w) as R1. pose proof (read_pure ct files w) as R2.
  destruct (read_base64_file dk files w) as [seed f1 w1|m f1 w1|] eqn:E1; [|split; [apply Hu|by intros; apply R1]|done].
  destruct R1 as [-> ->].
  destruct (read_base64_file ct files w) as [data f1 w1|m f1 w1|] eqn:E2; [|split; [apply Hu|by intros; apply R2]|done].
  destruct R2 as [-> ->]. clear Hu. unfold sized.
  destruct (Nat.eqb_spec (length seed) 64) as [Ls|_]; step; [|split; by intros].
  destruct (Nat.eqb_spec (length data) 1088) as [Ld|_]; step; [|split; by intros].
  destruct (mlkem_try_decapsulate _ _) as [secret|] eqn:D; step; [|split; by intros].
  unfold write, bind. step. destruct (writable _); step; [|split; by intros].
  split; [|intros ? ? ? [= <- <- <-]; by exists seed, data, secret].
  intros p Hp. apply lookup_insert_ne. intros ->. apply Hp. by left.
Qed.
(** ** Files *)

(** The file [p] holds [data] in base64, perhaps with blanks around it. *)
Definition holds (files : Files) (p : path) (data : bytes) : Prop :=
  exists s, files !! p = Some s /\ padded (base64_encode data) s.

Lemma padded_self x : padded x x.
Proof. exists [], []. split_and!; [constructor..|]. cbn. by rewrite app_nil_r. Qed.

Context `{!CryptoLaws, !Base64Laws, !MlKemSeedLaws}.

Lemma visible_encoded data : data <> [] -> visible (base64_encode data).
Proof.
  intros Hd. split; [|apply base64_alphabet]. intros E. pose proof (length_base64_encode data) as L.
  rewrite E in L. destruct data as [|b data]; [done|]. cbn [length] in L.
  pose proof (Nat.Div0.div_le_mono 3 (S (length data) + 2) 3 ltac:(lia)) as D. cbn [Nat.div Nat.divmod fst] in *. lia.
Qed.

Lemma read_holds files p data w : data <> [] -> holds files p data ->
  read_base64_file p files w = Ok data files w.
Proof.
  intros Hd (s & E & Hs). apply visible_encoded in Hd. unfold read_base64_file, read_to_string, bind. step.
  rewrite E. step. rewrite (utf8_padded _ _ Hd Hs). step.
  by rewrite (trim_padded _ _ Hd Hs), decode_encode64.
Qed.

(** ** Agreement *)

(** The parts of a run that succeed, for a disk that takes what is written. *)
Section Working.
Hypothesis roomy : forall n, writable n = true.

Lemma write_eq p contents files w :
  write p contents files w =
  Ok tt (<[p := contents]> files) (mkWorld (ticks w) (wall w) (draws w) (S (calls w))).
Proof. unfold write, bind. step. by rewrite roomy. Qed.

Lemma sized_eq n wrong b files w : length b = n -> sized n wrong b files w = Ok b files w.
Proof. intros <-. unfold sized. by rewrite Nat.eqb_refl. Qed.

Lemma keygen_eq ek_out dk_out files w : exists files' w',
  keygen ek_out dk_out files w = Ok tt files' w' /\
  exists seed, length seed = 64%nat /\ from_seed seed = (mlkem_generate (rng (draws w))).1 /\
    files' = <[dk_out := base64_encode seed]> (<[ek_out := base64_encode (mlkem_generate (rng (draws w))).2]> files).
Proof.
  unfold keygen, write_base64_file. destruct (mlkem_to_seed (rng (draws w))) as (seed & E & L & F). step.
  destruct (mlkem_generate _) as [dk ek]. cbn [fst snd] in *. unfold bind. rewrite write_eq, E. step.
  rewrite write_eq. by eexists _, _; split; [done|exists seed].
Qed.

Lemma encaps_eq ek_file ct_out psk_out e files w : holds files ek_file (mlkem_generate e).2 -> exists files' w',
  encaps ek_file ct_out psk_out files w = Ok tt files' w' /\
  files' = <[psk_out := base64_encode (mlkem_encapsulate (mlkem_generate e).2 (rng (draws w))).2]>
    (<[ct_out := base64_encode (mlkem_encapsulate (mlkem_generate e).2 (rng (draws w))).1]> files).
Proof.
  intros Hf. pose proof (length_mlkem_ek e) as L. unfold encaps, write_base64_file, write_psk_base64.
  unfold bind. rewrite (read_holds _ _ _ _ ltac:(by intros E; rewrite E in L) Hf), sized_eq by done.
  rewrite mlkem_ek_generated. step. destruct (mlkem_encapsulate _ _) as [ct ss]. rewrite !write_eq.
  by eexists _, _.
Qed.

Lemma decaps_eq dk_file ct_file psk_out e e' seed files w :
  length seed = 64%nat -> from_seed seed = (mlkem_generate e).1 -> holds files dk_file seed ->
  holds files ct_file (mlkem_encapsulate (mlkem_generate e).2 e').1 -> exists files' w',
  decaps dk_file ct_file psk_out files w = Ok tt files' w' /\
  files' = <[psk_out := base64_encode (mlkem_encapsulate (mlkem_generate e).2 e').2]> files.
Proof.
  intros Ls F Hs Hc. pose proof (length_mlkem_ct (mlkem_generate e).2 e') as L.
  unfold decaps, write_psk_base64, bind.
  rewrite (read_holds _ _ _ _ ltac:(by intros E; rewrite E in Ls) Hs), (read_holds _ _ _ _ ltac:(by intros E; rewrite E in L) Hc),
    !sized_eq by done. rewrite F, mlkem_correct. step. rewrite write_eq. by eexists _, _.
Qed.

(** C34. The two ends agree: [Keygen] succeeds, for any peer that then runs [Encaps]
    on the public key [Encaps] succeeds, and with the ciphertext sent back
    [Decaps] succeeds; the files sent may have gained blanks on the way.  Both
    ends then hold the same preshared key file, which the key parser of the
    device reads as a secret of 32 bytes. *)
Theorem psk_agreement ek dk ek' ct psk ct' psk' files w (device_decode : bytes -> option bytes) :
  ek <> dk -> ct <> psk -> (forall b, device_decode (base64_encode b) = Some b) ->
  exists files1 w1 ek_data seed, main (Keygen ek dk) files w = Ok tt files1 w1 /\
    holds files1 ek ek_data /\ holds files1 dk seed /\
  forall peer v, holds peer ek' ek_data ->
  exists peer1 v1 ct_data, main (Encaps ek' ct psk) peer v = Ok tt peer1 v1 /\ holds peer1 ct ct_data /\
  forall files2 w2, holds files2 dk seed -> holds files2 ct' ct_data ->
  exists files3 w3 text secret, main (Decaps dk ct' psk') files2 w2 = Ok tt files3 w3 /\
    files3 !! psk' = Some text /\ peer1 !! psk = Some text /\ length secret = 32%nat /\
    from_str (S:=unit) device_decode text tt w3 = Ok secret tt w3.
Proof.
  intros Hed Hcp Hb. cbn [main] in *. destruct (keygen_eq ek dk files w) as (f1 & x1 & E & seed & Ls & Fs & Ef).
  exists f1, x1, (mlkem_generate (rng (draws w))).2, seed. set (e := rng (draws w)) in *. split_and!; [done| | |].
  { exists (base64_encode (mlkem_generate e).2). split; [by rewrite Ef, lookup_insert_ne, lookup_insert_eq|apply padded_self]. }
  { exists (base64_encode seed). split; [by rewrite Ef, lookup_insert_eq|apply padded_self]. }
  intros peer v Hek. destruct (encaps_eq ek' ct psk e peer v Hek) as (p1 & v1 & -> & Ep).
  set (e' := rng (draws v)) in *. exists p1, v1, (mlkem_encapsulate (mlkem_generate e).2 e').1.
  split_and!; [done| |].
  { eexists. split; [by rewrite Ep, lookup_insert_ne, lookup_insert_eq|apply padded_self]. }
  intros f2 w2 Hdk Hct. destruct (decaps_eq dk ct' psk' e e' seed f2 w2 Ls Fs Hdk Hct) as (f3 & w3 & -> & E3).
  set (ss := (mlkem_encapsulate (mlkem_generate e).2 e').2) in *.
  assert (Lss : length ss = 32%nat) by apply length_mlkem_ss.
  exists f3, w3, (base64_encode ss), ss. split_and!; [done|by rewrite E3, lookup_insert_eq|by rewrite Ep, lookup_insert_eq|done|].
  unfold from_str. rewrite length_base64_encode, Lss. change ((32 + 2) / 3 * 4)%nat with 44%nat. cbn [Nat.eqb orb].
  by rewrite Hb, Lss.
Qed.
End Working.

End Tool.

(** ** A concrete exchange *)

Module Example.

Import Base64.Rfc4648.
#[local] Existing Instances Toy.crypto Toy.laws codec codec_laws.
#[local] Instance seeds : MlKemSeed := {| to_seed := fun dk => Some (dk ++ zeros 32); from_seed := take 32 |}.
#[local] Instance seed_laws : MlKemSeedLaws.
Proof.
  constructor. intros e. eexists. split_and!; [done|..]; cbn -[fill_bytes zeros].
  - len.
  - apply take_app_length'. len.
Qed.
#[local] Instance disk : Disk := {| writable := fun _ => true |}.
#[local] Instance env : Env := {| clock := fun _ => 0; system_time := fun _ => 0;
  rng := fun n k => byte.of_Z (Z.of_nat (7 * n + k)) |}.

Definition w0 : World := mkWorld 0 0 0 0.

(** Two hosts; the files that are sent end in a newline. *)
Lemma psk_agreement_witness : exists ek_data seed ct_data files1 files2 files3 peer1 w1 w2 w3 v1 text,
  main (Keygen (str "ek") (str "dk")) ∅ w0 = Ok tt files1 w1 /\ holds files1 (str "dk") seed /\
  main (Encaps (str "ek") (str "ct") (str "psk")) {[str "ek" := encode ek_data ++ newline]} w0 = Ok tt peer1 v1 /\
  holds peer1 (str "ct") ct_data /\
  main (Decaps (str "dk") (str "ct") (str "psk")) files2 w2 = Ok tt files3 w3 /\
  files3 !! str "psk" = Some text /\ peer1 !! str "psk" = Some text.
Proof.
  assert (Hp : forall b, padded (encode b) (encode b ++ newline)).
  { intros b. exists [], [newline]. split_and!; [constructor|repeat constructor; by do 1 right; left|]. done. }
  assert (Hd : forall n, writable n = true) by done.
  destruct (psk_agreement Hd (str "ek") (str "dk") (str "ek") (str "ct") (str "psk") (str "ct")
    (str "psk") ∅ w0 decode ltac:(discriminate) ltac:(discriminate) decode_encode)
    as (files1 & w1 & ek_data & seed & K & _ & Hdk & R).
  destruct (R {[str "ek" := encode ek_data ++ newline]} w0) as (peer1 & v1 & ct_data & E & Hct & R').
  { eexists. split; [by rewrite lookup_singleton_eq|apply Hp]. }
  destruct (R' (<[str "ct" := encode ct_data ++ newline]> files1) w1) as (files3 & w3 & text & ? & D & T1 & T2 & _).
  { destruct Hdk as (t & Et & ?). exists t. split; [by rewrite lookup_insert_ne|done]. }
  { eexists. split; [by rewrite lookup_insert_eq|apply Hp]. }
  by eexists ek_data, seed, ct_data, files1, _, files3, peer1, w1, w1, w3, v1, text.
Defined.
End Example.
